(* ===== verification/_CoqProject ===== *)
-Q . S2P
Prelude.v
Sustains.v
TestKit.v
Invoice.v
Storage.v
StorageTests.v
MockInvoices.v
InMemory.v
Text.v
Bincode.v
F64.v
InvoiceText.v
F64Text.v
InvoiceIdApi.v
Callbacks.v
CallbackRetries.v
Sled.v
SledLaws.v
SledDemo.v
Sqlite.v
SqliteLaws.v
SqliteTables.v
SqliteTransactions.v
SqliteDemo.v
Monerod.v
Demo.v
BlockCache.v
TxpoolCache.v
SubaddressCache.v
InvoiceTests.v
Pubsub.v
Scanner.v
ScannerUpdate.v
ScannerOutputs.v
ScannerDemo.v
ScannerInvariant.v
ScannerDelivers.v
ScannerFinds.v
ScannerChain.v
ScannerReturns.v
PaymentGateway.v
CustomStorage.v
StoreRuns.v
GatewayLifecycle.v
GatewayInvariant.v
StartSubscriptions.v
Restarts.v
InvariantDemo.v
ScannerChainDemo.v
Shops.v
Exhaustion.v
Examples.v
DigestAuth.v
DigestParser.v
DigestSession.v
Crates.v
AuthTests.v
Rpc.v
RpcRequest.v
RpcAnswers.v
RpcDemo.v
MockDaemon.v
Server.v
ApiTests.v
Websocket.v
ServerSpec.v
Monitor.v
ServerAccess.v
ServerDemo.v
ApiRuns.v
MonitorDemo.v
Delivery.v
ServerConfig.v
ConfigTests.v
ServerConfigSpec.v
ServerConfigDemo.v
Startup.v
StartupDemo.v
Serving.v
ServingDemo.v
