(* ===== verification/Prelude.v ===== *)
(** * AcceptXMR: a verification development

    AcceptXMR is a library that lets a shop accept Monero: a payment gateway
    hands out a fresh subaddress per invoice, scans blocks and the txpool of a
    daemon for outputs to these subaddresses, keeps the invoices up to date in
    a store and publishes what changed to subscribers
    ([src/library/src/]).  A server puts an HTTP API, callbacks and a
    configuration around the gateway ([src/server/src/]).  This development
    translates both into Rocq, file by file, and proves what they do right
    and, where they do not, what exactly they do.

    ** The parts and how they interact

    [PaymentGateway] owns the daemon client, the store, the publisher and the
    cache of unused subaddresses.  [run] starts a scanning task; each of its
    iterations obeys a command or lets the [Scanner] make one pass: update the
    [BlockCache] and the [TxpoolCache] from the daemon client, look for outputs
    to tracked subaddresses in what is new, recompute the invoices, write those
    that changed to the store through its client, and publish them through the
    [Publisher].  The store is one of three (in memory, sled, SQLite) behind
    the storage traits; the daemon client is the RPC client, which
    authenticates by [DigestAuth].  The server's handlers call the gateway; its
    monitor subscribes to all updates, removes outdated invoices and puts
    callbacks into the callback queue.

    ** How code becomes definitions

    - A function [f] of the type [T] of the source is the definition [T_f];
      a method of a trait is a field of a type class, an implementation is an
      instance, and theorems about the callers are proved against the laws of
      the class.  The instances discharge the laws.
    - Stateful code is [M S E A], a state monad over an [outcome]: [Ok] and
      [Err] are the variants of Rust's [Result], [Panic] is a panic, and [Hang]
      is a future that nothing wakes up.  Assertions about runs are
      weakest-precondition predicates, and [wp_step] and [wp_go] go
      through a body by the laws in the hint databases.
    - [u64] and [u32] are [Z] with the ranges [in_u64] and [in_u32].  What
      an overflow does depends on the profile of the build, which is the class
      [Build]: arithmetic panics with overflow checks and wraps without.
    - A [HashMap] is a [gmap], and the order of its iteration is the class
      [HashOrder], which is any order at all.  A [BTreeMap] is a
      [gmap] read in the ascending order of its keys, and an [IndexMap] is an
      association list.
    - [f64] is IEEE binary64 as the Standard Library specifies it.
    - Text is the list of its bytes ([Text]), or a [string] where the code only
      passes it on.
    - External crates are parameters: a class with the functions that the
      source calls ([Monero], [SledCrate], [SqliteCrate], [BincodeCrate],
      [AuthCrates], [RpcCrates], [Base64Crate], [RngCore], [ServerCrates],
      [WebCrates], [WebSocketCrate], [ConfigCrates], [GatewayCrates],
      [FileSystem], [TlsCrates], [Sockets], [ShopCrates]) and, where a theorem
      needs it, one with their documented behaviour as laws ([Lawful...], and
      [ServesChain], [WalletFinds], [ReliableStorage], [DurableStorage] and the
      like for what holds only of some daemons, wallets or stores).  The
      files whose names end in [Demo], and some more, give concrete instances
      that satisfy the laws, and apply the properties to concrete inputs.
    - A unit test of the repository is a computation over the value that it
      works on, with the assertions of [TestKit]; it passes if it does not
      panic.

    ** The files

    Shared:
    - [Prelude]: outcomes, the monad, machine arithmetic, maps with an order,
      comparisons, sorting, tactics and hint databases.
    - [Sustains]: invariants that a computation keeps however it ends.
    - [Text], [Bincode], [F64], [F64Text]: bytes and [&str], encodings and
      typed tables of encoded entries, binary64 and [Duration], and how an
      [f64] is printed.
    - [TestKit], [Crates]: the assertions of unit tests; crates that some of
      them need, with functions that compute what the crates compute.

    Library, [src/library/src/]:
    - [Invoice], [InvoiceText] ([invoice.rs]): the data model; its comparisons,
      conversions and payment status; the payment URI and the other texts.
    - [InvoiceTests] (the tests in [invoice.rs]).
    - [Storage] ([storage/mod.rs] and its three traits): the traits, the
      manager task, its client, and the promises of the traits.
    - [StorageTests], [StoreRuns] (the tests in [storage/]): the unit tests of
      the traits over any store that keeps the promises, and over the stores.
    - [InMemory] ([storage/stores/in_memory.rs]).
    - [Sled], [SledLaws], [SledDemo] ([storage/stores/sled.rs]): the store on
      trees of encoded keys, and its refinement of finite maps.
    - [Sqlite], [SqliteLaws], [SqliteTables], [SqliteTransactions],
      [SqliteDemo] ([storage/stores/sqlite.rs]): the statements by their text,
      single statements as operations on finite maps, and the transactions.
    - [Monerod], [Demo] (the trait of [monerod_client/mod.rs]): what a daemon
      client promises, and a small chain.
    - [DigestAuth], [DigestParser], [DigestSession], [AuthTests]
      ([monerod_client/authentication.rs]).
    - [Rpc], [RpcRequest], [RpcAnswers], [RpcDemo] ([monerod_client/mod.rs]):
      the client over HTTP, the loop of its requests, and its answers.
    - [BlockCache], [TxpoolCache], [SubaddressCache] ([caching/]).
    - [Pubsub] ([pubsub.rs]): channels in a heap, publisher and subscribers.
    - [Scanner], [ScannerUpdate], [ScannerOutputs], [ScannerInvariant],
      [ScannerDemo] ([scanner.rs]): one pass; what it does to an invoice; which
      outputs it counts; what it keeps, however it ends; concrete runs.
    - [ScannerFinds], [ScannerChain], [ScannerReturns], [ScannerChainDemo]
      ([scanner.rs] over [caching/] and the storage traits): whole passes
      against a chain, a txpool and a wallet; that they succeed and catch up.
    - [ScannerDelivers] ([scanner.rs] and [pubsub.rs]): what subscribers learn
      from a pass.
    - [PaymentGateway], [GatewayLifecycle], [GatewayInvariant],
      [StartSubscriptions], [Restarts], [InvariantDemo] ([payment_gateway.rs]):
      the gateway and its builder; starting, asking for the status and
      stopping; the invariant of every sequence of calls and scans; what a
      start does to subscriptions; several lives on one store.
    - [Exhaustion] ([payment_gateway.rs], [caching/subaddress_cache.rs]): the
      first invoice of a gateway whose store has taken all its subaddresses.
    - [CustomStorage], [Shops], [Examples] ([library/examples/]): a store of
      one's own, what two example shops do with the library, and the main
      functions.

    Testing utilities, [src/testing-utils/src/]:
    - [MockInvoices] ([invoice.rs]), [MockDaemon] ([daemon.rs]): the invoices
      that tests expect; the mock daemon and its canned answers.  The
      temporary directories of [lib.rs] are in [StoreRuns].

    Server, [src/server/src/]:
    - [InvoiceIdApi] ([server/api/types/invoice_id.rs]).
    - [Callbacks], [CallbackRetries] ([callbacks.rs], [server/api/mod.rs]):
      the queue as a step relation, and what becomes of its calls.
    - [Server], [ServerSpec], [ServerAccess], [ServerDemo]
      ([server/api/internal.rs], [server/api/external.rs], [server/auth.rs],
      [server/mod.rs], [lib.rs]): handlers, routers, token and monitor; who
      can change what.
    - [Monitor], [MonitorDemo] ([lib.rs]): the monitor behind the scanning task.
    - [Websocket] ([server/api/external.rs]): the task behind a websocket.
    - [Delivery]: scanner, monitor and websocket put together, from a stored
      update to the client of a websocket.
    - [ApiTests], [ApiRuns]: the tests in [server/api/] and those of the
      builder.
    - [ServerConfig], [ServerConfigSpec], [ConfigTests], [ServerConfigDemo]
      ([config/], [lib.rs]): loading, validating and using the configuration.
    - [Startup], [StartupDemo] ([server/tls.rs], [server/mod.rs], [lib.rs]):
      certificates, sockets and the order of starting.
    - [Serving], [ServingDemo] ([server/mod.rs], [lib.rs]): the running
      program as a step relation: connections, requests, ends of servers.

    ** What the theorems show

    - Payments.  A pass that succeeds leaves of every stored invoice what an
      abstract specification computes from the wallet, the chain and the txpool
      alone ([Scanner_scan_follows_chain], for a scanner that goes on, reorgs
      included, and [Scanner_first_scan_follows_chain] for a new one), and if
      nothing fails, passes succeed and catch up with the chain
      ([Scanner_scans_catch_up]).  An output counts only if its transaction is
      unlocked, its key is new and its subaddress is tracked
      ([scan_transactions_spec]).  However a pass ends, it adds, removes and
      redefines no invoice ([Scanner_scan_keeps_terms]).  Two runs show
      payments that are counted twice after a restart, and lost after a failed
      scan; they are outside the hypotheses of the first theorems.
    - Caches.  The block cache always holds consecutive blocks of a chain and,
      as long as the daemon serves one chain, becomes a piece of that chain
      and catches up with its tip; the txpool cache mirrors the txpool; the
      subaddress cache never hands out an index twice, except for the ones
      that it misses when it is filled.
    - Publication.  An update reaches the senders of its invoice and the global
      ones, apart from the live ones that a stale flag removes; the invariant
      of the publisher; a pass publishes exactly what it stores, in that order,
      unless the full channel of a subscriber blocks it
      ([Scanner_scan_delivers]); behind it the monitor of the server calls back
      for every change ([updates_reach_callbacks]), and the client of a
      websocket receives the updates of its invoice in order, the last of which
      is what is stored ([updates_reach_clients]).  Starting the scanner ends
      the subscriptions to stored invoices
      ([PaymentGateway_run_ends_subscriptions]).
    - Gateway.  Creating and removing invoices on every path, the life cycle
      [run], [status], [stop], the deadlock of [status] on a dead task, and two
      interleaved calls of [run] that start two tasks.  Through every sequence
      of calls and passes, and over all lives of a gateway on a durable store,
      no two stored invoices share a subaddress, and none of theirs is on offer
      ([PaymentGateway_restarts]).  The first invoice of a new gateway panics
      exactly if the store has taken all the subaddresses that it starts with
      ([PaymentGateway_first_invoice]).
    - Daemon.  The RPC client over a truthful daemon satisfies the laws that
      the caches ask for; its requests end when the daemon stops asking for
      authentication and only then; challenges are read back as written; the
      answer to a response is that of RFC 2617 with counted nonces.
    - Stores.  All three refine finite maps; the in-memory store departs from
      the trait in [contains_sub_index] and the SQLite store in a transaction
      that [update] leaves open.
    - Server.  Without the token nothing changes, and invoices only appear and
      disappear by a POST and a DELETE to the internal API; the client of a
      websocket sees the updates up to the closing frame.  A created invoice
      has a callback that can be called and nothing changes on an error; the monitor removes confirmed and expired invoices
      only; callbacks are kept until they succeed, without the promised limit;
      ids and amounts survive their texts; the configuration's timeouts do not
      reach the gateway.
    - Start-up.  Existing certificates are never touched ([prepare_tls_spec]);
      once the program runs, each server serves on the addresses, with the
      encryption and the token of its configuration ([entrypoint_spec]), and
      whatever happens to it, a request to an API with a token came through an
      encrypted connection and does nothing without the token
      ([program_access]); an error while accepting ends a server
      ([accept_failure_is_final]).
    - Examples.  The store of [custom_storage] keeps the promises of the traits;
      the monitors of the two shops panic in their first round; [persistence]
      finds its invoice after the power failure ([persistence_main_spec]).
    - Tests.  The unit tests of the repository pass on the model with the
      values they expect: those of the storage traits over every store that
      keeps the promises ([storage_tests_pass]), those of the API and the
      builder ([api_tests_pass]), and those of texts, digests and the
      configuration.  Whatever a test sets, the mock daemon has one answer to
      each canned request ([mock_daemon_serves]).

    ** Bounds and fuel

    A loop without a structural measure has fuel, and each is shown to be
    enough: [send_fuel] is one more than the number of senders, and each
    round removes or passes one; [generate_range] gets one round per index of its range;
    [remove_random_loop] gets a single round, since the first try is in bounds; the rounds of [authenticate_loop] are bounded in
    [RpcClient_request_returns] by the number of times the daemon asks, and
    running out of them at every fuel is how a request that never returns is
    stated; the loops over rows of statements that have no rows get one round
    ([step_fuel]); [trim_start_str] gets the length of its text;
    [websocket_loop] is run with more rounds than there are updates waiting.

    ** Scheduling

    Calls of the gateway run to their end one after the other, the two futures
    of a [join!] in their written order, and the manager of the store handles
    one request at a time, which is the order in which its channel delivers
    them.  The order matters in four places, and is explicit there: the parts
    of two calls of [run] are interleaved, the channels of subscribers live in
    a heap that both ends see, the tasks of the callback queue take their
    steps in any order, and so come the connections and requests of the
    running program.

    ** Not modelled

    - Time: the scan interval, the pauses between retries of the scanner, and
      timeouts, which only appear as failures.
    - Logging and the printing of errors.  Printing an [f64] is a parameter
      of the library's texts, which [F64Text] gives a value.
    - Inside sockets, TLS, HTTP and files, and how the web framework matches
      routes and extracts parameters: parameters, as are templates and static
      files.  The API documentation, which is generated.
    - The command line and the logger of the server, and of the example
      programs the set-up of their web framework.
    - Errors on which SQLite itself rolls a transaction back.
    - Threads that are preempted within a call: see Scheduling.

    What is left of the implementation are imports, declarations for these
    libraries, and constructors that only pass their arguments on. *)
From stdpp Require Export prelude gmap strings list fin_maps sorting pretty.
From Stdlib Require Export ZArith Lia.
#[global] Open Scope Z_scope.

(** * Results of running a piece of Rust code *)

(** What a call of a (possibly [async]) Rust function can end in.  [Ok]
    and [Err] are the two variants of [Result]; [Panic] is an unwinding
    panic; [Hang] is a future that is never woken up again. *)
Inductive outcome (E A : Type) : Type :=
  | Ok (a : A)
  | Err (e : E)
  | Panic
  | Hang.
Arguments Ok {E A} a.
Arguments Err {E A} e.
Arguments Panic {E A}.
Arguments Hang {E A}.

#[export] Instance outcome_eq_dec {E A} `{EqDecision E, EqDecision A} :
  EqDecision (outcome E A).
Proof. solve_decision. Defined.

(** A stateful, fallible computation.  As with [&mut self] in Rust, the
    state reached before an error or a panic is kept. *)
Definition M (S E A : Type) : Type := S → S * outcome E A.

Definition ret {S E A} (a : A) : M S E A := λ s, (s, Ok a).
Definition throw {S E A} (e : E) : M S E A := λ s, (s, Err e).
Definition panic {S E A} : M S E A := λ s, (s, Panic).
Definition hang {S E A} : M S E A := λ s, (s, Hang).
Definition modify {S E} (f : S → S) : M S E unit := λ s, (f s, Ok tt).
Definition gets {S E A} (f : S → A) : M S E A := λ s, (s, Ok (f s)).

Definition bind {S E A B} (m : M S E A) (k : A → M S E B) : M S E B :=
  λ s, match m s with
       | (s', Ok a) => k a s'
       | (s', Err e) => (s', Err e)
       | (s', Panic) => (s', Panic)
       | (s', Hang) => (s', Hang)
       end.

(** [e.map_err(f)?]: an error of the callee becomes the caller's. *)
Definition map_err {S E E' A} (f : E → E') (m : M S E A) : M S E' A :=
  λ s, match m s with
       | (s', Ok a) => (s', Ok a)
       | (s', Err e) => (s', Err (f e))
       | (s', Panic) => (s', Panic)
       | (s', Hang) => (s', Hang)
       end.

(** Run a computation on a component of the state. *)
Definition zoom {S T E A} (prj : S → T) (upd : T → S → S) (m : M T E A) : M S E A :=
  λ s, let '(t, r) := m (prj s) in (upd t s, r).

(** Inspect the [Result] of a call instead of propagating it with [?]. *)
Definition try_ {S E E' A} (m : M S E A) : M S E' (A + E) :=
  λ s, match m s with
       | (s', Ok a) => (s', Ok (inl a))
       | (s', Err e) => (s', Ok (inr e))
       | (s', Panic) => (s', Panic)
       | (s', Hang) => (s', Hang)
       end.

(** A pure [Result] used as a computation. *)
Definition lift {S E A} (r : outcome E A) : M S E A := λ s, (s, r).

Declare Scope gw_scope.
Delimit Scope gw_scope with gw.
Notation "'let!' x ':=' m 'in' k" := (bind m (λ x, k))
  (at level 10, x pattern, m at level 100, k at level 200,
   format "'[v' 'let!'  x  ':='  m  'in' '/' k ']'") : gw_scope.
Notation "m ;;; k" := (bind m (λ _ : unit, k))
  (at level 199, right associativity) : gw_scope.
#[global] Open Scope gw_scope.

(** The [for] loop of a fallible body. *)
Fixpoint for_each {S E A} (l : list A) (body : A → M S E unit) : M S E unit :=
  match l with
  | [] => ret tt
  | a :: l => body a ;;; for_each l body
  end.

(** The [for] loop that threads an accumulator. *)
Fixpoint fold_each {S E A B} (l : list A) (acc : B) (body : B → A → M S E B) : M S E B :=
  match l with
  | [] => ret acc
  | a :: l => let! acc := body acc a in fold_each l acc body
  end.

(** ** Reasoning about computations *)

(** [wp m Q s]: running [m] from [s] ends in a state and an outcome that
    satisfy [Q]. *)
Definition wp {S E A} (m : M S E A) (Q : S → outcome E A → Prop) (s : S) : Prop :=
  Q (m s).1 (m s).2.

Section wp.
Context {S E : Type}.

Lemma wp_ret {A} (a : A) (Q : S → outcome E A → Prop) s : Q s (Ok a) → wp (ret a) Q s.
Proof. done. Qed.

Lemma wp_throw {A} (e : E) (Q : S → outcome E A → Prop) s : Q s (Err e) → wp (throw e) Q s.
Proof. done. Qed.

Lemma wp_gets {A} (f : S → A) (Q : S → outcome E A → Prop) s :
  Q s (Ok (f s)) → wp (gets f) Q s.
Proof. done. Qed.

Lemma wp_modify (f : S → S) (Q : S → outcome E unit → Prop) s :
  Q (f s) (Ok tt) → wp (modify f) Q s.
Proof. done. Qed.

Lemma wp_mono {A} (m : M S E A) (P Q : S → outcome E A → Prop) s :
  wp m P s → (∀ s' r, P s' r → Q s' r) → wp m Q s.
Proof. unfold wp. auto. Qed.

Lemma wp_bind {A B} (m : M S E A) (k : A → M S E B) (Q : S → outcome E B → Prop) s :
  wp m (λ s' r, match r with
                | Ok a => wp (k a) Q s'
                | Err e => Q s' (Err e)
                | Panic => Q s' Panic
                | Hang => Q s' Hang
                end) s →
  wp (bind m k) Q s.
Proof. unfold wp, bind. destruct (m s) as [s' [a|e| |]]; done. Qed.

Lemma wp_map_err {E' A} (f : E → E') (m : M S E A) (Q : S → outcome E' A → Prop) s :
  wp m (λ s' r, match r with
                | Ok a => Q s' (Ok a)
                | Err e => Q s' (Err (f e))
                | Panic => Q s' Panic
                | Hang => Q s' Hang
                end) s →
  wp (map_err f m) Q s.
Proof. unfold wp, map_err. destruct (m s) as [s' [a|e| |]]; done. Qed.

(** Invariant rule of [for_each]: [I] holds of the state and of what is
    left to do. *)
Lemma wp_for_each {A} (l : list A) (body : A → M S E unit) (I : list A → S → Prop)
    (Q : S → outcome E unit → Prop) s :
  I l s →
  (∀ s, I [] s → Q s (Ok tt)) →
  (∀ a l s, I (a :: l) s →
     wp (body a) (λ s' r, match r with Ok tt => I l s' | _ => Q s' r end) s) →
  wp (for_each l body) Q s.
Proof.
  intros HI Hdone Hstep. revert s HI.
  induction l as [|a l IH]; intros s HI; [by apply wp_ret, Hdone|].
  apply wp_bind. eapply wp_mono; [by apply Hstep|].
  intros s' [[]|e| |] H; auto.
Qed.

(** The same for [fold_each]. *)
Lemma wp_fold_each {A B} (l : list A) (acc : B) (body : B → A → M S E B)
    (I : list A → B → S → Prop) (Q : S → outcome E B → Prop) s :
  I l acc s →
  (∀ acc s, I [] acc s → Q s (Ok acc)) →
  (∀ a l acc s, I (a :: l) acc s →
     wp (body acc a) (λ s' r, match r with
                              | Ok acc' => I l acc' s'
                              | Err e => Q s' (Err e)
                              | Panic => Q s' Panic
                              | Hang => Q s' Hang
                              end) s) →
  wp (fold_each l acc body) Q s.
Proof.
  intros HI Hdone Hstep. revert acc s HI.
  induction l as [|a l IH]; intros acc s HI; [by apply wp_ret, Hdone|].
  apply wp_bind. eapply wp_mono; [by apply Hstep|].
  intros s' [acc'|e| |] H; auto.
Qed.
End wp.

Lemma wp_zoom {S T E A} (prj : S → T) (upd : T → S → S) (m : M T E A)
    (Q : S → outcome E A → Prop) s :
  wp m (λ t r, Q (upd t s) r) (prj s) → wp (zoom prj upd m) Q s.
Proof. unfold wp, zoom. by destruct (m (prj s)). Qed.

Lemma wp_try {S E E' A} (m : M S E A) (Q : S → outcome E' (A + E) → Prop) s :
  wp m (λ s' r, match r with
                | Ok a => Q s' (Ok (inl a))
                | Err e => Q s' (Ok (inr e))
                | Panic => Q s' Panic
                | Hang => Q s' Hang
                end) s →
  wp (try_ m) Q s.
Proof. unfold wp, try_. destruct (m s) as [s' [a|e| |]]; done. Qed.

(** One step of symbolic execution, and as many as apply. *)
Ltac wp_step :=
  lazymatch goal with
  | |- wp (bind _ _) _ _ => apply wp_bind
  | |- wp (ret _) _ _ => apply wp_ret
  | |- wp (throw _) _ _ => apply wp_throw
  | |- wp (gets _) _ _ => apply wp_gets
  | |- wp (modify _) _ _ => apply wp_modify
  | |- wp (map_err _ _) _ _ => apply wp_map_err
  | |- wp (zoom _ _ _) _ _ => apply wp_zoom
  | |- wp (try_ _) _ _ => apply wp_try
  | |- wp (lift ?r) _ _ => unfold lift, wp; simpl
  | |- wp (match ?x with _ => _ end) _ _ => destruct x eqn:?
  end.
Ltac wp_go := repeat (wp_step; simpl); simpl.

(** * Machine integers *)

(** Whether the crate is built with overflow checks (the [dev] profile of
    Cargo) or not (its [release] profile): an overflowing [+] or [-]
    panics in the first and wraps around in the second. *)
Class Build := { overflow_checks : bool }.

Definition u32_max : Z := 2 ^ 32 - 1.
Definition u64_max : Z := 2 ^ 64 - 1.
Definition in_u32 (x : Z) : Prop := 0 ≤ x ≤ u32_max.
Definition in_u64 (x : Z) : Prop := 0 ≤ x ≤ u64_max.

#[export] Instance in_u32_dec x : Decision (in_u32 x).
Proof. unfold in_u32. apply _. Defined.
#[export] Instance in_u64_dec x : Decision (in_u64 x).
Proof. unfold in_u64. apply _. Defined.

Definition wrap_u64 (x : Z) : Z := x mod 2 ^ 64.

(** The result of a [u64] operation whose exact value is [x]. *)
Definition u64_checked `{Build} {S E} (x : Z) : M S E Z :=
  if decide (in_u64 x) then ret x
  else if overflow_checks then panic else ret (wrap_u64 x).

Definition u64_add `{Build} {S E} (x y : Z) : M S E Z := u64_checked (x + y).
Definition u64_sub `{Build} {S E} (x y : Z) : M S E Z := u64_checked (x - y).

(** [u64::saturating_sub] and [u32::checked_add]. *)
Definition saturating_sub (x y : Z) : Z := Z.max 0 (x - y).
Definition saturating_add_u32 (x y : Z) : Z := Z.min u32_max (x + y).
Definition checked_add_u32 (x y : Z) : option Z :=
  if decide (x + y ≤ u32_max) then Some (x + y) else None.

Lemma u64_checked_in `{Build} {S E} x : in_u64 x → u64_checked (S:=S) (E:=E) x = ret x.
Proof. intros. unfold u64_checked. by rewrite decide_True. Qed.

Lemma wp_u64_add `{Build} {S E} x y (Q : S → outcome E Z → Prop) s :
  in_u64 (x + y) → Q s (Ok (x + y)) → wp (u64_add x y) Q s.
Proof. intros. unfold u64_add. rewrite u64_checked_in by done. by apply wp_ret. Qed.

Lemma wp_u64_sub `{Build} {S E} x y (Q : S → outcome E Z → Prop) s :
  in_u64 (x - y) → Q s (Ok (x - y)) → wp (u64_sub x y) Q s.
Proof. intros. unfold u64_sub. rewrite u64_checked_in by done. by apply wp_ret. Qed.

(** ** Big-endian bytes *)

(** [x.to_be_bytes()] of an [n]-byte integer, and [from_be_bytes]. *)
Fixpoint le_bytes (n : nat) (x : Z) : list Z :=
  match n with
  | O => []
  | S n => x mod 256 :: le_bytes n (x / 256)
  end.
Definition to_be_bytes (n : nat) (x : Z) : list Z := reverse (le_bytes n x).
Definition from_be_bytes (l : list Z) : Z := foldl (λ acc b, acc * 256 + b) 0 l.

Definition is_byte (b : Z) : Prop := 0 ≤ b < 256.

Lemma length_le_bytes n x : length (le_bytes n x) = n.
Proof. revert x. induction n; intros; simpl; auto. Qed.

Lemma length_to_be_bytes n x : length (to_be_bytes n x) = n.
Proof. unfold to_be_bytes. by rewrite length_reverse, length_le_bytes. Qed.

Lemma le_bytes_are_bytes n x : Forall is_byte (le_bytes n x).
Proof.
  revert x. induction n; intros x; simpl; constructor; auto.
  unfold is_byte. apply Z.mod_pos_bound. lia.
Qed.

Lemma to_be_bytes_are_bytes n x : Forall is_byte (to_be_bytes n x).
Proof. apply Forall_reverse, le_bytes_are_bytes. Qed.

Lemma from_be_bytes_app l k :
  from_be_bytes (l ++ k) = from_be_bytes l * 256 ^ Z.of_nat (length k) + from_be_bytes k.
Proof.
  unfold from_be_bytes. rewrite foldl_app. generalize (foldl (λ acc b, acc * 256 + b) 0 l).
  induction k as [|b k IH] using rev_ind; intros z; [simpl; lia|].
  rewrite !foldl_app, length_app, Nat.add_1_r, Nat2Z.inj_succ,
    (Z.pow_succ_r _ (Z.of_nat (length k))) by lia.
  cbn [foldl]. rewrite IH. ring.
Qed.

Lemma from_to_be_bytes n x : 0 ≤ x < 256 ^ Z.of_nat n → from_be_bytes (to_be_bytes n x) = x.
Proof.
  unfold to_be_bytes. revert x. induction n as [|n IH]; intros x Hx; simpl.
  { simpl in Hx. cbn. lia. }
  rewrite Nat2Z.inj_succ, Z.pow_succ_r in Hx by lia.
  rewrite reverse_cons, from_be_bytes_app. simpl. rewrite IH.
  - cbn. pose proof (Z.div_mod x 256). lia.
  - split; [apply Z.div_pos; lia|apply Z.div_lt_upper_bound; lia].
Qed.

Lemma from_be_bytes_bound l :
  Forall is_byte l → 0 ≤ from_be_bytes l < 256 ^ Z.of_nat (length l).
Proof.
  induction l as [|b l IH] using rev_ind; intros Hl; [cbn; lia|].
  apply Forall_app in Hl as [Hl Hb]. rewrite Forall_singleton in Hb. specialize (IH Hl).
  rewrite from_be_bytes_app, length_app, Nat.add_1_r, Nat2Z.inj_succ,
    (Z.pow_succ_r _ (Z.of_nat (length l))) by lia.
  unfold is_byte in Hb. change (length [b]) with 1%nat.
  change (from_be_bytes [b]) with b. change (256 ^ Z.of_nat 1) with 256. lia.
Qed.

Lemma to_from_be_bytes n l :
  length l = n → Forall is_byte l → to_be_bytes n (from_be_bytes l) = l.
Proof.
  unfold to_be_bytes. revert l. induction n as [|n IH]; intros l Hn Hl.
  { by destruct l. }
  induction l as [|b l _] using rev_ind; [done|].
  apply Forall_app in Hl as [Hl Hb]. rewrite Forall_singleton in Hb. unfold is_byte in Hb.
  rewrite length_app in Hn. simpl in *.
  rewrite from_be_bytes_app. simpl length. change (256 ^ Z.of_nat 1) with 256.
  change (from_be_bytes [b]) with b.
  rewrite Z.add_comm, Z.mod_add, Z.mod_small, Z.div_add, Z.div_small, Z.add_0_l by lia.
  rewrite reverse_cons, IH; [done|lia|done].
Qed.

(** * Unordered collections of the standard library *)

(** The iteration order of [HashMap] and [HashSet] is unspecified: it is
    an arbitrary permutation of the entries. *)
Class HashOrder := {
  iter_order : ∀ {A : Type}, list A → list A;
  iter_order_perm : ∀ {A} (l : list A), iter_order l ≡ₚ l;
}.

Definition hash_iter `{HashOrder} `{Countable K} {A} (m : gmap K A) : list (K * A) :=
  iter_order (map_to_list m).

Lemma elem_of_hash_iter `{HashOrder} `{Countable K} {A} (m : gmap K A) k x :
  (k, x) ∈ hash_iter m ↔ m !! k = Some x.
Proof. unfold hash_iter. by rewrite iter_order_perm, elem_of_map_to_list. Qed.

(** * Ordering *)

(** A three-way comparison that is a total order, as Rust's [Ord] asks. *)
Class LawfulOrd {A} (cmp : A → A → comparison) : Prop := {
  ord_eq : ∀ x y, cmp x y = Eq ↔ x = y;
  ord_antisym : ∀ x y, cmp y x = CompOpp (cmp x y);
  ord_trans : ∀ x y z, cmp x y = Lt → cmp y z = Lt → cmp x z = Lt;
}.

(** Lexicographic comparison: the shape of every [Ord] of the crate. *)
Definition cmp_then (c d : comparison) : comparison :=
  match c with Eq => d | Gt => Gt | Lt => Lt end.

Lemma Z_compare_lawful : LawfulOrd Z.compare.
Proof.
  split.
  - apply Z.compare_eq_iff.
  - intros. apply Z.compare_antisym.
  - intros x y z. rewrite !Z.compare_lt_iff. lia.
Qed.

Lemma cmp_then_lawful {A B C} (f : A → B) (g : A → C)
    (cb : B → B → comparison) (cc : C → C → comparison) :
  LawfulOrd cb → LawfulOrd cc → (∀ x y, f x = f y → g x = g y → x = y) →
  LawfulOrd (λ x y, cmp_then (cb (f x) (f y)) (cc (g x) (g y))).
Proof.
  intros Hb Hc Hinj. split.
  - intros x y. split; [|intros ->].
    + destruct (cb (f x) (f y)) eqn:E; try done. simpl. intros E'.
      apply Hinj; [by apply (ord_eq (cmp:=cb))|by apply (ord_eq (cmp:=cc))].
    + rewrite (proj2 (ord_eq (cmp:=cb) (f y) (f y)) eq_refl). simpl.
      by apply (ord_eq (cmp:=cc)).
  - intros x y. rewrite (ord_antisym (cmp:=cb) (f x)), (ord_antisym (cmp:=cc) (g x)).
    by destruct (cb (f x) (f y)).
  - intros x y z.
    destruct (cb (f x) (f y)) eqn:E1, (cb (f y) (f z)) eqn:E2; simpl; try done.
    + apply (ord_eq (cmp:=cb)) in E1 as ->, E2 as ->.
      rewrite (proj2 (ord_eq (cmp:=cb) (f z) (f z)) eq_refl). simpl. apply ord_trans.
    + apply (ord_eq (cmp:=cb)) in E1 as ->. by rewrite E2.
    + apply (ord_eq (cmp:=cb)) in E2 as <-. by rewrite E1.
    + by rewrite (ord_trans (cmp:=cb) _ _ _ E1 E2).
Qed.

(** ** Ordered maps *)

(** The iteration order of a [BTreeMap]: ascending keys. *)
Definition key_le {K A} (cmp : K → K → comparison) (p q : K * A) : Prop := cmp p.1 q.1 ≠ Gt.
#[export] Instance key_le_dec {K A} (cmp : K → K → comparison) (p q : K * A) :
  Decision (key_le cmp p q).
Proof. unfold key_le. apply _. Defined.

Definition btree_iter {K A} `{Countable K} (cmp : K → K → comparison) (m : gmap K A) :
    list (K * A) :=
  merge_sort (key_le cmp) (map_to_list m).

Lemma btree_iter_perm {K A} `{Countable K} cmp (m : gmap K A) :
  btree_iter cmp m ≡ₚ map_to_list m.
Proof. apply merge_sort_Permutation. Qed.

Lemma elem_of_btree_iter {K A} `{Countable K} cmp (m : gmap K A) k x :
  (k, x) ∈ btree_iter cmp m ↔ m !! k = Some x.
Proof. by rewrite btree_iter_perm, elem_of_map_to_list. Qed.

(** * Index maps

    [IndexMap] of the [indexmap] crate: insertion-ordered, keys distinct. *)

Section index_map.
Context {K V : Type} `{EqDecision K}.

(** [IndexMap::insert]: in place for a known key, else at the end. *)
Fixpoint im_insert (k : K) (v : V) (m : list (K * V)) : list (K * V) :=
  match m with
  | [] => [(k, v)]
  | (k', v') :: m => if decide (k' = k) then (k, v) :: m else (k', v') :: im_insert k v m
  end.

(** [IndexMap::shift_remove_index]. *)
Definition im_shift_remove_index (i : nat) (m : list (K * V)) :
    list (K * V) * option (K * V) :=
  (delete i m, m !! i).

(** [IndexMap::swap_remove]: the last entry takes the place of the removed one. *)
Definition im_swap_remove_index (i : nat) (m : list (K * V)) : list (K * V) :=
  match last m with
  | Some l => if decide (S i = length m) then take i m else <[i := l]> (take (length m - 1) m)
  | None => m
  end.
Fixpoint im_index_of (k : K) (m : list (K * V)) : option nat :=
  match m with
  | [] => None
  | (k', _) :: m => if decide (k' = k) then Some 0%nat else S <$> im_index_of k m
  end.
Definition im_swap_remove (k : K) (m : list (K * V)) : list (K * V) :=
  match im_index_of k m with
  | Some i => im_swap_remove_index i m
  | None => m
  end.

(** [IndexMap::from_iter]. *)
Definition im_collect (l : list (K * V)) : list (K * V) :=
  foldl (λ m p, im_insert p.1 p.2 m) [] l.

Lemma im_insert_fresh k v m : k ∉ m.*1 → im_insert k v m = m ++ [(k, v)].
Proof.
  induction m as [|[k' v'] m IH]; [done|]. simpl. rewrite elem_of_cons.
  intros Hk. rewrite decide_False by naive_solver. f_equal. naive_solver.
Qed.

Lemma im_insert_keys k v m x : x ∈ (im_insert k v m).*1 ↔ x = k ∨ x ∈ m.*1.
Proof.
  induction m as [|[k' v'] m IH]; simpl; [set_solver|].
  case_decide; subst; simpl; rewrite !elem_of_cons; [naive_solver|].
  rewrite IH. naive_solver.
Qed.

Lemma im_insert_NoDup k v m : NoDup m.*1 → NoDup (im_insert k v m).*1.
Proof.
  induction m as [|[k' v'] m IH]; simpl; [intros; by apply NoDup_singleton|].
  rewrite NoDup_cons. intros [Hk Hm]. case_decide; subst; simpl; rewrite NoDup_cons; [done|].
  rewrite im_insert_keys. naive_solver.
Qed.

Lemma elem_of_im_insert k v m p :
  p ∈ im_insert k v m → p = (k, v) ∨ p ∈ m.
Proof.
  induction m as [|[k' v'] m IH]; simpl; [set_solver|].
  case_decide; rewrite !elem_of_cons; naive_solver.
Qed.

Lemma im_collect_NoDup l : NoDup l.*1 → im_collect l = l.
Proof.
  unfold im_collect. assert (H : ∀ m, NoDup (m ++ l).*1 →
    foldl (λ m p, im_insert p.1 p.2 m) m l = m ++ l).
  { induction l as [|[k v] l IH]; intros m Hm; simpl; [by rewrite app_nil_r|].
    rewrite im_insert_fresh, IH; rewrite <-?(assoc_L (++)); [done|done|].
    rewrite fmap_app in Hm. simpl in Hm. apply NoDup_app in Hm as (_ & Hd & _).
    intros Hk. apply (Hd _ Hk). left. }
  apply (H []).
Qed.

Lemma im_index_of_lookup k v m i :
  NoDup m.*1 → m !! i = Some (k, v) → im_index_of k m = Some i.
Proof.
  revert i. induction m as [|[k' v'] m IH]; intros i; [done|]. simpl.
  rewrite NoDup_cons. intros [Hk Hm]. destruct i as [|i]; simpl.
  - intros [= -> ->]. by rewrite decide_True.
  - intros Hi. rewrite decide_False; [by rewrite (IH i)|]. intros ->. apply Hk.
    apply list_elem_of_fmap. exists (k, v). split; [done|]. by eapply list_elem_of_lookup_2.
Qed.

(** What is below the removed entry stays, the rest is permuted. *)
Lemma im_swap_remove_app k v m1 m2 :
  NoDup (m1 ++ (k, v) :: m2).*1 →
  ∃ m2', im_swap_remove k (m1 ++ (k, v) :: m2) = m1 ++ m2' ∧ m2' ≡ₚ m2.
Proof.
  intros Hnd. unfold im_swap_remove.
  rewrite (im_index_of_lookup k v _ (length m1)) by (done || by apply list_lookup_middle).
  unfold im_swap_remove_index. destruct m2 as [|p m2 _] using rev_ind.
  - exists []. rewrite last_snoc, length_app, decide_True by (simpl; lia).
    by rewrite take_app_length, app_nil_r.
  - exists (p :: m2). rewrite app_comm_cons, (assoc_L (++)), last_snoc.
    rewrite decide_False by (rewrite !length_app; simpl; lia).
    split; [|by rewrite Permutation_cons_append].
    rewrite length_app, Nat.add_sub, take_app_length.
    by rewrite insert_app_r_alt, Nat.sub_diag by lia.
Qed.
End index_map.

(** * Filtering lists *)

Lemma filter_ext_in {A} (P Q : A → Prop) `{∀ x, Decision (P x), ∀ x, Decision (Q x)} (l : list A) :
  (∀ x, x ∈ l → P x ↔ Q x) → filter P l = filter Q l.
Proof.
  induction l as [|x l IH]; intros Heq; [done|]. rewrite !filter_cons.
  rewrite (decide_ext (P x) (Q x)) by (apply Heq; by left).
  rewrite IH by (intros; apply Heq; by right). done.
Qed.

Lemma filter_none {A} (P : A → Prop) `{∀ x, Decision (P x)} (l : list A) :
  (∀ x, x ∈ l → ¬ P x) → filter P l = [].
Proof.
  intros Hn. rewrite (filter_ext_in P (λ _, False)) by naive_solver.
  induction l as [|x l IH]; [done|]. rewrite filter_cons, decide_False by auto. apply IH.
  intros y Hy. apply Hn. by right.
Qed.

Lemma filter_all {A} (P : A → Prop) `{∀ x, Decision (P x)} (l : list A) :
  (∀ x, x ∈ l → P x) → filter P l = l.
Proof.
  induction l as [|x l IH]; intros Hall; [done|]. rewrite filter_cons, decide_True by (apply Hall; left).
  f_equal. apply IH. intros y Hy. apply Hall. by right.
Qed.

Lemma filter_fmap {A B} (f : A → B) (P : B → Prop) `{∀ x, Decision (P x)} (l : list A) :
  filter P (f <$> l) = f <$> filter (λ a, P (f a)) l.
Proof.
  induction l as [|a l IH]; [done|]. rewrite fmap_cons, !filter_cons, IH. by case_decide.
Qed.

Lemma filter_comm {A} (P Q : A → Prop) `{∀ x, Decision (P x), ∀ x, Decision (Q x)} (l : list A) :
  filter P (filter Q l) = filter Q (filter P l).
Proof.
  induction l as [|a l IH]; [done|]. rewrite !filter_cons.
  repeat case_decide; rewrite ?filter_cons; repeat case_decide; rewrite ?IH; done.
Qed.

(** A map from keys to the elements with that key, in any order. *)
Lemma hash_iter_groups `{HashOrder} `{Countable K} {A B} (key : A → K) (f : A → B) (l : list A)
    (m : gmap K (list B)) :
  (∀ k, default [] (m !! k) = f <$> filter (λ a, key a = k) l) →
  mjoin (hash_iter m).*2 ≡ₚ f <$> l.
Proof.
  intros Hm. unfold hash_iter. rewrite iter_order_perm. revert l Hm.
  induction m as [|k x m Hk IH] using map_ind; intros l Hm.
  - rewrite map_to_list_empty. destruct l as [|a l]; [done|].
    specialize (Hm (key a)). rewrite lookup_empty, filter_cons_True in Hm by done. done.
  - rewrite map_to_list_insert by done. rewrite fmap_cons. cbn [mjoin list_join snd].
    rewrite (IH (filter (λ a, key a ≠ k) l)).
    + specialize (Hm k). rewrite lookup_insert_eq in Hm. simpl in Hm. subst x.
      rewrite <-fmap_app. apply fmap_Permutation. apply filter_app_complement.
    + intros k'. specialize (Hm k'). destruct (decide (k' = k)) as [->|Hne].
      * rewrite Hk. simpl. rewrite filter_comm, filter_none; [done|].
        intros a [Ha _]%list_elem_of_filter Hn. by apply Hn.
      * rewrite lookup_insert_ne in Hm by done. rewrite Hm. f_equal. rewrite filter_comm.
        symmetry. apply filter_all. by intros a [<- ?]%list_elem_of_filter.
Qed.

(** * Sums *)

Definition zsum (l : list Z) : Z := foldr Z.add 0 l.

Lemma zsum_app l k : zsum (l ++ k) = zsum l + zsum k.
Proof. induction l; simpl in *; lia. Qed.

Lemma zsum_perm l k : l ≡ₚ k → zsum l = zsum k.
Proof. induction 1; simpl in *; lia. Qed.

Lemma zsum_nonneg l : Forall (λ x, 0 ≤ x) l → 0 ≤ zsum l.
Proof. induction 1; simpl in *; lia. Qed.

(** Close a decidable goal by evaluating its decision procedure. *)
Ltac decide_goal :=
  match goal with |- ?P => apply (bool_decide_unpack P); vm_compute; exact I end.

Create HintDb gw.
#[export] Hint Resolve zsum_nonneg Z_compare_lawful : gw.
#[export] Hint Rewrite @zsum_app : gw.
