(* ===== verification/Sustains.v ===== *)
(** Invariants of computations: that a computation keeps a property of its
    state however it ends, and what its result satisfies if it has one.
    One rule per construct of the monad, collected as hints. *)
From S2P Require Import Prelude.

(** [I] holds of the state whatever the outcome; [P] of a result. *)
Definition sustains {S E A} (I : S → Prop) (P : A → Prop) (m : M S E A) : Prop :=
  ∀ s, I s → I (m s).1 ∧ ∀ a, (m s).2 = Ok a → P a.

(** No claim about the result. *)
Notation keeps I m := (sustains I (λ _, True) m).

Section rules.
Context {S E : Type} (I : S → Prop).

Lemma sustains_mono {A} (P Q : A → Prop) (m : M S E A) :
  sustains I P m → (∀ a, P a → Q a) → sustains I Q m.
Proof. intros Hm HPQ s Hs. destruct (Hm s Hs). auto. Qed.

Lemma sustains_keeps {A} (P : A → Prop) (m : M S E A) : sustains I P m → keeps I m.
Proof. intros Hm. by eapply sustains_mono. Qed.

Lemma sustains_ret {A} (P : A → Prop) (a : A) : P a → sustains I P (ret (S:=S) (E:=E) a).
Proof. intros Ha s Hs. split; [done|]. by intros ? [= <-]. Qed.

Lemma sustains_throw {A} (P : A → Prop) (e : E) : sustains I P (throw e).
Proof. by intros s Hs. Qed.

Lemma sustains_panic {A} (P : A → Prop) : sustains I P (panic (S:=S) (E:=E)).
Proof. by intros s Hs. Qed.

Lemma sustains_hang {A} (P : A → Prop) : sustains I P (hang (S:=S) (E:=E)).
Proof. by intros s Hs. Qed.

Lemma sustains_gets {A} (P : A → Prop) (f : S → A) :
  (∀ s, I s → P (f s)) → sustains I P (gets (E:=E) f).
Proof. intros Hf s Hs. split; [done|]. intros ? [= <-]. by apply Hf. Qed.

Lemma sustains_modify (f : S → S) :
  (∀ s, I s → I (f s)) → keeps I (modify (E:=E) f).
Proof. intros Hf s Hs. split; [by apply Hf|done]. Qed.

Lemma sustains_lift {A} (P : A → Prop) (r : outcome E A) :
  (∀ a, r = Ok a → P a) → sustains I P (lift (S:=S) r).
Proof. intros Hr s Hs. by split. Qed.

Lemma sustains_bind {A B} (P : A → Prop) (Q : B → Prop) (m : M S E A) (k : A → M S E B) :
  sustains I P m → (∀ a, P a → sustains I Q (k a)) → sustains I Q (bind m k).
Proof.
  intros Hm Hk s Hs. destruct (Hm s Hs) as [Hs' Ha]. unfold bind.
  destruct (m s) as [s' [a|e| |]]; simpl in *; try done. by apply Hk; [apply Ha|].
Qed.

Lemma sustains_map_err {E' A} (P : A → Prop) (f : E' → E) (m : M S E' A) :
  sustains I P m → sustains I P (map_err f m).
Proof.
  intros Hm s Hs. destruct (Hm s Hs) as [? Ha]. unfold map_err.
  destruct (m s) as [s' [a|e| |]]; simpl in *; try done. split; [done|].
  intros ? [= <-]. by apply Ha.
Qed.

Lemma sustains_try {E' A} (P : A → Prop) (m : M S E' A) :
  sustains I P m →
  sustains I (λ r : A + E', match r with inl a => P a | inr _ => True end) (try_ (E':=E) m).
Proof.
  intros Hm s Hs. destruct (Hm s Hs) as [? Ha]. unfold try_.
  destruct (m s) as [s' [a|e| |]]; simpl in *; try done; (split; [done|]); intros ? [= <-]; [|done].
  by apply Ha.
Qed.

Lemma sustains_zoom {T A} (J : T → Prop) (P : A → Prop) prj upd (m : M T E A) :
  sustains J P m → (∀ s, I s → J (prj s)) → (∀ s t, I s → J t → I (upd t s)) →
  sustains I P (zoom prj upd m).
Proof.
  intros Hm Hprj Hupd s Hs. destruct (Hm _ (Hprj s Hs)) as [? Ha]. unfold zoom.
  destruct (m (prj s)) as [t r]. by split; [apply Hupd|].
Qed.

Lemma sustains_for_each {A} (R : A → Prop) (l : list A) (body : A → M S E unit) :
  Forall R l → (∀ a, R a → keeps I (body a)) → keeps I (for_each l body).
Proof.
  intros Hl Hbody. induction Hl as [|a l Ha Hl IH]; [by apply sustains_ret|].
  eapply sustains_bind; [by apply Hbody|]. auto.
Qed.

Lemma sustains_fold_each {A B} (R : A → Prop) (P : B → Prop) (l : list A) (acc : B)
    (body : B → A → M S E B) :
  P acc → Forall R l → (∀ acc a, P acc → R a → sustains I P (body acc a)) →
  sustains I P (fold_each l acc body).
Proof.
  intros Hacc Hl Hbody. revert acc Hacc.
  induction Hl as [|a l Ha Hl IH]; intros acc Hacc; [by apply sustains_ret|].
  eapply sustains_bind; [by apply Hbody|]. auto.
Qed.
End rules.

(** Machine integers stay in their range, if they do not panic. *)
Lemma sustains_u64_checked `{Build} {S E} (I : S → Prop) x :
  sustains I in_u64 (u64_checked (E:=E) x).
Proof.
  unfold u64_checked. case_decide; [by apply sustains_ret|].
  destruct overflow_checks; [apply sustains_panic|]. apply sustains_ret.
  unfold in_u64, wrap_u64, u64_max. pose proof (Z.mod_pos_bound x (2 ^ 64)). lia.
Qed.

Lemma wrap_u64_in x : in_u64 (wrap_u64 x).
Proof. unfold in_u64, wrap_u64, u64_max. pose proof (Z.mod_pos_bound x (2 ^ 64)). lia. Qed.

Lemma sustains_u64_add `{Build} {S E} (I : S → Prop) x y : sustains I in_u64 (u64_add (E:=E) x y).
Proof. apply sustains_u64_checked. Qed.
Lemma sustains_u64_sub `{Build} {S E} (I : S → Prop) x y : sustains I in_u64 (u64_sub (E:=E) x y).
Proof. apply sustains_u64_checked. Qed.

(** Two invariants. *)
Lemma sustains_and {S E A} (I J : S → Prop) (P : A → Prop) (m : M S E A) :
  sustains I P m → keeps J m → sustains (λ s, I s ∧ J s) P m.
Proof. intros HI HJ s [Hi Hj]. destruct (HI s Hi), (HJ s Hj). auto. Qed.

(** A run that succeeds went through all its parts. *)
Lemma sustains_bind_Ok {S E A B} (I : S → Prop) (P : A → Prop) (m : M S E A) (k : A → M S E B) s s' b :
  sustains I P m → I s → bind m k s = (s', Ok b) →
  ∃ s1 a, I s1 ∧ P a ∧ k a s1 = (s', Ok b).
Proof.
  intros Hm Hs. destruct (Hm s Hs) as [Hs' Ha]. unfold bind.
  destruct (m s) as [s1 [a|e| |]]; try done. exists s1, a. auto.
Qed.

(** * Successful runs *)

(** [P] holds of the state and the result if the run succeeds. *)
Definition succeeds {S E A} (m : M S E A) (P : S → A → Prop) (s : S) : Prop :=
  wp m (λ s' r, ∀ a, r = Ok a → P s' a) s.

Section succeeds.
Context {S E : Type}.

Lemma succeeds_wp {A} (m : M S E A) (P : S → A → Prop) (Q : S → outcome E A → Prop) s :
  wp m Q s → (∀ s' a, Q s' (Ok a) → P s' a) → succeeds m P s.
Proof. intros Hm HQ. eapply wp_mono; [exact Hm|]. intros s' r Hr a ->. auto. Qed.

Lemma succeeds_mono {A} (m : M S E A) (P Q : S → A → Prop) s :
  succeeds m P s → (∀ s' a, P s' a → Q s' a) → succeeds m Q s.
Proof. unfold succeeds, wp. auto. Qed.

Lemma succeeds_and {A} (m : M S E A) (P Q : S → A → Prop) s :
  succeeds m P s → succeeds m Q s → succeeds m (λ s' a, P s' a ∧ Q s' a) s.
Proof. unfold succeeds, wp. auto. Qed.

Lemma succeeds_ret {A} (a : A) (P : S → A → Prop) s : P s a → succeeds (E:=E) (ret a) P s.
Proof. by intros ? ? [= <-]. Qed.

Lemma succeeds_gets {A} (f : S → A) (P : S → A → Prop) s :
  P s (f s) → succeeds (E:=E) (gets f) P s.
Proof. by intros ? ? [= <-]. Qed.

Lemma succeeds_modify (f : S → S) (P : S → unit → Prop) s :
  P (f s) tt → succeeds (E:=E) (modify f) P s.
Proof. by intros ? [] _. Qed.

Lemma succeeds_fails {A} (m : M S E A) (P : S → A → Prop) s :
  (∀ a, (m s).2 ≠ Ok a) → succeeds m P s.
Proof. intros Hm a Ha. by destruct (Hm a). Qed.

Lemma succeeds_any {A} (m : M S E A) (P : S → A → Prop) s :
  (∀ s' a, P s' a) → succeeds m P s.
Proof. intros HP a _. apply HP. Qed.

Lemma succeeds_lift {A} (r : outcome E A) (P : S → A → Prop) s :
  (∀ a, r = Ok a → P s a) → succeeds (lift r) P s.
Proof. done. Qed.

Lemma succeeds_bind {A B} (m : M S E A) (k : A → M S E B) (Q : S → B → Prop) s :
  succeeds m (λ s' a, succeeds (k a) Q s') s → succeeds (bind m k) Q s.
Proof.
  unfold succeeds, wp, bind. destruct (m s) as [s' [a|e| |]]; simpl; [|done..]. auto.
Qed.

Lemma succeeds_map_err {E' A} (f : E' → E) (m : M S E' A) (P : S → A → Prop) s :
  succeeds m P s → succeeds (map_err f m) P s.
Proof.
  unfold succeeds, wp, map_err. destruct (m s) as [s' [a|e| |]]; simpl; [|done..].
  intros Hm ? [= <-]. auto.
Qed.

Lemma succeeds_fold_each {A B} (I : list A → S → B → Prop) (l : list A) (acc : B)
    (body : B → A → M S E B) s :
  I l s acc →
  (∀ a l acc s, I (a :: l) s acc → succeeds (body acc a) (I l) s) →
  succeeds (fold_each l acc body) (I []) s.
Proof.
  intros HI Hstep. revert acc s HI.
  induction l as [|a l IH]; intros acc s HI; [by apply succeeds_ret|].
  apply succeeds_bind. eapply succeeds_mono; [by apply Hstep|]. auto.
Qed.

Lemma succeeds_for_each {A} (I : list A → S → Prop) (l : list A) (body : A → M S E unit) s :
  I l s →
  (∀ a l s, I (a :: l) s → succeeds (body a) (λ s' _, I l s') s) →
  succeeds (for_each l body) (λ s' _, I [] s') s.
Proof.
  intros HI Hstep. revert s HI.
  induction l as [|a l IH]; intros s HI; [by apply succeeds_ret|].
  apply succeeds_bind. eapply succeeds_mono; [by apply Hstep|]. auto.
Qed.
End succeeds.

Lemma succeeds_zoom {S T E A} (prj : S → T) (upd : T → S → S) (m : M T E A) (P : S → A → Prop) s :
  succeeds m (λ t a, P (upd t s) a) (prj s) → succeeds (zoom prj upd m) P s.
Proof. unfold succeeds, wp, zoom. by destruct (m (prj s)). Qed.

(** Invariants, seen from runs that succeed. *)
Lemma sustains_succeeds {S E A} (I : S → Prop) (P : A → Prop) (m : M S E A) s :
  sustains I P m → I s → succeeds m (λ s' a, I s' ∧ P a) s.
Proof. intros Hm Hs a Ha. destruct (Hm s Hs) as [HI HP]. auto. Qed.

(** The result of a caught call: what a success gives, or some error. *)
Lemma succeeds_try {S E E' A} (m : M S E A) (P : S → A → Prop) s :
  succeeds m P s →
  succeeds (try_ (E':=E') m) (λ s' r, match r with inl a => P s' a | inr _ => s' = (m s).1 end) s.
Proof.
  unfold succeeds, wp, try_. destruct (m s) as [s' [a|e| |]]; simpl; try done;
    intros Hm ? [= <-]; auto.
Qed.

(** Machine arithmetic that goes well: the exact value if that is in range. *)
Lemma succeeds_u64_checked `{Build} {S E} x (P : S → Z → Prop) s :
  P s (wrap_u64 x) → succeeds (E:=E) (u64_checked x) P s.
Proof.
  intros HP a. unfold u64_checked. case_decide as Hx.
  - intros [= <-]. unfold wrap_u64, in_u64, u64_max in *. by rewrite Z.mod_small in HP by lia.
  - destruct overflow_checks; [done|]. by intros [= <-].
Qed.

Lemma wrap_u64_small x : in_u64 x → wrap_u64 x = x.
Proof. intros. unfold wrap_u64, in_u64, u64_max in *. apply Z.mod_small. lia. Qed.

(** * Runs that are not blocked *)

(** Unless the run is blocked, it ends in [J], whatever its outcome. *)
Definition until_hang {S E A} (I J : S → Prop) (m : M S E A) : Prop :=
  ∀ s, I s → (m s).2 ≠ Hang → J (m s).1.

Section until_hang.
Context {S E : Type}.

Lemma sustains_until_hang {A} (I J : S → Prop) (P : A → Prop) (m : M S E A) :
  sustains I P m → (∀ s, I s → J s) → until_hang I J m.
Proof. intros Hm HIJ s Hs _. destruct (Hm s Hs). auto. Qed.

(** A first part that keeps [I]. *)
Lemma until_hang_after {A B} (I J : S → Prop) (P : A → Prop) (m : M S E A) (k : A → M S E B) :
  sustains I P m → (∀ s, I s → J s) → (∀ a, P a → until_hang I J (k a)) → until_hang I J (bind m k).
Proof.
  intros Hm HIJ Hk s Hs. destruct (Hm s Hs) as [Hs' Ha]. unfold bind.
  destruct (m s) as [s' [a|e| |]]; simpl in *; auto. by apply Hk; [apply Ha|].
Qed.

Lemma until_hang_bind {A B} (I J : S → Prop) (m : M S E A) (k : A → M S E B) :
  until_hang I J m → (∀ a, until_hang J J (k a)) → until_hang I J (bind m k).
Proof.
  intros Hm Hk s Hs. specialize (Hm s Hs). unfold bind.
  destruct (m s) as [s' [a|e| |]]; simpl in *; [|auto..]. intros Hn. apply Hk; [by apply Hm|done].
Qed.

Lemma until_hang_for_each {A} (J : S → Prop) (R : A → Prop) (l : list A) (body : A → M S E unit) :
  Forall R l → (∀ a, R a → until_hang J J (body a)) → until_hang J J (for_each l body).
Proof.
  intros Hl Hbody. induction Hl as [|a l Ha Hl IH]; [by intros s|].
  by apply until_hang_bind; [apply Hbody|].
Qed.
End until_hang.

Create HintDb sustains discriminated.
#[export] Hint Resolve sustains_throw sustains_panic sustains_hang sustains_u64_add
  sustains_u64_sub sustains_map_err : sustains.
