(* ===== verification/TestKit.v ===== *)
(** What the unit tests of the repository are made of: the assertions of the
    standard library and [test_case].  A test is a computation over the value
    that it works on; it passes if it does not panic. *)
From S2P Require Import Prelude.
From S2P Require Import Sustains.

(** [unwrap] and [expect], [expect_err], [assert!]. *)
Definition unwrap {S E E' A} (m : M S E A) : M S E' A :=
  let! r := try_ m in
  match r with inl a => ret a | inr _ => panic end.
Definition expect_err {S E E' A} (m : M S E A) : M S E' unit :=
  let! r := try_ m in
  match r with inl _ => panic | inr _ => ret tt end.
Definition assert_that {S E} (b : bool) : M S E unit := if b then ret tt else panic.

(** [assert_eq!] and [assert_ne!] on a type whose [PartialEq] is [eqb], and
    that of an [Option]. *)
Definition assert_eq {S E A} (eqb : A → A → bool) (x y : A) : M S E unit := assert_that (eqb x y).
Definition assert_ne {S E A} (eqb : A → A → bool) (x y : A) : M S E unit := assert_that (negb (eqb x y)).
Definition option_eqb {A} (eqb : A → A → bool) (x y : option A) : bool :=
  match x, y with Some a, Some b => eqb a b | None, None => true | _, _ => false end.
(** A derived [PartialEq]. *)
Definition same {A} `{EqDecision A} (x y : A) : bool := bool_decide (x = y).

(** [catch_unwind(..).is_ok()]. *)
Definition does_not_panic {A} (r : outcome Empty_set A) : bool :=
  match r with Ok _ => true | _ => false end.

(** A test with the error type of a function that returns nothing. *)
Notation Test S := (M S Empty_set unit).
Definition passes {S} (t : Test S) (s : S) : bool := does_not_panic (t s).2.

(** A test case of [test_case]: arguments [=>] expected result. *)
Definition case {A B} `{EqDecision B} (f : A → B) (c : A * B) : bool := bool_decide (f c.1 = c.2).

(** ** Passing, by weakest preconditions *)

Lemma passes_wp {S} (t : Test S) s : wp t (λ _ r, r = Ok tt) s → passes t s = true.
Proof. unfold passes, wp. by intros ->. Qed.

Lemma wp_unwrap {S E E' A} (m : M S E A) (Q : S → outcome E' A → Prop) s :
  wp m (λ s' r, match r with Ok a => Q s' (Ok a) | Err _ | Panic => Q s' Panic | Hang => Q s' Hang end) s →
  wp (unwrap m) Q s.
Proof. unfold wp, unwrap, bind, try_. by destruct (m s) as [s' [a|e| |]]. Qed.

Lemma wp_expect_err {S E E' A} (m : M S E A) (Q : S → outcome E' unit → Prop) s :
  wp m (λ s' r, match r with Err _ => Q s' (Ok tt) | Ok _ | Panic => Q s' Panic | Hang => Q s' Hang end) s →
  wp (expect_err m) Q s.
Proof. unfold wp, expect_err, bind, try_. by destruct (m s) as [s' [a|e| |]]. Qed.

Lemma wp_assert {S E} (b : bool) (Q : S → outcome E unit → Prop) s :
  b = true → Q s (Ok tt) → wp (assert_that b) Q s.
Proof. by intros ->. Qed.

Lemma same_refl {A} `{EqDecision A} (x : A) : same x x = true.
Proof. by apply bool_decide_eq_true. Qed.
