(* ===== verification/Invoice.v ===== *)
(** The invoice data model: [library/src/invoice.rs].

    [SubIndex], [InvoiceId], [Transfer] and [Invoice] are the structs of the
    source with their fields; a function [f] of the type [T] of the source is
    the definition [T_f].  Field getters are the projections themselves. *)
From S2P Require Import Prelude.

Definition PICONEROS_PER_XMR : Z := 1000000000000.

(** * Subaddress indices *)

Record SubIndex := SubIndex_new { major : Z; minor : Z }.

#[export] Instance SubIndex_eq_dec : EqDecision SubIndex.
Proof. solve_decision. Defined.
#[export] Instance SubIndex_countable : Countable SubIndex.
Proof.
  refine (inj_countable' (λ i, (major i, minor i)) (λ p, SubIndex_new p.1 p.2) _).
  by intros [].
Defined.

Definition SubIndex_cmp (self other : SubIndex) : comparison :=
  match major self ?= major other with
  | Eq => minor self ?= minor other
  | Gt => Gt
  | Lt => Lt
  end.

Definition SubIndex_fmt (self : SubIndex) : string :=
  pretty (major self) +:+ "/" +:+ pretty (minor self).

Definition SubIndex_wf (i : SubIndex) : Prop := in_u32 (major i) ∧ in_u32 (minor i).

(** * Invoice ids *)

Record InvoiceId := InvoiceId_new { sub_index : SubIndex; id_creation_height : Z }.

#[export] Instance InvoiceId_eq_dec : EqDecision InvoiceId.
Proof. solve_decision. Defined.
#[export] Instance InvoiceId_countable : Countable InvoiceId.
Proof.
  refine (inj_countable' (λ i, (sub_index i, id_creation_height i))
            (λ p, InvoiceId_new p.1 p.2) _).
  by intros [].
Defined.

Definition InvoiceId_cmp (self other : InvoiceId) : comparison :=
  match SubIndex_cmp (sub_index self) (sub_index other) with
  | Eq => id_creation_height self ?= id_creation_height other
  | Gt => Gt
  | Lt => Lt
  end.

Definition InvoiceId_fmt (self : InvoiceId) : string :=
  "(" +:+ SubIndex_fmt (sub_index self) +:+ "," +:+ pretty (id_creation_height self) +:+ ")".

Definition InvoiceId_wf (i : InvoiceId) : Prop :=
  SubIndex_wf (sub_index i) ∧ in_u64 (id_creation_height i).

(** [impl From<InvoiceId> for u128]: the three fields laid out in a
    16-byte big-endian array. *)
Definition u128_from_InvoiceId (value : InvoiceId) : Z :=
  let bytes := to_be_bytes 4 (major (sub_index value))
               ++ to_be_bytes 4 (minor (sub_index value))
               ++ to_be_bytes 8 (id_creation_height value) in
  from_be_bytes bytes.

(** [impl From<u128> for InvoiceId]. *)
Definition InvoiceId_from_u128 (value : Z) : InvoiceId :=
  let bytes := to_be_bytes 16 value in
  let major_index_bytes := take 4 bytes in
  let minor_index_bytes := take 4 (drop 4 bytes) in
  let height_bytes := take 8 (drop 8 bytes) in
  let sub_index := SubIndex_new (from_be_bytes major_index_bytes)
                                (from_be_bytes minor_index_bytes) in
  InvoiceId_new sub_index (from_be_bytes height_bytes).

(** * Transfers *)

Record Transfer := Transfer_new { amount : Z; height : option Z }.

#[export] Instance Transfer_eq_dec : EqDecision Transfer.
Proof. solve_decision. Defined.
#[export] Instance Transfer_countable : Countable Transfer.
Proof.
  refine (inj_countable' (λ t, (amount t, height t)) (λ p, Transfer_new p.1 p.2) _).
  by intros [].
Defined.

(** Newer is greater; a transfer in the txpool (no height) is newest. *)
Definition Transfer_cmp_by_height (self other : Transfer) : comparison :=
  match height self with
  | Some h => match height other with
              | Some other_height => h ?= other_height
              | None => Lt
              end
  | None => match height other with
            | Some _ => Gt
            | None => Eq
            end
  end.

Definition is_lt (c : comparison) : bool := match c with Lt => true | _ => false end.
Definition is_gt (c : comparison) : bool := match c with Gt => true | _ => false end.

Lemma is_lt_height t h x :
  is_lt (Transfer_cmp_by_height t (Transfer_new x (Some h))) = true ↔
  ∃ h', height t = Some h' ∧ h' < h.
Proof.
  unfold Transfer_cmp_by_height. destruct (height t) as [h'|]; simpl.
  - destruct (Z.compare_spec h' h); simpl; naive_solver lia.
  - naive_solver.
Qed.

Lemma is_gt_height t h x :
  is_gt (Transfer_cmp_by_height t (Transfer_new x (Some h))) = true ↔
  match height t with Some h' => h < h' | None => True end.
Proof.
  unfold Transfer_cmp_by_height. destruct (height t) as [h'|]; simpl; [|done].
  destruct (Z.compare_spec h' h); simpl; naive_solver lia.
Qed.

(** * Invoices *)

Record Invoice := mk_Invoice {
  inv_address : string;
  inv_index : SubIndex;
  inv_creation_height : Z;
  inv_amount_requested : Z;
  inv_amount_paid : Z;
  inv_paid_height : option Z;
  inv_confirmations_required : Z;
  inv_current_height : Z;
  inv_expiration_height : Z;
  inv_transfers : list Transfer;
  inv_description : string;
}.

#[export] Instance Invoice_eq_dec : EqDecision Invoice.
Proof. solve_decision. Defined.

(** The values the machine types of the fields allow. *)
Definition Transfer_wf (t : Transfer) : Prop :=
  in_u64 (amount t) ∧ match height t with Some h => in_u64 h | None => True end.
Definition Invoice_wf (i : Invoice) : Prop :=
  SubIndex_wf (inv_index i) ∧ in_u64 (inv_creation_height i) ∧
  in_u64 (inv_amount_requested i) ∧ in_u64 (inv_amount_paid i) ∧
  in_u64 (inv_confirmations_required i) ∧ in_u64 (inv_current_height i) ∧
  in_u64 (inv_expiration_height i) ∧ Forall Transfer_wf (inv_transfers i).

#[export] Instance Transfer_wf_dec t : Decision (Transfer_wf t).
Proof. unfold Transfer_wf. destruct (height t); apply _. Defined.
#[export] Instance Invoice_wf_dec i : Decision (Invoice_wf i).
Proof. unfold Invoice_wf, SubIndex_wf. apply _. Defined.

(** Assignments to the mutable fields. *)
Definition set_transfers (ts : list Transfer) (i : Invoice) : Invoice :=
  mk_Invoice (inv_address i) (inv_index i) (inv_creation_height i) (inv_amount_requested i)
    (inv_amount_paid i) (inv_paid_height i) (inv_confirmations_required i)
    (inv_current_height i) (inv_expiration_height i) ts (inv_description i).
Definition set_current_height (h : Z) (i : Invoice) : Invoice :=
  mk_Invoice (inv_address i) (inv_index i) (inv_creation_height i) (inv_amount_requested i)
    (inv_amount_paid i) (inv_paid_height i) (inv_confirmations_required i)
    h (inv_expiration_height i) (inv_transfers i) (inv_description i).
Definition set_paid (paid : Z) (at_ : option Z) (i : Invoice) : Invoice :=
  mk_Invoice (inv_address i) (inv_index i) (inv_creation_height i) (inv_amount_requested i)
    paid at_ (inv_confirmations_required i)
    (inv_current_height i) (inv_expiration_height i) (inv_transfers i) (inv_description i).

Definition Invoice_new `{Build} {S E} (address : string) (index : SubIndex)
    (creation_height amount_requested confirmations_required expiration_in : Z)
    (description : string) : M S E Invoice :=
  let! expiration_height := u64_add creation_height expiration_in in
  ret (mk_Invoice address index creation_height amount_requested 0 None
         confirmations_required 0 expiration_height [] description).

Definition Invoice_confirmations (self : Invoice) : option Z :=
  if inv_amount_requested self <=? inv_amount_paid self
  then match inv_paid_height self with
       | None => Some 0
       | Some paid_at => Some (saturating_sub (inv_current_height self) paid_at)
       end
  else None.

Definition Invoice_is_confirmed (self : Invoice) : bool :=
  match Invoice_confirmations self with
  | None => false
  | Some confirmations => inv_confirmations_required self <=? confirmations
  end.

Definition Invoice_is_paid (self : Invoice) : bool :=
  inv_amount_requested self <=? inv_amount_paid self.

Definition Invoice_is_expired (self : Invoice) : bool :=
  inv_expiration_height self <=? inv_current_height self.

Definition Invoice_id (self : Invoice) : InvoiceId :=
  InvoiceId_new (inv_index self) (inv_creation_height self).

Definition Invoice_expiration_in (self : Invoice) : Z :=
  let h := Z.max (inv_creation_height self) (inv_current_height self) in
  saturating_sub (inv_expiration_height self) h.

(** The counting [HashMap] the custom [PartialEq] builds from a list of
    transfers: [*map.entry(i).or_insert(0) += 1] for each. *)
Definition transfer_counts (l : list Transfer) : gmap Transfer Z :=
  foldl (λ m t, <[t := default 0 (m !! t) + 1]> m) ∅ l.

(** [impl PartialEq for Invoice]. *)
Definition Invoice_eq (self other : Invoice) : bool :=
  let lhs_transfers := transfer_counts (inv_transfers self) in
  let rhs_transfers := transfer_counts (inv_transfers other) in
  bool_decide (lhs_transfers = rhs_transfers)
  && bool_decide (inv_address self = inv_address other)
  && bool_decide (inv_index self = inv_index other)
  && (inv_creation_height self =? inv_creation_height other)
  && (inv_amount_requested self =? inv_amount_requested other)
  && (inv_amount_paid self =? inv_amount_paid other)
  && bool_decide (inv_paid_height self = inv_paid_height other)
  && (inv_confirmations_required self =? inv_confirmations_required other)
  && (inv_current_height self =? inv_current_height other)
  && (inv_expiration_height self =? inv_expiration_height other)
  && bool_decide (inv_description self = inv_description other).

(** * Lemmas *)

#[export] Instance SubIndex_cmp_lawful : LawfulOrd SubIndex_cmp.
Proof.
  apply (cmp_then_lawful major minor Z.compare Z.compare); auto with gw.
  intros [] []; simpl; congruence.
Qed.

#[export] Instance InvoiceId_cmp_lawful : LawfulOrd InvoiceId_cmp.
Proof.
  apply (cmp_then_lawful sub_index id_creation_height SubIndex_cmp Z.compare);
    auto with gw; [apply _|].
  intros [] []; simpl; congruence.
Qed.

Definition occurrences (t : Transfer) (l : list Transfer) : nat :=
  count_occ Transfer_eq_dec l t.

Lemma transfer_counts_lookup l t :
  transfer_counts l !! t =
    if decide (occurrences t l = 0%nat) then None else Some (Z.of_nat (occurrences t l)).
Proof.
  unfold transfer_counts, occurrences. revert t.
  induction l as [|x l IH] using rev_ind; intros t; [done|].
  rewrite foldl_app, count_occ_app. simpl. rewrite lookup_insert, !IH.
  destruct (Transfer_eq_dec x t) as [->|Hne]; simpl.
  - rewrite decide_True by done.
    destruct (decide (count_occ Transfer_eq_dec l t = 0%nat)) as [E|E].
    + rewrite decide_False by lia. rewrite E. done.
    + rewrite decide_False by lia. simpl. f_equal. lia.
  - rewrite decide_False by done. by rewrite Nat.add_0_r.
Qed.

Lemma transfer_counts_perm l k : transfer_counts l = transfer_counts k ↔ l ≡ₚ k.
Proof.
  rewrite (Permutation_count_occ Transfer_eq_dec). split.
  - intros Heq x. apply (f_equal (.!! x)) in Heq. rewrite !transfer_counts_lookup in Heq.
    unfold occurrences in Heq. repeat case_decide; simplify_eq; lia.
  - intros Hc. apply map_eq. intros x. rewrite !transfer_counts_lookup.
    unfold occurrences. by rewrite Hc.
Qed.

(** Two invoices that differ at most in the order of their transfers. *)
Definition same_invoice (a b : Invoice) : Prop :=
  inv_transfers a ≡ₚ inv_transfers b ∧ set_transfers [] a = set_transfers [] b.

#[export] Instance same_invoice_equiv : Equivalence same_invoice.
Proof.
  unfold same_invoice. split.
  - done.
  - intros x y []; by split.
  - intros x y z [] []; split; etrans; eauto.
Qed.

(** Equality of all fields, the transfers as a multiset. *)
Lemma Invoice_eq_same a b : Invoice_eq a b = true ↔ same_invoice a b.
Proof.
  unfold Invoice_eq, same_invoice.
  rewrite !andb_true_iff, !bool_decide_eq_true, !Z.eqb_eq, transfer_counts_perm.
  destruct a, b; unfold set_transfers; simpl. split.
  - intros. destruct_and!. by simplify_eq.
  - intros [? [= -> -> -> -> -> -> -> -> -> ->]]. split_and!; auto.
Qed.

Lemma bytes16_split (a b c : list Z) :
  length a = 4%nat → length b = 4%nat → length c = 8%nat →
  let l := a ++ b ++ c in take 4 l = a ∧ take 4 (drop 4 l) = b ∧ take 8 (drop 8 l) = c.
Proof.
  intros Ha Hb Hc l. subst l. repeat split.
  - by rewrite take_app_length'.
  - rewrite drop_app_length' by done. by rewrite take_app_length'.
  - rewrite (assoc_L (++)), drop_app_length' by (rewrite length_app; lia).
    by rewrite take_ge by lia.
Qed.

Lemma InvoiceId_bytes_wf i :
  InvoiceId_wf i →
  0 ≤ major (sub_index i) < 256 ^ 4 ∧ 0 ≤ minor (sub_index i) < 256 ^ 4 ∧
  0 ≤ id_creation_height i < 256 ^ 8.
Proof. unfold InvoiceId_wf, SubIndex_wf, in_u32, in_u64, u32_max, u64_max. lia. Qed.

(** The value of the [u128]: the fields as digits. *)
Lemma u128_value i :
  InvoiceId_wf i →
  u128_from_InvoiceId i =
    major (sub_index i) * 2 ^ 96 + minor (sub_index i) * 2 ^ 64 + id_creation_height i.
Proof.
  intros (?&?&?)%InvoiceId_bytes_wf. unfold u128_from_InvoiceId.
  rewrite !from_be_bytes_app, length_app, !length_to_be_bytes, !from_to_be_bytes by done.
  change (Z.of_nat (4 + 8)) with 12. change (Z.of_nat 8) with 8. lia.
Qed.

(** * Properties *)

(** Converting an invoice id to its 128-bit integer and back gives the
    id again, for every id whose fields have their machine widths. *)
Theorem InvoiceId_u128_roundtrip i :
  InvoiceId_wf i → InvoiceId_from_u128 (u128_from_InvoiceId i) = i.
Proof.
  intros Hwf. pose proof (InvoiceId_bytes_wf i Hwf) as (?&?&?).
  unfold InvoiceId_from_u128, u128_from_InvoiceId.
  rewrite to_from_be_bytes.
  - edestruct bytes16_split as (Ea & Eb & Ec); [..|rewrite Ea, Eb, Ec];
      rewrite ?length_to_be_bytes; try done.
    rewrite !from_to_be_bytes by done. by destruct i as [[] ?].
  - by rewrite !length_app, !length_to_be_bytes.
  - rewrite !Forall_app. auto using to_be_bytes_are_bytes.
Qed.

Lemma InvoiceId_u128_roundtrip_witness :
  InvoiceId_from_u128 (u128_from_InvoiceId (InvoiceId_new (SubIndex_new 1 97) 2477657))
    = InvoiceId_new (SubIndex_new 1 97) 2477657.
Proof. apply InvoiceId_u128_roundtrip. repeat split; vm_compute; congruence. Defined.

(** The other direction: every 128-bit integer is the encoding of exactly
    the id decoded from it, and that id has its machine widths. *)
Theorem u128_InvoiceId_roundtrip z :
  0 ≤ z < 2 ^ 128 →
  InvoiceId_wf (InvoiceId_from_u128 z) ∧ u128_from_InvoiceId (InvoiceId_from_u128 z) = z.
Proof.
  intros Hz. unfold InvoiceId_from_u128, u128_from_InvoiceId.
  cbn [major minor sub_index id_creation_height].
  pose proof (length_to_be_bytes 16 z) as Hlen.
  pose proof (to_be_bytes_are_bytes 16 z) as Hb.
  set (l := to_be_bytes 16 z) in *.
  assert (Hsplit : l = take 4 l ++ take 4 (drop 4 l) ++ take 8 (drop 8 l)).
  { rewrite (take_ge (drop 8 l)) by (rewrite length_drop; lia).
    change 8%nat with (4 + 4)%nat. by rewrite <-drop_drop, !take_drop. }
  assert (Ha : Forall is_byte (take 4 l)) by by apply Forall_take.
  assert (Hm : Forall is_byte (take 4 (drop 4 l))) by by apply Forall_take, Forall_drop.
  assert (Hc : Forall is_byte (take 8 (drop 8 l))) by by apply Forall_take, Forall_drop.
  split.
  - pose proof (from_be_bytes_bound _ Ha) as Ba.
    pose proof (from_be_bytes_bound _ Hm) as Bm.
    pose proof (from_be_bytes_bound _ Hc) as Bc.
    rewrite length_take, ?length_drop, Hlen in Ba.
    rewrite length_take, length_drop, Hlen in Bm.
    rewrite length_take, length_drop, Hlen in Bc.
    unfold InvoiceId_wf, SubIndex_wf, in_u32, in_u64, u32_max, u64_max.
    change (256 ^ Z.of_nat _) with (256 ^ 4) in Ba, Bm.
    change (256 ^ Z.of_nat _) with (256 ^ 8) in Bc.
    cbn [major minor sub_index id_creation_height]. lia.
  - rewrite !to_from_be_bytes by (done || rewrite length_take, ?length_drop; lia).
    rewrite <-Hsplit. by apply from_to_be_bytes.
Qed.

Lemma u128_InvoiceId_roundtrip_witness :
  u128_from_InvoiceId (InvoiceId_from_u128 (2 ^ 128 - 1)) = 2 ^ 128 - 1.
Proof. apply u128_InvoiceId_roundtrip. lia. Defined.

(** The [Ord] of invoice ids is the order of the 128-bit integers they
    convert to. *)
Theorem InvoiceId_cmp_u128 a b :
  InvoiceId_wf a → InvoiceId_wf b →
  InvoiceId_cmp a b = (u128_from_InvoiceId a ?= u128_from_InvoiceId b).
Proof.
  intros Ha Hb. rewrite !u128_value by done.
  apply InvoiceId_bytes_wf in Ha as (?&?&?). apply InvoiceId_bytes_wf in Hb as (?&?&?).
  unfold InvoiceId_cmp, SubIndex_cmp.
  destruct (Z.compare_spec (major (sub_index a)) (major (sub_index b)));
    [destruct (Z.compare_spec (minor (sub_index a)) (minor (sub_index b)))|..];
    [destruct (Z.compare_spec (id_creation_height a) (id_creation_height b))|..];
    symmetry; rewrite ?Z.compare_eq_iff, ?Z.compare_lt_iff, ?Z.compare_gt_iff; lia.
Qed.

Lemma InvoiceId_cmp_u128_witness :
  InvoiceId_cmp (InvoiceId_new (SubIndex_new 0 7) 9) (InvoiceId_new (SubIndex_new 0 8) 1) =
  (u128_from_InvoiceId (InvoiceId_new (SubIndex_new 0 7) 9) ?=
   u128_from_InvoiceId (InvoiceId_new (SubIndex_new 0 8) 1)).
Proof. apply InvoiceId_cmp_u128; repeat split; vm_compute; congruence. Defined.

(** The hand-written [PartialEq] of invoices decides equality of all the
    fields, the transfers compared as multisets: neither their order matters
    nor are repeated transfers merged. *)
Theorem Invoice_eq_spec a b : Invoice_eq a b = true ↔ same_invoice a b.
Proof. apply Invoice_eq_same. Qed.

(** An invoice that is confirmed stays confirmed while the chain grows
    and nothing else about it changes; and it is confirmed exactly when it is
    paid in full and its last payment is deep enough, an unmined payment
    counting as zero confirmations. *)
Theorem Invoice_confirmed_spec i :
  0 ≤ inv_confirmations_required i →
  (Invoice_is_confirmed i = true ↔
     Invoice_is_paid i = true ∧
     match inv_paid_height i with
     | None => inv_confirmations_required i = 0
     | Some h => inv_confirmations_required i = 0 ∨
                 h + inv_confirmations_required i ≤ inv_current_height i
     end) ∧
  (∀ h, inv_current_height i ≤ h → Invoice_is_confirmed i = true →
        Invoice_is_confirmed (set_current_height h i) = true).
Proof.
  intros Hreq.
  assert (Hspec : ∀ j, 0 ≤ inv_confirmations_required j →
    (Invoice_is_confirmed j = true ↔
     Invoice_is_paid j = true ∧
     match inv_paid_height j with
     | None => inv_confirmations_required j = 0
     | Some h => inv_confirmations_required j = 0 ∨
                 h + inv_confirmations_required j ≤ inv_current_height j
     end)).
  { intros j Hj. unfold Invoice_is_confirmed, Invoice_confirmations, Invoice_is_paid, saturating_sub.
    destruct (inv_amount_requested j <=? inv_amount_paid j); [|naive_solver].
    destruct (inv_paid_height j); rewrite Z.leb_le; naive_solver lia. }
  split; [by apply Hspec|]. intros h Hh. rewrite !Hspec by done. simpl.
  destruct (inv_paid_height i); naive_solver lia.
Qed.

Lemma Invoice_confirmed_spec_witness :
  let i := mk_Invoice "addr" (SubIndex_new 0 1) 10 100 100 (Some 12) 3 15 20 [] "pizza" in
  Invoice_is_confirmed (set_current_height 16 i) = true.
Proof.
  apply (proj2 (Invoice_confirmed_spec
    (mk_Invoice "addr" (SubIndex_new 0 1) 10 100 100 (Some 12) 3 15 20 [] "pizza")
    ltac:(vm_compute; congruence))); vm_compute; congruence.
Defined.

(** A newly built invoice, when the arithmetic of its expiration does not
    overflow: it is unpaid and unconfirmed unless nothing was requested,
    expires in the number of blocks asked for, and once its current height
    has caught up with its creation it is expired exactly when its remaining
    number of blocks is zero. *)
Theorem Invoice_new_spec `{Build} {S E} (s : S) address index h req conf exp d :
  in_u64 h → in_u64 (h + exp) → 0 ≤ exp → 0 < req →
  ∃ i, Invoice_new (E:=E) address index h req conf exp d s = (s, Ok i) ∧
       Invoice_id i = InvoiceId_new index h ∧
       Invoice_confirmations i = None ∧ Invoice_is_confirmed i = false ∧
       Invoice_expiration_in i = exp ∧
       ∀ c, h ≤ c →
         (Invoice_is_expired (set_current_height c i) = true ↔
          Invoice_expiration_in (set_current_height c i) = 0).
Proof.
  intros Hh Hexp ? Hreq. unfold Invoice_new, u64_add. rewrite u64_checked_in by done.
  eexists. split; [done|].
  unfold Invoice_is_confirmed, Invoice_confirmations, Invoice_expiration_in,
    Invoice_is_expired, saturating_sub; simpl.
  unfold in_u64 in *.
  destruct (Z.leb_spec req 0); [lia|]. repeat split; try lia.
Qed.

Lemma Invoice_new_spec_witness :
  ∃ i, Invoice_new (H:={| overflow_checks := true |}) (E:=unit) "addr" (SubIndex_new 1 97)
         2477657 70000000 2 7 "invoice" tt = (tt, Ok i) ∧ Invoice_expiration_in i = 7.
Proof.
  destruct (Invoice_new_spec (H:={| overflow_checks := true |}) (E:=unit) tt "addr"
    (SubIndex_new 1 97) 2477657 70000000 2 7 "invoice") as (i & Hi & _ & _ & _ & He & _);
    [vm_compute; intuition congruence..|].
  by exists i.
Defined.

#[export] Hint Resolve SubIndex_cmp_lawful InvoiceId_cmp_lawful : gw.
