(* ===== verification/Storage.v ===== *)
(** The storage layer: [library/src/storage/].

    The traits [InvoiceStorage], [OutputKeyStorage], [HeightStorage] and
    [Storage] are type classes over the type of the store, one parameter per
    associated error type.  [Method], [Manager_handle] and the [Client_]
    functions are the actor that owns the store and its callers; what the
    documentation of the traits promises is [LawfulStorage]. *)
From S2P Require Import Prelude Invoice.

(** * Output keys: [storage/output_key_storage.rs] *)

(** A 32-byte array is the integer its bytes spell in big-endian order, so
    that the lexicographic [Ord] the source derives is the order of [Z]. *)
Definition Hash : Type := Z.

Record OutputPubKey := mk_OutputPubKey { pub_key : Hash }.
#[export] Instance OutputPubKey_eq_dec : EqDecision OutputPubKey.
Proof. solve_decision. Defined.
#[export] Instance OutputPubKey_countable : Countable OutputPubKey.
Proof. refine (inj_countable' pub_key mk_OutputPubKey _). by intros []. Defined.

Record OutputId := mk_OutputId { tx_hash : Hash; out_index : Z }.
#[export] Instance OutputId_eq_dec : EqDecision OutputId.
Proof. solve_decision. Defined.

(** Values that 32-byte arrays and [u8] can have. *)
Definition hash_wf (h : Hash) : Prop := 0 ≤ h < 2 ^ 256.
Definition OutputPubKey_wf (k : OutputPubKey) : Prop := hash_wf (pub_key k).
Definition OutputId_wf (o : OutputId) : Prop := hash_wf (tx_hash o) ∧ 0 ≤ out_index o < 256.

(** * The traits *)

(** [F: FnMut(Result<Invoice, E>) -> Result<(), E>], with [C] the variables
    it captures mutably. *)
Definition EachClosure (C E : Type) : Type := Invoice + E → M C E unit.

Class InvoiceStorage (St E : Type) := {
  is_insert : Invoice → M St E unit;
  is_remove : InvoiceId → M St E (option Invoice);
  is_update : Invoice → M St E (option Invoice);
  is_get : InvoiceId → M St E (option Invoice);
  is_get_ids : M St E (list InvoiceId);
  is_contains_sub_index : SubIndex → M St E bool;
  is_try_for_each : ∀ {C}, St → EachClosure C E → M C E unit;
  is_is_empty : M St E bool;
}.

Class OutputKeyStorage (St E : Type) := {
  ks_insert : OutputPubKey → OutputId → M St E unit;
  ks_get : OutputPubKey → M St E (option OutputId);
}.

Class HeightStorage (St E : Type) := {
  hs_upsert : Z → M St E (option Z);
  hs_get : M St E (option Z);
}.

Class Storage (St EI EK EH EF : Type) := {
  storage_invoices :: InvoiceStorage St EI;
  storage_keys :: OutputKeyStorage St EK;
  storage_height :: HeightStorage St EH;
  storage_flush : M St EF unit;
}.

(** The default [Storage::flush]. *)
Definition default_flush {St EF} : M St EF unit := ret tt.

(** The default [InvoiceStorage::lowest_height], and its closure. *)
Definition lowest_height_closure {E} : EachClosure (option Z) E :=
  λ invoice_or_err,
    let! invoice := lift (match invoice_or_err with inl i => Ok i | inr e => Err e end) in
    let current_height := inv_current_height invoice in
    modify (λ lowest,
      match lowest with
      | Some l => if current_height <? l then Some current_height else lowest
      | None => Some current_height
      end).

Definition is_lowest_height `{InvoiceStorage St E} : M St E (option Z) :=
  λ s, match is_try_for_each s lowest_height_closure None with
       | (lowest, Ok _) => (s, Ok lowest)
       | (_, Err e) => (s, Err e)
       | (_, Panic) => (s, Panic)
       | (_, Hang) => (s, Hang)
       end.

(** * The storage manager and its clients: [storage/mod.rs] *)

Section manager.
Context {St EI EK EH EF : Type} `{!Storage St EI EK EH EF}.

(** [Box<dyn Error>] of any of the four error types. *)
Inductive AnyError :=
  | EInvoice (e : EI)
  | EKey (e : EK)
  | EHeight (e : EH)
  | EFlush (e : EF).

Inductive StorageError :=
  | Send
  | Receive
  | Internal (e : AnyError).

(** A request, indexed by the type of what its [response] carries.  The
    closure of [ForEachInvoice] comes with its captured variables, whose
    final value is the response. *)
Inductive Method : Type → Type :=
  | InsertInvoice (invoice : Invoice) : Method unit
  | RemoveInvoice (id : InvoiceId) : Method (option Invoice)
  | UpdateInvoice (invoice : Invoice) : Method (option Invoice)
  | GetInvoice (id : InvoiceId) : Method (option Invoice)
  | GetInvoiceIds : Method (list InvoiceId)
  | ContainsSubIndex (index : SubIndex) : Method bool
  | ForEachInvoice {C : Type} (f : EachClosure C EI) (c : C) : Method C
  | LowestInvoiceHeight : Method (option Z)
  | GetHeight : Method (option Z)
  | UpsertHeight (height : Z) : Method (option Z)
  | GetOutputKeyId (key : OutputPubKey) : Method (option OutputId)
  | InsertOutputKey (key : OutputPubKey) (output_id : OutputId) : Method unit
  | Flush : Method unit.

(** Run the closure over the store; the store itself is only read. *)
Definition for_each_method {C} (f : EachClosure C EI) (c : C) : M St EI C :=
  λ s, match is_try_for_each s f c with
       | (c', Ok _) => (s, Ok c')
       | (_, Err e) => (s, Err e)
       | (_, Panic) => (s, Panic)
       | (_, Hang) => (s, Hang)
       end.

Definition Manager_handle {A} (message : Method A) : M St AnyError A :=
  match message with
  | InsertInvoice invoice => map_err EInvoice (is_insert invoice)
  | RemoveInvoice id => map_err EInvoice (is_remove id)
  | UpdateInvoice invoice => map_err EInvoice (is_update invoice)
  | GetInvoice id => map_err EInvoice (is_get id)
  | GetInvoiceIds => map_err EInvoice is_get_ids
  | ContainsSubIndex index => map_err EInvoice (is_contains_sub_index index)
  | ForEachInvoice f c => map_err EInvoice (for_each_method f c)
  | LowestInvoiceHeight => map_err EInvoice is_lowest_height
  | GetHeight => map_err EHeight hs_get
  | UpsertHeight height => map_err EHeight (hs_upsert height)
  | GetOutputKeyId key => map_err EKey (ks_get key)
  | InsertOutputKey key output_id => map_err EKey (ks_insert key output_id)
  | Flush => map_err EFlush storage_flush
  end.

(** The task spawned by [Client::new]: it owns the store, and handles one
    message after the other until a handler panics. *)
Inductive Manager :=
  | Running (store : St)
  | Dead.

Definition Client_new (store : St) : Manager := Running store.

(** A round trip: [send] fails once the task is gone, and the [response]
    never arrives if the task dies while it handles the message. *)
Definition client_request {A} (message : Method A) : M Manager StorageError A :=
  λ mgr,
    match mgr with
    | Dead => (Dead, Err Send)
    | Running s =>
        match Manager_handle message s with
        | (s', Ok a) => (Running s', Ok a)
        | (s', Err e) => (Running s', Err (Internal e))
        | (_, Panic) => (Dead, Err Receive)
        | (s', Hang) => (Running s', Hang)
        end
    end.

Definition Client_insert_invoice (invoice : Invoice) : M Manager StorageError unit :=
  client_request (InsertInvoice invoice).
Definition Client_remove_invoice (id : InvoiceId) : M Manager StorageError (option Invoice) :=
  client_request (RemoveInvoice id).
Definition Client_update_invoice (invoice : Invoice) : M Manager StorageError (option Invoice) :=
  client_request (UpdateInvoice invoice).
Definition Client_get_invoice (id : InvoiceId) : M Manager StorageError (option Invoice) :=
  client_request (GetInvoice id).
Definition Client_get_invoice_ids : M Manager StorageError (list InvoiceId) :=
  client_request GetInvoiceIds.
Definition Client_contains_sub_index (index : SubIndex) : M Manager StorageError bool :=
  client_request (ContainsSubIndex index).
Definition Client_try_for_each_invoice {C} (f : EachClosure C EI) (c : C) :
    M Manager StorageError C :=
  client_request (ForEachInvoice f c).
Definition Client_lowest_invoice_height : M Manager StorageError (option Z) :=
  client_request LowestInvoiceHeight.
Definition Client_get_height : M Manager StorageError (option Z) :=
  client_request GetHeight.
Definition Client_upsert_height (height : Z) : M Manager StorageError (option Z) :=
  client_request (UpsertHeight height).
Definition Client_get_output_key_id (key : OutputPubKey) :
    M Manager StorageError (option OutputId) :=
  client_request (GetOutputKeyId key).
Definition Client_insert_output_key (key : OutputPubKey) (output_id : OutputId) :
    M Manager StorageError unit :=
  client_request (InsertOutputKey key output_id).
Definition Client_flush : M Manager StorageError unit :=
  client_request Flush.

End manager.
Arguments AnyError : clear implicits.
Arguments StorageError : clear implicits.
Arguments Method EI : clear implicits.
Arguments Manager : clear implicits.

(** * What the documentation of the traits promises *)

(** What a store remembers. *)
Record StoreView := mk_StoreView {
  v_invoices : gmap InvoiceId Invoice;
  v_keys : gmap OutputPubKey OutputId;
  v_height : option Z;
}.

Definition set_v_invoices (m : gmap InvoiceId Invoice) (v : StoreView) : StoreView :=
  mk_StoreView m (v_keys v) (v_height v).
Definition set_v_keys (m : gmap OutputPubKey OutputId) (v : StoreView) : StoreView :=
  mk_StoreView (v_invoices v) m (v_height v).
Definition set_v_height (h : option Z) (v : StoreView) : StoreView :=
  mk_StoreView (v_invoices v) (v_keys v) h.

(** Each invoice is filed under its own id, and the fields have the values
    their types allow. *)
Definition view_wf (v : StoreView) : Prop :=
  ∀ id i, v_invoices v !! id = Some i → Invoice_id i = id ∧ Invoice_wf i.

(** A request whose arguments have the values their types allow. *)
Definition message_wf {EI A} (message : Method EI A) : Prop :=
  match message with
  | InsertInvoice i | UpdateInvoice i => Invoice_wf i
  | RemoveInvoice id | GetInvoice id => InvoiceId_wf id
  | ContainsSubIndex x => SubIndex_wf x
  | InsertOutputKey k o => OutputPubKey_wf k ∧ OutputId_wf o
  | GetOutputKeyId k => OutputPubKey_wf k
  | UpsertHeight h => in_u64 h
  | _ => True
  end.

(** The outcome of an operation that may fail without effect. *)
Definition or_fail {St E A} (wf : St → Prop) (view : St → StoreView) (s : St)
    (ok : A → StoreView → Prop) (s' : St) (r : outcome E A) : Prop :=
  wf s' ∧
  match r with
  | Ok a => ok a (view s')
  | Err _ => view s' = view s
  | _ => False
  end.

(** Operations may fail, and then change nothing; when they succeed, they
    are the operations of finite maps.  [contains_sub_index] may answer
    [true] too often, but never misses an invoice. *)
Class LawfulStorage (St EI EK EH EF : Type) `{!Storage St EI EK EH EF}
    (wf : St → Prop) (view : St → StoreView) : Prop := {
  law_wf s : wf s → view_wf (view s);
  law_insert s i : wf s → Invoice_wf i →
    wp (is_insert i)
       (or_fail wf view s (λ _ v', v_invoices (view s) !! Invoice_id i = None ∧
          v' = set_v_invoices (<[Invoice_id i := i]> (v_invoices (view s))) (view s))) s;
  law_remove s id : wf s → InvoiceId_wf id →
    wp (is_remove id)
       (or_fail wf view s (λ o v', o = v_invoices (view s) !! id ∧
          v' = set_v_invoices (delete id (v_invoices (view s))) (view s))) s;
  law_update s i : wf s → Invoice_wf i →
    wp (is_update i)
       (or_fail wf view s (λ o v', o = v_invoices (view s) !! Invoice_id i ∧
          v' = match o with
               | Some _ => set_v_invoices (<[Invoice_id i := i]> (v_invoices (view s))) (view s)
               | None => view s
               end)) s;
  law_get s id : wf s → InvoiceId_wf id →
    wp (is_get id) (or_fail wf view s (λ o v', v' = view s ∧ o = v_invoices (view s) !! id)) s;
  law_get_ids s : wf s →
    wp is_get_ids
       (or_fail wf view s (λ l v', v' = view s ∧ l ≡ₚ (map_to_list (v_invoices (view s))).*1)) s;
  law_contains s x : wf s → SubIndex_wf x →
    wp (is_contains_sub_index x)
       (or_fail wf view s (λ b v', v' = view s ∧
          ∀ id, is_Some (v_invoices (view s) !! id) → sub_index id = x → b = true)) s;
  law_for_each s : wf s →
    ∃ items invoices,
      invoices ≡ₚ (map_to_list (v_invoices (view s))).*2 ∧
      Forall2 (λ it i, it = inl i ∨ ∃ e, it = inr e) items invoices ∧
      ∀ C (f : EachClosure C EI) c, is_try_for_each s f c = for_each items f c;
  law_key_insert s k o : wf s → OutputPubKey_wf k → OutputId_wf o →
    wp (ks_insert k o)
       (or_fail wf view s (λ _ v', v_keys (view s) !! k = None ∧
          v' = set_v_keys (<[k := o]> (v_keys (view s))) (view s))) s;
  law_key_get s k : wf s → OutputPubKey_wf k →
    wp (ks_get k) (or_fail wf view s (λ o v', v' = view s ∧ o = v_keys (view s) !! k)) s;
  law_upsert s h : wf s → in_u64 h →
    wp (hs_upsert h)
       (or_fail wf view s (λ o v', o = v_height (view s) ∧ v' = set_v_height (Some h) (view s))) s;
  law_height s : wf s →
    wp hs_get (or_fail wf view s (λ o v', v' = view s ∧ o = v_height (view s))) s;
  law_flush s : wf s →
    wp storage_flush (or_fail wf view s (λ _ v', v' = view s)) s;
}.

(** A store on which reading invoices and updating them never fails. *)
Class ReliableStorage (St EI EK EH EF : Type) `{!Storage St EI EK EH EF}
    (wf : St → Prop) (view : St → StoreView) : Prop := {
  reliable_for_each st :
    wf st → ∃ invoices, invoices ≡ₚ (map_to_list (v_invoices (view st))).*2 ∧
      ∀ C (f : EachClosure C EI) c, is_try_for_each st f c = for_each (inl <$> invoices) f c;
  reliable_update st i : wf st → Invoice_wf i → ∀ e, (is_update i st).2 ≠ Err e;
}.

(** A store without errors: only an insertion of what exists fails. *)
Class InfallibleStorage (St EI EK EH EF : Type) `{!Storage St EI EK EH EF}
    (wf : St → Prop) (view : St → StoreView) : Prop := {
  never_update st i : wf st → Invoice_wf i → ∀ e, (is_update i st).2 ≠ Err e;
  never_contains st x : wf st → ∀ e, (is_contains_sub_index x st).2 ≠ Err e;
  never_key_get st k : wf st → ∀ e, (ks_get k st).2 ≠ Err e;
  never_key_insert st k o : wf st → v_keys (view st) !! k = None → ∀ e, (ks_insert k o st).2 ≠ Err e;
  never_upsert st h : wf st → ∀ e, (hs_upsert h st).2 ≠ Err e;
  never_flush st : wf st → ∀ e, (storage_flush st).2 ≠ Err e;
}.

(** * Consequences for every lawful store *)

(** One element of a running minimum. *)
Definition min_opt (acc : option Z) (h : Z) : option Z :=
  match acc with Some l => Some (Z.min l h) | None => Some h end.

Lemma foldl_min_opt (l : list Z) acc :
  match foldl min_opt acc l with
  | None => acc = None ∧ l = []
  | Some m => (acc = Some m ∨ m ∈ l) ∧ Forall (Z.le m) l ∧ (∀ a, acc = Some a → m ≤ a)
  end.
Proof.
  revert acc. induction l as [|x l IH]; intros acc; simpl.
  { destruct acc; [|done]. split_and!; [by left|done|]. intros ? [= ->]. lia. }
  specialize (IH (min_opt acc x)).
  destruct (foldl min_opt (min_opt acc x) l) as [m|].
  2:{ destruct IH as [E _]. by destruct acc. }
  destruct IH as (Hm & Hl & Hacc). rewrite elem_of_cons, Forall_cons.
  destruct acc as [a|]; simpl in *.
  - specialize (Hacc _ eq_refl). split_and!; [|lia|done|intros ? [= ->]; lia].
    destruct Hm as [[= <-]|?]; [|by right; right].
    destruct (Z.min_spec a x) as [[_ E]|[_ E]]; rewrite E; auto.
  - specialize (Hacc _ eq_refl). split_and!; [|done|done|done].
    destruct Hm as [[= <-]|?]; auto.
Qed.

Lemma lowest_height_loop {E} (items : list (Invoice + E)) invoices acc :
  Forall2 (λ it i, it = inl i ∨ ∃ e, it = inr e) items invoices →
  wp (for_each items lowest_height_closure)
     (λ lowest r, match r with
                  | Ok _ => lowest = foldl min_opt acc (inv_current_height <$> invoices)
                  | Err _ => True
                  | _ => False
                  end) acc.
Proof.
  intros H. revert acc. induction H as [|it i items invoices Hit _ IH]; intros acc; [done|].
  cbn [for_each]. apply wp_bind. unfold lowest_height_closure at 1.
  destruct Hit as [->|[e ->]]; [|done].
  apply wp_bind. unfold lift, wp at 1. simpl. apply wp_modify.
  eapply wp_mono; [apply IH|]. intros lowest [[]|?| |]; try done.
  intros ->. simpl. f_equal. destruct acc as [l|]; [|done]. simpl.
  destruct (Z.ltb_spec (inv_current_height i) l); f_equal; lia.
Qed.

Section lawful.
Context {St EI EK EH EF : Type} `{!Storage St EI EK EH EF}.
Context (wf : St → Prop) (view : St → StoreView)
        `{HL : !LawfulStorage St EI EK EH EF wf view}.

(** One request of some client, whatever it asks. *)
Definition client_step (mgr mgr' : Manager St) : Prop :=
  ∃ A (message : Method EI A), message_wf message ∧ (client_request message mgr).1 = mgr'.

(** The views a request can leave behind. *)
Definition view_step (v v' : StoreView) : Prop :=
  (∃ m, v' = set_v_invoices m v) ∨
  (∃ k o, v_keys v !! k = None ∧ v' = set_v_keys (<[k := o]> (v_keys v)) v) ∨
  (∃ h, v' = set_v_height (Some h) v).

Lemma view_step_refl v : view_step v v.
Proof. left. exists (v_invoices v). by destruct v. Qed.

Lemma view_step_keys v v' : view_step v v' → v_keys v ⊆ v_keys v'.
Proof. intros [[m ->]|[(k & o & Hk & ->)|[h ->]]]; simpl; [done| |done]. by apply insert_subseteq. Qed.

Lemma or_fail_step {E A} s (ok : A → StoreView → Prop) s' (r : outcome E A) :
  or_fail wf view s ok s' r → (∀ a v', ok a v' → view_step (view s) v') →
  wf s' ∧ view_step (view s) (view s').
Proof.
  intros [? H] Hok. split; [done|]. destruct r; [by eapply Hok| |done|done].
  rewrite H. apply view_step_refl.
Qed.

Lemma is_lowest_height_state s : (is_lowest_height s).1 = s.
Proof.
  unfold is_lowest_height.
  by destruct (is_try_for_each s lowest_height_closure None) as [? [| | |]].
Qed.

(** Lift a law through [map_err]. *)
Lemma law_step {E E' A} (f : E → E') (m : M St E A) (ok : A → StoreView → Prop) s :
  wp m (or_fail wf view s ok) s → (∀ a v', ok a v' → view_step (view s) v') →
  wp (map_err f m) (λ s' _, wf s' ∧ view_step (view s) (view s')) s.
Proof.
  intros Hm Hok. apply wp_map_err. eapply wp_mono; [exact Hm|].
  intros s' r H. destruct r; by apply (or_fail_step _ _ _ _ H Hok).
Qed.

Lemma Manager_handle_view {A} (message : Method EI A) s :
  wf s → message_wf message →
  wp (Manager_handle message) (λ s' _, wf s' ∧ view_step (view s) (view s')) s.
Proof.
  intros Hwf Hmsg.
  assert (Hsame : ∀ v', v' = view s → view_step (view s) v').
  { intros ? ->. apply view_step_refl. }
  destruct message; simpl.
  - eapply law_step; [by apply law_insert|]. intros [] v' [_ ->]. left. eauto.
  - eapply law_step; [by apply law_remove|]. intros o v' [_ ->]. left. eauto.
  - eapply law_step; [by apply law_update|]. intros [] v' [_ ->]; [left; eauto|auto].
  - eapply law_step; [by apply law_get|]. naive_solver.
  - eapply law_step; [by apply law_get_ids|]. naive_solver.
  - eapply law_step; [by apply law_contains|]. naive_solver.
  - unfold wp, map_err, for_each_method.
    destruct (is_try_for_each s f c) as [c' [| | |]]; simpl; auto using view_step_refl.
  - unfold wp, map_err. pose proof (is_lowest_height_state s).
    destruct (is_lowest_height s) as [s' [| | |]]; simplify_eq/=; auto using view_step_refl.
  - eapply law_step; [by apply law_height|]. naive_solver.
  - eapply law_step; [by apply law_upsert|]. intros o v' [_ ->]. do 2 right. eauto.
  - eapply law_step; [by apply law_key_get|]. naive_solver.
  - eapply law_step; [destruct Hmsg; by apply law_key_insert|]. intros [] v' [? ->]. right; left. eauto.
  - eapply law_step; [by apply law_flush|]. naive_solver.
Qed.

Lemma client_request_view {A} (message : Method EI A) s s' :
  wf s → message_wf message → (client_request message (Running s)).1 = Running s' →
  wf s' ∧ view_step (view s) (view s').
Proof.
  intros Hwf Hmsg. pose proof (Manager_handle_view message s Hwf Hmsg) as H. unfold wp in H.
  simpl. destruct (Manager_handle message s) as [s'' [| | |]]; simpl in *; intros; by simplify_eq.
Qed.

(** Whatever sequence of requests its clients make, a lawful store that
    is still running never forgets or changes the output recorded for an
    output key, and keeps every invoice under its own id.  (The first is
    what the protection against the burning bug rests on.) *)
Theorem output_keys_append_only s s' :
  wf s → rtc client_step (Running s) (Running s') →
  v_keys (view s) ⊆ v_keys (view s') ∧ view_wf (view s').
Proof.
  intros Hwf Hsteps. remember (Running s) as m eqn:Em. remember (Running s') as m' eqn:Em'.
  revert s Em Hwf. induction Hsteps as [m|m m1 m2 (A & message & Hmsg & Hm) Hsteps IH];
    intros s -> Hwf.
  { simplify_eq. split; [done|]. by apply law_wf. }
  subst m2. destruct m1 as [s1|].
  - destruct (client_request_view message s s1 Hwf Hmsg Hm) as [Hwf1 Hv].
    destruct (IH eq_refl s1 eq_refl Hwf1) as [Hk ?]. split; [|done].
    etrans; [by apply view_step_keys|done].
  - (* Once dead, always dead. *)
    exfalso. clear IH Hm. remember Dead as d eqn:Ed. remember (Running s') as m2 eqn:E2.
    induction Hsteps as [|d m3 m2 (B & message' & _ & H) _ IH']; [by simplify_eq|].
    subst d. apply IH'; [by rewrite <-H|done].
Qed.

(** [lowest_height], the default method of the trait, is the minimum of
    the current heights of the stored invoices, [None] exactly when there
    are none; it fails only if reading an invoice does, and changes
    nothing. *)
Theorem lowest_height_spec s :
  wf s →
  wp is_lowest_height (λ s' r, s' = s ∧
    match r with
    | Ok None => v_invoices (view s) = ∅
    | Ok (Some h) =>
        (∃ id i, v_invoices (view s) !! id = Some i ∧ inv_current_height i = h) ∧
        (∀ id i, v_invoices (view s) !! id = Some i → h ≤ inv_current_height i)
    | Err _ => True
    | _ => False
    end) s.
Proof.
  intros Hwf. destruct (law_for_each s Hwf) as (items & invoices & Hperm & Hitems & Heach).
  pose proof (lowest_height_loop items invoices None Hitems) as Hloop.
  assert (Hmem : ∀ i, i ∈ invoices ↔ ∃ id, v_invoices (view s) !! id = Some i).
  { intros i. rewrite Hperm, list_elem_of_fmap. split.
    - intros ([id ?] & -> & ?%elem_of_map_to_list). eauto.
    - intros [id ?]. exists (id, i). by rewrite elem_of_map_to_list. }
  unfold wp in *. unfold is_lowest_height. rewrite Heach.
  destruct (for_each items _ None) as [lowest [[]|?| |]]; simpl in *; try done.
  split; [done|]. subst lowest.
  pose proof (foldl_min_opt (inv_current_height <$> invoices) None) as Hmin.
  destruct (foldl min_opt None _) as [h|].
  - destruct Hmin as ([?|(i & -> & Hi)%list_elem_of_fmap] & Hall & _); [done|].
    rewrite Forall_fmap, Forall_forall in Hall. split.
    + apply Hmem in Hi as [id ?]. eauto.
    + intros id j Hj. apply Hall, Hmem. eauto.
  - destruct Hmin as [_ ->%fmap_nil_inv]. apply map_eq. intros id. rewrite lookup_empty.
    apply eq_None_not_Some. intros [i Hi]. assert (i ∈ []) as ?%elem_of_nil; [|done].
    apply Hmem. eauto.
Qed.
End lawful.
