(* ===== verification/StorageTests.v ===== *)
(** The unit tests of the storage traits ([library/src/storage/],
    [invoice_storage.rs], [output_key_storage.rs] and [height_storage.rs]), and
    that every store which keeps the promises of the traits passes them. *)
From S2P Require Import Prelude.
From S2P Require Import TestKit.
From S2P Require Import Invoice.
From S2P Require Import Storage.

(** * The tests *)

Section tests.
Context `{Build} {St E : Type}.

Definition dummy_invoice {S} : M S Empty_set Invoice :=
  Invoice_new "4a1wsbqdcbucqt3dagfmqvfchxscf43m6c5r4b6jxt3duwualncu9xtenrpmumcb3c16kvp9y7thflcj5bamw3umsy93w3w"
    (SubIndex_new 123 123) 123 1 1 1 "description".
Definition dummy_invoice_2 {S} : M S Empty_set Invoice :=
  Invoice_new "4A1WSBQdCbUCqt3DaGfmqVFchXScF43M6c5r4B6JXT3dUwuALncU9XTEnRPmUMcB3c16kVP9Y7thFLCJ5BaMW3UmSy93w3w"
    (SubIndex_new 321 321) 321 2 2 2 "description_2".
Definition with_description (d : string) (i : Invoice) : Invoice :=
  mk_Invoice (inv_address i) (inv_index i) (inv_creation_height i) (inv_amount_requested i)
    (inv_amount_paid i) (inv_paid_height i) (inv_confirmations_required i) (inv_current_height i)
    (inv_expiration_height i) (inv_transfers i) d.

(** ** [invoice_storage.rs] *)

Section invoices.
Context `{!InvoiceStorage St E}.
Notation maybe_eq := (option_eqb Invoice_eq).

Definition test_insert_and_get : Test St :=
  let! invoice := dummy_invoice in
  unwrap (is_insert invoice) ;;;
  let! got := unwrap (is_get (Invoice_id invoice)) in
  assert_eq maybe_eq got (Some invoice).

Definition test_insert_existing : Test St :=
  let! invoice := dummy_invoice in
  unwrap (is_insert invoice) ;;;
  let! got := unwrap (is_get (Invoice_id invoice)) in
  assert_eq maybe_eq got (Some invoice) ;;;
  let invoice := with_description "test" invoice in
  expect_err (is_insert invoice) ;;;
  let! got := unwrap (is_get (Invoice_id invoice)) in
  assert_ne maybe_eq got (Some invoice).

Definition test_remove : Test St :=
  let! invoice := dummy_invoice in
  unwrap (is_insert invoice) ;;;
  let! got := unwrap (is_get (Invoice_id invoice)) in
  assert_eq maybe_eq got (Some invoice) ;;;
  let! removed := unwrap (is_remove (Invoice_id invoice)) in
  assert_eq maybe_eq removed (Some invoice) ;;;
  let! got := unwrap (is_get (Invoice_id invoice)) in
  assert_eq maybe_eq got None.

Definition test_remove_non_existent : Test St :=
  let! invoice := dummy_invoice in
  let! got := unwrap (is_get (Invoice_id invoice)) in
  assert_eq maybe_eq got None ;;;
  let! removed := unwrap (is_remove (Invoice_id invoice)) in
  assert_eq maybe_eq removed None ;;;
  let! got := unwrap (is_get (Invoice_id invoice)) in
  assert_eq maybe_eq got None.

Definition test_update : Test St :=
  let! invoice := dummy_invoice in
  unwrap (is_insert invoice) ;;;
  let updated_invoice := with_description "test" invoice in
  let! old := unwrap (is_update updated_invoice) in
  assert_eq maybe_eq old (Some invoice) ;;;
  let! got := unwrap (is_get (Invoice_id invoice)) in
  assert_eq maybe_eq got (Some updated_invoice).

Definition test_update_empty : Test St :=
  let! invoice := dummy_invoice in
  let! old := unwrap (is_update invoice) in
  assert_eq maybe_eq old None ;;;
  let! got := unwrap (is_get (Invoice_id invoice)) in
  assert_eq maybe_eq got None.

Definition test_get_non_existent : Test St :=
  let! invoice := dummy_invoice in
  let! got := unwrap (is_get (Invoice_id invoice)) in
  assert_eq maybe_eq got None ;;;
  let! got := unwrap (is_get (Invoice_id invoice)) in
  assert_eq maybe_eq got None.

(** [sort] of ids. *)
Definition id_le (x y : InvoiceId) : Prop := InvoiceId_cmp x y ≠ Gt.
#[export] Instance id_le_dec x y : Decision (id_le x y).
Proof. unfold id_le. apply _. Defined.

Definition test_get_ids : Test St :=
  let! ids := unwrap is_get_ids in
  assert_eq same ids [] ;;;
  let! invoice_1 := dummy_invoice in
  unwrap (is_insert invoice_1) ;;;
  let! ids := unwrap is_get_ids in
  assert_eq same ids [Invoice_id invoice_1] ;;;
  let! invoice_2 := dummy_invoice_2 in
  unwrap (is_insert invoice_2) ;;;
  let expected_ids := merge_sort id_le [Invoice_id invoice_1; Invoice_id invoice_2] in
  let! actual_ids := unwrap is_get_ids in
  assert_eq same expected_ids (merge_sort id_le actual_ids).

Definition test_contains_subindex : Test St :=
  let! invoice := dummy_invoice in
  unwrap (is_insert invoice) ;;;
  let! b := unwrap (is_contains_sub_index (SubIndex_new 123 123)) in
  assert_that b.

Definition test_doesnt_contain_subindex : Test St :=
  let! b := unwrap (is_contains_sub_index (SubIndex_new 123 123)) in
  assert_that (negb b).

(** The closure of both tests; it captures [count]. *)
Definition count_invoice (invoice : Invoice) : EachClosure Z E :=
  λ invoice_or_err,
    match invoice_or_err with
    | inl i => assert_eq Invoice_eq i invoice ;;; modify Z.succ
    | inr _ => panic
    end.
(** [store.try_for_each(..).unwrap()], and the count after it. *)
Definition count_all (invoice : Invoice) : M St Empty_set Z :=
  λ store, match is_try_for_each store (count_invoice invoice) 0 with
           | (count, Ok _) => (store, Ok count)
           | (_, Err _) | (_, Panic) => (store, Panic)
           | (_, Hang) => (store, Hang)
           end.

Definition test_for_each : Test St :=
  let! invoice := dummy_invoice in
  unwrap (is_insert invoice) ;;;
  let! count := count_all invoice in
  assert_eq Z.eqb count 1.

Definition test_for_each_empty : Test St :=
  let! invoice := dummy_invoice in
  let! count := count_all invoice in
  assert_eq Z.eqb count 0.

Definition test_is_empty : Test St :=
  let! b := unwrap is_is_empty in
  assert_that b ;;;
  let! invoice := dummy_invoice in
  unwrap (is_insert invoice) ;;;
  let! b := unwrap is_is_empty in
  assert_that (negb b) ;;;
  let! _ := unwrap (is_remove (Invoice_id invoice)) in
  let! b := unwrap is_is_empty in
  assert_that b.

Definition test_lowest_height : Test St :=
  let! h := unwrap is_lowest_height in
  assert_eq (option_eqb Z.eqb) h None ;;;
  let! invoice := dummy_invoice in
  unwrap (is_insert invoice) ;;;
  let! h := unwrap is_lowest_height in
  assert_eq (option_eqb Z.eqb) h (Some 0).

Definition invoice_storage_tests : list (Test St) :=
  [test_insert_and_get; test_insert_existing; test_remove; test_remove_non_existent; test_update;
   test_update_empty; test_get_non_existent; test_get_ids; test_contains_subindex;
   test_doesnt_contain_subindex; test_for_each; test_for_each_empty; test_is_empty;
   test_lowest_height].
End invoices.

(** ** [output_key_storage.rs] *)

Section keys.
Context `{!OutputKeyStorage St E}.

Definition dummy_key : OutputPubKey := mk_OutputPubKey 0.
Definition dummy_id : OutputId := mk_OutputId 0 13.
(** [OutputPubKey([1; 32])]: 32 bytes of value one. *)
Definition other_key : OutputPubKey := mk_OutputPubKey (from_be_bytes (replicate 32 1)).

Definition test_key_insert_and_check : Test St :=
  unwrap (ks_insert dummy_key dummy_id) ;;;
  let! got := unwrap (ks_get dummy_key) in
  assert_eq same got (Some dummy_id).

Definition test_key_insert_existing : Test St :=
  unwrap (ks_insert dummy_key dummy_id) ;;;
  let! got := unwrap (ks_get dummy_key) in
  assert_eq same got (Some dummy_id) ;;;
  expect_err (ks_insert dummy_key dummy_id) ;;;
  let! got := unwrap (ks_get dummy_key) in
  assert_eq same got (Some dummy_id).

Definition test_key_doesnt_contain_key : Test St :=
  unwrap (ks_insert other_key dummy_id) ;;;
  let! got := unwrap (ks_get dummy_key) in
  assert_that (bool_decide (got = None)).

Definition output_key_storage_tests : list (Test St) :=
  [test_key_insert_and_check; test_key_insert_existing; test_key_doesnt_contain_key].
End keys.

(** ** [height_storage.rs] *)

Section height.
Context `{!HeightStorage St E}.

Definition test_upsert_and_check : Test St :=
  let! _ := unwrap (hs_upsert 123) in
  let! h := unwrap hs_get in
  assert_eq same h (Some 123).

Definition test_upsert_existing : Test St :=
  let! _ := unwrap (hs_upsert 123) in
  let! h := unwrap hs_get in
  assert_eq same h (Some 123) ;;;
  let! old := unwrap (hs_upsert 124) in
  assert_eq same old (Some 123) ;;;
  let! h := unwrap hs_get in
  assert_eq same h (Some 124).

Definition test_height_doesnt_contain_key : Test St :=
  let! h := unwrap hs_get in
  assert_that (bool_decide (h = None)).

Definition height_storage_tests : list (Test St) :=
  [test_upsert_and_check; test_upsert_existing; test_height_doesnt_contain_key].
End height.
End tests.

(** * A store that keeps its promises passes the tests *)

(** What the tests ask for beyond the laws: nothing fails but for the reasons
    in the documentation, an empty store contains no subaddress, and
    [is_empty] tells whether there are invoices. *)
Class TestedStorage (St EI EK EH EF : Type) `{!Storage St EI EK EH EF}
    (wf : St → Prop) (view : St → StoreView) : Prop := {
  tested_insert st i : wf st → v_invoices (view st) !! Invoice_id i = None → ∀ e, (is_insert i st).2 ≠ Err e;
  tested_remove st id : wf st → ∀ e, (is_remove id st).2 ≠ Err e;
  tested_get st id : wf st → ∀ e, (is_get id st).2 ≠ Err e;
  tested_get_ids st : wf st → ∀ e, (is_get_ids st).2 ≠ Err e;
  tested_height st : wf st → ∀ e, (hs_get st).2 ≠ Err e;
  tested_contains st x : wf st → v_invoices (view st) = ∅ → (is_contains_sub_index x st).2 = Ok false;
  tested_is_empty st : wf st →
    wp is_is_empty (λ st' r, wf st' ∧ view st' = view st ∧
      r = Ok (bool_decide (v_invoices (view st) = ∅))) st;
}.

Section pass.
Context `{Build} {St EI EK EH EF : Type} `{!Storage St EI EK EH EF}.
Context (wf : St → Prop) (view : St → StoreView) `{!LawfulStorage St EI EK EH EF wf view}
  `{!InfallibleStorage St EI EK EH EF wf view} `{!ReliableStorage St EI EK EH EF wf view}
  `{!TestedStorage St EI EK EH EF wf view}.

(** The store works, and has these invoices, or these keys, or this height. *)
Definition holds (m : gmap InvoiceId Invoice) (s : St) : Prop := wf s ∧ v_invoices (view s) = m.
Definition holds_keys (m : gmap OutputPubKey OutputId) (s : St) : Prop := wf s ∧ v_keys (view s) = m.
Definition holds_height (h : option Z) (s : St) : Prop := wf s ∧ v_height (view s) = h.

(** A call that succeeds, as its law says. *)
Lemma unwrap_step {E A B} (m : M St E A) ok (k : A → M St Empty_set B) Q s :
  wp m (or_fail wf view s ok) s → (∀ e, (m s).2 ≠ Err e) →
  (∀ s' a, wf s' → ok a (view s') → wp (k a) Q s') → wp (bind (unwrap m) k) Q s.
Proof using Type.
  intros Hm Hno Hk. apply wp_bind, wp_unwrap. unfold wp in *.
  destruct (m s) as [s' [a|e| |]]; destruct Hm as [Hwf Hr]; try done.
  - by apply Hk.
  - by destruct (Hno e).
Qed.

Lemma insert_step {B} i (k : unit → M St Empty_set B) Q m s :
  holds m s → Invoice_wf i → m !! Invoice_id i = None →
  (∀ s', holds (<[Invoice_id i := i]> m) s' → wp (k tt) Q s') → wp (bind (unwrap (is_insert i)) k) Q s.
Proof using All.
  intros [Hwf <-] Hi Hnew Hk. eapply unwrap_step; [by apply law_insert|by apply tested_insert|].
  intros s' [] Hwf' [_ Hv]. apply Hk. split; [done|]. by rewrite Hv.
Qed.

Lemma insert_refused_step {B} i (k : unit → M St Empty_set B) Q m s :
  holds m s → Invoice_wf i → is_Some (m !! Invoice_id i) →
  (∀ s', holds m s' → wp (k tt) Q s') → wp (bind (expect_err (is_insert i)) k) Q s.
Proof using All.
  intros [Hwf <-] Hi [j Hj] Hk. apply wp_bind, wp_expect_err. pose proof (law_insert s i Hwf Hi) as Hl.
  unfold wp in *. destruct (is_insert i s) as [s' [a|e| |]]; destruct Hl as [Hwf' Hr]; try done.
  - destruct Hr as [Hr _]. by rewrite Hj in Hr.
  - apply Hk. split; [done|]. by rewrite Hr.
Qed.

Lemma get_step {B} id (k : option Invoice → M St Empty_set B) Q m s :
  holds m s → InvoiceId_wf id → (∀ s', holds m s' → wp (k (m !! id)) Q s') →
  wp (bind (unwrap (is_get id)) k) Q s.
Proof using All.
  intros [Hwf <-] Hid Hk. eapply unwrap_step; [by apply law_get|by apply tested_get|].
  intros s' o Hwf' [Hv ->]. apply Hk. split; [done|]. by rewrite Hv.
Qed.

Lemma remove_step {B} id (k : option Invoice → M St Empty_set B) Q m s :
  holds m s → InvoiceId_wf id → (∀ s', holds (delete id m) s' → wp (k (m !! id)) Q s') →
  wp (bind (unwrap (is_remove id)) k) Q s.
Proof using All.
  intros [Hwf <-] Hid Hk. eapply unwrap_step; [by apply law_remove|by apply tested_remove|].
  intros s' o Hwf' [-> Hv]. apply Hk. split; [done|]. by rewrite Hv.
Qed.

Lemma update_step {B} i (k : option Invoice → M St Empty_set B) Q m s :
  holds m s → Invoice_wf i →
  (∀ s', holds (alter (λ _, i) (Invoice_id i) m) s' → wp (k (m !! Invoice_id i)) Q s') →
  wp (bind (unwrap (is_update i)) k) Q s.
Proof using All.
  intros [Hwf <-] Hi Hk. eapply unwrap_step; [by apply law_update|by apply never_update|].
  intros s' o Hwf' [-> Hv]. apply Hk. split; [done|]. rewrite Hv. apply map_eq. intros id.
  rewrite lookup_alter. destruct (v_invoices (view s) !! Invoice_id i) as [j|] eqn:Ej; simpl.
  - rewrite lookup_insert. case_decide as E; [subst; by rewrite ?Ej|done].
  - case_decide as E; [subst; by rewrite ?Ej|done].
Qed.

Lemma get_ids_step {B} (k : list InvoiceId → M St Empty_set B) Q m s :
  holds m s → (∀ s' l, l ≡ₚ (map_to_list m).*1 → holds m s' → wp (k l) Q s') →
  wp (bind (unwrap is_get_ids) k) Q s.
Proof using All.
  intros [Hwf <-] Hk. eapply unwrap_step; [by apply law_get_ids|by apply tested_get_ids|].
  intros s' l Hwf' [Hv Hl]. apply Hk; [done|]. split; [done|]. by rewrite Hv.
Qed.

Lemma is_empty_step {B} (k : bool → M St Empty_set B) Q m s :
  holds m s → (∀ s', holds m s' → wp (k (bool_decide (m = ∅))) Q s') →
  wp (bind (unwrap is_is_empty) k) Q s.
Proof using All.
  intros [Hwf <-] Hk. apply wp_bind, wp_unwrap. pose proof (tested_is_empty s Hwf) as He. unfold wp in *.
  destruct (is_is_empty s) as [s' r]. destruct He as (Hwf' & Hv & ->). apply Hk. split; [done|]. by rewrite Hv.
Qed.

(** Reading all invoices. *)
Lemma count_all_step {B} i (k : Z → M St Empty_set B) Q m s :
  holds m s → (∀ j, j ∈ (map_to_list m).*2 → j = i) →
  wp (k (Z.of_nat (size m))) Q s → wp (bind (count_all i) k) Q s.
Proof using All.
  intros [Hwf <-] Hsame Hk. unfold wp, bind, count_all. destruct (reliable_for_each s Hwf) as (l & Hl & ->).
  assert (Hlen : Z.of_nat (size (v_invoices (view s))) = 0 + Z.of_nat (length l)).
  { by rewrite Hl, length_fmap, length_map_to_list. }
  rewrite Hlen in Hk. clear Hlen. assert (Hall : Forall (λ j, j = i) l).
  { apply Forall_forall. intros j Hj. apply Hsame. by rewrite <-Hl. }
  clear Hl. assert (Hrun : ∀ n, for_each (inl <$> l) (count_invoice (E:=EI) i) n = (n + Z.of_nat (length l), Ok tt)).
  { clear Hk. induction Hall as [|j l -> _ IH]; intros n; [simpl; unfold ret; f_equal; lia|].
    simpl. unfold bind at 1. unfold count_invoice at 1, assert_eq, assert_that, bind, modify.
    rewrite (proj2 (Invoice_eq_same i i)) by done. unfold ret. rewrite IH. f_equal. simpl length. lia. }
  rewrite Hrun. exact Hk.
Qed.

Lemma lowest_run {E} (l : list Invoice) acc :
  for_each (inl <$> l) (lowest_height_closure (E:=E)) acc =
  (foldl min_opt acc (inv_current_height <$> l), Ok tt).
Proof using Type.
  revert acc. induction l as [|i l IH]; intros acc; [done|].
  cbn [fmap list_fmap for_each]. unfold bind at 1, lowest_height_closure at 1, bind, lift, modify. rewrite IH. simpl.
  do 2 f_equal. destruct acc as [h|]; [|done]. simpl.
  destruct (Z.ltb_spec (inv_current_height i) h); f_equal; lia.
Qed.

Lemma lowest_step {B} (k : option Z → M St Empty_set B) Q m s :
  holds m s →
  (∀ l, l ≡ₚ (map_to_list m).*2 → wp (k (foldl min_opt None (inv_current_height <$> l))) Q s) →
  wp (bind (unwrap is_lowest_height) k) Q s.
Proof using All.
  intros [Hwf <-] Hk. destruct (reliable_for_each s Hwf) as (l & Hl & Heach).
  apply wp_bind, wp_unwrap. unfold is_lowest_height, wp. rewrite Heach, lowest_run. by apply Hk.
Qed.

(** ** The invoice tests *)

Notation d1 := (mk_Invoice
  "4a1wsbqdcbucqt3dagfmqvfchxscf43m6c5r4b6jxt3duwualncu9xtenrpmumcb3c16kvp9y7thflcj5bamw3umsy93w3w"
  (SubIndex_new 123 123) 123 1 0 None 1 0 124 [] "description").
Notation d2 := (mk_Invoice
  "4A1WSBQdCbUCqt3DaGfmqVFchXScF43M6c5r4B6JXT3dUwuALncU9XTEnRPmUMcB3c16kVP9Y7thFLCJ5BaMW3UmSy93w3w"
  (SubIndex_new 321 321) 321 2 0 None 2 0 323 [] "description_2").

Lemma dummy_step {B} (k : Invoice → M St Empty_set B) Q s : wp (k d1) Q s → wp (bind dummy_invoice k) Q s.
Proof using Type. done. Qed.
Lemma dummy_2_step {B} (k : Invoice → M St Empty_set B) Q s : wp (k d2) Q s → wp (bind dummy_invoice_2 k) Q s.
Proof using Type. done. Qed.
Lemma assert_step {B} (b : bool) (k : unit → M St Empty_set B) Q s :
  b = true → wp (k tt) Q s → wp (bind (assert_that b) k) Q s.
Proof using Type. by intros ->. Qed.
Lemma assert_last (b : bool) s : b = true → wp (assert_that (S:=St) (E:=Empty_set) b) (λ _ r, r = Ok tt) s.
Proof using Type. by intros ->. Qed.

(** One line of a test. *)
Ltac test_line :=
  cbv zeta; unfold assert_eq, assert_ne;
  lazymatch goal with
  | |- wp (bind dummy_invoice _) _ _ => apply dummy_step
  | |- wp (bind dummy_invoice_2 _) _ _ => apply dummy_2_step
  | |- wp (bind (assert_that _) _) _ _ => apply assert_step; [by vm_compute|]
  | |- wp (assert_that _) _ _ => apply assert_last; by vm_compute
  | H : holds _ ?s |- wp (bind (unwrap (is_insert _)) _) _ ?s =>
      eapply (insert_step _ _ _ _ _ H); [refine (bool_decide_unpack _ _); by vm_compute|by vm_compute|]; clear H s; intros s H
  | H : holds _ ?s |- wp (bind (expect_err (is_insert _)) _) _ ?s =>
      eapply (insert_refused_step _ _ _ _ _ H); [refine (bool_decide_unpack _ _); by vm_compute|by eexists|]; clear H s; intros s H
  | H : holds _ ?s |- wp (bind (unwrap (is_get _)) _) _ ?s =>
      eapply (get_step _ _ _ _ _ H); [refine (bool_decide_unpack _ _); by vm_compute|]; clear H s; intros s H
  | H : holds _ ?s |- wp (bind (unwrap (is_remove _)) _) _ ?s =>
      eapply (remove_step _ _ _ _ _ H); [refine (bool_decide_unpack _ _); by vm_compute|]; clear H s; intros s H
  | H : holds _ ?s |- wp (bind (unwrap (is_update _)) _) _ ?s =>
      eapply (update_step _ _ _ _ _ H); [refine (bool_decide_unpack _ _); by vm_compute|]; clear H s; intros s H
  | H : holds _ ?s |- wp (bind (unwrap is_is_empty) _) _ ?s =>
      eapply (is_empty_step _ _ _ _ H); clear H s; intros s H
  end.

(** The ids of a concrete store, up to their order. *)
Ltac ids_line ids :=
  lazymatch goal with
  | H : holds _ ?s |- wp (bind (unwrap is_get_ids) _) _ ?s =>
      eapply (get_ids_step _ _ _ _ H); clear H s; intros s l Hl H;
      lazymatch type of Hl with _ ≡ₚ ?ids0 => replace ids0 with ids in Hl by by vm_compute end
  end.

Lemma get_ids_passes s : holds ∅ s → wp test_get_ids (λ _ r, r = Ok tt) s.
Proof using All.
  intros Hs. unfold test_get_ids. ids_line (@nil InvoiceId).
  apply Permutation_nil_r in Hl as ->. do 3 test_line. ids_line [Invoice_id d1].
  apply Permutation_singleton_r in Hl as ->. do 3 test_line. cbv zeta. ids_line [Invoice_id d1; Invoice_id d2].
  symmetry in Hl. apply Permutation_length_2_inv in Hl as [-> | ->]; test_line.
Qed.

Lemma contains_passes s : holds ∅ s → wp test_contains_subindex (λ _ r, r = Ok tt) s.
Proof using All.
  intros Hs. unfold test_contains_subindex. do 2 test_line. destruct Hs as [Hwf Hm].
  eapply unwrap_step; [by apply law_contains|by apply never_contains|].
  intros s' b _ [_ Hb]. apply assert_last, (Hb (Invoice_id d1)); [|done].
  rewrite Hm. by eexists.
Qed.

Lemma doesnt_contain_passes s : holds ∅ s → wp test_doesnt_contain_subindex (λ _ r, r = Ok tt) s.
Proof using All.
  intros [Hwf Hm]. unfold test_doesnt_contain_subindex. apply wp_bind, wp_unwrap.
  pose proof (tested_contains s (SubIndex_new 123 123) Hwf Hm) as Hc. unfold wp.
  destruct (is_contains_sub_index _ s) as [s' r]. simpl in *. by subst.
Qed.

Lemma for_each_passes s : holds ∅ s → wp test_for_each (λ _ r, r = Ok tt) s.
Proof using All.
  intros Hs. unfold test_for_each. do 2 test_line. eapply count_all_step; [exact Hs| |].
  - intros j Hj. replace ((map_to_list (<[Invoice_id d1:=d1]> ∅)).*2) with [d1] in Hj by by vm_compute.
    by apply list_elem_of_singleton in Hj.
  - test_line.
Qed.

Lemma for_each_empty_passes s : holds ∅ s → wp test_for_each_empty (λ _ r, r = Ok tt) s.
Proof using All.
  intros Hs. unfold test_for_each_empty. test_line. eapply count_all_step; [exact Hs| |test_line].
  intros j Hj. by apply elem_of_nil in Hj.
Qed.

Lemma lowest_passes s : holds ∅ s → wp test_lowest_height (λ _ r, r = Ok tt) s.
Proof using All.
  intros Hs. unfold test_lowest_height. eapply lowest_step; [exact Hs|].
  intros l ->%Permutation_nil_r. do 3 test_line. eapply lowest_step; [exact Hs|]. intros l Hl.
  replace ((map_to_list (<[Invoice_id d1:=d1]> ∅)).*2) with [d1] in Hl by by vm_compute.
  apply Permutation_singleton_r in Hl as ->. test_line.
Qed.

Lemma invoice_store_passes s t : holds ∅ s → t ∈ invoice_storage_tests → passes t s = true.
Proof using All.
  intros Hs Ht. apply passes_wp. revert t Ht. apply Forall_forall. unfold invoice_storage_tests.
  repeat apply Forall_cons_2; [..|by apply Forall_nil_2].
  - unfold test_insert_and_get. repeat test_line.
  - unfold test_insert_existing. repeat test_line.
  - unfold test_remove. repeat test_line.
  - unfold test_remove_non_existent. repeat test_line.
  - unfold test_update. repeat test_line.
  - unfold test_update_empty. repeat test_line.
  - unfold test_get_non_existent. repeat test_line.
  - by apply get_ids_passes.
  - by apply contains_passes.
  - by apply doesnt_contain_passes.
  - by apply for_each_passes.
  - by apply for_each_empty_passes.
  - unfold test_is_empty. do 5 test_line. lazymatch goal with H : holds _ ?s |- _ =>
      eapply (remove_step _ _ _ _ _ H); [refine (bool_decide_unpack _ _); by vm_compute|]; clear H s; intros s H end.
    repeat test_line.
  - by apply lowest_passes.
Qed.

(** ** The other tests *)

Lemma key_insert_step {B} k o (c : unit → M St Empty_set B) Q m s :
  holds_keys m s → OutputPubKey_wf k → OutputId_wf o → m !! k = None →
  (∀ s', holds_keys (<[k := o]> m) s' → wp (c tt) Q s') → wp (bind (unwrap (ks_insert k o)) c) Q s.
Proof using All.
  intros [Hwf <-] Hk Ho Hnew Hc. eapply unwrap_step; [by apply law_key_insert|by apply never_key_insert|].
  intros s' [] Hwf' [_ Hv]. apply Hc. split; [done|]. by rewrite Hv.
Qed.

Lemma key_refused_step {B} k o (c : unit → M St Empty_set B) Q m s :
  holds_keys m s → OutputPubKey_wf k → OutputId_wf o → is_Some (m !! k) →
  (∀ s', holds_keys m s' → wp (c tt) Q s') → wp (bind (expect_err (ks_insert k o)) c) Q s.
Proof using All.
  intros [Hwf <-] Hk Ho [o' Hs] Hc. apply wp_bind, wp_expect_err. pose proof (law_key_insert s k o Hwf Hk Ho) as Hl.
  unfold wp in *. destruct (ks_insert k o s) as [s' [a|e| |]]; destruct Hl as [Hwf' Hr]; try done.
  - destruct Hr as [Hr _]. by rewrite Hs in Hr.
  - apply Hc. split; [done|]. by rewrite Hr.
Qed.

Lemma key_get_step {B} k (c : option OutputId → M St Empty_set B) Q m s :
  holds_keys m s → OutputPubKey_wf k → (∀ s', holds_keys m s' → wp (c (m !! k)) Q s') →
  wp (bind (unwrap (ks_get k)) c) Q s.
Proof using All.
  intros [Hwf <-] Hk Hc. eapply unwrap_step; [by apply law_key_get|by apply never_key_get|].
  intros s' o Hwf' [Hv ->]. apply Hc. split; [done|]. by rewrite Hv.
Qed.

Lemma upsert_step {B} h (c : option Z → M St Empty_set B) Q m s :
  holds_height m s → in_u64 h → (∀ s', holds_height (Some h) s' → wp (c m) Q s') →
  wp (bind (unwrap (hs_upsert h)) c) Q s.
Proof using All.
  intros [Hwf <-] Hh Hc. eapply unwrap_step; [by apply law_upsert|by apply never_upsert|].
  intros s' o Hwf' [-> Hv]. apply Hc. split; [done|]. by rewrite Hv.
Qed.

Lemma height_step {B} (c : option Z → M St Empty_set B) Q m s :
  holds_height m s → (∀ s', holds_height m s' → wp (c m) Q s') → wp (bind (unwrap hs_get) c) Q s.
Proof using All.
  intros [Hwf <-] Hc. eapply unwrap_step; [by apply law_height|by apply tested_height|].
  intros s' o Hwf' [Hv ->]. apply Hc. split; [done|]. by rewrite Hv.
Qed.

Ltac other_line :=
  unfold assert_eq;
  lazymatch goal with
  | |- wp (bind (assert_that _) _) _ _ => apply assert_step; [by vm_compute|]
  | |- wp (assert_that _) _ _ => apply assert_last; by vm_compute
  | H : holds_keys _ ?s |- wp (bind (unwrap (ks_insert _ _)) _) _ ?s =>
      eapply (key_insert_step _ _ _ _ _ _ H); [by vm_compute..|]; clear H s; intros s H
  | H : holds_keys _ ?s |- wp (bind (expect_err (ks_insert _ _)) _) _ ?s =>
      eapply (key_refused_step _ _ _ _ _ _ H); [by vm_compute..|by eexists|]; clear H s; intros s H
  | H : holds_keys _ ?s |- wp (bind (unwrap (ks_get _)) _) _ ?s =>
      eapply (key_get_step _ _ _ _ _ H); [by vm_compute|]; clear H s; intros s H
  | H : holds_height _ ?s |- wp (bind (unwrap (hs_upsert _)) _) _ ?s =>
      eapply (upsert_step _ _ _ _ _ H); [by vm_compute|]; clear H s; intros s H
  | H : holds_height _ ?s |- wp (bind (unwrap hs_get) _) _ ?s =>
      eapply (height_step _ _ _ _ H); clear H s; intros s H
  end.

Lemma key_tests_pass s t : holds_keys ∅ s → t ∈ output_key_storage_tests → passes t s = true.
Proof using All.
  intros Hs Ht. apply passes_wp. revert t Ht. apply Forall_forall. unfold output_key_storage_tests.
  repeat apply Forall_cons_2; [..|by apply Forall_nil_2].
  - unfold test_key_insert_and_check. repeat other_line.
  - unfold test_key_insert_existing. repeat other_line.
  - unfold test_key_doesnt_contain_key. repeat other_line.
Qed.

Lemma height_tests_pass s t : holds_height None s → t ∈ height_storage_tests → passes t s = true.
Proof using All.
  intros Hs Ht. apply passes_wp. revert t Ht. apply Forall_forall. unfold height_storage_tests.
  repeat apply Forall_cons_2; [..|by apply Forall_nil_2].
  - unfold test_upsert_and_check. repeat other_line.
  - unfold test_upsert_existing. repeat other_line.
  - unfold test_height_doesnt_contain_key. repeat other_line.
Qed.

(** All tests of the three traits. *)
Definition storage_tests : list (Test St) :=
  invoice_storage_tests ++ output_key_storage_tests ++ height_storage_tests.

End pass.
