(* ===== verification/MockInvoices.v ===== *)
(** The invoices that the integration tests expect
    ([testing-utils/src/invoice.rs]). *)
From S2P Require Import Prelude.
From S2P Require Import Sustains.
From S2P Require Import TestKit.
From S2P Require Import Invoice.

Record MockInvoice := mk_MockInvoice {
  mi_address : option string;
  mi_index : SubIndex;
  mi_creation_height : Z;
  mi_amount_requested : Z;
  mi_amount_paid : Z;
  mi_paid_height : option Z;
  mi_confirmations_required : Z;
  mi_current_height : Z;
  mi_expiration_height : Z;
  mi_description : string;
  (* calculated fields *)
  mi_is_expired : bool;
  mi_expires_in : Z;
  mi_is_confirmed : bool;
  mi_confirmations : option Z;
}.

Section mock.
Context `{Build} {S : Type}.

Definition MockInvoice_new {E} (address : option string) (index : SubIndex)
    (creation_height amount_requested confirmations_required expires_in : Z) (description : string) :
    M S E MockInvoice :=
  let! expiration_height := u64_add creation_height expires_in in
  ret (mk_MockInvoice address index creation_height amount_requested 0 None confirmations_required
         creation_height expiration_height description false expires_in false None).

Definition MockInvoice_assert_eq (self : MockInvoice) (update : Invoice) : Test S :=
  (match mi_address self with
   | Some address => assert_eq String.eqb (inv_address update) address
   | None => ret tt
   end) ;;;
  assert_eq same (inv_index update) (mi_index self) ;;;
  assert_eq Z.eqb (inv_creation_height update) (mi_creation_height self) ;;;
  assert_eq Z.eqb (inv_amount_requested update) (mi_amount_requested self) ;;;
  assert_eq Z.eqb (inv_amount_paid update) (mi_amount_paid self) ;;;
  assert_eq Z.eqb (inv_confirmations_required update) (mi_confirmations_required self) ;;;
  assert_eq Z.eqb (inv_current_height update) (mi_current_height self) ;;;
  assert_eq Z.eqb (inv_expiration_height update) (mi_expiration_height self) ;;;
  assert_eq Z.eqb (inv_expiration_height update) (mi_expiration_height self) ;;;
  let! until := u64_sub (inv_expiration_height update)
    (Z.max (inv_creation_height update) (inv_current_height update)) in
  assert_eq Z.eqb until (mi_expires_in self) ;;;
  assert_eq String.eqb (inv_description update) (mi_description self) ;;;
  assert_eq Bool.eqb (Invoice_is_expired update) (mi_is_expired self) ;;;
  assert_eq Z.eqb (Invoice_expiration_in update) (mi_expires_in self) ;;;
  assert_eq Bool.eqb (Invoice_is_confirmed update) (mi_is_confirmed self) ;;;
  assert_eq (option_eqb Z.eqb) (Invoice_confirmations update) (mi_confirmations self).

(** ** What the assertions say *)

(** The expectation agrees with an invoice: the paid height and the transfers
    are not looked at. *)
Record agrees (self : MockInvoice) (update : Invoice) : Prop := {
  ag_address : ∀ a, mi_address self = Some a → inv_address update = a;
  ag_index : inv_index update = mi_index self;
  ag_creation : inv_creation_height update = mi_creation_height self;
  ag_requested : inv_amount_requested update = mi_amount_requested self;
  ag_paid : inv_amount_paid update = mi_amount_paid self;
  ag_required : inv_confirmations_required update = mi_confirmations_required self;
  ag_current : inv_current_height update = mi_current_height self;
  ag_expiration : inv_expiration_height update = mi_expiration_height self;
  ag_description : inv_description update = mi_description self;
  ag_expired : Invoice_is_expired update = mi_is_expired self;
  ag_expires_in : Invoice_expiration_in update = mi_expires_in self;
  ag_confirmed : Invoice_is_confirmed update = mi_is_confirmed self;
  ag_confirmations : Invoice_confirmations update = mi_confirmations self;
}.

Lemma passes_assert (b : bool) (t : Test S) s :
  passes (assert_that b ;;; t) s = true ↔ b = true ∧ passes t s = true.
Proof using Type. unfold passes, bind, assert_that. destruct b; simpl; naive_solver. Qed.
Lemma passes_assert_last (b : bool) s : passes (assert_that (S:=S) (E:=Empty_set) b) s = true ↔ b = true.
Proof using Type. unfold passes, assert_that. by destruct b. Qed.
Lemma option_eqb_eq (x y : option Z) : option_eqb Z.eqb x y = true ↔ x = y.
Proof using Type. destruct x, y; simpl; rewrite ?Z.eqb_eq; naive_solver. Qed.

(** The subtraction of the assertion panics, or wraps around to what is never
    the saturating difference. *)
Lemma passes_sub (x y z : Z) (t : Test S) s :
  in_u64 x → in_u64 y → (passes t s = true → saturating_sub x y = z) →
  passes (let! until := u64_sub x y in assert_eq Z.eqb until z ;;; t) s = true ↔
  y ≤ x ∧ x - y = z ∧ passes t s = true.
Proof using Type.
  intros Hx Hy. unfold u64_sub, u64_checked, assert_eq, saturating_sub, in_u64, u64_max in *. case_decide.
  - change (bind (ret (x - y)) _) with (assert_that (S:=S) (E:=Empty_set) ((x - y) =? z) ;;; t).
    rewrite passes_assert, Z.eqb_eq. intuition lia.
  - destruct overflow_checks; [unfold passes; simpl; intuition (done || lia)|].
    change (bind (ret (wrap_u64 (x - y))) _)
      with (assert_that (S:=S) (E:=Empty_set) (wrap_u64 (x - y) =? z) ;;; t).
    rewrite passes_assert, Z.eqb_eq. unfold wrap_u64.
    assert (0 < (x - y) mod 2 ^ 64).
    { rewrite <-(Z.mod_add (x - y) 1), Z.mod_small by lia. lia. }
    intuition lia.
Qed.

(** The assertions pass exactly if the expectation agrees with the
    invoice and the invoice is not past its expiration: then the assertion
    itself overflows, whatever was expected. *)
Theorem MockInvoice_assert_eq_spec (self : MockInvoice) (update : Invoice) s :
  Invoice_wf update →
  passes (MockInvoice_assert_eq self update) s = true ↔
  agrees self update ∧
  Z.max (inv_creation_height update) (inv_current_height update) ≤ inv_expiration_height update.
Proof using Type.
  intros (_ & Hcreation & _ & _ & _ & Hcurrent & Hexp & _). unfold MockInvoice_assert_eq.
  assert (∀ t, passes ((match mi_address self with
      | Some address => assert_eq String.eqb (inv_address update) address | None => ret tt end) ;;; t) s = true
    ↔ (∀ a, mi_address self = Some a → inv_address update = a) ∧ passes t s = true) as ->.
  { intros t. destruct (mi_address self) as [a|]; unfold assert_eq;
      [rewrite passes_assert, String.eqb_eq|unfold passes; simpl]; naive_solver. }
  unfold assert_eq at 1 2 3 4 5 6 7 8.
  rewrite !passes_assert, passes_sub by first
    [done|unfold in_u64 in *; lia
    |unfold assert_eq; rewrite !passes_assert, !Z.eqb_eq; by intros (_ & _ & ? & _)].
  unfold assert_eq, same.
  rewrite !passes_assert, passes_assert_last, bool_decide_eq_true, !Z.eqb_eq, String.eqb_eq,
    !eqb_true_iff, option_eqb_eq.
  split; [intros; destruct_and!; split; [constructor|]; done|].
  intros [[] Hle]. split_and!; try done. unfold Invoice_expiration_in, saturating_sub in *. lia.
Qed.

(** What the tests expect of a new invoice agrees with what is published
    of it at its creation height, exactly if something is requested and there
    is time to pay. *)
Theorem MockInvoice_new_spec (index : SubIndex) (creation requested required expires_in : Z)
    (address description : string) (s : S) :
  SubIndex_wf index → in_u64 creation → in_u64 requested → in_u64 required → in_u64 expires_in →
  in_u64 (creation + expires_in) →
  passes (let! expected :=
            MockInvoice_new (Some address) index creation requested required expires_in description in
          let! invoice := Invoice_new address index creation requested required expires_in description in
          MockInvoice_assert_eq expected (set_current_height creation invoice)) s = true ↔
  0 < requested ∧ 0 < expires_in.
Proof using Type.
  intros Hi Hc Ha Hr He Hsum. unfold MockInvoice_new, Invoice_new, u64_add.
  rewrite !u64_checked_in by done.
  set (m := mk_MockInvoice (Some address) index creation requested 0 None required creation
    (creation + expires_in) description false expires_in false None).
  set (i := set_current_height creation (mk_Invoice address index creation requested 0 None
    required 0 (creation + expires_in) [] description)).
  transitivity (passes (MockInvoice_assert_eq m i) s = true); [done|].
  rewrite MockInvoice_assert_eq_spec.
  - subst m i. split.
    + intros [[] _]. cbn in *. unfold Invoice_confirmations, Invoice_is_expired in *. cbn in *.
      rewrite Z.leb_gt in ag_expired0. destruct (Z.leb_spec requested 0); [done|lia].
    + intros [Hreq Hexp]. unfold in_u64 in *. split; [constructor|cbn; lia]; cbn; try done; try congruence.
      all: unfold Invoice_is_confirmed, Invoice_confirmations, Invoice_is_expired, Invoice_expiration_in,
        saturating_sub; cbn; rewrite ?Z.leb_gt; try lia.
      all: by replace (requested <=? 0) with false by (symmetry; apply Z.leb_gt; lia).
  - subst i. repeat split; cbn; try done; try apply Hi; try apply Hc; try apply Ha; try apply Hr; try apply Hsum; lia.
Qed.
End mock.

(** ** The properties applied *)

#[local] Instance mock_build : Build := {| overflow_checks := true |}.

(** An invoice that is past its expiration. *)
Definition past_invoice : Invoice := mk_Invoice "4A" (SubIndex_new 0 97) 5 20 0 None 10 30 15 [] "a coffee".
Definition past_expected : MockInvoice :=
  mk_MockInvoice None (SubIndex_new 0 97) 5 20 0 None 10 30 15 "a coffee" true 0 false None.

Lemma MockInvoice_assert_eq_spec_witness :
  agrees past_expected past_invoice ∧
  passes (MockInvoice_assert_eq (S:=unit) past_expected past_invoice) tt ≠ true.
Proof.
  split; [split; by vm_compute|]. intros E.
  apply (MockInvoice_assert_eq_spec past_expected past_invoice tt) in E as [_ Hle].
  - by vm_compute in Hle.
  - refine (bool_decide_unpack _ _); by vm_compute.
Defined.

Lemma MockInvoice_new_spec_witness :
  passes (let! expected := MockInvoice_new (S:=unit) (Some "4A"%string) (SubIndex_new 0 97) 2477657 1 5 10 "" in
          let! invoice := Invoice_new "4A" (SubIndex_new 0 97) 2477657 1 5 10 "" in
          MockInvoice_assert_eq expected (set_current_height 2477657 invoice)) tt = true.
Proof.
  apply (MockInvoice_new_spec (SubIndex_new 0 97) 2477657 1 5 10 "4A" "" tt);
    solve [refine (bool_decide_unpack _ _); by vm_compute | split; lia
      | split; refine (bool_decide_unpack _ _); by vm_compute].
Defined.
