(* ===== verification/InMemory.v ===== *)
(** The in-memory store: [library/src/storage/stores/in_memory.rs], and the
    proof that it is a lawful store. *)
From S2P Require Import Prelude.
From S2P Require Import Invoice.
From S2P Require Import Storage.

Inductive InMemoryStorageError := DuplicateInvoice | DuplicateOutputKey.

Record InMemory := mk_InMemory {
  im_invoices : gmap InvoiceId Invoice;
  im_output_keys : gmap OutputPubKey OutputId;
  im_height : option Z;
}.

Definition InMemory_new : InMemory := mk_InMemory ∅ ∅ None.

Definition set_im_invoices (m : gmap InvoiceId Invoice) (s : InMemory) : InMemory :=
  mk_InMemory m (im_output_keys s) (im_height s).
Definition set_im_keys (m : gmap OutputPubKey OutputId) (s : InMemory) : InMemory :=
  mk_InMemory (im_invoices s) m (im_height s).
Definition set_im_height (h : option Z) (s : InMemory) : InMemory :=
  mk_InMemory (im_invoices s) (im_output_keys s) h.

(** * Invoices *)

Definition InMemory_insert (invoice : Invoice) : M InMemory InMemoryStorageError unit :=
  let! invoices := gets im_invoices in
  if decide (is_Some (invoices !! Invoice_id invoice)) then throw DuplicateInvoice
  else modify (set_im_invoices (<[Invoice_id invoice := invoice]> invoices)).

Definition InMemory_remove (invoice_id : InvoiceId) :
    M InMemory InMemoryStorageError (option Invoice) :=
  let! invoices := gets im_invoices in
  modify (set_im_invoices (delete invoice_id invoices)) ;;;
  ret (invoices !! invoice_id).

Definition InMemory_update (invoice : Invoice) :
    M InMemory InMemoryStorageError (option Invoice) :=
  let! invoices := gets im_invoices in
  match invoices !! Invoice_id invoice with
  | Some old =>
      modify (set_im_invoices (<[Invoice_id invoice := invoice]> invoices)) ;;;
      ret (Some old)
  | None => ret None
  end.

Definition InMemory_get (invoice_id : InvoiceId) :
    M InMemory InMemoryStorageError (option Invoice) :=
  gets (λ s, im_invoices s !! invoice_id).

Definition InMemory_get_ids : M InMemory InMemoryStorageError (list InvoiceId) :=
  gets (λ s, (btree_iter InvoiceId_cmp (im_invoices s)).*1).

(** [self.invoices.range(lo..)]. *)
Definition invoices_range_from (lo : InvoiceId) (m : gmap InvoiceId Invoice) :
    list (InvoiceId * Invoice) :=
  filter (λ p, InvoiceId_cmp p.1 lo ≠ Lt) (btree_iter InvoiceId_cmp m).

Definition InMemory_contains_sub_index (sub_index : SubIndex) :
    M InMemory InMemoryStorageError bool :=
  gets (λ s, bool_decide (is_Some (head
          (invoices_range_from (InvoiceId_new sub_index 0) (im_invoices s))))).

Definition InMemory_try_for_each {C} (s : InMemory)
    (f : EachClosure C InMemoryStorageError) : M C InMemoryStorageError unit :=
  for_each ((λ p, inl p.2) <$> btree_iter InvoiceId_cmp (im_invoices s)) f.

Definition InMemory_is_empty : M InMemory InMemoryStorageError bool :=
  gets (λ s, bool_decide (im_invoices s = ∅)).

#[export] Instance InMemory_InvoiceStorage : InvoiceStorage InMemory InMemoryStorageError := {|
  is_insert := InMemory_insert;
  is_remove := InMemory_remove;
  is_update := InMemory_update;
  is_get := InMemory_get;
  is_get_ids := InMemory_get_ids;
  is_contains_sub_index := InMemory_contains_sub_index;
  is_try_for_each := @InMemory_try_for_each;
  is_is_empty := InMemory_is_empty;
|}.

(** * Output keys and height *)

Definition InMemory_insert_key (key : OutputPubKey) (output_id : OutputId) :
    M InMemory InMemoryStorageError unit :=
  let! output_keys := gets im_output_keys in
  if decide (is_Some (output_keys !! key)) then throw DuplicateOutputKey
  else modify (set_im_keys (<[key := output_id]> output_keys)).

Definition InMemory_get_key (key : OutputPubKey) :
    M InMemory InMemoryStorageError (option OutputId) :=
  gets (λ s, im_output_keys s !! key).

#[export] Instance InMemory_OutputKeyStorage : OutputKeyStorage InMemory InMemoryStorageError := {|
  ks_insert := InMemory_insert_key;
  ks_get := InMemory_get_key;
|}.

Definition InMemory_upsert_height (height : Z) : M InMemory InMemoryStorageError (option Z) :=
  let! old_height := gets im_height in
  modify (set_im_height (Some height)) ;;;
  ret old_height.

Definition InMemory_get_height : M InMemory InMemoryStorageError (option Z) := gets im_height.

#[export] Instance InMemory_HeightStorage : HeightStorage InMemory InMemoryStorageError := {|
  hs_upsert := InMemory_upsert_height;
  hs_get := InMemory_get_height;
|}.

#[export] Instance InMemory_Storage :
  Storage InMemory InMemoryStorageError InMemoryStorageError InMemoryStorageError
    InMemoryStorageError := {|
  storage_flush := default_flush;
|}.

(** * It keeps the promises of the traits *)

Definition InMemory_view (s : InMemory) : StoreView :=
  mk_StoreView (im_invoices s) (im_output_keys s) (im_height s).

(** Invoices are filed under their ids, and heights are unsigned. *)
Definition InMemory_wf (s : InMemory) : Prop :=
  view_wf (InMemory_view s).

Lemma InMemory_wf_insert s i :
  InMemory_wf s → Invoice_wf i →
  InMemory_wf (set_im_invoices (<[Invoice_id i := i]> (im_invoices s)) s).
Proof.
  unfold InMemory_wf, view_wf. simpl. intros H Hi id j.
  intros [[<- <-]|[_ Hj]]%lookup_insert_Some; auto.
Qed.

Lemma InMemory_wf_delete s id :
  InMemory_wf s → InMemory_wf (set_im_invoices (delete id (im_invoices s)) s).
Proof.
  unfold InMemory_wf, view_wf. simpl. intros H id' j [_ Hj]%lookup_delete_Some. auto.
Qed.

Lemma elem_of_range lo m id i :
  (id, i) ∈ invoices_range_from lo m ↔ InvoiceId_cmp id lo ≠ Lt ∧ m !! id = Some i.
Proof. unfold invoices_range_from. by rewrite list_elem_of_filter, elem_of_btree_iter. Qed.

(** What the range query decides: is there an invoice at or after [lo]? *)
Lemma range_head_is_Some lo m :
  is_Some (head (invoices_range_from lo m)) ↔
  ∃ id i, m !! id = Some i ∧ InvoiceId_cmp id lo ≠ Lt.
Proof.
  split.
  - destruct (invoices_range_from lo m) as [|[id i] l] eqn:E; [by intros [? ?]|intros _].
    assert ((id, i) ∈ invoices_range_from lo m) as H by (rewrite E; left).
    apply elem_of_range in H. naive_solver.
  - intros (id & i & Hi & Hc).
    assert ((id, i) ∈ invoices_range_from lo m) as H by by apply elem_of_range.
    destruct (invoices_range_from lo m); [by apply elem_of_nil in H|simpl; eauto].
Qed.

Lemma InMemory_contains_false s x :
  InMemory_wf s →
  ∀ id, is_Some (im_invoices s !! id) → sub_index id = x →
  bool_decide (is_Some (head
    (invoices_range_from (InvoiceId_new x 0) (im_invoices s)))) = true.
Proof.
  intros Hwf id [i Hi] <-. apply bool_decide_eq_true, range_head_is_Some.
  exists id, i. split; [done|]. destruct (Hwf id i Hi) as [<- (_ & [Hh _] & _)].
  unfold InvoiceId_cmp. simpl.
  rewrite (proj2 (ord_eq (cmp:=SubIndex_cmp) _ _) eq_refl).
  by rewrite Z.compare_lt_iff; apply Z.le_ngt.
Qed.

#[export] Instance InMemory_lawful :
  LawfulStorage InMemory InMemoryStorageError InMemoryStorageError InMemoryStorageError
    InMemoryStorageError InMemory_wf InMemory_view.
Proof.
  split; unfold or_fail.
  - done.
  - intros s i Hwf Hi. simpl. unfold InMemory_insert. wp_go; [done|].
    rewrite eq_None_not_Some. auto using InMemory_wf_insert.
  - intros s id Hwf _. simpl. unfold InMemory_remove. wp_go. auto using InMemory_wf_delete.
  - intros s i Hwf Hi. simpl. unfold InMemory_update. wp_go; auto using InMemory_wf_insert.
  - intros s id Hwf _. by apply wp_gets.
  - intros s Hwf. apply wp_gets. split_and!; [done|done|]. simpl. by rewrite btree_iter_perm.
  - intros s x Hwf _. apply wp_gets. split_and!; [done|done|]. by apply InMemory_contains_false.
  - intros s Hwf. exists (inl <$> (btree_iter InvoiceId_cmp (im_invoices s)).*2),
      (btree_iter InvoiceId_cmp (im_invoices s)).*2. split_and!.
    + simpl. by rewrite btree_iter_perm.
    + apply Forall2_fmap_l, Forall_Forall2_diag, Forall_true. intros i. by left.
    + intros C f c. simpl. unfold InMemory_try_for_each. by rewrite <-list_fmap_compose.
  - intros s k o Hwf _ _. simpl. unfold InMemory_insert_key. wp_go; [done|].
    by rewrite eq_None_not_Some.
  - intros s k Hwf _. by apply wp_gets.
  - intros s h Hwf _. simpl. unfold InMemory_upsert_height. by wp_go.
  - intros s Hwf. by apply wp_gets.
  - intros s Hwf. by apply wp_ret.
Qed.

(** Nothing but insertions of what exists ever fails. *)
#[export] Instance InMemory_reliable :
  ReliableStorage InMemory InMemoryStorageError InMemoryStorageError InMemoryStorageError
    InMemoryStorageError InMemory_wf InMemory_view.
Proof.
  split.
  - intros s _. exists (btree_iter InvoiceId_cmp (im_invoices s)).*2. split.
    + simpl. by rewrite btree_iter_perm.
    + intros C f c. simpl. unfold InMemory_try_for_each. by rewrite <-list_fmap_compose.
  - intros s i _ _ e. simpl. unfold InMemory_update, bind, gets.
    by destruct (im_invoices s !! Invoice_id i).
Qed.

#[export] Instance InMemory_infallible :
  InfallibleStorage InMemory InMemoryStorageError InMemoryStorageError InMemoryStorageError
    InMemoryStorageError InMemory_wf InMemory_view.
Proof.
  split; try done.
  - intros s i _ _ e. simpl. unfold InMemory_update, bind, gets.
    by destruct (im_invoices s !! Invoice_id i).
  - intros s k o _ Hk e. simpl in *. unfold InMemory_insert_key, bind, gets. rewrite Hk.
    by rewrite decide_False by by intros [? ?].
Qed.

(** * Properties *)

(** What [contains_sub_index] of the in-memory store decides.  The trait
    asks whether an invoice for the given subaddress exists; the range query
    of the code has no upper end, so the answer is whether some tracked
    invoice has that subaddress index or any greater one.  (It never misses
    an invoice, but it also claims indices that nothing is tracked under.) *)
Theorem InMemory_contains_sub_index_spec s x :
  InMemory_wf s →
  ∃ b, InMemory_contains_sub_index x s = (s, Ok b) ∧
       (b = true ↔ ∃ id, is_Some (im_invoices s !! id) ∧ SubIndex_cmp (sub_index id) x ≠ Lt).
Proof.
  intros Hwf. eexists. split; [done|].
  rewrite bool_decide_eq_true, range_head_is_Some. split.
  - intros (id & i & Hi & Hc). exists id. split; [eauto|]. intros Hlt. apply Hc.
    unfold InvoiceId_cmp. simpl. by rewrite Hlt.
  - intros (id & [i Hi] & Hc). exists id, i. split; [done|].
    destruct (Hwf id i Hi) as [<- (_ & [Hh _] & _)]. unfold InvoiceId_cmp; simpl in *.
    destruct (SubIndex_cmp (inv_index i) x); [|done..].
    by rewrite Z.compare_lt_iff; apply Z.le_ngt.
Qed.

Definition example_invoice : Invoice :=
  mk_Invoice "4A1W" (SubIndex_new 123 123) 123 1 0 None 1 0 124 [] "description".

Definition example_store : InMemory :=
  mk_InMemory {[Invoice_id example_invoice := example_invoice]} ∅ None.

Lemma example_store_wf : InMemory_wf example_store.
Proof.
  intros id i H. simpl in H. apply lookup_singleton_Some in H as [<- <-]. split; [done|].
  decide_goal.
Qed.

(** Nothing is tracked under (0, 5), but the store says so. *)
Lemma InMemory_contains_sub_index_witness :
  InMemory_contains_sub_index (SubIndex_new 0 5) example_store = (example_store, Ok true).
Proof.
  destruct (InMemory_contains_sub_index_spec example_store (SubIndex_new 0 5) example_store_wf)
    as (b & -> & Hb).
  rewrite (proj2 Hb); [done|]. exists (Invoice_id example_invoice).
  split; [by eexists; vm_compute|done].
Defined.

(** The two properties of all lawful stores hold of this one. *)
Lemma output_keys_append_only_witness :
  v_keys (InMemory_view InMemory_new) ⊆
  v_keys (InMemory_view (set_im_keys {[mk_OutputPubKey 7 := mk_OutputId 1 0]} InMemory_new)).
Proof.
  refine (proj1 (output_keys_append_only InMemory_wf InMemory_view InMemory_new _ _ _)).
  - intros id i H. simpl in H. by rewrite lookup_empty in H.
  - apply rtc_once. exists unit, (InsertOutputKey (mk_OutputPubKey 7) (mk_OutputId 1 0)).
    split; [done|by vm_compute].
Defined.

Lemma lowest_height_spec_witness :
  wp is_lowest_height (λ s' r, s' = example_store ∧ r = Ok (Some 0)) example_store.
Proof.
  pose proof (lowest_height_spec InMemory_wf InMemory_view example_store example_store_wf) as H.
  split; [exact (proj1 H)|by vm_compute].
Defined.
