(* ===== verification/Text.v ===== *)
(** Text as the list of its bytes, and the methods of [&str] that the source
    uses on it.  All the text it takes apart is ASCII: header values (whose
    [to_str] gives nothing else) and table names cut at double quotes. *)
From Stdlib Require Import Ascii.
From S2P Require Import Prelude.

Notation text := (list ascii).
Definition txt (s : string) : text := String.list_ascii_of_string s.
Definition dquote : ascii := "034"%char.
Definition squote : ascii := "039"%char.
Definition comma : ascii := ","%char.

(** ** The methods of [&str] *)

Definition is_whitespace (c : ascii) : bool :=
  let n := Ascii.nat_of_ascii c in bool_decide (9 ≤ n ≤ 13)%nat || bool_decide (n = 32%nat).

Fixpoint trim_start_matches (p : ascii → bool) (s : text) : text :=
  match s with
  | c :: s' => if p c then trim_start_matches p s' else s
  | [] => []
  end.
Definition trim_end_matches (p : ascii → bool) (s : text) : text :=
  reverse (trim_start_matches p (reverse s)).
Definition trim (s : text) : text :=
  trim_end_matches is_whitespace (trim_start_matches is_whitespace s).
Definition is_char (c d : ascii) : bool := bool_decide (d = c).

Definition starts_with (field s : text) : bool := bool_decide (field `prefix_of` s).
Definition strip_prefix (p s : text) : option text :=
  if starts_with p s then Some (drop (length p) s) else None.

(** [s.replace(pat, "")] for a nonempty [pat]; [skip] characters belong to
    an occurrence that was already found. *)
Fixpoint remove_all (skip : nat) (pat s : text) : text :=
  match s with
  | [] => []
  | c :: s' =>
      match skip with
      | S k => remove_all k pat s'
      | O => if starts_with pat s then remove_all (length pat - 1) pat s'
             else c :: remove_all 0 pat s'
      end
  end.

(** [s.split(sep)]. *)
Fixpoint split_on (sep : ascii) (s : text) : list text :=
  match s with
  | [] => [[]]
  | c :: s' =>
      if is_char sep c then [] :: split_on sep s'
      else match split_on sep s' with
           | part :: parts => (c :: part) :: parts
           | [] => [[c]]
           end
  end.

(** [format!("{:08x}", n)] of a [u32]. *)
Definition hex_digit (n : Z) : ascii :=
  match txt "0123456789abcdef" !! Z.to_nat n with Some c => c | None => "?"%char end.
Fixpoint hex_digits (k : nat) (n : Z) : text :=
  match k with
  | O => []
  | S k => hex_digits k (n / 16) ++ [hex_digit (n mod 16)]
  end.
Definition fmt_08x (n : Z) : text := hex_digits 8 n.
