(* ===== verification/Bincode.v ===== *)
(** What the two database stores share: the byte encodings of [bincode], and
    typed tables inside maps of raw keys and encoded values. *)
From S2P Require Import Prelude.
From S2P Require Import Invoice.
From S2P Require Import Storage.

Notation bytes := (list Z).

(** [bincode::encode_to_vec] and [bincode::decode_from_slice], whose second
    component (the bytes read) the source drops. *)
Class BincodeCrate := { EncodeError : Type; DecodeError : Type }.
Class Bincode `{BincodeCrate} (A : Type) := {
  encode_to_vec : A → bytes + EncodeError;
  decode_from_slice : bytes → A + DecodeError;
}.

(** Values are encoded, and decoding reads no further than the encoding. *)
Class LawfulBincode `{Bincode A} (wf : A → Prop) : Prop := {
  bincode_roundtrip a : wf a →
    ∃ bs, encode_to_vec a = inl bs ∧ ∀ rest, decode_from_slice (bs ++ rest) = inl a;
}.
Arguments LawfulBincode {_} A {_} wf.

(** The encoding of a struct is that of its fields in order; this is what it
    says of [InvoiceId]. *)
Class StructEncoding `{BincodeCrate} `{!Bincode SubIndex} `{!Bincode InvoiceId} : Prop := {
  encode_invoice_id id bs : encode_to_vec id = inl bs →
    ∃ sub rest, encode_to_vec (sub_index id) = inl sub ∧ bs = sub ++ rest;
}.

Definition left_of {A B} (x : A + B) : option A := match x with inl a => Some a | inr _ => None end.

Section encoding.
Context `{Bincode A} (wf : A → Prop) `{!LawfulBincode A wf}.

Definition encoded (a : A) : bytes := default [] (left_of (encode_to_vec a)).

Lemma encode_wf a : wf a → encode_to_vec a = inl (encoded a).
Proof using LawfulBincode0.
  intros Ha. destruct (bincode_roundtrip a Ha) as (bs & E & _). unfold encoded. by rewrite E.
Qed.
Lemma decode_encoded a rest : wf a → decode_from_slice (encoded a ++ rest) = inl a.
Proof using LawfulBincode0.
  intros Ha. destruct (bincode_roundtrip a Ha) as (bs & E & Hd). unfold encoded. by rewrite E, Hd.
Qed.
Lemma decode_encoded' a : wf a → decode_from_slice (encoded a) = inl a.
Proof using LawfulBincode0. intros. rewrite <-(app_nil_r (encoded a)). by apply decode_encoded. Qed.

(** No encoding continues another one. *)
Lemma encoded_prefix a b rest : wf a → wf b → encoded a `prefix_of` encoded b ++ rest → a = b.
Proof using LawfulBincode0.
  intros Ha Hb [k E]. pose proof (decode_encoded b rest Hb) as Hd.
  rewrite E, decode_encoded in Hd by done. by injection Hd.
Qed.
End encoding.

Lemma Invoice_id_wf i : Invoice_wf i → InvoiceId_wf (Invoice_id i).
Proof. by intros (? & ? & _). Qed.

(** ** Typed tables *)

Section table.
Context {R K V A : Type} `{Countable R, Countable K}.
(** Raw keys and values are read by [dk] and [dv]; [enc] is the raw key of a
    key, and [P] relates keys and values. *)
Context (wfK : K → Prop) (P : K → A → Prop) (enc : K → R) (dk : R → option K) (dv : V → option A).
Context (Henc : ∀ k, wfK k → dk (enc k) = Some k).

Definition good (m : gmap R V) : Prop :=
  ∀ r v, m !! r = Some v → ∃ k a, wfK k ∧ r = enc k ∧ dv v = Some a ∧ P k a.

Definition decode_row (p : R * V) : option (K * A) :=
  k ← dk p.1; a ← dv p.2; Some (k, a).
Definition decoded (m : gmap R V) : gmap K A := list_to_map (omap decode_row (map_to_list m)).

Lemma decode_row_Some m r v k a :
  good m → m !! r = Some v → decode_row (r, v) = Some (k, a) →
  wfK k ∧ r = enc k ∧ dv v = Some a ∧ P k a.
Proof using Henc.
  intros Hm Hr. destruct (Hm r v Hr) as (k' & a' & Hk & -> & Ha & HP).
  unfold decode_row. simpl. rewrite Henc by done. simpl. rewrite Ha. by intros [= <- <-].
Qed.

Lemma decoded_NoDup m l :
  good m → NoDup l.*1 → (∀ p, p ∈ l → m !! p.1 = Some p.2) → NoDup (omap decode_row l).*1.
Proof using Henc.
  intros Hm Hl Hin. induction l as [|[r v] l IH]; [constructor|].
  inversion_clear Hl as [|?? Hr Hnd]. cbn [omap list_omap].
  destruct (decode_row (r, v)) as [[k a]|] eqn:E.
  2:{ apply IH; [done|]. intros p Hp. apply Hin. by right. }
  cbn [fmap list_fmap fst]. constructor; [|apply IH; [done|intros p Hp; apply Hin; by right]].
  intros ([k' a'] & Ek & Hin')%list_elem_of_fmap. simpl in Ek. subst k'.
  apply list_elem_of_omap in Hin' as ([r' v'] & Hp & E').
  apply Hr. apply list_elem_of_fmap. exists (r', v'). split; [|done].
  apply decode_row_Some with (m:=m) in E as (_ & -> & _); [|done|by apply (Hin (r, v)); left].
  by apply decode_row_Some with (m:=m) in E' as (_ & -> & _);
    [|done|by apply (Hin (r', v')); right].
Qed.

Lemma decoded_perm m l :
  good m → l ≡ₚ map_to_list m → omap decode_row l ≡ₚ map_to_list (decoded m).
Proof using Henc.
  intros Hm Hl. unfold decoded. rewrite map_to_list_to_map.
  - by rewrite Hl.
  - apply (decoded_NoDup m); [done|apply NoDup_fst_map_to_list|].
    intros [r v]. apply elem_of_map_to_list.
Qed.

Lemma decoded_Some m k a :
  good m → decoded m !! k = Some a ↔ wfK k ∧ ∃ v, m !! enc k = Some v ∧ dv v = Some a ∧ P k a.
Proof using Henc.
  intros Hm. rewrite <-elem_of_map_to_list, <-(decoded_perm m (map_to_list m)) by done.
  rewrite list_elem_of_omap. split.
  - intros ([r v] & Hr%elem_of_map_to_list & E).
    apply decode_row_Some with (m:=m) in E as (Hk & -> & Ha & HP); [|done..]. eauto.
  - intros (Hk & v & Hv & Ha & HP). exists (enc k, v). split; [by apply elem_of_map_to_list|].
    unfold decode_row. simpl. rewrite Henc by done. simpl. by rewrite Ha.
Qed.

Lemma decoded_lookup m k : good m → wfK k → decoded m !! k = m !! enc k ≫= dv.
Proof using Henc.
  intros Hm Hk. apply option_eq. intros a. rewrite decoded_Some by done. split.
  - intros (_ & v & -> & E & _). done.
  - destruct (m !! enc k) as [v|] eqn:E; [|done]. simpl. intros Ha. split; [done|].
    exists v. split; [done|]. split; [done|]. destruct (Hm _ _ E) as (k' & a' & Hk' & E' & Ha' & HP).
    apply (f_equal dk) in E'. rewrite !Henc in E' by done. naive_solver.
Qed.

Lemma good_insert m k v a :
  good m → wfK k → dv v = Some a → P k a → good (<[enc k:=v]> m).
Proof using Type. intros Hm Hk Ha HP r v' [[<- <-]|[_ ?]]%lookup_insert_Some; eauto 10. Qed.
Lemma good_delete m k : good m → good (delete (enc k) m).
Proof using Type. intros Hm r v [_ ?]%lookup_delete_Some. eauto. Qed.

Lemma enc_ne k k' : wfK k → wfK k' → k ≠ k' → enc k ≠ enc k'.
Proof using Henc. intros Hk Hk' Hne E. apply (f_equal dk) in E. rewrite !Henc in E by done. congruence. Qed.

Lemma decoded_insert m k v a :
  good m → wfK k → dv v = Some a → P k a → decoded (<[enc k:=v]> m) = <[k:=a]> (decoded m).
Proof using Henc.
  intros Hm Hk Ha HP. pose proof (good_insert m k v a Hm Hk Ha HP) as Hm'.
  apply map_eq. intros k'. apply option_eq. intros a'. rewrite decoded_Some by done.
  rewrite lookup_insert_Some, decoded_Some by done. destruct (decide (k = k')) as [<-|Hne].
  - rewrite lookup_insert_eq. naive_solver.
  - split.
    + intros (Hk' & v' & Hv' & ?). rewrite lookup_insert_ne in Hv' by by apply enc_ne. eauto 10.
    + intros [[? _]|[_ (Hk' & v' & Hv' & ?)]]; [done|]. split; [done|]. exists v'.
      by rewrite lookup_insert_ne by by apply enc_ne.
Qed.

Lemma decoded_delete m k :
  good m → wfK k → decoded (delete (enc k) m) = delete k (decoded m).
Proof using Henc.
  intros Hm Hk. pose proof (good_delete m k Hm) as Hm'.
  apply map_eq. intros k'. apply option_eq. intros a'. rewrite decoded_Some by done.
  rewrite lookup_delete_Some, decoded_Some by done. destruct (decide (k = k')) as [<-|Hne].
  - rewrite lookup_delete_eq. naive_solver.
  - split.
    + intros (Hk' & v' & Hv' & ?). rewrite lookup_delete_ne in Hv' by by apply enc_ne. eauto 10.
    + intros [_ (Hk' & v' & Hv' & ?)]. split; [done|]. exists v'.
      by rewrite lookup_delete_ne by by apply enc_ne.
Qed.

Lemma decoded_empty : decoded ∅ = ∅.
Proof using Type. unfold decoded. by rewrite map_to_list_empty. Qed.
End table.

(** ** The tables of a store *)

Definition key_bytes (key : OutputPubKey) : bytes := to_be_bytes 32 (pub_key key).
Definition key_of_bytes (bs : bytes) : option OutputPubKey := Some (mk_OutputPubKey (from_be_bytes bs)).
Lemma key_bytes_inv k : OutputPubKey_wf k → key_of_bytes (key_bytes k) = Some k.
Proof.
  intros Hk. unfold key_of_bytes, key_bytes. rewrite from_to_be_bytes by exact Hk. by destruct k.
Qed.

(** An invoice is filed under its own id. *)
Definition filed (id : InvoiceId) (i : Invoice) : Prop := Invoice_id i = id ∧ Invoice_wf i.

Section values.
Context `{BincodeCrate}.

Definition dec {A} `{!Bincode A} (bs : bytes) : option A := left_of (decode_from_slice bs).

Lemma dec_encoded {A} `{!Bincode A} (wf : A → Prop) `{!LawfulBincode A wf} a :
  wf a → dec (encoded a) = Some a.
Proof using Type. intros Ha. unfold dec. by rewrite (decode_encoded' wf). Qed.

Lemma readable {R K A} `{Countable R} `{!Bincode A} (wfK : K → Prop) (P : K → A → Prop)
    (enc : K → R) (m : gmap R bytes) r v :
  good wfK P enc (dec (A:=A)) m → m !! r = Some v → is_Some (dec (A:=A) v).
Proof using Type. intros Hm Hr. destruct (Hm r v Hr) as (? & ? & _ & _ & -> & _). eauto. Qed.

Definition good_height `{!Bincode Z} (stored : option bytes) : Prop :=
  ∀ v, stored = Some v → ∃ h : Z, in_u64 h ∧ dec v = Some h.
End values.
