(* ===== verification/F64.v ===== *)
(** Numbers of the type [f64], and the conversions of [std::time::Duration]
    from and to them: IEEE 754 binary64 as the Standard Library specifies it. *)
From Stdlib Require Import SpecFloat.
From S2P Require Import Prelude.

Notation f64 := spec_float.

(** [x as f64], and arithmetic that rounds to nearest, ties to even. *)
Definition f64_of_Z (x : Z) : f64 := binary_normalize 53 1024 x 0 false.
Definition f64_add : f64 → f64 → f64 := SFadd 53 1024.
Definition f64_mul : f64 → f64 → f64 := SFmul 53 1024.
Definition f64_div : f64 → f64 → f64 := SFdiv 53 1024.

(** ** Durations *)

(** A [Duration] is its number of nanoseconds, below [2^64] seconds. *)
Notation Duration := Z.
Definition NANOS_PER_SEC : Z := 1000000000.
Definition Duration_from_secs (secs : Z) : Duration := secs * NANOS_PER_SEC.
Definition Duration_max : Duration := 2 ^ 64 * NANOS_PER_SEC - 1.

Definition as_secs_f64 (d : Duration) : f64 :=
  f64_add (f64_of_Z (d / NANOS_PER_SEC))
          (f64_div (f64_of_Z (d mod NANOS_PER_SEC)) (f64_of_Z NANOS_PER_SEC)).

(** [n / d] to the nearest integer, ties to even. *)
Definition div_nearest (n d : Z) : Z :=
  let q := n / d in
  match 2 * (n mod d) ?= d with
  | Lt => q
  | Gt => q + 1
  | Eq => if Z.even q then q else q + 1
  end.

(** [Duration::from_secs_f64]; [None] is its panic. *)
Definition from_secs_f64 (x : f64) : option Duration :=
  match x with
  | S754_zero _ => Some 0
  | S754_finite false m e =>
      let nanos := if 0 <=? e then Zpos m * 2 ^ e * NANOS_PER_SEC
                   else div_nearest (Zpos m * NANOS_PER_SEC) (2 ^ (- e)) in
      if nanos <=? Duration_max then Some nanos else None
  | _ => None
  end.
