(* ===== verification/InvoiceText.v ===== *)
(** The texts of an invoice ([library/src/invoice.rs]): its payment URI, its
    amounts in XMR and how it is displayed.  How the standard library prints
    an [f64], and what the [monero] crate makes of an amount, are parameters. *)
From Stdlib Require Import Ascii.
From Stdlib Require Import SpecFloat.
From S2P Require Import Prelude.
From S2P Require Import Invoice.
From S2P Require Import Text.
From S2P Require Import F64.

Class NumberText := {
  f64_to_string : f64 → text;
  Amount_as_xmr : Z → f64;      (* [Amount::from_pico(x).as_xmr()] *)
}.

(** [s.trim_start_matches(pat)] for a nonempty [pat]; [fuel] is the length of
    [s]. *)
Fixpoint trim_start_str (fuel : nat) (pat s : text) : text :=
  match fuel with
  | O => s
  | S fuel => match strip_prefix pat s with
              | Some s' => trim_start_str fuel pat s'
              | None => s
              end
  end.

Definition to_string (n : Z) : text := txt (pretty n).

Section texts.
Context `{NumberText}.

Definition xmr (piconeros : Z) : f64 :=
  let whole_xmr := piconeros / PICONEROS_PER_XMR in
  let fractional_xmr :=
    f64_div (f64_of_Z (piconeros mod PICONEROS_PER_XMR)) (f64_of_Z PICONEROS_PER_XMR) in
  f64_add (f64_of_Z whole_xmr) fractional_xmr.
Definition Invoice_xmr_requested (self : Invoice) : f64 := xmr (inv_amount_requested self).
Definition Invoice_xmr_paid (self : Invoice) : f64 := xmr (inv_amount_paid self).

Definition Invoice_uri (self : Invoice) : text :=
  let piconeros_due := saturating_sub (inv_amount_requested self) (inv_amount_paid self) in
  let whole_xmr_due := piconeros_due / PICONEROS_PER_XMR in
  let fractional_xmr_due :=
    f64_div (f64_of_Z (piconeros_due mod PICONEROS_PER_XMR)) (f64_of_Z PICONEROS_PER_XMR) in
  let fraction := f64_to_string fractional_xmr_due in
  txt "monero:" ++ txt (inv_address self) ++ txt "?tx_amount=" ++ to_string whole_xmr_due
  ++ txt "." ++ trim_start_str (length fraction) (txt "0.") fraction.

(** [impl Display for Invoice]; a height that is not there is "N/A", and the
    height of a transfer is printed with its quotes. *)
Definition newline : text := [ascii_of_nat 10].
Definition height_text (h : option Z) : text :=
  match h with Some h => to_string h | None => txt "N/A" end.
Definition transfer_text (t : Transfer) : text :=
  newline ++ txt "   {Amount: " ++ to_string (amount t)
  ++ txt ", Height: " ++ [dquote] ++ height_text (height t) ++ [dquote] ++ txt "}".
Definition Invoice_fmt (self : Invoice) : text :=
  txt "Index " ++ txt (SubIndex_fmt (inv_index self)) ++ txt ": " ++ newline
  ++ txt "Paid: " ++ f64_to_string (Amount_as_xmr (inv_amount_paid self)) ++ txt "/"
  ++ f64_to_string (Amount_as_xmr (inv_amount_requested self)) ++ txt " " ++ newline
  ++ txt "Confirmations: " ++ height_text (Invoice_confirmations self) ++ txt " " ++ newline
  ++ txt "Started at: " ++ to_string (inv_creation_height self) ++ txt " " ++ newline
  ++ txt "Current height: " ++ to_string (inv_current_height self) ++ txt " " ++ newline
  ++ txt "Expiration at: " ++ to_string (inv_expiration_height self) ++ txt " " ++ newline
  ++ txt "Description: " ++ [dquote] ++ txt (inv_description self) ++ [dquote] ++ txt " " ++ newline
  ++ txt "transfers: " ++ newline ++ txt "["
  ++ mjoin (transfer_text <$> inv_transfers self)
  ++ (if decide (inv_transfers self = []) then txt "]" else newline ++ txt "]").
End texts.

(** ** Decimal fractions *)

Definition digit (n : Z) : ascii := ascii_of_nat (48 + Z.to_nat n).
Definition digit_value (c : ascii) : Z := Z.of_nat (nat_of_ascii c) - 48.
Definition is_digit (c : ascii) : Prop := 0 ≤ digit_value c < 10.

(** The last [k] decimal digits of [n], and the value of a list of digits. *)
Fixpoint digits (k : nat) (n : Z) : text :=
  match k with
  | O => []
  | S k => digits k (n / 10) ++ [digit (n mod 10)]
  end.
Definition digits_value (ds : text) : Z := foldl (λ acc c, acc * 10 + digit_value c) 0 ds.

(** [m] units of [10^-12] as a decimal without trailing zeros. *)
Definition fraction_digits (m : Z) : text := trim_end_matches (is_char "0"%char) (digits 12 m).
Definition fraction_text (m : Z) : text :=
  if decide (m = 0) then txt "0" else txt "0." ++ fraction_digits m.

(** An [f64] is printed as the shortest decimal that is read back as the same
    number.  The quotient of [m] has at most twelve decimals, so that those
    are what is printed. *)
Definition prints_exactly `{NumberText} (m : Z) : Prop :=
  f64_to_string (f64_div (f64_of_Z m) (f64_of_Z PICONEROS_PER_XMR)) = fraction_text m.

(** What a wallet reads: [whole] XMR and the decimals [ds]. *)
Definition amount_read (whole : Z) (ds : text) : Z :=
  whole * PICONEROS_PER_XMR + digits_value ds * 10 ^ (12 - Z.of_nat (length ds)).

Lemma digit_value_digit n : 0 ≤ n < 10 → digit_value (digit n) = n.
Proof.
  intros. unfold digit_value, digit. rewrite nat_ascii_embedding by lia. lia.
Qed.
Lemma is_digit_digit n : 0 ≤ n < 10 → is_digit (digit n).
Proof. intros. unfold is_digit. by rewrite digit_value_digit. Qed.

Lemma length_digits k n : length (digits k n) = k.
Proof. revert n. induction k as [|k IH]; intros n; [done|]. simpl. rewrite length_app, IH. simpl. lia. Qed.
Lemma digits_are_digits k n : Forall is_digit (digits k n).
Proof.
  revert n. induction k as [|k IH]; intros n; [constructor|]. apply Forall_app. split; [done|].
  apply Forall_singleton, is_digit_digit, Z.mod_pos_bound. lia.
Qed.
Lemma digits_value_snoc ds c : digits_value (ds ++ [c]) = digits_value ds * 10 + digit_value c.
Proof. unfold digits_value. by rewrite foldl_app. Qed.
Lemma digits_value_digits k n : 0 ≤ n < 10 ^ Z.of_nat k → digits_value (digits k n) = n.
Proof.
  revert n. induction k as [|k IH]; intros n Hn; [simpl in Hn; cbn; lia|].
  rewrite Nat2Z.inj_succ, Z.pow_succ_r in Hn by lia. cbn [digits].
  rewrite digits_value_snoc, IH, digit_value_digit by
    (pose proof (Z.mod_pos_bound n 10); split; first [lia|apply Z.div_pos; lia|apply Z.div_lt_upper_bound; lia]).
  pose proof (Z.div_mod n 10). lia.
Qed.

(** Trailing zeros do not count. *)
Lemma trim_zeros_snoc ds : trim_end_matches (is_char "0"%char) (ds ++ ["0"%char])
  = trim_end_matches (is_char "0"%char) ds.
Proof. unfold trim_end_matches. by rewrite reverse_snoc. Qed.
Lemma trim_end_snoc p ds c : p c = false → trim_end_matches p (ds ++ [c]) = ds ++ [c].
Proof.
  intros Hc. unfold trim_end_matches. rewrite reverse_snoc. simpl. rewrite Hc.
  by rewrite reverse_cons, reverse_involutive.
Qed.
Lemma trim_zeros_value ds :
  (length (trim_end_matches (is_char "0"%char) ds) ≤ length ds)%nat ∧
  digits_value ds = digits_value (trim_end_matches (is_char "0"%char) ds)
    * 10 ^ (Z.of_nat (length ds) - Z.of_nat (length (trim_end_matches (is_char "0"%char) ds))).
Proof.
  induction ds as [|c ds IH] using rev_ind; [done|].
  destruct (is_char "0"%char c) eqn:E.
  - apply bool_decide_eq_true in E as ->. rewrite trim_zeros_snoc, digits_value_snoc, length_app.
    destruct IH as [Hl ->]. simpl. split; [lia|]. change (digit_value "0") with 0.
    set (l := trim_end_matches _ ds) in *.
    replace (Z.of_nat (length ds + 1) - Z.of_nat (length l))
      with (Z.succ (Z.of_nat (length ds) - Z.of_nat (length l))) by lia.
    rewrite Z.pow_succ_r by lia. ring.
  - rewrite trim_end_snoc by done. split; [lia|]. by rewrite Z.sub_diag, Z.mul_1_r.
Qed.

Lemma trim_end_forall P p ds : Forall P ds → Forall P (trim_end_matches p ds).
Proof.
  intros Hds. unfold trim_end_matches. apply Forall_reverse. apply Forall_reverse in Hds.
  induction Hds as [|c s Hc Hs IH]; simpl; [constructor|]. destruct (p c); [done|by constructor].
Qed.

Lemma fraction_digits_value m :
  0 ≤ m < PICONEROS_PER_XMR →
  digits_value (fraction_digits m) * 10 ^ (12 - Z.of_nat (length (fraction_digits m))) = m ∧
  Forall is_digit (fraction_digits m) ∧ (length (fraction_digits m) ≤ 12)%nat.
Proof.
  intros Hm. destruct (trim_zeros_value (digits 12 m)) as [Hl Hv].
  rewrite length_digits in Hl, Hv. rewrite digits_value_digits in Hv by done.
  split; [by symmetry|]. split; [|done]. apply trim_end_forall, digits_are_digits.
Qed.

(** ** The payment URI *)

Lemma strip_digits ds : Forall is_digit ds → strip_prefix (txt "0.") ds = None.
Proof.
  intros Hds. unfold strip_prefix, starts_with. case_bool_decide as E; [|done].
  destruct E as [k ->]. exfalso. inversion_clear Hds as [|?? _ Hds']. simpl in Hds'.
  inversion_clear Hds' as [|?? Hd _]. destruct Hd as [Hd _]. by vm_compute in Hd.
Qed.

Lemma strip_fraction ds : Forall is_digit ds →
  trim_start_str (length (txt "0." ++ ds)) (txt "0.") (txt "0." ++ ds) = ds.
Proof.
  intros Hds. assert (strip_prefix (txt "0.") (txt "0." ++ ds) = Some ds) as E.
  { unfold strip_prefix, starts_with. by rewrite bool_decide_true by (by exists ds). }
  change (length (txt "0." ++ ds)) with (S (S (length ds))).
  cbn [trim_start_str]. by rewrite E, strip_digits.
Qed.


(** Shortest decimals of numbers below 1, for up to fifteen of them. *)
Fixpoint shortest (fuel : nat) (k : nat) (m : positive) (e : Z) : text :=
  let c := div_nearest (Zpos m * 10 ^ Z.of_nat k) (2 ^ (- e)) in
  let again := f64_div (f64_of_Z c) (f64_of_Z (10 ^ Z.of_nat k)) in
  match fuel, again with
  | S fuel, S754_finite false m' e' =>
      if (m =? m')%positive && (e =? e') then digits k c else shortest fuel (S k) m e
  | S fuel, _ => shortest fuel (S k) m e
  | O, _ => []
  end.
Definition demo_f64_to_string (x : f64) : text :=
  match x with
  | S754_finite false m e => txt "0." ++ shortest 16 0 m e
  | _ => txt "0"
  end.
#[export] Instance DemoNumberText : NumberText := {|
  f64_to_string := demo_f64_to_string;
  Amount_as_xmr := λ x, xmr x;
|}.

(** 1.234500000007 XMR requested, 0.2 XMR paid. *)
Definition uri_invoice : Invoice :=
  mk_Invoice "84Gv" (SubIndex_new 0 5) 100 1234500000007 200000000000 None 10 0 150 [] "".
Lemma uri_example : Invoice_uri uri_invoice = txt "monero:84Gv?tx_amount=1.034500000007".
Proof. by vm_compute. Qed.

