(* ===== verification/F64Text.v ===== *)
(** How the standard library prints an [f64] with [to_string]: the shortest
    decimal that is read back as the same number, the closest one of that
    length, and never with an exponent. *)
From Stdlib Require Import Ascii.
From Stdlib Require Import SpecFloat.
From S2P Require Import Prelude.
From S2P Require Import Text.
From S2P Require Import F64.
From S2P Require Import InvoiceText.

(** [d * 10^x] is read as [m * 2^e]: it lies between the points half way to
    the neighbours, or on one of them if [m] is even.  Below a power of two
    the neighbours are closer.  All numbers are multiples of [2^(e-2)]. *)
Definition scaled (b x : Z) (n : Z) : Z * Z := if 0 <=? x then (n * b ^ x, 1) else (n, b ^ (- x)).
Definition reads_back (m e d x : Z) : bool :=
  let '(dn, dd) := scaled 10 x d in
  let '(un, ud) := scaled 2 (e - 2) 1 in
  let below := if m =? 2 ^ 52 then 1 else 2 in
  let v := dn * ud in
  let lo := (4 * m - below) * un * dd in
  let hi := (4 * m + 2) * un * dd in
  if Z.even m then (lo <=? v) && (v <=? hi) else (lo <? v) && (v <? hi).

(** The multiple of [10^x] that is closest to [m * 2^e]. *)
Definition closest (m e x : Z) : Z :=
  let '(vn, vd) := scaled 2 e m in
  let '(tn, td) := scaled 10 x 1 in
  div_nearest (vn * td) (vd * tn).

(** From the exponent [x] downwards; seventeen digits are always enough. *)
Fixpoint shortest (fuel : nat) (m e x : Z) : Z * Z :=
  let d := closest m e x in
  match fuel with
  | O => (d, x)
  | S fuel => if (0 <? d) && reads_back m e d x then (d, x) else shortest fuel m e (x - 1)
  end.

(** The exponent of the first digit at most. *)
Definition first_exponent (m e : Z) : Z := (Z.log2 m + e) * 30103 / 100000 + 1.

(** [d * 10^x] in full. *)
Definition decimal_text (d x : Z) : text :=
  if 0 <=? x then to_string (d * 10 ^ x)
  else
    let whole := d / 10 ^ (- x) in
    to_string whole ++ txt "." ++ digits (Z.to_nat (- x)) (d mod 10 ^ (- x)).

Definition sign_text (s : bool) (t : text) : text := if s then txt "-" ++ t else t.
Definition f64_display (f : f64) : text :=
  match f with
  | S754_zero s => sign_text s (txt "0")
  | S754_infinity s => sign_text s (txt "inf")
  | S754_nan => txt "NaN"
  | S754_finite s m e =>
      let '(d, x) := shortest 40 (Zpos m) e (first_exponent (Zpos m) e) in
      sign_text s (decimal_text d x)
  end.

Example f64_display_tenth : f64_display (f64_div (f64_of_Z 1) (f64_of_Z 10)) = txt "0.1".
Proof. by vm_compute. Qed.
Example f64_display_third : f64_display (f64_div (f64_of_Z 1) (f64_of_Z 3)) = txt "0.3333333333333333".
Proof. by vm_compute. Qed.
Example f64_display_whole : f64_display (f64_of_Z (10 ^ 23)) = txt "100000000000000000000000".
Proof. by vm_compute. Qed.
Example f64_display_max : f64_display (f64_of_Z u64_max) = txt "18446744073709552000".
Proof. by vm_compute. Qed.

(** The quotient of an amount is printed as its decimals. *)
#[export] Instance StdNumbers (as_xmr : Z → f64) : NumberText := {|
  f64_to_string := f64_display;
  Amount_as_xmr := as_xmr;
|}.
Example prints_exactly_some as_xmr :
  Forall (prints_exactly (H:=StdNumbers as_xmr)) [1; 999999999999; 230000000000; 73709551615; 123456789012].
Proof. repeat constructor; by vm_compute. Qed.
