(* ===== verification/InvoiceIdApi.v ===== *)
(** Invoice ids in the API of the server:
    [server/src/server/api/types/invoice_id.rs].  The engine of the [base64]
    crate (URL-safe, without padding) is a parameter. *)
From S2P Require Import Prelude.
From S2P Require Import Invoice.
From S2P Require Import Text.
From S2P Require Import Bincode.

Class Base64Crate := {
  Base64DecodeError : Type;
  base64_encode : bytes → text;
  base64_decode : text → bytes + Base64DecodeError;
}.
(** Decoding gives bytes, and reverts encoding. *)
Class LawfulBase64 `{Base64Crate} : Prop := {
  base64_roundtrip bs : Forall is_byte bs → base64_decode (base64_encode bs) = inl bs;
  base64_bytes t bs : base64_decode t = inl bs → Forall is_byte bs;
}.

Notation Base64InvoiceId := text.

Section ids.
Context `{Base64Crate}.

Inductive InvoiceIdParseError :=
  | TooLong (len : nat)
  | TooShort (len : nat)
  | InvalidCharacters (e : Base64DecodeError).

Definition Base64InvoiceId_from (value : InvoiceId) : Base64InvoiceId :=
  base64_encode (to_be_bytes 16 (u128_from_InvoiceId value)).

(** [byte_array.copy_from_slice(slice)] for a [byte_array] of [len] bytes. *)
Definition copy_from_slice {E} (len : nat) (slice : bytes) : outcome E bytes :=
  if decide (length slice = len) then Ok slice else Panic.

Definition invoice_id_from_str (value : text) : outcome InvoiceIdParseError InvoiceId :=
  match base64_decode value with
  | inr e => Err (InvalidCharacters e)
  | inl bytes =>
      if (16 <? length bytes)%nat then Err (TooLong (length bytes))
      else if (length bytes <? 16)%nat then Err (TooShort (length bytes))
      else match copy_from_slice 16 (take 16 bytes) with
           | Ok byte_array => Ok (InvoiceId_from_u128 (from_be_bytes byte_array))
           | Err e => Err e
           | Panic => Panic
           | Hang => Hang
           end
  end.

Definition InvoiceId_try_from_base64 (value : Base64InvoiceId) :
    outcome InvoiceIdParseError InvoiceId := invoice_id_from_str value.

Definition Base64InvoiceId_try_from (value : text) : outcome InvoiceIdParseError Base64InvoiceId :=
  match invoice_id_from_str value with
  | Ok invoice_id => Ok (Base64InvoiceId_from invoice_id)
  | Err e => Err e
  | Panic => Panic
  | Hang => Hang
  end.

(** The wrappers [InvoiceIdPayload] and [InvoiceIdQuery]. *)
Record InvoiceIdPayload := mk_InvoiceIdPayload { payload_invoice_id : Base64InvoiceId }.
Definition InvoiceIdPayload_from (value : InvoiceId) : InvoiceIdPayload :=
  mk_InvoiceIdPayload (Base64InvoiceId_from value).
Record InvoiceIdQuery := mk_InvoiceIdQuery { query_id : Base64InvoiceId }.
Definition InvoiceId_try_from_query (value : InvoiceIdQuery) :
    outcome InvoiceIdParseError InvoiceId := InvoiceId_try_from_base64 (query_id value).

(** ** Properties *)

Context `{!LawfulBase64}.

Lemma base64_length_16 value bs :
  base64_decode value = inl bs → length bs = 16%nat →
  invoice_id_from_str value = Ok (InvoiceId_from_u128 (from_be_bytes bs)).
Proof using Type.
  intros E Hl. unfold invoice_id_from_str, copy_from_slice. rewrite E, Hl. simpl.
  rewrite take_ge by lia. by rewrite decide_True.
Qed.

(** C33: an id survives the trip through its text in the API. *)
Theorem Base64InvoiceId_roundtrip id :
  InvoiceId_wf id → InvoiceId_try_from_base64 (Base64InvoiceId_from id) = Ok id.
Proof using All.
  intros Hid. unfold InvoiceId_try_from_base64, Base64InvoiceId_from.
  rewrite (base64_length_16 _ (to_be_bytes 16 (u128_from_InvoiceId id))).
  - f_equal. rewrite from_to_be_bytes; [by apply InvoiceId_u128_roundtrip|].
    pose proof (InvoiceId_bytes_wf id Hid). rewrite u128_value by done.
    change (256 ^ Z.of_nat 16) with (2 ^ 128). lia.
  - apply base64_roundtrip, to_be_bytes_are_bytes.
  - apply length_to_be_bytes.
Qed.

Lemma query_id_wf query :
  match InvoiceId_try_from_query query with
  | Ok id => InvoiceId_wf id
  | Err _ => True
  | _ => False
  end.
Proof using All.
  unfold InvoiceId_try_from_query, InvoiceId_try_from_base64.
  destruct (base64_decode (query_id query)) as [bs|e] eqn:E.
  2:{ unfold invoice_id_from_str. by rewrite E. }
  destruct (decide (length bs = 16%nat)) as [Hl|Hl].
  - rewrite (base64_length_16 _ bs) by done. apply u128_InvoiceId_roundtrip.
    pose proof (from_be_bytes_bound bs (base64_bytes _ _ E)) as Hb. by rewrite Hl in Hb.
  - unfold invoice_id_from_str. rewrite E. destruct (Nat.ltb_spec 16 (length bs)); [done|].
    by destruct (Nat.ltb_spec (length bs) 16); [|lia].
Qed.

(** What reading an id from text does, whatever the text: it never
    panics, reports the wrong length or the error of the decoder, and else
    gives the id whose text decodes to the same sixteen bytes. *)
Theorem invoice_id_from_str_spec value :
  match base64_decode value with
  | inr e => invoice_id_from_str value = Err (InvalidCharacters e)
  | inl bs =>
      match (length bs ?= 16)%nat with
      | Lt => invoice_id_from_str value = Err (TooShort (length bs))
      | Gt => invoice_id_from_str value = Err (TooLong (length bs))
      | Eq => ∃ id, invoice_id_from_str value = Ok id ∧ InvoiceId_wf id ∧
          base64_decode (Base64InvoiceId_from id) = inl bs
      end
  end.
Proof using All.
  destruct (base64_decode value) as [bs|e] eqn:E.
  2:{ unfold invoice_id_from_str. by rewrite E. }
  pose proof (base64_bytes value bs E) as Hbytes.
  destruct (Nat.compare_spec (length bs) 16) as [Hl|Hl|Hl].
  - eexists. split; [by apply base64_length_16|].
    destruct (u128_InvoiceId_roundtrip (from_be_bytes bs)) as [Hwf Hinv].
    { pose proof (from_be_bytes_bound bs Hbytes) as Hb. by rewrite Hl in Hb. }
    split; [done|]. unfold Base64InvoiceId_from. rewrite Hinv, to_from_be_bytes by done.
    by apply base64_roundtrip.
  - unfold invoice_id_from_str. rewrite E.
    destruct (Nat.ltb_spec 16 (length bs)); [lia|]. by destruct (Nat.ltb_spec (length bs) 16); [|lia].
  - unfold invoice_id_from_str. rewrite E. by destruct (Nat.ltb_spec 16 (length bs)); [|lia].
Qed.

End ids.
