(* ===== verification/Callbacks.v ===== *)
(** The callbacks of the server ([server/src/callbacks.rs]) and the messages
    that they carry ([server/src/server/api/mod.rs]).

    The queue is a task that receives commands, and one task per call, which
    sleeps, calls, and on failure puts the call back.  [queue_step] has one
    rule for each thing that one of these tasks can do next, in any order. *)
From Stdlib Require Import SpecFloat.
From S2P Require Import Prelude.
From S2P Require Import Invoice.
From S2P Require Import F64.
From S2P Require Import Text.
From S2P Require Import InvoiceText.
From S2P Require Import InvoiceIdApi.

(** ** Invoice descriptions and updates *)

Record InvoiceDescription := mk_InvoiceDescription {
  d_order : string;
  d_callback : option string;
}.

Record InvoiceUpdate := mk_InvoiceUpdate {
  u_id : Base64InvoiceId;
  u_address : string;
  u_uri : text;
  u_amount_requested : Z;
  u_amount_paid : Z;
  u_confirmations_required : Z;
  u_confirmations : option Z;
  u_expiration_in : Z;
  u_current_height : Z;
  u_order : string;
  u_callback : option string;
}.

(** What the server uses of [serde_json] and [hyper], and of the printing of
    [f64]: the JSON of a description and its parser, URIs, and requests,
    which are built or not, and then answered, failed or not answered in
    time. *)
Inductive HttpAttempt (E : Type) :=
  | Responded (status : Z)
  | RequestFailed (e : E)
  | TimedOut.
Arguments Responded {E} status.
Arguments RequestFailed {E} e.
Arguments TimedOut {E}.

Class ServerCrates (W : Type) := {
  JsonError : Type;
  InvalidUri : Type;
  HttpError : Type;
  RequestError : Type;
  CallbackUri : Type;
  HttpRequest : Type;
  description_to_json : InvoiceDescription → string + JsonError;
  description_from_json : string → InvoiceDescription + JsonError;
  callback_uri_from_str : string → CallbackUri + InvalidUri;
  post_json : CallbackUri → InvoiceUpdate → HttpRequest + HttpError;
  http_call : HttpRequest → W → W * HttpAttempt RequestError;
}.

Section callbacks.
Context {W : Type} `{!ServerCrates W} `{Base64Crate} `{NumberText}.

Definition from_json_or_any (value : string) : InvoiceDescription :=
  match description_from_json value with
  | inl d => d
  | inr _ => mk_InvoiceDescription value None
  end.

Definition InvoiceUpdate_from (value : Invoice) : InvoiceUpdate :=
  let description := from_json_or_any (inv_description value) in
  mk_InvoiceUpdate (Base64InvoiceId_from (Invoice_id value)) (inv_address value)
    (Invoice_uri value) (inv_amount_requested value) (inv_amount_paid value)
    (inv_confirmations_required value) (Invoice_confirmations value)
    (Invoice_expiration_in value) (inv_current_height value)
    (d_order description) (d_callback description).

(** ** The client *)

Inductive CallbackError :=
  | Request (e : RequestError)
  | InvalidRequest (e : HttpError)
  | Response (status : Z)
  | Timeout
  | InvalidDescription (e : JsonError)
  | InvalidCallback (e : InvalidUri).

Definition is_client_error (status : Z) : bool := (400 <=? status) && (status <? 500).
Definition is_server_error (status : Z) : bool := (500 <=? status) && (status <? 600).

Definition CallbackClient_request (body : InvoiceUpdate) (uri : CallbackUri) : M W CallbackError Z :=
  match post_json uri body with
  | inr e => throw (InvalidRequest e)
  | inl request => λ w,
      match http_call request w with
      | (w, Responded status) =>
          if is_server_error status || is_client_error status then (w, Err (Response status))
          else (w, Ok status)
      | (w, RequestFailed e) => (w, Err (Request e))
      | (w, TimedOut) => (w, Err Timeout)
      end
  end.

(** [Ok(true)] if there was a callback to call. *)
Definition CallbackClient_callback (invoice : Invoice) : M W CallbackError bool :=
  match description_from_json (inv_description invoice) with
  | inr e => throw (InvalidDescription e)
  | inl description =>
      match d_callback description with
      | None => ret false
      | Some uri =>
          match callback_uri_from_str uri with
          | inr e => throw (InvalidCallback e)
          | inl callback_uri =>
              let! _ := CallbackClient_request (InvoiceUpdate_from invoice) callback_uri in
              ret true
          end
      end
  end.

(** ** The queue *)

Inductive CallbackCommand :=
  | Shutdown
  | Call (invoice : Invoice) (retry_count : Z) (delay : Duration).

Definition INITIAL_CALLBACK_RETRY_DELAY : Z := 1.
Definition one_and_a_half : f64 := S754_finite false (3 * 2 ^ 51) (-52).

(** The delay before the next try; [None] if [from_secs_f64] panics. *)
Definition new_delay (delay : Duration) : option Duration :=
  let scaled := f64_mul
    (as_secs_f64 (Z.max delay (Duration_from_secs INITIAL_CALLBACK_RETRY_DELAY))) one_and_a_half in
  match from_secs_f64 scaled with
  | Some d => Some (Z.min d (Duration_from_secs (60 * 60)))
  | None => None
  end.

Definition saturating_inc (n : Z) : Z := Z.min u64_max (n + 1).

(** A spawned call: asleep or calling, and then perhaps waiting for room in
    the channel. *)
Inductive CallTask :=
  | Calling (invoice : Invoice) (retry_count : Z) (delay : Duration)
  | Requeueing (command : CallbackCommand).

Record CallbackQueue := mk_CallbackQueue {
  cq_world : W;
  cq_size : nat;
  cq_channel : list CallbackCommand;
  cq_receiving : bool;              (* the loop of [init] still runs *)
  cq_tasks : list CallTask;
}.
Definition CallbackQueue_init (w : W) (queue_size : nat) : CallbackQueue :=
  mk_CallbackQueue w queue_size [] true [].

(** The loop of [init] takes a command.  A call that has been retried too
    often is reported, and then spawned like any other. *)
Definition queue_receive (max_retries : option Z) (q : CallbackQueue) : option CallbackQueue :=
  if cq_receiving q then
    match cq_channel q with
    | Shutdown :: _ => Some (mk_CallbackQueue (cq_world q) (cq_size q) [] false (cq_tasks q))
    | Call invoice retry_count delay :: channel =>
        let _too_many := if max_retries is Some max then max <=? retry_count else false in
        Some (mk_CallbackQueue (cq_world q) (cq_size q) channel true
                (cq_tasks q ++ [Calling invoice retry_count delay]))
    | [] => None
    end
  else None.

(** A sleeping task wakes up and calls; the tasks it becomes, and whether the
    call was a success. *)
Definition task_call (invoice : Invoice) (retry_count : Z) (delay : Duration) (w : W) :
    W * (list CallTask * bool) :=
  match CallbackClient_callback invoice w with
  | (w, Ok _) => (w, ([], true))
  | (w, Err _) =>
      match new_delay delay with
      | Some d => (w, ([Requeueing (Call invoice (saturating_inc retry_count) d)], false))
      | None => (w, ([], false))
      end
  | (w, _) => (w, ([], false))
  end.

(** [send]: waits for room; the channel is closed once the loop has ended. *)
Definition queue_send (command : CallbackCommand) (q : CallbackQueue) : option CallbackQueue :=
  if cq_receiving q && (length (cq_channel q) <? cq_size q)%nat
  then Some (mk_CallbackQueue (cq_world q) (cq_size q) (cq_channel q ++ [command]) true (cq_tasks q))
  else None.

Definition set_cq_tasks (w : W) (ts : list CallTask) (q : CallbackQueue) : CallbackQueue :=
  mk_CallbackQueue w (cq_size q) (cq_channel q) (cq_receiving q) ts.

(** What a step was. *)
Inductive QueueLabel :=
  | Sent (command : CallbackCommand)
  | Delivered (invoice : Invoice)
  | Internal.

Inductive queue_step (max_retries : option Z) : CallbackQueue → QueueLabel → CallbackQueue → Prop :=
  | step_send q q' command :
      queue_send command q = Some q' → queue_step max_retries q (Sent command) q'
  | step_receive q q' :
      queue_receive max_retries q = Some q' → queue_step max_retries q Internal q'
  | step_call q l r invoice retry_count delay w ts ok :
      cq_tasks q = l ++ Calling invoice retry_count delay :: r →
      task_call invoice retry_count delay (cq_world q) = (w, (ts, ok)) →
      queue_step max_retries q (if ok : bool then Delivered invoice else Internal)
        (set_cq_tasks w (l ++ ts ++ r) q)
  | step_requeue q q' l r command :
      cq_tasks q = l ++ Requeueing command :: r →
      queue_send command (set_cq_tasks (cq_world q) (l ++ r) q) = Some q' →
      queue_step max_retries q Internal q'
  (* [expect] on a closed channel *)
  | step_requeue_panic q l r command :
      cq_tasks q = l ++ Requeueing command :: r → cq_receiving q = false →
      queue_step max_retries q Internal (set_cq_tasks (cq_world q) (l ++ r) q).

Inductive queue_steps (max_retries : option Z) : CallbackQueue → list QueueLabel → CallbackQueue → Prop :=
  | steps_none q : queue_steps max_retries q [] q
  | steps_more q l q' ls q'' :
      queue_step max_retries q l q' → queue_steps max_retries q' ls q'' →
      queue_steps max_retries q (l :: ls) q''.

End callbacks.
