(* ===== verification/CallbackRetries.v ===== *)
(** What becomes of the callbacks in the queue: the delays between tries, and
    that a call is tried again until it succeeds, however often it has been
    retried. *)
From S2P Require Import Prelude.
From S2P Require Import Invoice.
From S2P Require Import F64.
From S2P Require Import InvoiceText.
From S2P Require Import InvoiceIdApi.
From S2P Require Import Callbacks.

(** ** Delays *)

(** The delay before try number [n], if the first is made at once. *)
Fixpoint retry_delay (n : nat) : Duration :=
  match n with
  | O => 0
  | S n => default 0 (new_delay (retry_delay n))
  end.
Definition one_hour : Duration := Duration_from_secs 3600.

(** The delays grow to an hour in twenty-one steps. *)
Definition delays : list Duration := [0; 1500000000; 2250000000; 3375000000; 5062500000;
  7593750000; 11390625000; 17085937500; 25628906250; 38443359375; 57665039062; 86497558593;
  129746337889; 194619506833; 291929260249; 437893890373; 656840835559; 985261253338;
  1477891880007; 2216837820010; 3325256730015; one_hour].
Lemma new_delay_early n :
  (n < 22)%nat → new_delay (default 0 (delays !! n)) = Some (default one_hour (delays !! S n)).
Proof. intros Hn. do 22 (destruct n as [|n]; [by vm_compute|]). lia. Qed.

Lemma retry_delay_lookup n : retry_delay n = default one_hour (delays !! n).
Proof.
  induction n as [|n IH]; [done|]. cbn [retry_delay]. rewrite IH.
  destruct (decide (n < 22)%nat) as [Hn|Hn].
  - pose proof (new_delay_early n Hn) as E. destruct (lookup_lt_is_Some_2 delays n Hn) as [d Hd].
    rewrite Hd in *. cbn [default from_option id] in *. by rewrite E.
  - rewrite !lookup_ge_None_2 by (simpl; lia). by vm_compute.
Qed.

Lemma new_delay_retry n : new_delay (retry_delay n) = Some (retry_delay (S n)).
Proof.
  rewrite !retry_delay_lookup. destruct (decide (n < 22)%nat) as [Hn|Hn].
  - rewrite <-(new_delay_early n Hn). by destruct (lookup_lt_is_Some_2 delays n Hn) as [d ->].
  - rewrite !lookup_ge_None_2 by (simpl; lia). by vm_compute.
Qed.

(** The delays between the tries of a callback.  They never panic and
    never shrink, grow by half each time (up to the rounding of [f64]) from
    one and a half seconds on, and stay at one hour from the twenty-first
    on. *)
Theorem retry_delays n :
  new_delay (retry_delay n) = Some (retry_delay (S n)) ∧
  retry_delay n ≤ retry_delay (S n) ≤ one_hour ∧
  ((21 ≤ n)%nat → retry_delay n = one_hour) ∧
  ((1 ≤ n < 20)%nat → Z.abs (2 * retry_delay (S n) - 3 * retry_delay n) ≤ 1).
Proof.
  split; [apply new_delay_retry|]. rewrite !retry_delay_lookup.
  destruct (decide (n < 22)%nat) as [Hn|Hn].
  - do 22 (destruct n as [|n]; [vm_compute; intuition (congruence || lia)|]). lia.
  - rewrite !lookup_ge_None_2 by (simpl; lia). cbn [default from_option id].
    split; [lia|]. split; [done|lia].
Qed.

(** ** Calls in the queue *)

Section retries.
Context {W : Type} `{!ServerCrates W} `{Base64Crate} `{NumberText}.
Notation queue := (CallbackQueue (W:=W)).

Lemma callback_returns i (w : W) :
  ∃ w', (∃ b, CallbackClient_callback i w = (w', Ok b)) ∨ (∃ e, CallbackClient_callback i w = (w', Err e)).
Proof using Type.
  unfold CallbackClient_callback, CallbackClient_request, bind.
  repeat (case_match; simplify_eq; eauto).
Qed.

Definition command_invoice (c : CallbackCommand) : option Invoice :=
  match c with Call i _ _ => Some i | Shutdown => None end.
Definition task_invoice (t : CallTask) : option Invoice :=
  match t with Calling i _ _ => Some i | Requeueing c => command_invoice c end.
(** The invoices whose callback is waiting or being made. *)
Definition pending (q : queue) : list Invoice :=
  omap command_invoice (cq_channel q) ++ omap task_invoice (cq_tasks q).

Definition sent (ls : list QueueLabel) : list Invoice :=
  omap (λ l, match l with Sent c => command_invoice c | _ => None end) ls.
Definition delivered (ls : list QueueLabel) : list Invoice :=
  omap (λ l, match l with Delivered i => Some i | _ => None end) ls.

(** A call with one of the delays above: what the server sends has none. *)
Definition call_ok (c : CallbackCommand) : Prop :=
  match c with Call _ _ d => ∃ n, d = retry_delay n | Shutdown => False end.
Definition task_ok (t : CallTask) : Prop :=
  match t with Calling i n d => call_ok (Call i n d) | Requeueing c => call_ok c end.
Definition queue_wf (q : queue) : Prop :=
  cq_receiving q = true ∧ Forall call_ok (cq_channel q) ∧ Forall task_ok (cq_tasks q).

Lemma queue_send_wf c q q' :
  queue_send c q = Some q' → call_ok c → queue_wf q →
  queue_wf q' ∧ pending q' ≡ₚ pending q ++ option_list (command_invoice c).
Proof using Type.
  unfold queue_send. intros E Hc (Hr & Hch & Hts). rewrite Hr in E. simpl in E.
  destruct (_ <? _)%nat; simplify_eq. split.
  - split; [done|]. simpl. rewrite Forall_app, Forall_singleton. done.
  - unfold pending. simpl. rewrite omap_app. destruct c as [|i n d]; [done|]. simpl.
    by rewrite <-!app_assoc, (Permutation_app_comm [i]).
Qed.

Lemma queue_step_wf max q l q' :
  queue_step max q l q' → queue_wf q → (∀ c, l = Sent c → call_ok c) →
  queue_wf q' ∧ pending q' ++ delivered [l] ≡ₚ pending q ++ sent [l].
Proof using Type.
  intros Hstep Hwf Hsent. pose proof Hwf as (Hr & Hch & Hts). destruct Hstep as
    [q q' c E|q q' E|q tl tr i n d w ts ok Et Ecall|q q' tl tr c Et E|q tl tr c Et Er].
  - destruct (queue_send_wf c q q' E) as [? Hp]; [by apply Hsent|done|]. split; [done|].
    rewrite Hp. unfold delivered, sent. simpl. rewrite app_nil_r. by destruct c.
  - unfold queue_receive in E. rewrite Hr in E.
    destruct (cq_channel q) as [|[|i n d] ch] eqn:Ech; [done|by inversion_clear Hch|].
    injection E as <-. inversion_clear Hch as [|?? Hc Hch']. split.
    + split; [done|]. simpl. rewrite Forall_app, Forall_singleton. done.
    + unfold pending. simpl. rewrite Ech, omap_app, !app_nil_r. simpl. solve_Permutation.
  - rewrite Et in Hts. apply Forall_app in Hts as [Htl Htr]. inversion_clear Htr as [|?? Hc Htr'].
    destruct Hc as [k ->].
    unfold task_call in Ecall. destruct (callback_returns i (cq_world q)) as [w' [[b Ei]|[e Ei]]];
      rewrite Ei in Ecall; rewrite ?new_delay_retry in Ecall; injection Ecall as <- <- <-.
    + split; [split; [done|]; simpl; by rewrite Forall_app|].
      unfold pending. simpl. rewrite Et, !omap_app. simpl. solve_Permutation.
    + split.
      * split; [done|]. simpl. rewrite Forall_app, Forall_cons. split_and!; [done..| |done].
        by exists (S k).
      * unfold pending. simpl. by rewrite Et, !omap_app, !app_nil_r.
  - rewrite Et in Hts. apply Forall_app in Hts as [Htl Htr]. inversion_clear Htr as [|?? Hc Htr'].
    destruct (queue_send_wf c _ q' E) as [? Hp]; [done| |].
    + split; [done|]. simpl. by rewrite Forall_app.
    + split; [done|]. rewrite Hp. unfold pending. simpl. rewrite Et, !omap_app, !app_nil_r. simpl.
      destruct (command_invoice c); simpl; solve_Permutation.
  - congruence.
Qed.

(** C31: no callback is given up.  As long as the queue runs, whatever its
    tasks do in whatever order, the callbacks that have been sent are those
    that were delivered and those that are still in the queue, for every
    limit to the number of retries. *)
Theorem CallbackQueue_keeps_calls max_retries q ls q' :
  queue_wf q → queue_steps max_retries q ls q' →
  (∀ c, Sent c ∈ ls → call_ok c) →
  queue_wf q' ∧ pending q' ++ delivered ls ≡ₚ pending q ++ sent ls.
Proof using Type.
  intros Hwf Hsteps. revert Hwf. induction Hsteps as [q|q l q1 ls q2 Hstep Hsteps IH]; intros Hwf Hsent.
  { split; [done|]. by rewrite !app_nil_r. }
  destruct (queue_step_wf _ _ _ _ Hstep Hwf) as [Hwf1 H1].
  { intros c ->. apply Hsent. left. }
  destruct IH as [Hwf2 H2]; [done|intros c Hc; apply Hsent; by right|]. split; [done|].
  change (l :: ls) with ([l] ++ ls). unfold delivered, sent in *. rewrite !omap_app.
  rewrite (Permutation_app_comm (omap _ [l])), !app_assoc, H2, <-H1. solve_Permutation.
Qed.

Lemma queue_steps_app max_retries q ls q' ls' q'' :
  queue_steps max_retries q ls q' → queue_steps max_retries q' ls' q'' →
  queue_steps max_retries q (ls ++ ls') q''.
Proof using Type. induction 1; [done|]. intros. eapply steps_more; eauto. Qed.

(** C32: the limit to the number of retries is not kept.  A callback that
    always fails is put back and called again without end: for every limit
    there is a run in which it is waiting for its next try after any number
    of failed ones. *)
Theorem CallbackQueue_retries_without_limit max_retries size i (w : W) (k : nat) :
  (0 < size)%nat → (∀ w, ∃ w' e, CallbackClient_callback i w = (w', Err e)) →
  ∃ ls w', queue_steps max_retries
    (mk_CallbackQueue w size [Call i 0 0] true []) ls
    (mk_CallbackQueue w' size [Call i (Z.min u64_max (Z.of_nat k)) (retry_delay k)] true []).
Proof using Type.
  intros Hsize Hfails. induction k as [|k (ls & w1 & Hsteps)].
  { exists [], w. constructor. }
  destruct (Hfails w1) as (w2 & e & Ecall).
  exists (ls ++ [Internal; Internal; Internal]), w2. eapply queue_steps_app; [exact Hsteps|].
  eapply steps_more; [by apply step_receive|].
  eapply steps_more.
  { eapply (step_call _ _ [] [] i _ _ w2 _ false); [done|].
    unfold task_call. simpl. by rewrite Ecall, new_delay_retry. }
  eapply steps_more; [|apply steps_none].
  eapply (step_requeue _ _ _ [] []); [done|]. unfold queue_send. simpl.
  destruct (Nat.ltb_spec 0 size); [|lia]. do 4 f_equal. unfold saturating_inc. lia.
Qed.

End retries.
