(* ===== verification/Sled.v ===== *)
(** The sled store ([library/src/storage/stores/sled.rs]).  The trees of the
    [sled] crate are a parameter; the laws say what its documentation says
    about single operations, each of which may fail without effect. *)
From S2P Require Import Prelude.
From S2P Require Import Invoice.
From S2P Require Import Storage.
From S2P Require Import Bincode.

(** ** The [sled] crate *)

Inductive ConflictableTransactionError (SledError E : Type) :=
  | Abort (e : E)
  | Conflict
  | TxStorage (e : SledError).
Arguments Abort {SledError E}.
Arguments Conflict {SledError E}.
Arguments TxStorage {SledError E}.
Inductive TransactionError (SledError E : Type) :=
  | Aborted (e : E)
  | StorageFailure (e : SledError).
Arguments Aborted {SledError E}.
Arguments StorageFailure {SledError E}.

Class SledCrate := {
  SledError : Type;
  Tree : Type;
  tree_get : bytes → M Tree SledError (option bytes);
  tree_insert : bytes → bytes → M Tree SledError (option bytes);
  tree_remove : bytes → M Tree SledError (option bytes);
  tree_compare_and_swap : bytes → option bytes → option bytes → M Tree SledError (unit + unit);
  tree_fetch_and_update : bytes → (option bytes → option bytes) → M Tree SledError (option bytes);
  tree_iter : Tree → list (bytes * bytes + SledError);
  tree_scan_prefix : bytes → Tree → list (bytes * bytes + SledError);
  tree_is_empty : Tree → bool;
  tree_flush : M Tree SledError unit;
  TransactionalTree : Type;
  (* [UnabortableTransactionError] is a conflict or a storage failure *)
  tx_insert {E} : bytes → bytes →
    M TransactionalTree (ConflictableTransactionError SledError E) (option bytes);
  tree_transaction {E A} :
    M TransactionalTree (ConflictableTransactionError SledError E) A →
    M Tree (TransactionError SledError E) A;
  Db : Type;
  config_open : string → Db + SledError;
  open_tree : string → Db → Tree + SledError;
  set_merge_operator : (bytes → option bytes → bytes → option bytes) → Tree → Tree;
}.

Section sled.
Context `{SledCrate} `{BincodeCrate} `{!Bincode InvoiceId} `{!Bincode SubIndex}
  `{!Bincode Invoice} `{!Bincode OutputId} `{!Bincode Z}.

Inductive SledStorageError :=
  | SledDatabase (e : DatabaseError)
  | DuplicateInvoiceId
  | SledDuplicateOutputKey
  | SledSerialize (e : EncodeError)
  | SledDeserialize (e : DecodeError)
with DatabaseError :=
  | General (e : SledError)
  | Transaction (e : TransactionError SledError SledStorageError).

Record Sled := mk_Sled {
  sl_invoices : Tree;
  sl_output_keys : Tree;
  sl_height : Tree;
}.
Definition set_sl_invoices (t : Tree) (s : Sled) : Sled := mk_Sled t (sl_output_keys s) (sl_height s).
Definition set_sl_output_keys (t : Tree) (s : Sled) : Sled := mk_Sled (sl_invoices s) t (sl_height s).
Definition set_sl_height (t : Tree) (s : Sled) : Sled := mk_Sled (sl_invoices s) (sl_output_keys s) t.

(** [e.map_err(DatabaseError::from)?]. *)
Definition db_error (e : SledError) : SledStorageError := SledDatabase (General e).
Definition on_invoices {A} (m : M Tree SledError A) : M Sled SledStorageError A :=
  zoom sl_invoices set_sl_invoices (map_err db_error m).
Definition on_output_keys {A} (m : M Tree SledError A) : M Sled SledStorageError A :=
  zoom sl_output_keys set_sl_output_keys (map_err db_error m).
Definition on_height {A} (m : M Tree SledError A) : M Sled SledStorageError A :=
  zoom sl_height set_sl_height (map_err db_error m).

Definition encode {S A} `{!Bincode A} (a : A) : M S SledStorageError bytes :=
  match encode_to_vec a with inl bs => ret bs | inr e => throw (SledSerialize e) end.
Definition decode {S A} `{!Bincode A} (bs : bytes) : M S SledStorageError A :=
  match decode_from_slice bs with inl a => ret a | inr e => throw (SledDeserialize e) end.
(** Decode a value that may be absent. *)
Definition decode_option {S A} `{!Bincode A} (o : option bytes) : M S SledStorageError (option A) :=
  match o with
  | Some bs => let! a := decode bs in ret (Some a)
  | None => ret None
  end.

Definition update_merge (_key : bytes) (old_value : option bytes) (new_value : bytes) : option bytes :=
  if old_value is Some _ then Some new_value else None.

Definition Sled_new (path invoice_tree output_key_tree height_tree : string) :
    outcome SledStorageError Sled :=
  match config_open path with
  | inr e => Err (db_error e)
  | inl db =>
      match open_tree invoice_tree db with
      | inr e => Err (db_error e)
      | inl invoices =>
          match open_tree output_key_tree db with
          | inr e => Err (db_error e)
          | inl output_keys =>
              match open_tree height_tree db with
              | inr e => Err (db_error e)
              | inl height =>
                  Ok (mk_Sled (set_merge_operator update_merge invoices) output_keys height)
              end
          end
      end
  end.

(** *** [impl InvoiceStorage for Sled] *)

Definition Sled_insert (invoice : Invoice) : M Sled SledStorageError unit :=
  let invoice_id := Invoice_id invoice in
  let! key := encode invoice_id in
  let! value := encode invoice in
  let! r := on_invoices (tree_compare_and_swap key None (Some value)) in
  match r with
  | inl _ => ret tt
  | inr _ => throw DuplicateInvoiceId
  end.

Definition Sled_remove (invoice_id : InvoiceId) : M Sled SledStorageError (option Invoice) :=
  let! key := encode invoice_id in
  let! old := on_invoices (tree_remove key) in
  decode_option old.

Definition Sled_update (invoice : Invoice) : M Sled SledStorageError (option Invoice) :=
  let! key := encode (Invoice_id invoice) in
  let! new_ivec := encode invoice in
  let! maybe_old := on_invoices (tree_fetch_and_update key
    (λ old, if old is Some _ then Some new_ivec else None)) in
  decode_option maybe_old.

Definition Sled_get (invoice_id : InvoiceId) : M Sled SledStorageError (option Invoice) :=
  let! key := encode invoice_id in
  let! current := on_invoices (tree_get key) in
  decode_option current.

(** The keys are collected first, then decoded. *)
Definition Sled_get_ids : M Sled SledStorageError (list InvoiceId) :=
  let! rows := gets (λ s, tree_iter (sl_invoices s)) in
  let! current := fold_each rows [] (λ keys row,
    match row with inl p => ret (keys ++ [p.1]) | inr e => throw (db_error e) end) in
  fold_each current [] (λ ids ivec, let! id := decode ivec in ret (ids ++ [id])).

Definition Sled_contains_sub_index (sub_index : SubIndex) : M Sled SledStorageError bool :=
  let! key := encode sub_index in
  let! rows := gets (λ s, tree_scan_prefix key (sl_invoices s)) in
  ret (bool_decide (is_Some (head rows))).

(** What the closure of [try_for_each] is given for a row. *)
Definition row_invoice (row : bytes * bytes + SledError) : Invoice + SledStorageError :=
  match row with
  | inl (_, ivec) =>
      match decode_from_slice ivec with inl v => inl v | inr e => inr (SledDeserialize e) end
  | inr e => inr (db_error e)
  end.
Definition Sled_try_for_each {C} (s : Sled) (f : EachClosure C SledStorageError) :
    M C SledStorageError unit :=
  for_each (tree_iter (sl_invoices s)) (λ row, f (row_invoice row)).

Definition Sled_is_empty : M Sled SledStorageError bool :=
  gets (λ s, tree_is_empty (sl_invoices s)).

#[export] Instance Sled_InvoiceStorage : InvoiceStorage Sled SledStorageError := {|
  is_insert := Sled_insert;
  is_remove := Sled_remove;
  is_update := Sled_update;
  is_get := Sled_get;
  is_get_ids := Sled_get_ids;
  is_contains_sub_index := Sled_contains_sub_index;
  is_try_for_each := @Sled_try_for_each;
  is_is_empty := Sled_is_empty;
|}.

(** *** [impl OutputKeyStorage for Sled] *)

(** The closure of the transaction. *)
Definition insert_key_tx (key : OutputPubKey) (output_id : OutputId) :
    M TransactionalTree (ConflictableTransactionError SledError SledStorageError) unit :=
  let! value := (match encode_to_vec output_id with
                 | inl bs => ret bs
                 | inr e => throw (Abort (SledSerialize e))
                 end) in
  let! old := tx_insert (key_bytes key) value in
  match old with
  | None => ret tt
  | Some _ => throw (Abort SledDuplicateOutputKey)
  end.
Definition Sled_insert_key (key : OutputPubKey) (output_id : OutputId) :
    M Sled SledStorageError unit :=
  zoom sl_output_keys set_sl_output_keys
    (map_err (λ e, SledDatabase (Transaction e)) (tree_transaction (insert_key_tx key output_id))).

Definition Sled_get_key (key : OutputPubKey) : M Sled SledStorageError (option OutputId) :=
  let! current := on_output_keys (tree_get (key_bytes key)) in
  decode_option current.

#[export] Instance Sled_OutputKeyStorage : OutputKeyStorage Sled SledStorageError := {|
  ks_insert := Sled_insert_key;
  ks_get := Sled_get_key;
|}.

(** *** [impl HeightStorage for Sled] *)

(** The bytes of the key [height]. *)
Definition height_key : bytes := [104; 101; 105; 103; 104; 116].

Definition Sled_upsert_height (height : Z) : M Sled SledStorageError (option Z) :=
  let! encoded_height := encode height in
  let! maybe_ivec := on_height (tree_insert height_key encoded_height) in
  decode_option maybe_ivec.

Definition Sled_get_height : M Sled SledStorageError (option Z) :=
  let! maybe_ivec := on_height (tree_get height_key) in
  decode_option maybe_ivec.

#[export] Instance Sled_HeightStorage : HeightStorage Sled SledStorageError := {|
  hs_upsert := Sled_upsert_height;
  hs_get := Sled_get_height;
|}.

Definition Sled_flush : M Sled SledStorageError unit :=
  on_invoices tree_flush ;;;
  on_output_keys tree_flush ;;;
  on_height tree_flush.

#[export] Instance Sled_Storage :
  Storage Sled SledStorageError SledStorageError SledStorageError SledStorageError := {|
  storage_flush := Sled_flush;
|}.

End sled.
Arguments Sled {_}.
