(* ===== verification/SledLaws.v ===== *)
(** The sled store keeps the promises of the storage traits: a refinement of
    finite maps by trees of encoded keys and values. *)
From S2P Require Import Prelude.
From S2P Require Import Invoice.
From S2P Require Import Storage.
From S2P Require Import Bincode.
From S2P Require Import Sled.

(** ** What the documentation of [sled] says *)

(** Rows of an iterator, any of which may fail to be read. *)
Definition rows_of {A E} (items : list (A + E)) (rows : list A) : Prop :=
  Forall2 (λ it row, it = inl row ∨ ∃ e, it = inr e) items rows.

Section laws.
Context `{SledCrate} (tree_map : Tree → gmap bytes bytes).

(** The operation gave [a] and left the map [m'], or failed without effect. *)
Definition tree_does {A} (t : Tree) (a : A) (m' : gmap bytes bytes) (t' : Tree)
    (r : outcome SledError A) : Prop :=
  match r with
  | Ok a' => a' = a ∧ tree_map t' = m'
  | Err _ => tree_map t' = tree_map t
  | _ => False
  end.

Class LawfulSled (tx_map : TransactionalTree → gmap bytes bytes) : Prop := {
  sled_get k t : wp (tree_get k) (tree_does t (tree_map t !! k) (tree_map t)) t;
  sled_insert k v t : wp (tree_insert k v) (tree_does t (tree_map t !! k) (<[k:=v]> (tree_map t))) t;
  sled_remove k t : wp (tree_remove k) (tree_does t (tree_map t !! k) (delete k (tree_map t))) t;
  sled_compare_and_swap k old new t :
    wp (tree_compare_and_swap k old new)
       (if decide (tree_map t !! k = old)
        then tree_does t (inl tt) (partial_alter (λ _, new) k (tree_map t))
        else tree_does t (inr tt) (tree_map t)) t;
  sled_fetch_and_update k f t :
    wp (tree_fetch_and_update k f)
       (tree_does t (tree_map t !! k) (partial_alter f k (tree_map t))) t;
  sled_iter t : ∃ rows, rows ≡ₚ map_to_list (tree_map t) ∧ rows_of (tree_iter t) rows;
  sled_scan_prefix p t : ∃ rows,
    rows ≡ₚ filter (λ kv, p `prefix_of` kv.1) (map_to_list (tree_map t)) ∧
    rows_of (tree_scan_prefix p t) rows;
  sled_flush t : wp tree_flush (tree_does t tt (tree_map t)) t;
  sled_tx_insert {E} k v x :
    wp (tx_insert (E:=E) k v) (λ x' r, match r with
      | Ok old => old = tx_map x !! k ∧ tx_map x' = <[k:=v]> (tx_map x)
      | Err (Abort _) => False
      | Err _ => True
      | _ => False
      end) x;
  (* the closure runs on what the tree holds; an abort undoes it *)
  sled_transaction {E A} (f : M TransactionalTree (ConflictableTransactionError SledError E) A) t :
    (∀ x, (f x).2 ≠ Panic ∧ (f x).2 ≠ Hang) →
    wp (tree_transaction f) (λ t' r, match r with
      | Ok a => ∃ x, tx_map x = tree_map t ∧ (f x).2 = Ok a ∧ tree_map t' = tx_map (f x).1
      | Err (Aborted e) => tree_map t' = tree_map t ∧
          ∃ x, tx_map x = tree_map t ∧ (f x).2 = Err (Abort e)
      | Err (StorageFailure _) => tree_map t' = tree_map t
      | _ => False
      end) t;
}.
End laws.

Section lawful.
Context `{SledCrate} `{BincodeCrate} `{!Bincode InvoiceId} `{!Bincode SubIndex}
  `{!Bincode Invoice} `{!Bincode OutputId} `{!Bincode Z}.
Context (tree_map : Tree → gmap bytes bytes) (tx_map : TransactionalTree → gmap bytes bytes).
Context `{HT : !LawfulSled tree_map tx_map}.
Context `{!LawfulBincode InvoiceId InvoiceId_wf} `{!LawfulBincode SubIndex SubIndex_wf}
  `{!LawfulBincode Invoice Invoice_wf} `{!LawfulBincode OutputId OutputId_wf}
  `{!LawfulBincode Z in_u64} `{!StructEncoding}.

(** ** The tables *)

Definition Sled_view (s : Sled) : StoreView := mk_StoreView
  (decoded dec dec (tree_map (sl_invoices s)))
  (decoded key_of_bytes dec (tree_map (sl_output_keys s)))
  (tree_map (sl_height s) !! height_key ≫= dec).

Notation good_invoices := (good InvoiceId_wf filed encoded dec).
Notation good_keys := (good OutputPubKey_wf (λ _, OutputId_wf) key_bytes dec).
Definition Sled_wf (s : Sled) : Prop :=
  good_invoices (tree_map (sl_invoices s)) ∧ good_keys (tree_map (sl_output_keys s)) ∧
  good_height (tree_map (sl_height s) !! height_key).

(** The parts of the store of which the view is made. *)
Lemma Sled_view_eq s s' :
  tree_map (sl_invoices s') = tree_map (sl_invoices s) →
  tree_map (sl_output_keys s') = tree_map (sl_output_keys s) →
  tree_map (sl_height s') = tree_map (sl_height s) → Sled_wf s →
  Sled_wf s' ∧ Sled_view s' = Sled_view s.
Proof using Type. intros E1 E2 E3. unfold Sled_wf, Sled_view. by rewrite E1, E2, E3. Qed.

(** *** Steps of the operations *)

Lemma wp_encode {S A} `{!Bincode A} (wf : A → Prop) `{!LawfulBincode A wf} a
    (Q : S → outcome SledStorageError bytes → Prop) s :
  wf a → Q s (Ok (encoded a)) → wp (encode a) Q s.
Proof using Type. intros Ha HQ. unfold encode. by rewrite (encode_wf wf). Qed.

Lemma wp_decode_option {S A} `{!Bincode A} (o : option bytes)
    (Q : S → outcome SledStorageError (option A) → Prop) s :
  (∀ v, o = Some v → is_Some (dec (A:=A) v)) → Q s (Ok (o ≫= dec)) → wp (decode_option o) Q s.
Proof using Type.
  intros Ho HQ. destruct o as [v|]; [|done]. simpl. unfold decode, dec in *.
  destruct (Ho v eq_refl) as [a Ha]. apply wp_bind. simpl in HQ. rewrite Ha in HQ.
  destruct (decode_from_slice v) as [a'|]; [|done]. by injection Ha as ->.
Qed.

(** An operation on one of the trees that fails without effect, or gives [a]
    and leaves the map [m']. *)
Lemma wp_on_tree prj upd {A} (m : M Tree SledError A) (a : A) m'
    (Q : Sled → outcome SledStorageError A → Prop) s :
  (∀ t', tree_map t' = tree_map (prj s) → Sled_wf (upd t' s) ∧ Sled_view (upd t' s) = Sled_view s) →
  wp m (tree_does tree_map (prj s) a m') (prj s) →
  (∀ t', tree_map t' = m' → Q (upd t' s) (Ok a)) →
  (∀ s' e, Sled_wf s' → Sled_view s' = Sled_view s → Q s' (Err e)) →
  wp (zoom prj upd (map_err db_error m)) Q s.
Proof using Type.
  intros Hsame Hm Hok Herr. apply wp_zoom, wp_map_err. eapply wp_mono; [exact Hm|].
  intros t' [a'|e| |]; simpl; try done; [by intros [-> ?]; apply Hok|].
  intros Et. by apply Herr; apply Hsame.
Qed.

Lemma same_invoices s t' : Sled_wf s → tree_map t' = tree_map (sl_invoices s) →
  Sled_wf (set_sl_invoices t' s) ∧ Sled_view (set_sl_invoices t' s) = Sled_view s.
Proof using Type. intros. by apply Sled_view_eq. Qed.
Lemma same_output_keys s t' : Sled_wf s → tree_map t' = tree_map (sl_output_keys s) →
  Sled_wf (set_sl_output_keys t' s) ∧ Sled_view (set_sl_output_keys t' s) = Sled_view s.
Proof using Type. intros. by apply Sled_view_eq. Qed.
Lemma same_height s t' : Sled_wf s → tree_map t' = tree_map (sl_height s) →
  Sled_wf (set_sl_height t' s) ∧ Sled_view (set_sl_height t' s) = Sled_view s.
Proof using Type. intros. by apply Sled_view_eq. Qed.

Notation returns s ok := (or_fail Sled_wf Sled_view s ok).

(** What an operation leaves that changed one of the tables. *)
Lemma invoices_changed s t' m :
  Sled_wf s → tree_map t' = m → good_invoices m →
  Sled_wf (set_sl_invoices t' s) ∧
  Sled_view (set_sl_invoices t' s) = set_v_invoices (decoded dec dec m) (Sled_view s).
Proof using Type. intros (? & ? & ?) <- Hm. unfold Sled_wf, Sled_view. by simpl. Qed.

(** The invoice under an id, in the tree and in the view. *)
Lemma view_invoice s id :
  Sled_wf s → InvoiceId_wf id →
  v_invoices (Sled_view s) !! id = tree_map (sl_invoices s) !! encoded id ≫= dec.
Proof using All.
  intros (Hg & _ & _) Hid.
  by apply (decoded_lookup InvoiceId_wf filed encoded dec dec (dec_encoded InvoiceId_wf)).
Qed.

Lemma invoice_stored s t' i :
  Sled_wf s → Invoice_wf i →
  tree_map t' = <[encoded (Invoice_id i) := encoded i]> (tree_map (sl_invoices s)) →
  Sled_wf (set_sl_invoices t' s) ∧ Sled_view (set_sl_invoices t' s)
  = set_v_invoices (<[Invoice_id i := i]> (v_invoices (Sled_view s))) (Sled_view s).
Proof using All.
  intros Hwf Hi Et. pose proof (Invoice_id_wf i Hi) as Hid. pose proof Hwf as (Hg & _ & _).
  pose proof (dec_encoded Invoice_wf i Hi) as Hd. assert (filed (Invoice_id i) i) as Hf by done.
  destruct (invoices_changed s t' _ Hwf Et) as [Hwf' Hv].
  { by apply (good_insert InvoiceId_wf filed encoded dec _ (Invoice_id i) (encoded i) i). }
  split; [done|]. rewrite Hv. unfold Sled_view at 2. cbn [v_invoices].
  by rewrite <-(decoded_insert InvoiceId_wf filed encoded dec dec (dec_encoded InvoiceId_wf)
    _ _ (encoded i) i).
Qed.

Lemma invoice_deleted s t' id :
  Sled_wf s → InvoiceId_wf id → tree_map t' = delete (encoded id) (tree_map (sl_invoices s)) →
  Sled_wf (set_sl_invoices t' s) ∧ Sled_view (set_sl_invoices t' s)
  = set_v_invoices (delete id (v_invoices (Sled_view s))) (Sled_view s).
Proof using All.
  intros Hwf Hid Et. pose proof Hwf as (Hg & _ & _).
  destruct (invoices_changed s t' _ Hwf Et) as [Hwf' Hv]; [by apply good_delete|].
  split; [done|]. rewrite Hv. unfold Sled_view at 2. cbn [v_invoices].
  by rewrite <-(decoded_delete InvoiceId_wf filed encoded dec dec (dec_encoded InvoiceId_wf)).
Qed.

(** *** The operations on invoices *)

Lemma Sled_insert_lawful s i :
  Sled_wf s → Invoice_wf i →
  wp (Sled_insert i) (returns s (λ _ v', v_invoices (Sled_view s) !! Invoice_id i = None ∧
    v' = set_v_invoices (<[Invoice_id i := i]> (v_invoices (Sled_view s))) (Sled_view s))) s.
Proof using All.
  intros Hwf Hi. pose proof (Invoice_id_wf i Hi) as Hid.
  unfold Sled_insert. apply wp_bind, (wp_encode InvoiceId_wf); [done|].
  apply wp_bind, (wp_encode Invoice_wf); [done|]. apply wp_bind.
  pose proof (sled_compare_and_swap tree_map (encoded (Invoice_id i)) None (Some (encoded i))
    (sl_invoices s)) as Hcas.
  rewrite view_invoice by done.
  destruct (decide (tree_map (sl_invoices s) !! encoded (Invoice_id i) = None)) as [E|E];
    (eapply wp_on_tree; [by intros; apply same_invoices|exact Hcas| |by intros s' e Hwf' Hv]);
    intros t' Et.
  - apply wp_ret. destruct (invoice_stored s t' i Hwf Hi Et). rewrite E. by split.
  - apply wp_throw. by apply (same_invoices s).
Qed.

Lemma Sled_remove_lawful s id :
  Sled_wf s → InvoiceId_wf id →
  wp (Sled_remove id) (returns s (λ o v', o = v_invoices (Sled_view s) !! id ∧
    v' = set_v_invoices (delete id (v_invoices (Sled_view s))) (Sled_view s))) s.
Proof using All.
  intros Hwf Hid. unfold Sled_remove. apply wp_bind, (wp_encode InvoiceId_wf); [done|].
  apply wp_bind. eapply wp_on_tree;
    [by intros; apply same_invoices|apply (sled_remove tree_map)| |by intros s' e Hwf' Hv].
  intros t' Et. apply wp_decode_option.
  { intros v Hv. eapply readable; [apply Hwf|exact Hv]. }
  destruct (invoice_deleted s t' id Hwf Hid Et). rewrite view_invoice by done. by split.
Qed.

Lemma Sled_update_lawful s i :
  Sled_wf s → Invoice_wf i →
  wp (Sled_update i) (returns s (λ o v', o = v_invoices (Sled_view s) !! Invoice_id i ∧
    v' = match o with
         | Some _ => set_v_invoices (<[Invoice_id i := i]> (v_invoices (Sled_view s))) (Sled_view s)
         | None => Sled_view s
         end)) s.
Proof using All.
  intros Hwf Hi. pose proof (Invoice_id_wf i Hi) as Hid.
  unfold Sled_update. apply wp_bind, (wp_encode InvoiceId_wf); [done|].
  apply wp_bind, (wp_encode Invoice_wf); [done|]. apply wp_bind.
  eapply wp_on_tree; [by intros; apply same_invoices
    |apply (sled_fetch_and_update tree_map)| |by intros s' e Hwf' Hv].
  intros t' Et. apply wp_decode_option.
  { intros v Hv. eapply readable; [apply Hwf|exact Hv]. }
  rewrite view_invoice by done.
  destruct (tree_map (sl_invoices s) !! encoded (Invoice_id i)) as [v|] eqn:E.
  - destruct (invoice_stored s t' i Hwf Hi) as [Hwf' Hv].
    { rewrite Et. apply map_eq. intros k.
      destruct (decide (k = encoded (Invoice_id i))) as [->|].
      - by rewrite lookup_partial_alter_eq, lookup_insert_eq, E.
      - by rewrite lookup_partial_alter_ne, lookup_insert_ne. }
    destruct (readable _ _ _ _ _ _ (proj1 Hwf) E) as [old Hold]. split; [done|].
    simpl. rewrite Hold. by split.
  - destruct (same_invoices s t' Hwf) as [Hwf' Hv].
    { rewrite Et. apply map_eq. intros k.
      destruct (decide (k = encoded (Invoice_id i))) as [->|].
      - by rewrite lookup_partial_alter_eq, E.
      - by rewrite lookup_partial_alter_ne. }
    by split.
Qed.

Lemma Sled_get_lawful s id :
  Sled_wf s → InvoiceId_wf id →
  wp (Sled_get id) (returns s (λ o v', v' = Sled_view s ∧ o = v_invoices (Sled_view s) !! id)) s.
Proof using All.
  intros Hwf Hid. unfold Sled_get. apply wp_bind, (wp_encode InvoiceId_wf); [done|].
  apply wp_bind. eapply wp_on_tree;
    [by intros; apply same_invoices|apply (sled_get tree_map)| |by intros s' e Hwf' Hv].
  intros t' Et. apply wp_decode_option.
  { intros v Hv. eapply readable; [apply Hwf|exact Hv]. }
  destruct (same_invoices s t' Hwf Et). rewrite view_invoice by done. by split.
Qed.

(** ** Iteration *)

(** The invoices of the rows of the tree. *)
Notation decoded_rows rows := (omap (decode_row (K:=InvoiceId) (A:=Invoice) dec dec) rows).

Lemma stored_rows s rows :
  Sled_wf s → rows ≡ₚ map_to_list (tree_map (sl_invoices s)) →
  decoded_rows rows ≡ₚ map_to_list (v_invoices (Sled_view s)) ∧
  Forall2 (λ row p, dec row.1 = Some p.1 ∧ dec row.2 = Some p.2) rows (decoded_rows rows).
Proof using All.
  intros Hwf Hrows. split.
  { apply (decoded_perm InvoiceId_wf filed encoded dec dec (dec_encoded InvoiceId_wf));
      [apply Hwf|done]. }
  assert (Forall (λ row, ∃ p : InvoiceId * Invoice, decode_row dec dec row = Some p ∧
    dec row.1 = Some p.1 ∧ dec row.2 = Some p.2) rows) as Hall.
  { apply Forall_forall. intros [k v] Hin. rewrite Hrows in Hin.
    apply elem_of_map_to_list, (proj1 Hwf) in Hin as (id & i & Hid & -> & Hv & _).
    exists (id, i). unfold decode_row. simpl.
    rewrite (dec_encoded InvoiceId_wf) by done. simpl. by rewrite Hv. }
  clear Hrows Hwf. induction Hall as [|row rows (p & E & Hp) Hall IH]; [constructor|].
  cbn [omap list_omap]. rewrite E. by constructor.
Qed.

Lemma collect_keys {S} (items : list (bytes * bytes + SledError)) rows (acc : list bytes) (s : S) :
  rows_of items rows →
  wp (fold_each items acc (λ (keys : list bytes) row,
        match row with inl p => ret (keys ++ [p.1]) | inr e => throw (db_error e) end))
     (λ s' r, s' = s ∧ match r with Ok keys => keys = acc ++ rows.*1 | Err _ => True | _ => False end) s.
Proof using Type.
  intros Hr. revert acc. induction Hr as [|it row items rows Hit Hr IH]; intros acc.
  { apply wp_ret. by rewrite app_nil_r. }
  cbn [fold_each]. apply wp_bind. destruct Hit as [->|[e ->]]; [|done]. apply wp_ret.
  eapply wp_mono; [apply IH|]. intros s' [keys|?| |]; simpl; try done.
  by rewrite <-app_assoc.
Qed.

Lemma decode_keys {S} keys (ids acc : list InvoiceId) (s : S) :
  Forall2 (λ bs id, dec bs = Some id) keys ids →
  wp (fold_each keys acc (λ (ids : list InvoiceId) ivec, let! id := decode ivec in ret (ids ++ [id])))
     (λ s' r, s' = s ∧ r = Ok (acc ++ ids)) s.
Proof using Type.
  intros Hk. revert acc. induction Hk as [|bs id keys ids Hd Hk IH]; intros acc.
  { apply wp_ret. by rewrite app_nil_r. }
  cbn [fold_each]. apply wp_bind, wp_bind. unfold decode, dec in *.
  destruct (decode_from_slice bs); [|done]. injection Hd as ->. apply wp_ret, wp_ret.
  eapply wp_mono; [apply IH|]. intros s' r. by rewrite <-app_assoc.
Qed.

Lemma Sled_get_ids_lawful s :
  Sled_wf s →
  wp Sled_get_ids (returns s (λ l v', v' = Sled_view s ∧
    l ≡ₚ (map_to_list (v_invoices (Sled_view s))).*1)) s.
Proof using All.
  intros Hwf. destruct (sled_iter tree_map (sl_invoices s)) as (rows & Hp & Hrows).
  destruct (stored_rows s rows Hwf Hp) as [Hview Hdec].
  unfold Sled_get_ids. apply wp_bind, wp_gets, wp_bind.
  eapply wp_mono; [by apply collect_keys|]. intros s' [keys|?| |] [-> Hk]; try done.
  simpl in Hk. subst keys. eapply wp_mono.
  { apply (decode_keys _ (decoded_rows rows).*1). apply Forall2_fmap.
    eapply Forall2_impl; [exact Hdec|]. by intros ?? [? _]. }
  intros s' r [-> ->]. split; [done|]. split; [done|]. by rewrite <-Hview.
Qed.

Lemma for_each_fmap {S E A B} (g : A → B) l (f : B → M S E unit) s :
  for_each (g <$> l) f s = for_each l (λ a, f (g a)) s.
Proof using Type.
  revert s. induction l as [|a l IH]; intros s; [done|]. cbn [fmap list_fmap for_each].
  unfold bind. destruct (f (g a) s) as [s' [[]|?| |]]; [apply IH|done..].
Qed.

Lemma Sled_for_each_lawful s :
  Sled_wf s →
  ∃ items invoices,
    invoices ≡ₚ (map_to_list (v_invoices (Sled_view s))).*2 ∧
    Forall2 (λ it i, it = inl i ∨ ∃ e, it = inr e) items invoices ∧
    ∀ C (f : EachClosure C SledStorageError) c, Sled_try_for_each s f c = for_each items f c.
Proof using All.
  intros Hwf. destruct (sled_iter tree_map (sl_invoices s)) as (rows & Hp & Hrows).
  destruct (stored_rows s rows Hwf Hp) as [Hview Hdec].
  exists (row_invoice <$> tree_iter (sl_invoices s)), (decoded_rows rows).*2.
  split; [by rewrite <-Hview|]. split; [|intros; by rewrite for_each_fmap].
  apply Forall2_fmap. clear Hp Hview. revert Hdec. generalize (decoded_rows rows).
  induction Hrows as [|it row items rows Hit Hrows IH]; intros l Hdec.
  { apply Forall2_nil_inv_l in Hdec as ->. constructor. }
  apply Forall2_cons_inv_l in Hdec as (p & ps & [_ Hv] & Hdec & ->).
  constructor; [|by apply IH].
  destruct Hit as [->|[e ->]]; [|by right; eexists]. left. destruct row as [k v]. simpl in *.
  unfold dec in Hv. destruct (decode_from_slice v); [|done]. by injection Hv as ->.
Qed.

(** ** Subaddress indices *)

Lemma rows_nonempty {A E} (items : list (A + E)) rows :
  rows_of items rows → is_Some (head items) ↔ ∃ row, row ∈ rows.
Proof using Type.
  intros [|it row items' rows' _ _]; simpl.
  - split; [by intros [??]|by intros [? ?%elem_of_nil]].
  - split; [|eauto]. intros _. exists row. by left.
Qed.

(** The prefix query finds exactly the invoices of the subaddress. *)
Lemma Sled_contains_run s x :
  Sled_wf s → SubIndex_wf x →
  ∃ b, Sled_contains_sub_index x s = (s, Ok b) ∧
       (b = true ↔ ∃ id, is_Some (v_invoices (Sled_view s) !! id) ∧ sub_index id = x).
Proof using All.
  intros Hwf Hx. unfold Sled_contains_sub_index, bind, gets, encode.
  rewrite (encode_wf SubIndex_wf) by done. eexists. split; [reflexivity|].
  destruct (sled_scan_prefix tree_map (encoded x) (sl_invoices s)) as (rows & Hp & Hrows).
  rewrite bool_decide_eq_true, (rows_nonempty _ _ Hrows). split.
  - intros ([k v] & Hin). rewrite Hp in Hin. apply list_elem_of_filter in Hin as [Hpre Hin].
    apply elem_of_map_to_list in Hin. pose proof (proj1 Hwf k v Hin) as (id & i & Hid & -> & Hv & _).
    exists id. split.
    + rewrite view_invoice by done. rewrite Hin. simpl. by rewrite Hv.
    + destruct (encode_invoice_id id (encoded id)) as (sub & rest & Hs & E).
      { by apply (encode_wf InvoiceId_wf). }
      rewrite (encode_wf SubIndex_wf) in Hs by apply Hid. injection Hs as <-.
      simpl in Hpre. rewrite E in Hpre. symmetry.
      eapply (encoded_prefix SubIndex_wf); [done|apply Hid|exact Hpre].
  - intros (id & [i Hi] & <-). unfold Sled_view in Hi. simpl in Hi.
    apply (decoded_Some InvoiceId_wf filed encoded dec dec (dec_encoded InvoiceId_wf)) in Hi
      as (Hid & v & Hv & _); [|apply Hwf].
    exists (encoded id, v). rewrite Hp. apply list_elem_of_filter.
    split; [|by apply elem_of_map_to_list]. simpl.
    destruct (encode_invoice_id id (encoded id)) as (sub & rest & Hs & E).
    { by apply (encode_wf InvoiceId_wf). }
    rewrite (encode_wf SubIndex_wf) in Hs by apply Hid. injection Hs as <-.
    exists rest. exact E.
Qed.

(** ** Output keys and the height *)

Lemma view_key s k :
  Sled_wf s → OutputPubKey_wf k →
  v_keys (Sled_view s) !! k = tree_map (sl_output_keys s) !! key_bytes k ≫= dec.
Proof using All.
  intros (_ & Hg & _) Hk.
  by apply (decoded_lookup OutputPubKey_wf (λ _, OutputId_wf) key_bytes key_of_bytes dec key_bytes_inv).
Qed.

Lemma insert_key_tx_run k o x :
  OutputId_wf o →
  wp (insert_key_tx k o) (λ x' r, match r with
    | Ok _ => tx_map x !! key_bytes k = None ∧
        tx_map x' = <[key_bytes k := encoded o]> (tx_map x)
    | Err _ => True
    | _ => False
    end) x.
Proof using All.
  intros Ho. unfold insert_key_tx. rewrite (encode_wf OutputId_wf) by done.
  apply wp_bind, wp_ret, wp_bind. eapply wp_mono; [apply (sled_tx_insert tree_map)|].
  intros x' [old|e| |]; [|done..]. intros [-> Ex].
  destruct (tx_map x !! key_bytes k) eqn:E; [by apply wp_throw|by apply wp_ret].
Qed.

Lemma Sled_insert_key_lawful s k o :
  Sled_wf s → OutputPubKey_wf k → OutputId_wf o →
  wp (Sled_insert_key k o) (returns s (λ _ v', v_keys (Sled_view s) !! k = None ∧
    v' = set_v_keys (<[k := o]> (v_keys (Sled_view s))) (Sled_view s))) s.
Proof using All.
  intros Hwf Hk Ho. unfold Sled_insert_key. apply wp_zoom, wp_map_err.
  eapply wp_mono.
  { apply (sled_transaction tree_map). intros x. pose proof (insert_key_tx_run k o x Ho) as Hx.
    unfold wp in Hx. by destruct (insert_key_tx k o x) as [? [?|?| |]]. }
  intros t' [u|[e|e]| |]; try done; cycle 1.
  - intros [Et _]. by apply same_output_keys.
  - intros Et. by apply same_output_keys.
  - intros (x & Ex & Ef & Et). pose proof (insert_key_tx_run k o x Ho) as Hx. unfold wp in Hx.
    rewrite Ef, Ex, <-Et in Hx. destruct Hx as [Hnone Hmap]. pose proof Hwf as (? & Hg & ?).
    assert (Hd := dec_encoded OutputId_wf o Ho).
    split.
    + split; [done|]. split; [|done]. simpl. rewrite Hmap.
      by apply (good_insert OutputPubKey_wf (λ _, OutputId_wf) key_bytes dec _ k (encoded o) o).
    + split; [by rewrite view_key, Hnone|]. unfold Sled_view. simpl. rewrite Hmap.
      by rewrite (decoded_insert OutputPubKey_wf (λ _, OutputId_wf) key_bytes key_of_bytes dec
        key_bytes_inv _ k (encoded o) o).
Qed.

Lemma Sled_get_key_lawful s k :
  Sled_wf s → OutputPubKey_wf k →
  wp (Sled_get_key k) (returns s (λ o v', v' = Sled_view s ∧ o = v_keys (Sled_view s) !! k)) s.
Proof using All.
  intros Hwf Hk. unfold Sled_get_key. apply wp_bind. eapply wp_on_tree;
    [by intros; apply same_output_keys|apply (sled_get tree_map)| |by intros s' e Hwf' Hv].
  intros t' Et. apply wp_decode_option.
  { intros v Hv. eapply readable; [apply Hwf|exact Hv]. }
  destruct (same_output_keys s t' Hwf Et). rewrite view_key by done. by split.
Qed.

Lemma Sled_upsert_lawful s h :
  Sled_wf s → in_u64 h →
  wp (Sled_upsert_height h) (returns s (λ o v', o = v_height (Sled_view s) ∧
    v' = set_v_height (Some h) (Sled_view s))) s.
Proof using All.
  intros Hwf Hh. unfold Sled_upsert_height. apply wp_bind, (wp_encode in_u64); [done|].
  apply wp_bind. eapply wp_on_tree;
    [by intros; apply same_height|apply (sled_insert tree_map)| |by intros s' e Hwf' Hv].
  intros t' Et. pose proof Hwf as (? & ? & Hgood). apply wp_decode_option.
  { intros v Hv. destruct (Hgood v Hv) as (h' & _ & ->). eauto. }
  pose proof (dec_encoded in_u64 h Hh) as Hd.
  split; [|split; [done|]].
  - split; [done|]. split; [done|]. simpl. rewrite Et. intros v. rewrite lookup_insert_eq.
    intros [= <-]. eauto.
  - unfold Sled_view. simpl. rewrite Et, lookup_insert_eq. simpl. by rewrite Hd.
Qed.

Lemma Sled_get_height_lawful s :
  Sled_wf s →
  wp Sled_get_height (returns s (λ o v', v' = Sled_view s ∧ o = v_height (Sled_view s))) s.
Proof using All.
  intros Hwf. unfold Sled_get_height. apply wp_bind. eapply wp_on_tree;
    [by intros; apply same_height|apply (sled_get tree_map)| |by intros s' e Hwf' Hv].
  intros t' Et. pose proof Hwf as (? & ? & Hgood). apply wp_decode_option.
  { intros v Hv. destruct (Hgood v Hv) as (h' & _ & ->). eauto. }
  by destruct (same_height s t' Hwf Et).
Qed.

Lemma Sled_flush_lawful s :
  Sled_wf s → wp Sled_flush (returns s (λ _ v', v' = Sled_view s)) s.
Proof using All.
  intros Hwf. unfold Sled_flush. apply wp_bind. eapply wp_on_tree;
    [by intros; apply same_invoices|apply (sled_flush tree_map)| |by intros s' e Hwf' Hv].
  intros t1 E1. destruct (same_invoices s t1 Hwf E1) as [Hwf1 Hv1].
  apply wp_bind. eapply wp_on_tree;
    [by intros; apply same_output_keys|apply (sled_flush tree_map)| |].
  2:{ intros s' e Hwf' Hv'. split; [done|]. by rewrite Hv', Hv1. }
  intros t2 E2. destruct (same_output_keys _ t2 Hwf1 E2) as [Hwf2 Hv2].
  eapply wp_on_tree; [by intros; apply same_height|apply (sled_flush tree_map)| |].
  2:{ intros s' e Hwf' Hv'. split; [done|]. by rewrite Hv', Hv2, Hv1. }
  intros t3 E3. destruct (same_height _ t3 Hwf2 E3) as [Hwf3 Hv3].
  split; [done|]. by rewrite Hv3, Hv2, Hv1.
Qed.

(** ** Properties *)

Lemma Sled_view_wf s : Sled_wf s → view_wf (Sled_view s).
Proof using All.
  intros (Hg & _ & _) id i Hi. simpl in Hi.
  by apply (decoded_Some InvoiceId_wf filed encoded dec dec (dec_encoded InvoiceId_wf)) in Hi
    as (_ & v & _ & _ & Hf).
Qed.

(** C25: the sled store implements the storage interface: with trees and an
    encoding that do what their documentation says, every operation of the
    three traits is the operation of a finite map, or fails and changes
    nothing. *)
Theorem Sled_lawful :
  LawfulStorage Sled SledStorageError SledStorageError SledStorageError SledStorageError
    Sled_wf Sled_view.
Proof using All.
  split.
  - apply Sled_view_wf.
  - apply Sled_insert_lawful.
  - apply Sled_remove_lawful.
  - apply Sled_update_lawful.
  - apply Sled_get_lawful.
  - apply Sled_get_ids_lawful.
  - intros s x Hwf Hx. destruct (Sled_contains_run s x Hwf Hx) as (b & E & Hb).
    unfold wp. simpl. rewrite E. split; [done|]. split; [done|]. intros id Hid Hx'.
    apply Hb. eauto.
  - apply Sled_for_each_lawful.
  - apply Sled_insert_key_lawful.
  - apply Sled_get_key_lawful.
  - apply Sled_upsert_lawful.
  - apply Sled_get_height_lawful.
  - apply Sled_flush_lawful.
Qed.

(** [contains_sub_index] of the sled store is exact: the encodings of
    different subaddress indices never continue one another, so the prefix
    query finds an invoice if and only if one is stored for the index.  (The
    in-memory store answers [true] more often.) *)
Theorem Sled_contains_sub_index_exact s x :
  Sled_wf s → SubIndex_wf x →
  ∃ b, Sled_contains_sub_index x s = (s, Ok b) ∧
       (b = true ↔ ∃ id, is_Some (v_invoices (Sled_view s) !! id) ∧ sub_index id = x).
Proof using All. apply Sled_contains_run. Qed.

End lawful.
