(* ===== verification/SledDemo.v ===== *)
(** A concrete encoding and concrete trees, to which the properties of the
    sled store are applied: values are encoded in binary with an end mark, and
    a tree is a finite map that never fails. *)
From S2P Require Import Prelude.
From S2P Require Import Invoice.
From S2P Require Import Storage.
From S2P Require Import Bincode.
From S2P Require Import Sled.
From S2P Require Import SledLaws.

(** ** An encoding *)

Fixpoint pos_bits (p : positive) : bytes :=
  match p with
  | xH => [2]
  | xO p => 0 :: pos_bits p
  | xI p => 1 :: pos_bits p
  end.
Fixpoint read_pos (bs : bytes) : option (positive * bytes) :=
  match bs with
  | 0 :: bs => '(p, rest) ← read_pos bs; Some (xO p, rest)
  | 1 :: bs => '(p, rest) ← read_pos bs; Some (xI p, rest)
  | 2 :: bs => Some (xH, bs)
  | _ => None
  end.
Lemma read_pos_bits p rest : read_pos (pos_bits p ++ rest) = Some (p, rest).
Proof. by induction p as [p IH|p IH|]; simpl; rewrite ?IH. Qed.

Definition read `{Countable A} (bs : bytes) : option (A * bytes) :=
  '(p, rest) ← read_pos bs; a ← countable.decode p; Some (a, rest).
Definition write `{Countable A} (a : A) : bytes := pos_bits (countable.encode a).
Lemma read_write `{Countable A} (a : A) rest : read (write a ++ rest) = Some (a, rest).
Proof. unfold read, write. rewrite read_pos_bits. simpl. by rewrite countable.decode_encode. Qed.

#[export] Instance DemoBincodeCrate : BincodeCrate := {| EncodeError := Empty_set; DecodeError := unit |}.

Definition or_error {A} (o : option (A * bytes)) : A + unit :=
  match o with Some (a, _) => inl a | None => inr tt end.
Definition countable_bincode `{Countable A} : Bincode A := {|
  encode_to_vec := λ a, inl (write a);
  decode_from_slice := λ bs, or_error (read bs);
|}.

#[export] Instance Transfer_eq_dec' : EqDecision Transfer.
Proof. solve_decision. Defined.
#[export] Instance Transfer_countable : Countable Transfer.
Proof.
  refine (inj_countable' (λ t, (amount t, height t)) (λ p, Transfer_new p.1 p.2) _). by intros [].
Defined.
#[export] Instance Invoice_countable : Countable Invoice.
Proof.
  refine (inj_countable'
    (λ i, ((inv_address i, inv_index i, inv_creation_height i, inv_amount_requested i),
           (inv_amount_paid i, inv_paid_height i, inv_confirmations_required i, inv_current_height i),
           (inv_expiration_height i, inv_transfers i, inv_description i)))
    (λ '((a, b, c, d), (e, f, g, h), (j, k, l)), mk_Invoice a b c d e f g h j k l) _).
  by intros [].
Defined.
#[export] Instance OutputId_countable : Countable OutputId.
Proof.
  refine (inj_countable' (λ o, (tx_hash o, out_index o)) (λ p, mk_OutputId p.1 p.2) _). by intros [].
Defined.

#[export] Instance Invoice_bincode : Bincode Invoice := countable_bincode.
#[export] Instance SubIndex_bincode : Bincode SubIndex := countable_bincode.
#[export] Instance OutputId_bincode : Bincode OutputId := countable_bincode.
#[export] Instance Z_bincode : Bincode Z := countable_bincode.
(** A struct: its fields in order. *)
#[export] Instance InvoiceId_bincode : Bincode InvoiceId := {|
  encode_to_vec := λ id, inl (write (sub_index id) ++ write (id_creation_height id));
  decode_from_slice := λ bs,
    or_error ('(x, bs) ← read bs; '(h, bs) ← read bs; Some (InvoiceId_new x h, bs));
|}.

Lemma countable_lawful `{Countable A} (wf : A → Prop) : @LawfulBincode _ A countable_bincode wf.
Proof.
  split. intros a _. exists (write a). split; [done|]. intros rest.
  unfold decode_from_slice. simpl. by rewrite read_write.
Qed.
#[export] Instance Invoice_lawful : LawfulBincode Invoice Invoice_wf := countable_lawful _.
#[export] Instance SubIndex_lawful : LawfulBincode SubIndex SubIndex_wf := countable_lawful _.
#[export] Instance OutputId_lawful : LawfulBincode OutputId OutputId_wf := countable_lawful _.
#[export] Instance Z_lawful : LawfulBincode Z in_u64 := countable_lawful _.
#[export] Instance InvoiceId_lawful : LawfulBincode InvoiceId InvoiceId_wf.
Proof.
  split. intros id _. eexists. split; [done|]. intros rest. cbn [decode_from_slice InvoiceId_bincode].
  rewrite <-app_assoc, read_write. simpl. rewrite read_write. by destruct id.
Qed.
#[export] Instance demo_struct : StructEncoding.
Proof. split. intros id bs [= <-]. by eexists _, _. Qed.

(** ** Trees *)

#[export] Instance DemoSled : SledCrate := {|
  SledError := unit;
  Tree := gmap bytes bytes;
  tree_get := λ k, gets (λ t, t !! k);
  tree_insert := λ k v t, (<[k:=v]> t, Ok (t !! k));
  tree_remove := λ k t, (delete k t, Ok (t !! k));
  tree_compare_and_swap := λ k old new t,
    if decide (t !! k = old) then (partial_alter (λ _, new) k t, Ok (inl tt)) else (t, Ok (inr tt));
  tree_fetch_and_update := λ k f t, (partial_alter f k t, Ok (t !! k));
  tree_iter := λ t, inl <$> map_to_list t;
  tree_scan_prefix := λ p t, inl <$> filter (λ kv, p `prefix_of` kv.1) (map_to_list t);
  tree_is_empty := λ t, bool_decide (t = ∅);
  tree_flush := ret tt;
  TransactionalTree := gmap bytes bytes;
  tx_insert := λ E k v t, (<[k:=v]> t, Ok (t !! k));
  tree_transaction := λ E A f t,
    match f t with
    | (t', Ok a) => (t', Ok a)
    | (_, Err (Abort e)) => (t, Err (Aborted e))
    | (_, Err _) => (t, Err (StorageFailure tt))
    | (_, Panic) => (t, Panic)
    | (_, Hang) => (t, Hang)
    end;
  Db := unit;
  config_open := λ _, inl tt;
  open_tree := λ _ _, inl ∅;
  set_merge_operator := λ _ t, t;
|}.

Lemma rows_inl {A E} (l : list A) : rows_of (E:=E) (inl <$> l) l.
Proof. apply Forall2_fmap_l, Forall_Forall2_diag, Forall_true. by left. Qed.

Definition demo_map : @Tree DemoSled → gmap bytes bytes := λ t, t.
#[export] Instance demo_sled_lawful : @LawfulSled DemoSled demo_map demo_map.
Proof.
  split; intros; unfold wp; simpl; try done.
  - unfold demo_map, tree_does. by repeat case_decide.
  - eexists. split; [done|apply rows_inl].
  - eexists. split; [done|apply rows_inl].
  - destruct (H t) as [Hp Hh]. revert Hp Hh. unfold demo_map.
    destruct (f t) as [t' [a|[e| |e]| |]] eqn:Ef; simpl; try done; intros _ _.
    + exists t. by rewrite Ef.
    + split; [done|]. exists t. by rewrite Ef.
Qed.

(** ** The properties applied *)

Definition demo_sled : Sled := mk_Sled ∅ ∅ ∅.

Lemma Sled_lawful_witness :
  LawfulStorage Sled SledStorageError SledStorageError SledStorageError SledStorageError
    (Sled_wf demo_map) (Sled_view demo_map).
Proof. apply (Sled_lawful demo_map demo_map). Defined.

Lemma Sled_contains_sub_index_exact_witness :
  Sled_wf demo_map demo_sled ∧
  ∃ b, Sled_contains_sub_index (SubIndex_new 1 3) demo_sled = (demo_sled, Ok b) ∧
       (b = true ↔ ∃ id, is_Some (v_invoices (Sled_view demo_map demo_sled) !! id) ∧
                         sub_index id = SubIndex_new 1 3).
Proof.
  assert (Sled_wf demo_map demo_sled) as Hwf by done. split; [done|].
  apply (Sled_contains_sub_index_exact demo_map demo_map); [done|].
  by repeat split.
Defined.
