(* ===== verification/Sqlite.v ===== *)
(** The SQLite store ([library/src/storage/stores/sqlite.rs]).  The [sqlite]
    crate is a parameter: a connection prepares a statement from its SQL text,
    binds values to its parameters and steps through its rows. *)
From Stdlib Require Import Ascii.
From S2P Require Import Prelude.
From S2P Require Import Invoice.
From S2P Require Import Storage.
From S2P Require Import Text.
From S2P Require Import Bincode.

(** ** Table names *)

(** The [replace] of [TableName::new]: every double quote twice. *)
Fixpoint double_quotes (table : text) : text :=
  match table with
  | [] => []
  | c :: table => if is_char dquote c then dquote :: dquote :: double_quotes table
                  else c :: double_quotes table
  end.
Notation TableName := text.
Definition TableName_new (table : text) : TableName := [dquote] ++ double_quotes table ++ [dquote].

(** ** The [sqlite] crate *)

Class SqliteCrate := {
  SqlError : Type;
  Connection : Type;
  Statement : Type;
  Row : Type;
  Value : Type;
  value_of_i64 : Z → Value;
  value_of_bytes : bytes → Value;
  open_thread_safe : text → Connection + SqlError;
  sql_execute : text → M Connection SqlError unit;
  sql_prepare : text → M Connection SqlError Statement;
  sql_bind : list (text * Value) → Statement → Statement + SqlError;
  (* [next]: the statement with its current row, if there is one *)
  sql_next : Statement → M Connection SqlError (Statement * option Row);
  (* the rows of [into_iter] *)
  sql_iter : Statement → Connection → list (Row + SqlError);
  row_bytes : Row → text → bytes + SqlError;   (* reading a column by name *)
  row_i64 : Row → text → Z + SqlError;
  row_first_i64 : Row → Z + SqlError;          (* reading column 0 *)
  row_value : Row → Value + SqlError;          (* reading any value, to print it *)
  change_count : Connection → Z;
}.

Definition nl : text := [ascii_of_nat 10].
(** A line of a statement, indented as in the source. *)
Definition line (indent : nat) (s : string) : text := nl ++ replicate indent " "%char ++ txt s.

Definition create_invoices_sql (t : TableName) : text :=
  txt "CREATE TABLE IF NOT EXISTS " ++ t ++ txt " ("
  ++ line 16 "major_subindex  INTEGER NOT NULL,"
  ++ line 16 "minor_subindex  INTEGER NOT NULL,"
  ++ line 16 "creation_height BLOB NOT NULL,"
  ++ line 16 "invoice         BLOB NOT NULL,"
  ++ line 16 "PRIMARY KEY (major_subindex, minor_subindex, creation_height)"
  ++ line 12 ");".
Definition create_output_keys_sql (t : TableName) : text :=
  txt "CREATE TABLE IF NOT EXISTS " ++ t ++ txt " ("
  ++ line 16 "output_key BLOB NOT NULL,"
  ++ line 16 "output_id  BLOB NOT NULL,"
  ++ line 16 "PRIMARY KEY (output_key)"
  ++ line 12 ");".
Definition create_height_sql (t : TableName) : text :=
  txt "CREATE TABLE IF NOT EXISTS " ++ t ++ txt " ("
  ++ line 16 "id INTEGER NOT NULL PRIMARY KEY,"
  ++ line 16 "height BLOB NOT NULL,"
  ++ line 16 "CHECK (id = 0)"
  ++ line 12 ");".

Definition insert_invoice_sql (t : TableName) : text :=
  txt "INSERT INTO " ++ t
  ++ txt " (major_subindex, minor_subindex, creation_height, invoice) "
  ++ line 12 "VALUES (:major, :minor, :height, :invoice);".
Definition by_id : string :=
  "WHERE major_subindex = :major AND minor_subindex = :minor AND creation_height = :height".
Definition delete_invoice_sql (t : TableName) : text :=
  txt "DELETE FROM " ++ t ++ line 20 (by_id +:+ " RETURNING invoice").
Definition update_invoice_sql (t : TableName) : text :=
  txt "UPDATE " ++ t ++ txt " SET invoice = :invoice " ++ line 20 by_id.
Definition select_invoice_sql (t : TableName) : text :=
  txt "SELECT invoice FROM " ++ t ++ line 12 by_id.
Definition select_ids_sql (t : TableName) : text :=
  txt "SELECT major_subindex, minor_subindex, creation_height FROM " ++ t.
Definition count_sub_index_sql (t : TableName) : text :=
  txt "SELECT COUNT(*) FROM " ++ t
  ++ line 12 "WHERE major_subindex = :major AND minor_subindex = :minor".
Definition select_invoices_sql (t : TableName) : text := txt "SELECT invoice FROM " ++ t.
Definition exists_sql (t : TableName) : text :=
  txt "SELECT EXISTS (SELECT 1 FROM " ++ t ++ txt ")".
Definition insert_key_sql (t : TableName) : text :=
  txt "INSERT INTO " ++ t ++ txt " (output_key, output_id) "
  ++ line 12 "VALUES (:output_key, :output_id);".
Definition select_key_sql (t : TableName) : text :=
  txt "SELECT output_id FROM " ++ t ++ line 12 "WHERE output_key = :output_key".
Definition upsert_height_sql (t : TableName) : text :=
  txt "INSERT INTO " ++ t ++ txt " (id, height) "
  ++ line 16 "VALUES (0, :height)"
  ++ line 16 "ON CONFLICT (id) DO UPDATE SET height=:height;".
Definition select_height_sql (t : TableName) : text :=
  txt "SELECT height FROM " ++ t ++ line 12 "WHERE id = 0".

(** ** The store *)

Section sqlite.
Context `{SqliteCrate} `{BincodeCrate} `{!Bincode Invoice} `{!Bincode OutputId} `{!Bincode Z}.

Inductive SqliteStorageError :=
  | SqlDatabase (e : SqlError)
  | DuplicateInvoice
  | SqlDuplicateOutputKey
  | SqlSerialize (e : EncodeError)
  | SqlDeserialize (e : DecodeError)
  | InvalidSubIndex (i : Z).

Record Sqlite := mk_Sqlite {
  sq_db : Connection;
  sq_invoices : TableName;
  sq_output_keys : TableName;
  sq_height : TableName;
}.
Definition set_sq_db (db : Connection) (s : Sqlite) : Sqlite :=
  mk_Sqlite db (sq_invoices s) (sq_output_keys s) (sq_height s).

Notation op A := (M Sqlite SqliteStorageError A).

(** A call of the crate whose error is propagated. *)
Definition on_db {A} (m : M Connection SqlError A) : op A := zoom sq_db set_sq_db (map_err SqlDatabase m).
Definition sql {S A} (r : A + SqlError) : M S SqliteStorageError A :=
  match r with inl a => ret a | inr e => throw (SqlDatabase e) end.
Definition sql_encode {A} `{!Bincode A} (a : A) : op bytes :=
  match encode_to_vec a with inl bs => ret bs | inr e => throw (SqlSerialize e) end.
Definition sql_decode {A} `{!Bincode A} (bs : bytes) : op A :=
  match decode_from_slice bs with inl a => ret a | inr e => throw (SqlDeserialize e) end.

Definition prepare (sql_text : text) (params : list (text * Value)) : op Statement :=
  let! statement := on_db (sql_prepare sql_text) in
  sql (sql_bind params statement).

Definition Sqlite_new (path invoice_table output_key_table height_table : text) :
    outcome SqliteStorageError Sqlite :=
  match open_thread_safe path with
  | inr e => Err (SqlDatabase e)
  | inl db =>
      let s := mk_Sqlite db (TableName_new invoice_table) (TableName_new output_key_table)
                 (TableName_new height_table) in
      let create : op unit :=
        on_db (sql_execute (create_invoices_sql (sq_invoices s))) ;;;
        on_db (sql_execute (create_output_keys_sql (sq_output_keys s))) ;;;
        on_db (sql_execute (create_height_sql (sq_height s))) in
      match create s with
      | (s, Ok _) => Ok s
      | (_, Err e) => Err e
      | (_, Panic) => Panic
      | (_, Hang) => Hang
      end
  end.

(** The parameters that select an invoice. *)
Definition sub_index_params (x : SubIndex) : list (text * Value) :=
  [(txt ":major", value_of_i64 (major x)); (txt ":minor", value_of_i64 (minor x))].
Definition id_params (invoice_id : InvoiceId) : list (text * Value) :=
  sub_index_params (sub_index invoice_id) ++
  [(txt ":height", value_of_bytes (to_be_bytes 8 (id_creation_height invoice_id)))].

(** The first row of a query, read by [read]; a second one is only reported.
    [None] if there is no row. *)
Definition first_row {A} (read : Row → A + SqlError) (statement : Statement) : op (option A) :=
  let! (statement, row) := on_db (sql_next statement) in
  match row with
  | None => ret None
  | Some row =>
      let! a := sql (read row) in
      let! (statement, second) := on_db (sql_next statement) in
      match second with
      | None => ret (Some a)
      | Some row => let! _ := sql (row_value row) in ret (Some a)
      end
  end.

(** The loop [while let Ok(State::Row) = statement.next()]: an error of the
    step ends it like the end of the rows.  [fuel] bounds the rows. *)
Fixpoint step_ignoring_errors (fuel : nat) (statement : Statement) : op unit :=
  match fuel with
  | O => hang
  | S fuel =>
      let! r := try_ (on_db (sql_next statement)) in
      match r with
      | inl (statement, Some row) =>
          let! _ := sql (row_value row) in
          step_ignoring_errors fuel statement
      | inl (_, None) | inr _ => ret tt
      end
  end.
(** The loop [while State::Row == statement.next()?]. *)
Fixpoint step_all (fuel : nat) (statement : Statement) : op unit :=
  match fuel with
  | O => hang
  | S fuel =>
      let! (statement, row) := on_db (sql_next statement) in
      match row with
      | Some row => let! _ := sql (row_first_i64 row) in step_all fuel statement
      | None => ret tt
      end
  end.
(** The statements of these loops give no rows. *)
Definition step_fuel : nat := 1.

(** *** [impl InvoiceStorage for Sqlite] *)

Definition Sqlite_insert (invoice : Invoice) : op unit :=
  let invoice_id := Invoice_id invoice in
  let! value := sql_encode invoice in
  let! table := gets sq_invoices in
  let! statement := prepare (insert_invoice_sql table)
    (id_params invoice_id ++ [(txt ":invoice", value_of_bytes value)]) in
  step_ignoring_errors step_fuel statement ;;;
  let! count := gets (λ s, change_count (sq_db s)) in
  if count =? 0 then throw DuplicateInvoice else ret tt.

Definition decode_invoice (o : option bytes) : op (option Invoice) :=
  match o with
  | None => ret None
  | Some invoice_bytes => let! i := sql_decode invoice_bytes in ret (Some i)
  end.

Definition Sqlite_remove (invoice_id : InvoiceId) : op (option Invoice) :=
  let! table := gets sq_invoices in
  let! statement := prepare (delete_invoice_sql table) (id_params invoice_id) in
  let! o := first_row (λ row, row_bytes row (txt "invoice")) statement in
  decode_invoice o.

Definition Sqlite_get (invoice_id : InvoiceId) : op (option Invoice) :=
  let! table := gets sq_invoices in
  let! select_stmt := prepare (select_invoice_sql table) (id_params invoice_id) in
  let! o := first_row (λ row, row_bytes row (txt "invoice")) select_stmt in
  decode_invoice o.

(** The block [transaction] ends in [Ok], and its errors leave the function
    with [?]; so the arm that rolls back is never taken. *)
Definition Sqlite_update (invoice : Invoice) : op (option Invoice) :=
  let invoice_id := Invoice_id invoice in
  let! value := sql_encode invoice in
  on_db (sql_execute (txt "BEGIN")) ;;;
  let! old := Sqlite_get invoice_id in
  match old with
  | None => ret None
  | Some invoice =>
      let! table := gets sq_invoices in
      let! update_stmt := prepare (update_invoice_sql table)
        ((txt ":invoice", value_of_bytes value) :: id_params invoice_id) in
      step_all step_fuel update_stmt ;;;
      on_db (sql_execute (txt "COMMIT")) ;;;
      ret (Some invoice)
  end.

(** [StoredInvoiceId::try_from(row)]; [copy_from_slice] panics when the
    lengths differ, and the error for a bad minor index names the major one. *)
Definition StoredInvoiceId_try_from (row : Row) : op InvoiceId :=
  let! major_subindex := sql (row_i64 row (txt "major_subindex")) in
  let! minor_subindex := sql (row_i64 row (txt "minor_subindex")) in
  let! creation_height_slice := sql (row_bytes row (txt "creation_height")) in
  if decide (length creation_height_slice = 8%nat) then
    if decide (in_u32 major_subindex) then
      if decide (in_u32 minor_subindex) then
        ret (InvoiceId_new (SubIndex_new major_subindex minor_subindex)
               (from_be_bytes creation_height_slice))
      else throw (InvalidSubIndex major_subindex)
    else throw (InvalidSubIndex major_subindex)
  else panic.

(** [flat_map] of a [Result] skips the rows that are errors. *)
Definition Sqlite_get_ids : op (list InvoiceId) :=
  let! table := gets sq_invoices in
  let! select_stmt := on_db (sql_prepare (select_ids_sql table)) in
  let! rows := gets (λ s, sql_iter select_stmt (sq_db s)) in
  fold_each rows [] (λ ids row,
    match row with
    | inr _ => ret ids
    | inl r => let! id := StoredInvoiceId_try_from r in ret (ids ++ [id])
    end).

Definition Sqlite_contains_sub_index (x : SubIndex) : op bool :=
  let! table := gets sq_invoices in
  let! select_stmt := prepare (count_sub_index_sql table) (sub_index_params x) in
  let! count := first_row row_first_i64 select_stmt in
  ret match count with Some count => 0 <? count | None => false end.

(** The rows of [try_for_each]: the statement is prepared with [?] outside
    of the closure. *)
Definition sql_row_invoice (row : Row + SqlError) : Invoice + SqliteStorageError :=
  match row with
  | inl row =>
      match row_bytes row (txt "invoice") with
      | inl value =>
          match decode_from_slice value with inl v => inl v | inr e => inr (SqlDeserialize e) end
      | inr e => inr (SqlDatabase e)
      end
  | inr e => inr (SqlDatabase e)
  end.
Definition Sqlite_try_for_each {C} (s : Sqlite) (f : EachClosure C SqliteStorageError) :
    M C SqliteStorageError unit :=
  match sql_prepare (select_invoices_sql (sq_invoices s)) (sq_db s) with
  | (db, Ok statement) => for_each (sql_iter statement db) (λ row, f (sql_row_invoice row))
  | (_, Err e) => throw (SqlDatabase e)
  | (_, Panic) => panic
  | (_, Hang) => hang
  end.

Definition Sqlite_is_empty : op bool :=
  let! table := gets sq_invoices in
  let! statement := on_db (sql_prepare (exists_sql table)) in
  let! is_empty := first_row row_first_i64 statement in
  ret match is_empty with Some is_empty => is_empty =? 0 | None => true end.

(** *** [impl OutputKeyStorage for Sqlite] *)

Definition key_value (key : OutputPubKey) : Value := value_of_bytes (key_bytes key).

Definition Sqlite_insert_key (key : OutputPubKey) (output_id : OutputId) : op unit :=
  let! value := sql_encode output_id in
  let! table := gets sq_output_keys in
  let! statement := prepare (insert_key_sql table)
    [(txt ":output_key", key_value key); (txt ":output_id", value_of_bytes value)] in
  step_ignoring_errors step_fuel statement ;;;
  let! count := gets (λ s, change_count (sq_db s)) in
  if count =? 0 then throw SqlDuplicateOutputKey else ret tt.

Definition Sqlite_get_key (key : OutputPubKey) : op (option OutputId) :=
  let! table := gets sq_output_keys in
  let! select_stmt := prepare (select_key_sql table) [(txt ":output_key", key_value key)] in
  let! o := first_row (λ row, row_bytes row (txt "output_id")) select_stmt in
  match o with
  | None => ret None
  | Some output_id_bytes => let! id := sql_decode output_id_bytes in ret (Some id)
  end.

(** *** [impl HeightStorage for Sqlite] *)

Definition Sqlite_get_height : op (option Z) :=
  let! table := gets sq_height in
  let! select_stmt := on_db (sql_prepare (select_height_sql table)) in
  let! o := first_row (λ row, row_bytes row (txt "height")) select_stmt in
  match o with
  | None => ret None
  | Some height_bytes => let! h := sql_decode height_bytes in ret (Some h)
  end.

(** As in [Sqlite_update], only errors of [COMMIT] come after the block. *)
Definition Sqlite_upsert_height (height : Z) : op (option Z) :=
  let! encoded_height := sql_encode height in
  on_db (sql_execute (txt "BEGIN")) ;;;
  let! old_height := Sqlite_get_height in
  let! table := gets sq_height in
  let! update_stmt := prepare (upsert_height_sql table)
    [(txt ":height", value_of_bytes encoded_height)] in
  step_all step_fuel update_stmt ;;;
  on_db (sql_execute (txt "COMMIT")) ;;;
  ret old_height.

#[export] Instance Sqlite_InvoiceStorage : InvoiceStorage Sqlite SqliteStorageError := {|
  is_insert := Sqlite_insert;
  is_remove := Sqlite_remove;
  is_update := Sqlite_update;
  is_get := Sqlite_get;
  is_get_ids := Sqlite_get_ids;
  is_contains_sub_index := Sqlite_contains_sub_index;
  is_try_for_each := @Sqlite_try_for_each;
  is_is_empty := Sqlite_is_empty;
|}.
#[export] Instance Sqlite_OutputKeyStorage : OutputKeyStorage Sqlite SqliteStorageError := {|
  ks_insert := Sqlite_insert_key;
  ks_get := Sqlite_get_key;
|}.
#[export] Instance Sqlite_HeightStorage : HeightStorage Sqlite SqliteStorageError := {|
  hs_upsert := Sqlite_upsert_height;
  hs_get := Sqlite_get_height;
|}.
#[export] Instance Sqlite_Storage : Storage Sqlite SqliteStorageError SqliteStorageError
    SqliteStorageError SqliteStorageError := {|
  storage_flush := default_flush;
|}.

End sqlite.
Arguments Sqlite {_}.
