(* ===== verification/SqliteLaws.v ===== *)
(** What the SQLite store does to its tables: the operations that are those
    of finite maps, the transaction that [update] leaves open, and the rows
    that [get_ids] leaves out. *)
From Stdlib Require Import Ascii.
From S2P Require Import Prelude.
From S2P Require Import Invoice.
From S2P Require Import Storage.
From S2P Require Import Text.
From S2P Require Import Bincode.
From S2P Require Import Sqlite.

(** ** Table names are quoted *)

(** How SQL reads a quoted identifier: a double quote inside it is doubled, a
    single one ends it. *)
Fixpoint read_quoted (s : text) : option (text * text) :=
  match s with
  | [] => None
  | c :: s =>
      if is_char dquote c then
        match s with
        | d :: s' => if is_char dquote d then
                       '(name, rest) ← read_quoted s'; Some (dquote :: name, rest)
                     else Some ([], s)
        | [] => Some ([], [])
        end
      else '(name, rest) ← read_quoted s; Some (c :: name, rest)
  end.
Definition read_identifier (s : text) : option (text * text) :=
  match s with
  | c :: s => if is_char dquote c then read_quoted s else None
  | [] => None
  end.

(** A table name is one SQL identifier, whatever characters it has: read
    back from the text of a statement it is the name that was given, and what
    follows it is read as the rest of the statement. *)
Theorem TableName_quoted table c rest :
  c ≠ dquote → read_identifier (TableName_new table ++ c :: rest) = Some (table, c :: rest).
Proof.
  intros Hc. unfold TableName_new, read_identifier.
  change (is_char dquote dquote) with true. cbn [app].
  change (is_char dquote dquote) with true. cbv match. rewrite <-app_assoc. cbn [app].
  induction table as [|d table IH]; cbn [double_quotes app].
  - cbn [read_quoted]. change (is_char dquote dquote) with true. cbv match.
    unfold is_char at 1. by rewrite bool_decide_false.
  - destruct (is_char dquote d) eqn:E; cbn [app read_quoted].
    + change (is_char dquote dquote) with true. cbv match. rewrite IH. simpl.
      apply bool_decide_eq_true in E as ->. done.
    + rewrite E, IH. done.
Qed.

Lemma TableName_quoted_witness :
  read_identifier (TableName_new ([dquote] ++ txt "; DROP TABLE x") ++ txt " (id)")
  = Some ([dquote] ++ txt "; DROP TABLE x", txt " (id)").
Proof. by apply TableName_quoted. Defined.

(** ** What the documentation of SQLite says *)

Notation RawId := (Z * Z * bytes)%type.

(** The tables, and whether a transaction is open. *)
Record SqlView := mk_SqlView {
  sv_invoices : gmap RawId bytes;
  sv_keys : gmap bytes bytes;
  sv_height : option bytes;
  sv_in_tx : bool;
}.
Definition set_sv_invoices (m : gmap RawId bytes) (v : SqlView) : SqlView :=
  mk_SqlView m (sv_keys v) (sv_height v) (sv_in_tx v).
Definition set_sv_keys (m : gmap bytes bytes) (v : SqlView) : SqlView :=
  mk_SqlView (sv_invoices v) m (sv_height v) (sv_in_tx v).
Definition set_sv_height (h : option bytes) (v : SqlView) : SqlView :=
  mk_SqlView (sv_invoices v) (sv_keys v) h (sv_in_tx v).
Definition set_sv_in_tx (b : bool) (v : SqlView) : SqlView :=
  mk_SqlView (sv_invoices v) (sv_keys v) (sv_height v) b.

Definition raw_id (id : InvoiceId) : RawId :=
  (major (sub_index id), minor (sub_index id), to_be_bytes 8 (id_creation_height id)).

Section laws.
Context `{SqliteCrate} (sql_view : Connection → SqlView).
(** [fresh st sql ps]: [st] is the statement [sql] with the parameters [ps],
    and has not been stepped. *)
Context (fresh : Statement → text → list (text * Value) → Prop).

(** A statement that gives at most one row, [row] if that is not [None], and
    leaves the tables as [v'].  It may fail at each step, and then its effect
    is undone.  (Some errors, a full disk for one, also make SQLite roll the
    open transaction back by itself; they are not covered.) *)
Definition yields (st : Statement) (db : Connection) (v' : SqlView) (row : option (Row → Prop)) : Prop :=
  wp (sql_next st) (λ db' r,
    match r with
    | Ok (st', o) => sql_view db' = v' ∧
        match row, o with
        | None, None => True
        | Some P, Some rw => P rw ∧
            wp (sql_next st') (λ db'' r,
              match r with
              | Ok (_, o) => o = None ∧ sql_view db'' = v'
              | Err _ => sql_view db'' = sql_view db
              | _ => False
              end) db'
        | _, _ => False
        end
    | Err _ => sql_view db' = sql_view db
    | _ => False
    end) db.

(** A step of an insertion that needs [free]; a failed one counts as no
    change. *)
Definition inserts (st : Statement) (db : Connection) (free : Prop) (v' : SqlView) : Prop :=
  wp (sql_next st) (λ db' r,
    match r with
    | Ok (_, o) => o = None ∧ free ∧ sql_view db' = v' ∧ change_count db' ≠ 0
    | Err _ => sql_view db' = sql_view db ∧ change_count db' = 0
    | _ => False
    end) db.

Definition sub_index_count (x : SubIndex) (m : gmap RawId bytes) : Z :=
  Z.of_nat (length (filter (λ p : RawId * bytes, p.1.1.1 = major x ∧ p.1.1.2 = minor x)
    (map_to_list m))).

(** The statements of the store whose tables are called [inv], [keys] and
    [height]. *)
Class LawfulSqlite (inv keys height : TableName) : Prop := {
  law_prepare t db : wp (sql_prepare t) (λ db' r, sql_view db' = sql_view db ∧
    match r with Ok st => fresh st t [] | Err _ => True | _ => False end) db;
  law_bind st t ps st' : fresh st t [] → sql_bind ps st = inl st' → fresh st' t ps;
  law_begin db : wp (sql_execute (txt "BEGIN")) (λ db' r,
    match r with
    | Ok _ => sv_in_tx (sql_view db) = false ∧ sql_view db' = set_sv_in_tx true (sql_view db)
    | Err _ => sql_view db' = sql_view db
    | _ => False
    end) db;
  law_commit db : wp (sql_execute (txt "COMMIT")) (λ db' r,
    match r with
    | Ok _ => sv_in_tx (sql_view db) = true ∧ sql_view db' = set_sv_in_tx false (sql_view db)
    | Err _ => sql_view db' = sql_view db
    | _ => False
    end) db;
  law_select_invoice st db id : fresh st (select_invoice_sql inv) (id_params id) →
    yields st db (sql_view db)
      ((λ bs rw, row_bytes rw (txt "invoice") = inl bs) <$> sv_invoices (sql_view db) !! raw_id id);
  law_delete_invoice st db id : fresh st (delete_invoice_sql inv) (id_params id) →
    yields st db
      (set_sv_invoices (delete (raw_id id) (sv_invoices (sql_view db))) (sql_view db))
      ((λ bs rw, row_bytes rw (txt "invoice") = inl bs) <$> sv_invoices (sql_view db) !! raw_id id);
  law_update_invoice st db id bs :
    fresh st (update_invoice_sql inv) ((txt ":invoice", value_of_bytes bs) :: id_params id) →
    yields st db
      (set_sv_invoices (alter (λ _, bs) (raw_id id) (sv_invoices (sql_view db))) (sql_view db)) None;
  law_insert_invoice st db id bs :
    fresh st (insert_invoice_sql inv) (id_params id ++ [(txt ":invoice", value_of_bytes bs)]) →
    inserts st db (sv_invoices (sql_view db) !! raw_id id = None)
      (set_sv_invoices (<[raw_id id := bs]> (sv_invoices (sql_view db))) (sql_view db));
  law_count st db x : fresh st (count_sub_index_sql inv) (sub_index_params x) →
    yields st db (sql_view db)
      (Some (λ rw, row_first_i64 rw = inl (sub_index_count x (sv_invoices (sql_view db)))));
  law_exists st db : fresh st (exists_sql inv) [] →
    yields st db (sql_view db) (Some (λ rw, row_first_i64 rw
      = inl (if decide (sv_invoices (sql_view db) = ∅) then 0 else 1)));
  law_ids st db : fresh st (select_ids_sql inv) [] → ∃ rows,
    rows ≡ₚ (map_to_list (sv_invoices (sql_view db))).*1 ∧
    Forall2 (λ it (r : RawId), (∃ e, it = inr e) ∨ ∃ rw, it = inl rw ∧
      row_i64 rw (txt "major_subindex") = inl r.1.1 ∧ row_i64 rw (txt "minor_subindex") = inl r.1.2 ∧
      row_bytes rw (txt "creation_height") = inl r.2) (sql_iter st db) rows;
  law_insert_key st db k bs :
    fresh st (insert_key_sql keys)
      [(txt ":output_key", key_value k); (txt ":output_id", value_of_bytes bs)] →
    inserts st db (sv_keys (sql_view db) !! key_bytes k = None)
      (set_sv_keys (<[key_bytes k := bs]> (sv_keys (sql_view db))) (sql_view db));
  law_select_key st db k :
    fresh st (select_key_sql keys) [(txt ":output_key", key_value k)] →
    yields st db (sql_view db) ((λ bs rw, row_bytes rw (txt "output_id") = inl bs)
      <$> sv_keys (sql_view db) !! key_bytes k);
  law_upsert_height st db bs :
    fresh st (upsert_height_sql height) [(txt ":height", value_of_bytes bs)] →
    yields st db (set_sv_height (Some bs) (sql_view db)) None;
  law_select_height st db : fresh st (select_height_sql height) [] →
    yields st db (sql_view db)
      ((λ bs rw, row_bytes rw (txt "height") = inl bs) <$> sv_height (sql_view db));
}.
End laws.

(** ** Statements of the store *)

(** The law of a fresh statement of a connection whose tables are known. *)
Ltac by_law law :=
  let st := fresh "st" in let db := fresh "db" in let Hst := fresh "Hst" in let Hdb := fresh "Hdb" in
  intros st db Hst Hdb; apply (law st db) in Hst; rewrite ?Hdb in Hst; exact Hst.

Section statements.
Context `{SqliteCrate} `{BincodeCrate} (sql_view : Connection → SqlView).
Context (fresh : Statement → text → list (text * Value) → Prop) (inv keys height : TableName).
Context `{!LawfulSqlite sql_view fresh inv keys height}.

(** What a failed call leaves. *)
Notation fails s Q := (∀ db' e, sql_view db' = sql_view (sq_db s) → Q (set_sq_db db' s) (Err e)).
Notation gives_row t ps read s v' oa :=
  (∀ st db, fresh st t ps → sql_view db = sql_view (sq_db s) →
     yields sql_view st db v' ((λ a rw, read rw = inl a) <$> oa)).

Lemma wp_prepare_plain t (Q : Sqlite → outcome SqliteStorageError Statement → Prop) s :
  fails s Q →
  (∀ st db', fresh st t [] → sql_view db' = sql_view (sq_db s) → Q (set_sq_db db' s) (Ok st)) →
  wp (on_db (sql_prepare t)) Q s.
Proof using All.
  intros Herr Hok. apply wp_zoom, wp_map_err.
  eapply wp_mono; [apply (law_prepare sql_view fresh)|].
  intros db' [st|e| |] [Hdb Hst]; auto; done.
Qed.

Lemma wp_prepare t ps (Q : Sqlite → outcome SqliteStorageError Statement → Prop) s :
  fails s Q →
  (∀ st db', fresh st t ps → sql_view db' = sql_view (sq_db s) → Q (set_sq_db db' s) (Ok st)) →
  wp (prepare t ps) Q s.
Proof using All.
  intros Herr Hok. apply wp_bind, wp_prepare_plain; [auto|].
  intros st db' Hst Hdb. unfold sql. destruct (sql_bind ps st) eqn:E; [|by apply Herr].
  apply Hok; [|done]. eapply (law_bind sql_view fresh); eauto.
Qed.

Lemma wp_first_row {A} (read : Row → A + SqlError) st v' (oa : option A)
    (Q : Sqlite → outcome SqliteStorageError (option A) → Prop) s :
  yields sql_view st (sq_db s) v' ((λ a rw, read rw = inl a) <$> oa) → fails s Q →
  (∀ db', sql_view db' = v' → Q (set_sq_db db' s) (Ok oa)) →
  wp (first_row read st) Q s.
Proof using Type.
  unfold yields. intros Hy Herr Hok. apply wp_bind, wp_zoom, wp_map_err. eapply wp_mono; [exact Hy|].
  intros db1 [[st1 o]|e| |]; [|by apply Herr|done..]. intros [E1 Hrow].
  destruct oa as [a|], o as [rw|]; simpl in Hrow; try done; [|by apply wp_ret, Hok].
  destruct Hrow as [Hread Hnext]. apply wp_bind. unfold sql at 1. rewrite Hread.
  apply wp_ret, wp_bind, wp_zoom, wp_map_err. eapply wp_mono; [exact Hnext|].
  intros db2 [[st2 o]|e| |]; [|by apply Herr|done..]. intros [-> E2]. by apply wp_ret, Hok.
Qed.

(** A query for one row, with parameters and without. *)
Lemma wp_query {A B} t ps (read : Row → A + SqlError) v' oa (k : option A → M Sqlite SqliteStorageError B)
    (Q : Sqlite → outcome SqliteStorageError B → Prop) s :
  gives_row t ps read s v' oa → fails s Q →
  (∀ db', sql_view db' = v' → wp (k oa) Q (set_sq_db db' s)) →
  wp (let! st := prepare t ps in let! o := first_row read st in k o) Q s.
Proof using All.
  intros Hy Herr Hok. apply wp_bind, wp_prepare; [auto|]. intros st db' Hst Hdb.
  apply wp_bind. eapply wp_first_row; [by apply Hy|cbn [set_sq_db sq_db]|done].
  intros db'' e Hdb''. apply Herr. congruence.
Qed.

Lemma wp_query_plain {A B} t (read : Row → A + SqlError) v' oa (k : option A → M Sqlite SqliteStorageError B)
    (Q : Sqlite → outcome SqliteStorageError B → Prop) s :
  gives_row t [] read s v' oa → fails s Q →
  (∀ db', sql_view db' = v' → wp (k oa) Q (set_sq_db db' s)) →
  wp (let! st := on_db (sql_prepare t) in let! o := first_row read st in k o) Q s.
Proof using All.
  intros Hy Herr Hok. apply wp_bind, wp_prepare_plain; [auto|]. intros st db' Hst Hdb.
  apply wp_bind. eapply wp_first_row; [by apply Hy|cbn [set_sq_db sq_db]|done].
  intros db'' e Hdb''. apply Herr. congruence.
Qed.

(** A statement that gives no rows, stepped to its end. *)
Lemma wp_run {B} t ps v' (k : M Sqlite SqliteStorageError B)
    (Q : Sqlite → outcome SqliteStorageError B → Prop) s :
  (∀ st db, fresh st t ps → sql_view db = sql_view (sq_db s) → yields sql_view st db v' None) →
  fails s Q → (∀ db', sql_view db' = v' → wp k Q (set_sq_db db' s)) →
  wp (let! st := prepare t ps in step_all step_fuel st ;;; k) Q s.
Proof using All.
  unfold yields, inserts. intros Hy Herr Hok. apply wp_bind, wp_prepare; [auto|]. intros st db' Hst Hdb.
  apply wp_bind. cbn [step_all step_fuel]. apply wp_bind, wp_zoom, wp_map_err.
  eapply wp_mono; [by apply Hy|]. intros db1 [[st1 o]|e| |]; cbn [set_sq_db sq_db]; [|..|done|done].
  - intros [E1 Ho]. destruct o; [done|]. by apply wp_ret, Hok.
  - intros E1. apply Herr. congruence.
Qed.

(** An insertion, and the error [dup] for a row that exists. *)
Lemma wp_insertion t ps free v' dup (Q : Sqlite → outcome SqliteStorageError unit → Prop) s :
  (∀ st db, fresh st t ps → sql_view db = sql_view (sq_db s) → inserts sql_view st db free v') →
  fails s Q → (∀ db', free → sql_view db' = v' → Q (set_sq_db db' s) (Ok tt)) →
  wp (let! st := prepare t ps in
      step_ignoring_errors step_fuel st ;;;
      let! count := gets (λ s, change_count (sq_db s)) in
      if count =? 0 then throw dup else ret tt) Q s.
Proof using All.
  unfold yields, inserts. intros Hy Herr Hok. apply wp_bind, wp_prepare; [auto|]. intros st db' Hst Hdb.
  apply wp_bind. cbn [step_ignoring_errors step_fuel]. apply wp_bind, wp_try, wp_zoom, wp_map_err.
  eapply wp_mono; [by apply Hy|].
  intros db1 [[st1 o]|e| |]; cbn [set_sq_db sq_db]; [|..|done|done].
  - intros (-> & Hfree & E1 & Hc). apply wp_ret, wp_bind, wp_gets. cbn [set_sq_db sq_db].
    apply Z.eqb_neq in Hc as ->. by apply wp_ret, Hok.
  - intros (E1 & Hc). apply wp_ret, wp_bind, wp_gets. cbn [set_sq_db sq_db].
    rewrite Hc. apply wp_throw, Herr. congruence.
Qed.
End statements.
