(* ===== verification/SqliteTables.v ===== *)
(** The SQLite store as finite maps: every request that is a single statement
    does what the interface of the store says, and [get_ids] leaves out the
    rows that cannot be read. *)
From Stdlib Require Import Ascii.
From S2P Require Import Prelude.
From S2P Require Import Invoice.
From S2P Require Import Storage.
From S2P Require Import Text.
From S2P Require Import Bincode.
From S2P Require Import Sqlite.
From S2P Require Import SqliteLaws.

(** ** What a request promises *)

(** The answer to a request and the view it leaves, for the requests that are
    one statement. *)
Definition request_spec {E A} (message : Method E A) (v : StoreView) : A → StoreView → Prop :=
  match message with
  | InsertInvoice i => λ _ v', v_invoices v !! Invoice_id i = None ∧
      v' = set_v_invoices (<[Invoice_id i := i]> (v_invoices v)) v
  | RemoveInvoice id => λ o v', o = v_invoices v !! id ∧
      v' = set_v_invoices (delete id (v_invoices v)) v
  | GetInvoice id => λ o v', v' = v ∧ o = v_invoices v !! id
  | ContainsSubIndex x => λ b v', v' = v ∧
      (b = true ↔ ∃ id, is_Some (v_invoices v !! id) ∧ sub_index id = x)
  | GetHeight => λ o v', v' = v ∧ o = v_height v
  | GetOutputKeyId k => λ o v', v' = v ∧ o = v_keys v !! k
  | InsertOutputKey k o => λ _ v', v_keys v !! k = None ∧
      v' = set_v_keys (<[k := o]> (v_keys v)) v
  | Flush => λ _ v', v' = v
  | _ => λ _ _, True
  end.
Definition one_statement {E A} (message : Method E A) : bool :=
  match message with
  | UpdateInvoice _ | UpsertHeight _ | GetInvoiceIds | ForEachInvoice _ _ | LowestInvoiceHeight => false
  | _ => true
  end.

(** ** The tables *)

Definition id_of (r : RawId) : InvoiceId :=
  InvoiceId_new (SubIndex_new r.1.1 r.1.2) (from_be_bytes r.2).
Definition id_of_raw (r : RawId) : option InvoiceId := Some (id_of r).

Lemma id_of_raw_id' id : InvoiceId_wf id → id_of (raw_id id) = id.
Proof.
  intros [_ Hh]. unfold id_of, raw_id. cbn [fst snd].
  rewrite from_to_be_bytes by (unfold in_u64, u64_max in Hh; change (256 ^ Z.of_nat 8) with (2 ^ 64); lia).
  by destruct id as [[] ?].
Qed.
Lemma id_of_raw_id id : InvoiceId_wf id → id_of_raw (raw_id id) = Some id.
Proof. intros. unfold id_of_raw. by rewrite id_of_raw_id'. Qed.

Section tables.
Context `{SqliteCrate} `{BincodeCrate} `{!Bincode Invoice} `{!Bincode OutputId} `{!Bincode Z}.
Context `{!LawfulBincode Invoice Invoice_wf} `{!LawfulBincode OutputId OutputId_wf}
  `{!LawfulBincode Z in_u64}.

Definition view_of (v : SqlView) : StoreView := mk_StoreView
  (decoded id_of_raw dec (sv_invoices v)) (decoded key_of_bytes dec (sv_keys v))
  (sv_height v ≫= dec).

Notation good_invoices := (good InvoiceId_wf filed raw_id dec).
Notation good_keys := (good OutputPubKey_wf (λ _, OutputId_wf) key_bytes dec).
Definition good_view (v : SqlView) : Prop :=
  good_invoices (sv_invoices v) ∧ good_keys (sv_keys v) ∧ good_height (sv_height v).

Lemma raw_invoice v id :
  good_view v → InvoiceId_wf id →
  v_invoices (view_of v) !! id = sv_invoices v !! raw_id id ≫= dec.
Proof using Type.
  intros (Hg & _ & _) Hid. by apply (decoded_lookup InvoiceId_wf filed raw_id id_of_raw dec id_of_raw_id).
Qed.
Lemma raw_key v k :
  good_view v → OutputPubKey_wf k → v_keys (view_of v) !! k = sv_keys v !! key_bytes k ≫= dec.
Proof using Type.
  intros (_ & Hg & _) Hk.
  by apply (decoded_lookup OutputPubKey_wf (λ _, OutputId_wf) key_bytes key_of_bytes dec key_bytes_inv).
Qed.

Lemma raw_invoice_stored v i :
  good_view v → Invoice_wf i →
  good_view (set_sv_invoices (<[raw_id (Invoice_id i) := encoded i]> (sv_invoices v)) v) ∧
  view_of (set_sv_invoices (<[raw_id (Invoice_id i) := encoded i]> (sv_invoices v)) v)
  = set_v_invoices (<[Invoice_id i := i]> (v_invoices (view_of v))) (view_of v).
Proof using All.
  intros (Hg & Hk & Hh) Hi. pose proof (Invoice_id_wf i Hi) as Hid.
  pose proof (dec_encoded Invoice_wf i Hi) as Hd. assert (filed (Invoice_id i) i) as Hf by done.
  split.
  - split; [|done]. by apply (good_insert InvoiceId_wf filed raw_id dec _ (Invoice_id i) (encoded i) i).
  - unfold view_of at 1. cbn [sv_invoices sv_keys sv_height set_sv_invoices].
    by rewrite (decoded_insert InvoiceId_wf filed raw_id id_of_raw dec id_of_raw_id _ (Invoice_id i) _ i).
Qed.
Lemma raw_invoice_deleted v id :
  good_view v → InvoiceId_wf id →
  good_view (set_sv_invoices (delete (raw_id id) (sv_invoices v)) v) ∧
  view_of (set_sv_invoices (delete (raw_id id) (sv_invoices v)) v)
  = set_v_invoices (delete id (v_invoices (view_of v))) (view_of v).
Proof using Type.
  intros (Hg & Hk & Hh) Hid. split.
  - split; [|done]. by apply (good_delete InvoiceId_wf filed raw_id dec).
  - unfold view_of at 1. cbn [sv_invoices sv_keys sv_height set_sv_invoices].
    by rewrite (decoded_delete InvoiceId_wf filed raw_id id_of_raw dec id_of_raw_id).
Qed.
Lemma raw_key_stored v k o :
  good_view v → OutputPubKey_wf k → OutputId_wf o →
  good_view (set_sv_keys (<[key_bytes k := encoded o]> (sv_keys v)) v) ∧
  view_of (set_sv_keys (<[key_bytes k := encoded o]> (sv_keys v)) v)
  = set_v_keys (<[k := o]> (v_keys (view_of v))) (view_of v).
Proof using All.
  intros (Hg & Hgk & Hh) Hk Ho. pose proof (dec_encoded OutputId_wf o Ho) as Hd. split.
  - split; [done|]. split; [|done].
    by apply (good_insert OutputPubKey_wf (λ _, OutputId_wf) key_bytes dec _ k (encoded o) o).
  - unfold view_of at 1. cbn [sv_invoices sv_keys sv_height set_sv_keys].
    by rewrite (decoded_insert OutputPubKey_wf (λ _, OutputId_wf) key_bytes key_of_bytes dec
      key_bytes_inv _ k _ o).
Qed.

(** The number of rows of a subaddress. *)
Lemma sub_index_count_spec v x :
  good_view v → (0 <? sub_index_count x (sv_invoices v)) = true ↔
  ∃ id, is_Some (v_invoices (view_of v) !! id) ∧ sub_index id = x.
Proof using Type.
  intros (Hg & _ & _). unfold sub_index_count. rewrite Z.ltb_lt. split.
  - intros Hlen. destruct (filter _ _) as [|[r bs] l] eqn:E; [simpl in Hlen; lia|].
    assert ((r, bs) ∈ filter (λ p : RawId * bytes, p.1.1.1 = major x ∧ p.1.1.2 = minor x)
      (map_to_list (sv_invoices v))) as Hin by (rewrite E; left).
    apply list_elem_of_filter in Hin as [Hx Hin%elem_of_map_to_list].
    destruct (Hg _ _ Hin) as (id & i & Hid & -> & Hd & Hf). exists id. split.
    + exists i. apply (decoded_Some InvoiceId_wf filed raw_id id_of_raw dec id_of_raw_id); eauto.
    + destruct id as [[] ?], x. simpl in *. by destruct Hx as [-> ->].
  - intros (id & [i Hi] & <-).
    apply (decoded_Some InvoiceId_wf filed raw_id id_of_raw dec id_of_raw_id) in Hi
      as (_ & bs & Hbs & _); [|done].
    assert ((raw_id id, bs) ∈ filter (λ p : RawId * bytes,
      p.1.1.1 = major (sub_index id) ∧ p.1.1.2 = minor (sub_index id)) (map_to_list (sv_invoices v)))
      as Hin by (apply list_elem_of_filter; split; [done|by apply elem_of_map_to_list]).
    destruct (filter _ _); [by apply elem_of_nil in Hin|simpl; lia].
Qed.

(** ** The requests *)

Context (sql_view : Connection → SqlView).
Context (fresh : Statement → text → list (text * Value) → Prop) (inv keys height : TableName).
Context `{HL : !LawfulSqlite sql_view fresh inv keys height}.

(** The store has the tables [inv], [keys] and [height], and what they hold
    can be read. *)
Definition Sqlite_wf (s : Sqlite) : Prop :=
  (sq_invoices s = inv ∧ sq_output_keys s = keys ∧ sq_height s = height) ∧
  good_view (sql_view (sq_db s)).
Definition Sqlite_view (s : Sqlite) : StoreView := view_of (sql_view (sq_db s)).
Notation returns s ok := (or_fail Sqlite_wf Sqlite_view s ok).

Lemma left_as {E A} s v' (ok : A → StoreView → Prop) a db' :
  Sqlite_wf s → sql_view db' = v' → good_view v' → ok a (view_of v') →
  returns s ok (set_sq_db db' s) (Ok (E:=E) a).
Proof using Type. intros [? _] <- ??. done. Qed.
Lemma same_view {E A} s (ok : A → StoreView → Prop) db' e :
  Sqlite_wf s → sql_view db' = sql_view (sq_db s) →
  returns s ok (set_sq_db db' s) (Err (E:=E) e).
Proof using Type.
  intros [? ?] Hdb. unfold or_fail, Sqlite_wf, Sqlite_view. cbn [set_sq_db sq_db]. by rewrite Hdb.
Qed.

Lemma wp_sql_encode {A} `{!Bincode A} (wf : A → Prop) `{!LawfulBincode A wf} a
    (Q : Sqlite → outcome SqliteStorageError bytes → Prop) s :
  wf a → Q s (Ok (encoded a)) → wp (sql_encode a) Q s.
Proof using Type. intros Ha HQ. unfold sql_encode. by rewrite (encode_wf wf). Qed.

(** A row decoded. *)
Lemma wp_sql_decode {A} `{!Bincode A} bs a (Q : Sqlite → outcome SqliteStorageError A → Prop) s :
  dec bs = Some a → Q s (Ok a) → wp (sql_decode bs) Q s.
Proof using Type.
  intros Hd HQ. unfold sql_decode, dec in *. destruct (decode_from_slice bs); [|done].
  by injection Hd as ->.
Qed.
Lemma wp_decode_invoice o (Q : Sqlite → outcome SqliteStorageError (option Invoice) → Prop) s :
  (∀ bs, o = Some bs → is_Some (dec (A:=Invoice) bs)) → Q s (Ok (o ≫= dec)) → wp (decode_invoice o) Q s.
Proof using Type.
  intros Ho HQ. destruct o as [bs|]; [|done]. destruct (Ho bs eq_refl) as [i Hi].
  apply wp_bind. apply (wp_sql_decode bs i); [done|]. apply wp_ret. simpl in HQ. by rewrite Hi in HQ.
Qed.

Lemma Sqlite_insert_spec s i :
  Sqlite_wf s → Invoice_wf i →
  wp (Sqlite_insert i) (returns s (λ _ v', v_invoices (Sqlite_view s) !! Invoice_id i = None ∧
    v' = set_v_invoices (<[Invoice_id i := i]> (v_invoices (Sqlite_view s))) (Sqlite_view s))) s.
Proof using All.
  intros Hwf Hi. destruct (raw_invoice_stored _ i (proj2 Hwf) Hi) as [Hg Hv].
  unfold Sqlite_insert. apply wp_bind, (wp_sql_encode Invoice_wf); [done|]. apply wp_bind, wp_gets.
  destruct (proj1 Hwf) as (-> & _ & _).
  eapply (wp_insertion sql_view fresh inv keys height).
  - by_law (law_insert_invoice sql_view fresh).
  - intros. by apply same_view.
  - intros db' Hnone Hdb. eapply left_as; [done|done|done|]. split; [|done].
    unfold Sqlite_view. by rewrite (raw_invoice _ _ (proj2 Hwf) (Invoice_id_wf i Hi)), Hnone.
Qed.

Lemma readable_invoice s id bs :
  Sqlite_wf s → sv_invoices (sql_view (sq_db s)) !! raw_id id = Some bs →
  is_Some (dec (A:=Invoice) bs).
Proof using Type. intros [_ (Hg & _)]. apply (readable _ _ _ _ _ _ Hg). Qed.

Lemma Sqlite_remove_spec s id :
  Sqlite_wf s → InvoiceId_wf id →
  wp (Sqlite_remove id) (returns s (λ o v', o = v_invoices (Sqlite_view s) !! id ∧
    v' = set_v_invoices (delete id (v_invoices (Sqlite_view s))) (Sqlite_view s))) s.
Proof using All.
  intros Hwf Hid. destruct (raw_invoice_deleted _ id (proj2 Hwf) Hid) as [Hg Hv].
  unfold Sqlite_remove. apply wp_bind, wp_gets. destruct (proj1 Hwf) as (-> & _ & _).
  eapply (wp_query sql_view fresh inv keys height).
  - by_law (law_delete_invoice sql_view fresh).
  - intros. by apply same_view.
  - intros db' Hdb. apply wp_decode_invoice; [intros bs Hbs; by eapply readable_invoice|].
    eapply left_as; [done|done|done|]. split; [|done].
    unfold Sqlite_view. by rewrite raw_invoice by (done || apply Hwf).
Qed.

(** What [get] does, when the connection may be in a transaction. *)
Lemma Sqlite_get_run s id (Q : Sqlite → outcome SqliteStorageError (option Invoice) → Prop) :
  Sqlite_wf s → InvoiceId_wf id →
  (∀ db' e, sql_view db' = sql_view (sq_db s) → Q (set_sq_db db' s) (Err e)) →
  (∀ db', sql_view db' = sql_view (sq_db s) →
     Q (set_sq_db db' s) (Ok (v_invoices (Sqlite_view s) !! id))) →
  wp (Sqlite_get id) Q s.
Proof using All.
  intros Hwf Hid Herr Hok. unfold Sqlite_get. apply wp_bind, wp_gets.
  destruct (proj1 Hwf) as (-> & _ & _). eapply (wp_query sql_view fresh inv keys height).
  - by_law (law_select_invoice sql_view fresh).
  - done.
  - intros db' Hdb. apply wp_decode_invoice; [intros bs Hbs; by eapply readable_invoice|].
    unfold Sqlite_view in Hok. rewrite raw_invoice in Hok by (done || apply Hwf). by apply Hok.
Qed.

Lemma Sqlite_get_spec s id :
  Sqlite_wf s → InvoiceId_wf id →
  wp (Sqlite_get id)
    (returns s (λ o v', v' = Sqlite_view s ∧ o = v_invoices (Sqlite_view s) !! id)) s.
Proof using All.
  intros Hwf Hid. apply Sqlite_get_run; [done|done|by intros; apply same_view|].
  intros db' Hdb. by eapply left_as; [..|apply Hwf|].
Qed.

Lemma Sqlite_contains_spec s x :
  Sqlite_wf s →
  wp (Sqlite_contains_sub_index x) (returns s (λ b v', v' = Sqlite_view s ∧
    (b = true ↔ ∃ id, is_Some (v_invoices (Sqlite_view s) !! id) ∧ sub_index id = x))) s.
Proof using All.
  intros Hwf. unfold Sqlite_contains_sub_index. apply wp_bind, wp_gets.
  destruct (proj1 Hwf) as (-> & _ & _).
  eapply (wp_query sql_view fresh inv keys height) with (oa := Some _).
  - by_law (law_count sql_view fresh).
  - intros. by apply same_view.
  - intros db' Hdb. apply wp_ret. eapply left_as; [done|done|apply Hwf|]. split; [done|].
    apply sub_index_count_spec, Hwf.
Qed.

Lemma Sqlite_insert_key_spec s k o :
  Sqlite_wf s → OutputPubKey_wf k → OutputId_wf o →
  wp (Sqlite_insert_key k o) (returns s (λ _ v', v_keys (Sqlite_view s) !! k = None ∧
    v' = set_v_keys (<[k := o]> (v_keys (Sqlite_view s))) (Sqlite_view s))) s.
Proof using All.
  intros Hwf Hk Ho. destruct (raw_key_stored _ k o (proj2 Hwf) Hk Ho) as [Hg Hv].
  unfold Sqlite_insert_key. apply wp_bind, (wp_sql_encode OutputId_wf); [done|].
  apply wp_bind, wp_gets. destruct (proj1 Hwf) as (_ & -> & _).
  eapply (wp_insertion sql_view fresh inv keys height).
  - by_law (law_insert_key sql_view fresh).
  - intros. by apply same_view.
  - intros db' Hnone Hdb. eapply left_as; [done|done|done|]. split; [|done].
    unfold Sqlite_view. by rewrite (raw_key _ _ (proj2 Hwf) Hk), Hnone.
Qed.

Lemma Sqlite_get_key_spec s k :
  Sqlite_wf s → OutputPubKey_wf k →
  wp (Sqlite_get_key k) (returns s (λ o v', v' = Sqlite_view s ∧ o = v_keys (Sqlite_view s) !! k)) s.
Proof using All.
  intros Hwf Hk. unfold Sqlite_get_key. apply wp_bind, wp_gets.
  destruct (proj1 Hwf) as (_ & -> & _). eapply (wp_query sql_view fresh inv keys height).
  - by_law (law_select_key sql_view fresh).
  - intros. by apply same_view.
  - intros db' Hdb.
    assert (v_keys (Sqlite_view s) !! k = sv_keys (sql_view (sq_db s)) !! key_bytes k ≫= dec) as E
      by (apply raw_key; [apply Hwf|done]).
    destruct (sv_keys (sql_view (sq_db s)) !! key_bytes k) as [bs|] eqn:Ebs; simpl in E.
    + destruct (readable _ _ _ _ _ _ (proj1 (proj2 (proj2 Hwf))) Ebs) as [o Ho].
      apply wp_bind, (wp_sql_decode bs o); [done|]. rewrite Ho in E. apply wp_ret.
      by eapply left_as; [..|apply Hwf|].
    + apply wp_ret. by eapply left_as; [..|apply Hwf|].
Qed.

Lemma Sqlite_get_height_run s (Q : Sqlite → outcome SqliteStorageError (option Z) → Prop) :
  Sqlite_wf s →
  (∀ db' e, sql_view db' = sql_view (sq_db s) → Q (set_sq_db db' s) (Err e)) →
  (∀ db', sql_view db' = sql_view (sq_db s) → Q (set_sq_db db' s) (Ok (v_height (Sqlite_view s)))) →
  wp Sqlite_get_height Q s.
Proof using All.
  intros Hwf Herr Hok. unfold Sqlite_get_height. apply wp_bind, wp_gets.
  destruct (proj1 Hwf) as (_ & _ & ->). eapply (wp_query_plain sql_view fresh inv keys height).
  - by_law (law_select_height sql_view fresh).
  - done.
  - intros db' Hdb. unfold Sqlite_view in Hok. simpl in Hok.
    destruct (sv_height (sql_view (sq_db s))) as [bs|] eqn:Ebs; [|by apply wp_ret, Hok].
    destruct (proj2 (proj2 (proj2 Hwf)) bs Ebs) as (h & _ & Eh). simpl in Hok. rewrite Eh in Hok.
    apply wp_bind, (wp_sql_decode bs h); [done|]. by apply wp_ret, Hok.
Qed.

Lemma Sqlite_get_height_spec s :
  Sqlite_wf s →
  wp Sqlite_get_height (returns s (λ o v', v' = Sqlite_view s ∧ o = v_height (Sqlite_view s))) s.
Proof using All.
  intros Hwf. apply Sqlite_get_height_run; [done|by intros; apply same_view|].
  intros db' Hdb. by eapply left_as; [..|apply Hwf|].
Qed.

Lemma Sqlite_is_empty_spec s :
  Sqlite_wf s →
  wp Sqlite_is_empty (returns s (λ b v', v' = Sqlite_view s ∧
    b = bool_decide (v_invoices (Sqlite_view s) = ∅))) s.
Proof using All.
  intros Hwf. unfold Sqlite_is_empty. apply wp_bind, wp_gets.
  destruct (proj1 Hwf) as (-> & _ & _).
  eapply (wp_query_plain sql_view fresh inv keys height) with (oa := Some _).
  - by_law (law_exists sql_view fresh).
  - intros. by apply same_view.
  - intros db' Hdb. apply wp_ret. eapply left_as; [done|done|apply Hwf|]. split; [done|].
    unfold Sqlite_view. simpl. destruct Hwf as [_ (Hg & _)]. case_decide as E.
    + rewrite E, decoded_empty. by rewrite bool_decide_true.
    + symmetry. apply bool_decide_eq_false. intros Hempty. apply E, map_empty. intros r.
      destruct (_ !! r) as [bs|] eqn:Er; [|done]. destruct (Hg _ _ Er) as (id & i & Hid & -> & Hd & Hf).
      assert (decoded id_of_raw dec (sv_invoices (sql_view (sq_db s))) !! id = Some i) as Hi
        by (apply (decoded_Some InvoiceId_wf filed raw_id id_of_raw dec id_of_raw_id); eauto).
      by rewrite Hempty in Hi.
Qed.

(** ** Ids *)

(** The id of a row. *)
Lemma stored_id_run r rw id (Q : Sqlite → outcome SqliteStorageError InvoiceId → Prop) s :
  InvoiceId_wf id → r = raw_id id →
  row_i64 rw (txt "major_subindex") = inl r.1.1 → row_i64 rw (txt "minor_subindex") = inl r.1.2 →
  row_bytes rw (txt "creation_height") = inl r.2 →
  Q s (Ok id) → wp (StoredInvoiceId_try_from rw) Q s.
Proof using Type.
  intros Hid -> Emaj Emin Eh HQ. rewrite <-(id_of_raw_id' id Hid) in HQ. unfold id_of in HQ.
  destruct Hid as [[Hmaj Hmin] _].
  unfold StoredInvoiceId_try_from. apply wp_bind. rewrite Emaj. apply wp_ret, wp_bind.
  rewrite Emin. apply wp_ret, wp_bind. rewrite Eh. apply wp_ret.
  rewrite decide_True by apply length_to_be_bytes. rewrite !decide_True by done.
  by apply wp_ret.
Qed.

(** A row of the query for ids: unreadable, or the columns of an id. *)
Definition id_row (it : Row + SqlError) (id : InvoiceId) : Prop :=
  (∃ e, it = inr e) ∨ ∃ rw, it = inl rw ∧ InvoiceId_wf id ∧
    row_i64 rw (txt "major_subindex") = inl (raw_id id).1.1 ∧
    row_i64 rw (txt "minor_subindex") = inl (raw_id id).1.2 ∧
    row_bytes rw (txt "creation_height") = inl (raw_id id).2.

(** The ids that are read. *)
Definition ids_read (items : list (Row + SqlError)) (ids : list InvoiceId) : list InvoiceId :=
  omap (λ p, match p.1 with inl _ => Some p.2 | inr _ => None end) (zip items ids).

Lemma get_ids_loop items ids acc s :
  Forall2 id_row items ids →
  wp (fold_each items acc (λ ids row,
        match row with
        | inr _ => ret ids
        | inl r => let! id := StoredInvoiceId_try_from r in ret (ids ++ [id])
        end)) (λ s' r, s' = s ∧ r = Ok (acc ++ ids_read items ids)) s.
Proof using Type.
  intros Hids. revert acc. induction Hids as [|it id items ids Hit Hids IH]; intros acc.
  { apply wp_ret. unfold ids_read. simpl. by rewrite app_nil_r. }
  cbn [fold_each]. apply wp_bind. destruct Hit as [[e ->]|(rw & -> & Hid & Emaj & Emin & Eh)].
  - apply wp_ret. apply IH.
  - apply wp_bind, (stored_id_run (raw_id id) rw id); [done..|]. apply wp_ret.
    eapply wp_mono; [apply IH|]. intros s' r. unfold ids_read. simpl. by rewrite <-app_assoc.
Qed.

(** The rows of the table, as ids. *)
Lemma rows_are_ids v items (rows : list RawId) :
  good_view v → rows ≡ₚ (map_to_list (sv_invoices v)).*1 →
  Forall2 (λ it (r : RawId), (∃ e, it = inr e) ∨ ∃ rw, it = inl rw ∧
      row_i64 rw (txt "major_subindex") = inl r.1.1 ∧ row_i64 rw (txt "minor_subindex") = inl r.1.2 ∧
      row_bytes rw (txt "creation_height") = inl r.2) items rows →
  ∃ ids, ids ≡ₚ (map_to_list (v_invoices (view_of v))).*1 ∧ Forall2 id_row items ids.
Proof using Type.
  intros (Hg & _) Hrows Hitems.
  assert (Hraw : ∀ r, r ∈ rows → InvoiceId_wf (id_of r) ∧ raw_id (id_of r) = r ∧
    ∃ bs, sv_invoices v !! r = Some bs ∧ is_Some (dec (A:=Invoice) bs)).
  { intros r Hr. rewrite Hrows in Hr. apply list_elem_of_fmap in Hr as ([? bs] & -> & Hr).
    apply elem_of_map_to_list in Hr. destruct (Hg _ _ Hr) as (id & i & Hid & E & Hd & _).
    cbn [fst]. subst. rewrite (id_of_raw_id' id Hid). eauto 10. }
  exists (id_of <$> rows). split.
  - rewrite <-(decoded_perm InvoiceId_wf filed raw_id id_of_raw dec id_of_raw_id _ _ Hg
      (reflexivity _)), Hrows.
    assert (Hin : ∀ p, p ∈ map_to_list (sv_invoices v) → is_Some (dec (A:=Invoice) p.2)).
    { intros [r bs] Hp%elem_of_map_to_list. by apply (readable _ _ _ _ _ _ Hg Hp). }
    clear -Hin. induction (map_to_list (sv_invoices v)) as [|[r bs] l IH]; [done|].
    destruct (Hin (r, bs)) as [a Ha]; [by left|].
    assert (decode_row id_of_raw dec (r, bs) = Some (id_of r, a)) as E
      by (unfold decode_row, id_of_raw; cbn [fst snd mbind option_bind] in *; by rewrite Ha).
    cbn [omap list_omap fmap list_fmap]. rewrite E. cbn [fst fmap list_fmap]. f_equiv. apply IH.
    intros p Hp. apply Hin. by right.
  - apply Forall2_fmap_r. clear Hrows. induction Hitems as [|it r items rows Hit Hitems IH]; [constructor|].
    constructor.
    + destruct (Hraw r) as (Hid & E & _); [by left|]. unfold compose, id_row. rewrite E. naive_solver.
    + apply IH. intros r' Hr'. apply Hraw. by right.
Qed.

(** ** Properties *)

(** Every request that the SQLite store answers with one statement
    (inserting, removing and finding an invoice, asking for a subaddress,
    recording and finding an output key, reading the height) is, in one
    transition, the operation of a finite map, or fails and changes nothing;
    and it keeps what the tables hold readable. *)
Theorem Sqlite_request_spec {A} (message : Method SqliteStorageError A) s :
  Sqlite_wf s → message_wf message → one_statement message = true →
  wp (Manager_handle message) (or_fail Sqlite_wf Sqlite_view s (request_spec message (Sqlite_view s))) s.
Proof using All.
  assert (Hlift : ∀ E' B (f : SqliteStorageError → E') (m : M Sqlite SqliteStorageError B) ok,
    wp m (returns s ok) s → wp (map_err f m) (returns s ok) s).
  { intros E' B f m ok Hm. apply wp_map_err. eapply wp_mono; [exact Hm|]. by intros s' [| | |]. }
  intros Hwf Hmsg Hone.
  destruct message; try discriminate; cbn [Manager_handle request_spec]; apply Hlift.
  - by apply Sqlite_insert_spec.
  - by apply Sqlite_remove_spec.
  - by apply Sqlite_get_spec.
  - by apply Sqlite_contains_spec.
  - by apply Sqlite_get_height_spec.
  - by apply Sqlite_get_key_spec.
  - destruct Hmsg. by apply Sqlite_insert_key_spec.
  - by apply wp_ret.
Qed.

(** [get_ids] of the SQLite store never reports a row that cannot be read:
    it leaves the row out, and answers with the other ids as if they were
    all. *)
Theorem Sqlite_get_ids_spec s :
  Sqlite_wf s →
  wp Sqlite_get_ids (returns s (λ l v', v' = Sqlite_view s ∧ ∃ items ids,
    ids ≡ₚ (map_to_list (v_invoices (Sqlite_view s))).*1 ∧ Forall2 id_row items ids ∧
    l = ids_read items ids)) s.
Proof using All.
  intros Hwf. unfold Sqlite_get_ids. apply wp_bind, wp_gets.
  destruct (proj1 Hwf) as (-> & _ & _). apply wp_bind, (wp_prepare_plain sql_view fresh inv keys height).
  { intros. by apply same_view. }
  intros st db' Hst Hdb. apply wp_bind, wp_gets. cbn [set_sq_db sq_db].
  destruct (law_ids sql_view fresh st db' Hst) as (rows & Hrows & Hitems).
  destruct (rows_are_ids _ _ rows (eq_ind_r good_view (proj2 Hwf) Hdb) Hrows Hitems)
    as (ids & Hids & Hread).
  eapply wp_mono; [by apply get_ids_loop|]. intros s' r [-> ->].
  eapply left_as; [done|done|apply Hwf|]. split; [done|]. rewrite Hdb in Hids. eauto.
Qed.

End tables.
