(* ===== verification/SqliteTransactions.v ===== *)
(** The transactions of the SQLite store: what [update] and [upsert] do on
    every path, and the transaction that an [update] of an unknown invoice
    leaves open for ever. *)
From Stdlib Require Import Ascii.
From S2P Require Import Prelude.
From S2P Require Import Invoice.
From S2P Require Import Storage.
From S2P Require Import Text.
From S2P Require Import Bincode.
From S2P Require Import Sqlite.
From S2P Require Import SqliteLaws.
From S2P Require Import SqliteTables.

Section transactions.
Context `{SqliteCrate} `{BincodeCrate} `{!Bincode Invoice} `{!Bincode OutputId} `{!Bincode Z}.
Context (sql_view : Connection → SqlView).
Context (fresh : Statement → text → list (text * Value) → Prop) (inv keys height : TableName).
Context `{HL : !LawfulSqlite sql_view fresh inv keys height}.

Notation op A := (M Sqlite SqliteStorageError A).

Definition in_transaction (s : Sqlite) : bool := sv_in_tx (sql_view (sq_db s)).

(** ** A transaction that stays open *)

(** The store with its tables, in a transaction. *)
Definition blocked (s : Sqlite) : Prop :=
  (sq_invoices s = inv ∧ sq_output_keys s = keys ∧ sq_height s = height) ∧ in_transaction s = true.
Notation stays m s := (wp m (λ s' _, blocked s') s).

Lemma blocked_db s db' :
  blocked s → sv_in_tx (sql_view db') = sv_in_tx (sql_view (sq_db s)) → blocked (set_sq_db db' s).
Proof using Type. intros [Hn Htx] E. split; [done|]. unfold in_transaction in *. simpl. congruence. Qed.

Lemma stays_pure {A} (r : outcome SqliteStorageError A) s : blocked s → stays (lift r) s.
Proof using Type. done. Qed.
Lemma stays_bind {A B} (m : op A) (k : A → op B) s :
  stays m s → (∀ a s', blocked s' → stays (k a) s') → stays (bind m k) s.
Proof using Type.
  intros Hm Hk. apply wp_bind. eapply wp_mono; [exact Hm|]. intros s' [a|e| |] Hs'; auto.
Qed.

Ltac same_tx := intros; eapply blocked_db; [done|]; congruence.

(** The statements of the operations change the tables, not the transaction. *)
Lemma Sqlite_insert_stays i s : blocked s → stays (Sqlite_insert i) s.
Proof using All.
  intros Hb. unfold Sqlite_insert. apply stays_bind; [by unfold sql_encode; destruct encode_to_vec|].
  clear s Hb. intros bs s Hb. apply wp_bind, wp_gets. destruct (proj1 Hb) as (-> & _ & _).
  eapply (wp_insertion sql_view fresh inv keys height);
    [by_law (law_insert_invoice sql_view fresh)|same_tx|].
  intros db' _ E. apply blocked_db; [done|]. by rewrite E.
Qed.
Lemma Sqlite_insert_key_stays k o s : blocked s → stays (Sqlite_insert_key k o) s.
Proof using All.
  intros Hb. unfold Sqlite_insert_key. apply stays_bind; [by unfold sql_encode; destruct encode_to_vec|].
  clear s Hb. intros bs s Hb. apply wp_bind, wp_gets. destruct (proj1 Hb) as (_ & -> & _).
  eapply (wp_insertion sql_view fresh inv keys height);
    [by_law (law_insert_key sql_view fresh)|same_tx|].
  intros db' _ E. apply blocked_db; [done|]. by rewrite E.
Qed.

Lemma encode_stays {A} `{!Bincode A} (a : A) s : blocked s → stays (sql_encode a) s.
Proof using Type. intros. unfold sql_encode. by destruct encode_to_vec. Qed.
Lemma decode_invoice_stays o s : blocked s → stays (decode_invoice o) s.
Proof using Type.
  intros. destruct o as [bs|]; [|done]. apply stays_bind; [|done].
  unfold sql_decode. by destruct decode_from_slice.
Qed.

Lemma Sqlite_get_stays id s : blocked s → stays (Sqlite_get id) s.
Proof using All.
  intros Hb. unfold Sqlite_get. apply wp_bind, wp_gets. destruct (proj1 Hb) as (-> & _ & _).
  eapply (wp_query sql_view fresh inv keys height);
    [by_law (law_select_invoice sql_view fresh)|same_tx|].
  intros db' E. apply decode_invoice_stays. apply blocked_db; [done|]. by rewrite E.
Qed.
Lemma Sqlite_remove_stays id s : blocked s → stays (Sqlite_remove id) s.
Proof using All.
  intros Hb. unfold Sqlite_remove. apply wp_bind, wp_gets. destruct (proj1 Hb) as (-> & _ & _).
  eapply (wp_query sql_view fresh inv keys height);
    [by_law (law_delete_invoice sql_view fresh)|same_tx|].
  intros db' E. apply decode_invoice_stays. apply blocked_db; [done|]. by rewrite E.
Qed.
Lemma Sqlite_contains_stays x s : blocked s → stays (Sqlite_contains_sub_index x) s.
Proof using All.
  intros Hb. unfold Sqlite_contains_sub_index. apply wp_bind, wp_gets.
  destruct (proj1 Hb) as (-> & _ & _).
  eapply (wp_query sql_view fresh inv keys height) with (oa := Some _);
    [by_law (law_count sql_view fresh)|same_tx|].
  intros db' E. apply wp_ret. apply blocked_db; [done|]. by rewrite E.
Qed.
Lemma Sqlite_get_key_stays k s : blocked s → stays (Sqlite_get_key k) s.
Proof using All.
  intros Hb. unfold Sqlite_get_key. apply wp_bind, wp_gets. destruct (proj1 Hb) as (_ & -> & _).
  eapply (wp_query sql_view fresh inv keys height);
    [by_law (law_select_key sql_view fresh)|same_tx|].
  intros db' E. assert (blocked (set_sq_db db' s)) as Hb' by (apply blocked_db; [done|]; by rewrite E).
  destruct (sv_keys _ !! _); [|done]. apply stays_bind; [|done].
  unfold sql_decode. by destruct decode_from_slice.
Qed.
Lemma Sqlite_get_height_stays s : blocked s → stays Sqlite_get_height s.
Proof using All.
  intros Hb. unfold Sqlite_get_height. apply wp_bind, wp_gets. destruct (proj1 Hb) as (_ & _ & ->).
  eapply (wp_query_plain sql_view fresh inv keys height);
    [by_law (law_select_height sql_view fresh)|same_tx|].
  intros db' E. assert (blocked (set_sq_db db' s)) as Hb' by (apply blocked_db; [done|]; by rewrite E).
  destruct (sv_height _); [|done]. apply stays_bind; [|done].
  unfold sql_decode. by destruct decode_from_slice.
Qed.
Lemma Sqlite_get_ids_stays s : blocked s → stays Sqlite_get_ids s.
Proof using All.
  intros Hb. unfold Sqlite_get_ids. apply wp_bind, wp_gets, wp_bind.
  apply (wp_prepare_plain sql_view fresh inv keys height); [same_tx|].
  intros st db' _ E. apply wp_bind, wp_gets.
  apply wp_fold_each with (I := λ _ _ s', blocked s'); [same_tx|done|].
  intros [r|?] l ids s' Hs'; [|done]. apply wp_bind. unfold StoredInvoiceId_try_from, sql.
  repeat (destruct (row_i64 _ _) || destruct (row_bytes _ _) || case_decide || apply wp_bind
          || apply wp_ret || done).
Qed.

(** [BEGIN] fails in a transaction. *)
Lemma begin_blocked {A} (k : op A) s :
  blocked s → wp (on_db (sql_execute (txt "BEGIN")) ;;; k) (λ s' r, blocked s' ∧ ∃ e, r = Err e) s.
Proof using All.
  intros Hb. apply wp_bind, wp_zoom, wp_map_err. eapply wp_mono; [apply (law_begin sql_view fresh)|].
  intros db' [[]|e| |]; try done.
  - intros [Htx _]. destruct Hb as [_ Htx']. unfold in_transaction in Htx'. congruence.
  - intros E. split; [|by eexists]. apply blocked_db; [done|]. by rewrite E.
Qed.
Lemma Sqlite_update_blocked i s :
  blocked s → wp (Sqlite_update i) (λ s' r, blocked s' ∧ ∃ e, r = Err e) s.
Proof using All.
  intros Hb. unfold Sqlite_update. apply wp_bind. unfold sql_encode.
  destruct encode_to_vec; [apply wp_ret, begin_blocked, Hb|]. apply wp_throw. split; [done|by eexists].
Qed.
Lemma Sqlite_upsert_blocked h s :
  blocked s → wp (Sqlite_upsert_height h) (λ s' r, blocked s' ∧ ∃ e, r = Err e) s.
Proof using All.
  intros Hb. unfold Sqlite_upsert_height. apply wp_bind. unfold sql_encode.
  destruct encode_to_vec; [apply wp_ret, begin_blocked, Hb|]. apply wp_throw. split; [done|by eexists].
Qed.

(** No request ends the transaction. *)
Lemma Manager_handle_stays {A} (message : Method SqliteStorageError A) s :
  blocked s → stays (Manager_handle message) s.
Proof using All.
  intros Hb.
  assert (Hlift : ∀ E' B (f : SqliteStorageError → E') (m : op B), stays m s → stays (map_err f m) s).
  { intros E' B f m Hm. apply wp_map_err. eapply wp_mono; [exact Hm|]. by intros s' [| | |]. }
  destruct message; cbn [Manager_handle]; apply Hlift.
  - by apply Sqlite_insert_stays.
  - by apply Sqlite_remove_stays.
  - eapply wp_mono; [by apply Sqlite_update_blocked|]. by intros s' r [? _].
  - by apply Sqlite_get_stays.
  - by apply Sqlite_get_ids_stays.
  - by apply Sqlite_contains_stays.
  - unfold wp, for_each_method. by destruct (is_try_for_each s f c) as [? [| | |]].
  - unfold wp. by rewrite is_lowest_height_state.
  - by apply Sqlite_get_height_stays.
  - eapply wp_mono; [by apply Sqlite_upsert_blocked|]. by intros s' r [? _].
  - by apply Sqlite_get_key_stays.
  - by apply Sqlite_insert_key_stays.
  - done.
Qed.

Lemma client_steps_blocked s mgr :
  blocked s → rtc client_step (Running s) mgr → ∀ s', mgr = Running s' → blocked s'.
Proof using All.
  intros Hb Hsteps. set (ok := λ m : Manager Sqlite, ∀ s', m = Running s' → blocked s').
  assert (ok (Running s)) as Hok by (by intros ? [= <-]). fold (ok mgr). clear Hb.
  induction Hsteps as [|m m1 m2 (A & message & _ & E) _ IH]; [done|]. apply IH. clear IH.
  intros s' ->. destruct m as [s0|]; [|done]. pose proof (Manager_handle_stays message s0 (Hok s0 eq_refl)) as H'.
  unfold wp in H'. simpl in E. destruct (Manager_handle message s0) as [s1 [| | |]]; simpl in *; by simplify_eq.
Qed.

(** [BEGIN] outside of a transaction, or its failure. *)
Lemma begin_run {A} (k : op A) (Q : Sqlite → outcome SqliteStorageError A → Prop) s :
  (∀ db' e, sql_view db' = sql_view (sq_db s) → Q (set_sq_db db' s) (Err e)) →
  (∀ db', in_transaction s = false → sql_view db' = set_sv_in_tx true (sql_view (sq_db s)) →
     wp k Q (set_sq_db db' s)) →
  wp (on_db (sql_execute (txt "BEGIN")) ;;; k) Q s.
Proof using All.
  intros Herr Hok. apply wp_bind, wp_zoom, wp_map_err. eapply wp_mono; [apply (law_begin sql_view fresh)|].
  intros db' [[]|e| |]; try done; [intros [??]; by apply Hok|by intros; apply Herr].
Qed.
(** [COMMIT] in a transaction. *)
Lemma commit_run {A} (k : op A) (Q : Sqlite → outcome SqliteStorageError A → Prop) s :
  (∀ db' e, sql_view db' = sql_view (sq_db s) → Q (set_sq_db db' s) (Err e)) →
  (∀ db', sql_view db' = set_sv_in_tx false (sql_view (sq_db s)) → wp k Q (set_sq_db db' s)) →
  wp (on_db (sql_execute (txt "COMMIT")) ;;; k) Q s.
Proof using All.
  intros Herr Hok. apply wp_bind, wp_zoom, wp_map_err. eapply wp_mono; [apply (law_commit sql_view fresh)|].
  intros db' [[]|e| |]; try done; [intros [??]; by apply Hok|by intros; apply Herr].
Qed.

(** An update that finds no invoice returns before [COMMIT]. *)
Lemma Sqlite_update_none i s :
  sq_invoices s = inv → sq_output_keys s = keys → sq_height s = height →
  wp (Sqlite_update i) (λ s' r, r = Ok None → blocked s') s.
Proof using All.
  intros Hi Hk Hh. unfold Sqlite_update. apply wp_bind. unfold sql_encode.
  destruct encode_to_vec as [bs|]; [|done]. apply wp_ret, begin_run; [done|].
  intros db' _ E. assert (blocked (set_sq_db db' s)) as Hb
    by (split; [done|]; unfold in_transaction; simpl; by rewrite E).
  apply wp_bind. eapply wp_mono; [by apply Sqlite_get_stays|].
  intros s1 [[old|]|e| |] Hb1; [|by apply wp_ret|done..].
  apply wp_bind, wp_gets. destruct (proj1 Hb1) as (-> & _ & _).
  eapply (wp_run sql_view fresh inv keys height).
  - by_law (law_update_invoice sql_view fresh).
  - done.
  - intros db2 _. by apply commit_run.
Qed.

Definition refuses_updates (s : Sqlite) : Prop :=
  (∀ j, ∃ e, (Sqlite_update j s).2 = Err e) ∧ (∀ h, ∃ e, (Sqlite_upsert_height h s).2 = Err e).

(** C26: once [update] has been given an invoice that is not stored, the
    connection stays in the transaction that it began: whatever requests
    follow, every later [update] and every later [upsert] of the height fails,
    until the store is opened again. *)
Theorem Sqlite_missing_update_blocks i s s1 s2 :
  sq_invoices s = inv → sq_output_keys s = keys → sq_height s = height →
  Sqlite_update i s = (s1, Ok None) →
  rtc client_step (Running s1) (Running s2) →
  refuses_updates s2.
Proof using All.
  intros Hi Hk Hh Hu Hsteps. pose proof (Sqlite_update_none i s Hi Hk Hh) as Hb.
  unfold wp in Hb. rewrite Hu in Hb. specialize (Hb eq_refl). simpl in Hb.
  pose proof (client_steps_blocked s1 _ Hb Hsteps s2 eq_refl) as Hb2.
  split; intros x.
  - apply (Sqlite_update_blocked x s2 Hb2).
  - apply (Sqlite_upsert_blocked x s2 Hb2).
Qed.

(** ** Updating and upserting *)

Context `{!LawfulBincode Invoice Invoice_wf} `{!LawfulBincode OutputId OutputId_wf}
  `{!LawfulBincode Z in_u64}.
Notation wf := (Sqlite_wf sql_view inv keys height).
Notation view := (Sqlite_view sql_view).

Lemma wf_db s db' v :
  wf s → sql_view db' = v → good_view v → wf (set_sq_db db' s).
Proof using Type. intros [? _] <- ?. done. Qed.

(** What an update leaves when it fails: everything as it was, or a
    transaction in which the change may have been made. *)
Definition update_failed (s s' : Sqlite) (changed : StoreView) : Prop :=
  (view s' = view s ∧ in_transaction s' = in_transaction s) ∨
  (in_transaction s' = true ∧ (view s' = view s ∨ view s' = changed)).

Lemma begin_failed s changed db' :
  wf s → sql_view db' = sql_view (sq_db s) →
  wf (set_sq_db db' s) ∧ update_failed s (set_sq_db db' s) changed.
Proof using Type.
  intros Hwf E. split; [exact (wf_db s _ _ Hwf E (proj2 Hwf))|]. left.
  unfold Sqlite_view, in_transaction. simpl. by rewrite E.
Qed.
Lemma open_failed s changed db' :
  wf s → sql_view db' = set_sv_in_tx true (sql_view (sq_db s)) →
  wf (set_sq_db db' s) ∧ update_failed s (set_sq_db db' s) changed.
Proof using Type.
  intros Hwf E. split; [exact (wf_db s _ _ Hwf E (proj2 Hwf))|]. right.
  unfold Sqlite_view, in_transaction. simpl. rewrite E. by split; [|left].
Qed.

Lemma alter_present {K A} `{Countable K} (m : gmap K A) k x y :
  m !! k = Some y → alter (λ _, x) k m = <[k := x]> m.
Proof using Type.
  intros E. apply map_eq. intros k'. destruct (decide (k = k')) as [<-|].
  - by rewrite lookup_alter_eq, lookup_insert_eq, E.
  - by rewrite lookup_alter_ne, lookup_insert_ne.
Qed.

(** What [update] of the SQLite store does on every path.  It replaces
    the invoice and commits, or finds none and leaves a transaction open;
    when it fails, it has changed nothing or it leaves a transaction open. *)
Theorem Sqlite_update_spec i s :
  wf s → Invoice_wf i →
  wp (Sqlite_update i) (λ s' r, wf s' ∧
    let changed := set_v_invoices (<[Invoice_id i := i]> (v_invoices (view s))) (view s) in
    match r with
    | Ok (Some old) => v_invoices (view s) !! Invoice_id i = Some old ∧ view s' = changed ∧
        in_transaction s = false ∧ in_transaction s' = false
    | Ok None => v_invoices (view s) !! Invoice_id i = None ∧ view s' = view s ∧
        in_transaction s = false ∧ in_transaction s' = true
    | Err _ => update_failed s s' changed
    | _ => False
    end) s.
Proof using All.
  intros Hwf Hi. pose proof (Invoice_id_wf i Hi) as Hid.
  unfold Sqlite_update. apply wp_bind, (wp_sql_encode Invoice_wf); [done|].
  apply begin_run; [by intros; apply begin_failed|].
  intros db1 Htx E1. set (s1 := set_sq_db db1 s).
  assert (wf s1) as Hwf1 by exact (wf_db s _ _ Hwf E1 (proj2 Hwf)).
  assert (view s1 = view s) as Hv1 by (unfold Sqlite_view; simpl; by rewrite E1).
  apply wp_bind, (Sqlite_get_run sql_view fresh inv keys height); [done|done|..].
  { intros db2 e E2. apply (open_failed s); [done|]. by rewrite E2. }
  intros db2 E2. simpl in E2. rewrite E1 in E2. rewrite Hv1.
  destruct (v_invoices (view s) !! Invoice_id i) as [old|] eqn:Eold.
  2:{ apply wp_ret. split; [exact (wf_db s _ _ Hwf E2 (proj2 Hwf))|].
      unfold Sqlite_view, in_transaction. simpl. by rewrite E2. }
  apply wp_bind, wp_gets. cbn [set_sq_db sq_invoices s1]. destruct (proj1 Hwf) as (-> & _ & _).
  assert (∃ bs, sv_invoices (sql_view (sq_db s)) !! raw_id (Invoice_id i) = Some bs) as [bs Ebs].
  { unfold Sqlite_view in Eold. rewrite raw_invoice in Eold by (done || apply Hwf).
    destruct (_ !! raw_id _) as [bs|]; [by exists bs|done]. }
  destruct (raw_invoice_stored _ i (proj2 Hwf) Hi) as [Hg Hst].
  eapply (wp_run sql_view fresh inv keys height).
  - by_law (law_update_invoice sql_view fresh).
  - intros db3 e E3. simpl in E3. rewrite E2 in E3. by apply (open_failed s).
  - intros db3 E3. simpl in E3. rewrite E2 in E3. simpl in E3.
    rewrite (alter_present _ _ _ bs Ebs) in E3. apply commit_run.
    + intros db4 e E4. simpl in E4. rewrite E3 in E4. split; [exact (wf_db s _ _ Hwf E4 Hg)|]. right.
      unfold Sqlite_view, in_transaction. simpl. rewrite E4. split; [done|]. right. exact Hst.
    + intros db4 E4. simpl in E4. rewrite E3 in E4. apply wp_ret.
      split; [exact (wf_db s _ _ Hwf E4 Hg)|].
      unfold Sqlite_view, in_transaction. simpl. rewrite E4.
      split; [done|]. split; [exact Hst|]. by split; [exact Htx|].
Qed.

(** What [upsert] of the height does on every path. *)
Theorem Sqlite_upsert_height_spec h s :
  wf s → in_u64 h →
  wp (Sqlite_upsert_height h) (λ s' r, wf s' ∧
    match r with
    | Ok old => old = v_height (view s) ∧ view s' = set_v_height (Some h) (view s) ∧
        in_transaction s = false ∧ in_transaction s' = false
    | Err _ => update_failed s s' (set_v_height (Some h) (view s))
    | _ => False
    end) s.
Proof using All.
  intros Hwf Hh. unfold Sqlite_upsert_height. apply wp_bind, (wp_sql_encode in_u64); [done|].
  apply begin_run; [by intros; apply begin_failed|].
  intros db1 Htx E1. set (s1 := set_sq_db db1 s).
  assert (wf s1) as Hwf1 by exact (wf_db s _ _ Hwf E1 (proj2 Hwf)).
  assert (view s1 = view s) as Hv1 by (unfold Sqlite_view; simpl; by rewrite E1).
  apply wp_bind, (Sqlite_get_height_run sql_view fresh inv keys height); [done|..].
  { intros db2 e E2. apply (open_failed s); [done|]. by rewrite E2. }
  intros db2 E2. simpl in E2. rewrite E1 in E2. rewrite Hv1.
  apply wp_bind, wp_gets. cbn [set_sq_db sq_height s1]. destruct (proj1 Hwf) as (_ & _ & ->).
  assert (dec (encoded h) = Some h) as Hd by exact (dec_encoded in_u64 h Hh).
  assert (good_view (set_sv_height (Some (encoded h)) (sql_view (sq_db s)))) as Hg.
  { destruct Hwf as [_ (? & ? & _)]. split; [done|]. split; [done|]. intros bs [= <-]. eauto. }
  assert (view_of (set_sv_height (Some (encoded h)) (sql_view (sq_db s))) = set_v_height (Some h) (view s))
    as Hst by (unfold view_of at 1; simpl; by rewrite Hd).
  eapply (wp_run sql_view fresh inv keys height).
  - by_law (law_upsert_height sql_view fresh).
  - intros db3 e E3. simpl in E3. rewrite E2 in E3. by apply (open_failed s).
  - intros db3 E3. simpl in E3. rewrite E2 in E3. simpl in E3. apply commit_run.
    + intros db4 e E4. simpl in E4. rewrite E3 in E4. split; [exact (wf_db s _ _ Hwf E4 Hg)|]. right.
      unfold Sqlite_view, in_transaction. simpl. rewrite E4. split; [done|]. right. exact Hst.
    + intros db4 E4. simpl in E4. rewrite E3 in E4. apply wp_ret.
      split; [exact (wf_db s _ _ Hwf E4 Hg)|].
      unfold Sqlite_view, in_transaction. simpl. rewrite E4.
      split; [done|]. split; [exact Hst|]. by split; [exact Htx|].
Qed.

End transactions.
