(* ===== verification/SqliteDemo.v ===== *)
(** A concrete connection, to which the properties of the SQLite store are
    applied: it knows the statements of the store by their text and runs them
    on finite maps, without ever failing but for constraints. *)
From Stdlib Require Import Ascii.
From S2P Require Import Prelude.
From S2P Require Import Invoice.
From S2P Require Import Storage.
From S2P Require Import Text.
From S2P Require Import Bincode.
From S2P Require Import SledDemo.
From S2P Require Import Sqlite.
From S2P Require Import SqliteLaws.
From S2P Require Import SqliteTables.
From S2P Require Import SqliteTransactions.

(** ** The connection *)

Definition t_inv : TableName := TableName_new (txt "invoices").
Definition t_keys : TableName := TableName_new (txt "output keys").
Definition t_height : TableName := TableName_new (txt "height").

Inductive Known :=
  | KInsert | KDelete | KUpdate | KSelect | KIds | KCount | KExists
  | KInsertKey | KSelectKey | KUpsertHeight | KSelectHeight.
#[export] Instance Known_eq_dec : EqDecision Known.
Proof. solve_decision. Defined.
Definition known_statements : list (text * Known) :=
  [(insert_invoice_sql t_inv, KInsert); (delete_invoice_sql t_inv, KDelete);
   (update_invoice_sql t_inv, KUpdate); (select_invoice_sql t_inv, KSelect);
   (select_ids_sql t_inv, KIds); (count_sub_index_sql t_inv, KCount);
   (exists_sql t_inv, KExists); (insert_key_sql t_keys, KInsertKey);
   (select_key_sql t_keys, KSelectKey); (upsert_height_sql t_height, KUpsertHeight);
   (select_height_sql t_height, KSelectHeight)].
Definition known (t : text) : option Known :=
  snd <$> head (filter (λ p, p.1 = t) known_statements).

Inductive DemoValue := VInt (z : Z) | VBytes (bs : bytes).
Inductive DemoStatement := FreshStatement (t : text) (ps : list (text * DemoValue)) | EndedStatement.
Notation DemoRow := (list (text * DemoValue)).
Record DemoConnection := mk_DemoConnection { dc_view : SqlView; dc_changes : Z }.

(** The tables and the row after a statement; [None] if a constraint fails. *)
Definition run_known (k : Known) (ps : list DemoValue) (v : SqlView) : option (SqlView * option DemoRow) :=
  match k, ps with
  | KInsert, [VInt a; VInt b; VBytes h; VBytes i] =>
      if sv_invoices v !! (a, b, h) then None
      else Some (set_sv_invoices (<[(a, b, h) := i]> (sv_invoices v)) v, None)
  | KDelete, [VInt a; VInt b; VBytes h] =>
      Some (set_sv_invoices (delete (a, b, h) (sv_invoices v)) v,
            (λ bs, [(txt "invoice", VBytes bs)]) <$> sv_invoices v !! (a, b, h))
  | KUpdate, [VBytes i; VInt a; VInt b; VBytes h] =>
      Some (set_sv_invoices (alter (λ _, i) (a, b, h) (sv_invoices v)) v, None)
  | KSelect, [VInt a; VInt b; VBytes h] =>
      Some (v, (λ bs, [(txt "invoice", VBytes bs)]) <$> sv_invoices v !! (a, b, h))
  | KCount, [VInt a; VInt b] =>
      Some (v, Some [(txt "COUNT(*)", VInt (sub_index_count (SubIndex_new a b) (sv_invoices v)))])
  | KExists, [] => Some (v, Some [(txt "EXISTS", VInt (if decide (sv_invoices v = ∅) then 0 else 1))])
  | KInsertKey, [VBytes k; VBytes o] =>
      if sv_keys v !! k then None else Some (set_sv_keys (<[k := o]> (sv_keys v)) v, None)
  | KSelectKey, [VBytes k] => Some (v, (λ bs, [(txt "output_id", VBytes bs)]) <$> sv_keys v !! k)
  | KUpsertHeight, [VBytes h] => Some (set_sv_height (Some h) v, None)
  | KSelectHeight, [] => Some (v, (λ bs, [(txt "height", VBytes bs)]) <$> sv_height v)
  | _, _ => None
  end.

Definition demo_next (st : DemoStatement) : M DemoConnection unit (DemoStatement * option DemoRow) :=
  match st with
  | EndedStatement => ret (EndedStatement, None)
  | FreshStatement t ps => λ db,
      match known t with
      | None => (db, Err tt)
      | Some k =>
          match run_known k ps.*2 (dc_view db) with
          | Some (v, row) => (mk_DemoConnection v 1, Ok (EndedStatement, row))
          | None => (mk_DemoConnection (dc_view db) 0, Err tt)
          end
      end
  end.

Definition demo_execute (t : text) : M DemoConnection unit unit :=
  λ db,
    let set_tx b := mk_DemoConnection (set_sv_in_tx b (dc_view db)) (dc_changes db) in
    if decide (t = txt "BEGIN") then
      if sv_in_tx (dc_view db) then (db, Err tt) else (set_tx true, Ok tt)
    else if decide (t = txt "COMMIT") then
      if sv_in_tx (dc_view db) then (set_tx false, Ok tt) else (db, Err tt)
    else (db, Ok tt).

Definition column (row : DemoRow) (name : text) : DemoValue + unit :=
  match head (filter (λ p, p.1 = name) row) with Some p => inl p.2 | None => inr tt end.
Definition demo_iter (st : DemoStatement) (db : DemoConnection) : list (DemoRow + unit) :=
  match st with
  | FreshStatement t _ =>
      if decide (known t = Some KIds) then
        (λ p : RawId * bytes, inl [(txt "major_subindex", VInt p.1.1.1); (txt "minor_subindex", VInt p.1.1.2);
                   (txt "creation_height", VBytes p.1.2)]) <$> map_to_list (sv_invoices (dc_view db))
      else (λ p : RawId * bytes, inl [(txt "invoice", VBytes p.2)]) <$> map_to_list (sv_invoices (dc_view db))
  | EndedStatement => []
  end.

#[export] Instance DemoSqlite : SqliteCrate := {|
  SqlError := unit;
  Connection := DemoConnection;
  Statement := DemoStatement;
  Row := DemoRow;
  Value := DemoValue;
  value_of_i64 := VInt;
  value_of_bytes := VBytes;
  open_thread_safe := λ _, inl (mk_DemoConnection (mk_SqlView ∅ ∅ None false) 0);
  sql_execute := demo_execute;
  sql_prepare := λ t, ret (FreshStatement t []);
  sql_bind := λ ps st, match st with FreshStatement t _ => inl (FreshStatement t ps) | _ => inr tt end;
  sql_next := demo_next;
  sql_iter := demo_iter;
  row_bytes := λ row name, match column row name with inl (VBytes bs) => inl bs | _ => inr tt end;
  row_i64 := λ row name, match column row name with inl (VInt z) => inl z | _ => inr tt end;
  row_first_i64 := λ row, match row with (_, VInt z) :: _ => inl z | _ => inr tt end;
  row_value := λ row, match row with (_, v) :: _ => inl v | [] => inr tt end;
  change_count := dc_changes;
|}.

Definition demo_view : @Connection DemoSqlite → SqlView := dc_view.
Definition demo_fresh (st : @Statement DemoSqlite) (t : text) (ps : list (text * @Value DemoSqlite)) : Prop :=
  st = FreshStatement t ps.

(** A known statement, run. *)
Lemma demo_yields t ps db k v' row (P : option (DemoRow → Prop)) :
  known t = Some k → run_known k ps.*2 (dc_view db) = Some (v', row) →
  match P, row with None, None => True | Some P, Some rw => P rw | _, _ => False end →
  yields demo_view (FreshStatement t ps) db v' P.
Proof.
  intros Hk Hrun HP. unfold yields, wp. cbn [sql_next DemoSqlite demo_next]. rewrite Hk, Hrun. simpl.
  split; [done|]. by destruct P, row.
Qed.
Lemma demo_inserts t ps db k free v' :
  known t = Some k →
  (run_known k ps.*2 (dc_view db) = Some (v', None) ∧ free ∨ run_known k ps.*2 (dc_view db) = None) →
  inserts demo_view (FreshStatement t ps) db free v'.
Proof.
  intros Hk Hrun. unfold inserts, wp. cbn [sql_next DemoSqlite demo_next]. rewrite Hk.
  by destruct Hrun as [[-> Hfree]| ->].
Qed.

#[export] Instance demo_sqlite_lawful : LawfulSqlite demo_view demo_fresh t_inv t_keys t_height.
Proof.
  split; unfold demo_fresh.
  - done.
  - by intros st t ps st' -> [= <-].
  - intros db. unfold wp. simpl. unfold demo_execute, demo_view. cbn [decide].
    destruct (sv_in_tx (dc_view db)) eqn:E; simpl; done.
  - intros db. unfold wp. simpl. unfold demo_execute, demo_view. cbn [decide].
    destruct (sv_in_tx (dc_view db)) eqn:E; simpl; done.
  - intros st db id ->. eapply (demo_yields _ _ _ KSelect); [by vm_compute|reflexivity|].
    simpl. unfold demo_view, raw_id. by destruct (_ !! _).
  - intros st db id ->. eapply (demo_yields _ _ _ KDelete); [by vm_compute|reflexivity|].
    simpl. unfold demo_view, raw_id. by destruct (_ !! _).
  - intros st db id bs ->. by eapply (demo_yields _ _ _ KUpdate); [by vm_compute|reflexivity|].
  - intros st db id bs ->. eapply (demo_inserts _ _ _ KInsert); [by vm_compute|].
    simpl. unfold demo_view, raw_id. destruct (_ !! _); [by right|by left].
  - intros st db x ->. by eapply (demo_yields _ _ _ KCount); [by vm_compute|destruct x; reflexivity|].
  - intros st db ->. by eapply (demo_yields _ _ _ KExists); [by vm_compute|reflexivity|].
  - intros st db ->. exists (map_to_list (sv_invoices (dc_view db))).*1. split; [done|].
    cbn [sql_iter DemoSqlite demo_iter]. rewrite decide_True by by vm_compute.
    apply Forall2_fmap, Forall_Forall2_diag, Forall_true. intros p. right. by eexists.
  - intros st db k bs ->. eapply (demo_inserts _ _ _ KInsertKey); [by vm_compute|].
    simpl. unfold demo_view. destruct (_ !! _); [by right|by left].
  - intros st db k ->. eapply (demo_yields _ _ _ KSelectKey); [by vm_compute|reflexivity|].
    simpl. unfold demo_view. by destruct (_ !! _).
  - intros st db bs ->. by eapply (demo_yields _ _ _ KUpsertHeight); [by vm_compute|reflexivity|].
  - intros st db ->. eapply (demo_yields _ _ _ KSelectHeight); [by vm_compute|reflexivity|].
    simpl. unfold demo_view. by destruct (sv_height _).
Qed.

(** ** The properties applied *)

Definition demo_sqlite : Sqlite :=
  mk_Sqlite (mk_DemoConnection (mk_SqlView ∅ ∅ None false) 0) t_inv t_keys t_height.
Definition some_invoice : Invoice :=
  mk_Invoice "4A" (SubIndex_new 0 5) 100 20 0 None 10 0 150 [] "a coffee".

Notation demo_wf := (Sqlite_wf demo_view t_inv t_keys t_height).
Lemma demo_sqlite_wf : demo_wf demo_sqlite.
Proof. by split. Qed.
Lemma some_invoice_wf : Invoice_wf some_invoice.
Proof. by apply (bool_decide_unpack (Invoice_wf some_invoice)). Qed.

Lemma Sqlite_request_spec_witness :
  let message : Method SqliteStorageError unit := InsertInvoice some_invoice in
  one_statement message = true ∧
  wp (Manager_handle message) (or_fail demo_wf (Sqlite_view demo_view) demo_sqlite
    (request_spec message (Sqlite_view demo_view demo_sqlite))) demo_sqlite.
Proof.
  intros message. split; [done|].
  by apply (Sqlite_request_spec demo_view demo_fresh t_inv t_keys t_height);
    [apply demo_sqlite_wf|apply some_invoice_wf|].
Defined.

Lemma Sqlite_get_ids_spec_witness :
  wp Sqlite_get_ids (or_fail demo_wf (Sqlite_view demo_view) demo_sqlite (λ l v',
    v' = Sqlite_view demo_view demo_sqlite ∧ ∃ items ids,
    ids ≡ₚ (map_to_list (v_invoices (Sqlite_view demo_view demo_sqlite))).*1 ∧
    Forall2 id_row items ids ∧ l = ids_read items ids)) demo_sqlite.
Proof.
  apply (Sqlite_get_ids_spec demo_view demo_fresh t_inv t_keys t_height), demo_sqlite_wf.
Defined.

(** The invoice is not stored; it is inserted after the failed update. *)
Definition demo_after_update : Sqlite := (Sqlite_update some_invoice demo_sqlite).1.
Definition demo_after_insert : Sqlite := (Sqlite_insert some_invoice demo_after_update).1.

Definition update_misses_b : bool :=
  match (Sqlite_update some_invoice demo_sqlite).2 with Ok None => true | _ => false end.
Lemma update_misses : update_misses_b = true.
Proof. by vm_compute. Qed.
Definition insert_answers_b : bool :=
  match (Sqlite_insert some_invoice demo_after_update).2 with Ok _ | Err _ => true | _ => false end.
Lemma insert_answers : insert_answers_b = true.
Proof. by vm_compute. Qed.

Lemma Sqlite_missing_update_blocks_witness :
  refuses_updates demo_after_insert.
Proof.
  apply (Sqlite_missing_update_blocks demo_view demo_fresh t_inv t_keys t_height
    some_invoice demo_sqlite demo_after_update); [done..| |].
  - pose proof update_misses as E. unfold demo_after_update, update_misses_b in *.
    by destruct (Sqlite_update some_invoice demo_sqlite) as [s' [[|]| | |]].
  - apply rtc_once. exists unit, (InsertInvoice some_invoice). split; [apply some_invoice_wf|].
    pose proof insert_answers as E. unfold demo_after_insert, insert_answers_b in *.
    unfold client_request. cbn [Manager_handle is_insert storage_invoices Sqlite_Storage Sqlite_InvoiceStorage].
    unfold map_err. by destruct (Sqlite_insert some_invoice demo_after_update) as [s' [| | |]].
Defined.

Lemma Sqlite_update_spec_witness :
  demo_wf demo_sqlite ∧
  wp (Sqlite_update some_invoice) (λ s' r, demo_wf s' ∧
    let view := Sqlite_view demo_view in
    let changed := set_v_invoices (<[Invoice_id some_invoice := some_invoice]>
      (v_invoices (view demo_sqlite))) (view demo_sqlite) in
    match r with
    | Ok (Some old) => v_invoices (view demo_sqlite) !! Invoice_id some_invoice = Some old ∧
        view s' = changed ∧
        in_transaction demo_view demo_sqlite = false ∧ in_transaction demo_view s' = false
    | Ok None => v_invoices (view demo_sqlite) !! Invoice_id some_invoice = None ∧
        view s' = view demo_sqlite ∧
        in_transaction demo_view demo_sqlite = false ∧ in_transaction demo_view s' = true
    | Err _ => update_failed demo_view demo_sqlite s' changed
    | _ => False
    end) demo_sqlite.
Proof.
  split; [apply demo_sqlite_wf|].
  apply (Sqlite_update_spec demo_view demo_fresh t_inv t_keys t_height);
    [apply demo_sqlite_wf|apply some_invoice_wf].
Defined.

Lemma Sqlite_upsert_height_spec_witness :
  in_u64 7 ∧
  wp (Sqlite_upsert_height 7) (λ s' r, demo_wf s' ∧
    match r with
    | Ok old => old = v_height (Sqlite_view demo_view demo_sqlite) ∧
        Sqlite_view demo_view s' = set_v_height (Some 7) (Sqlite_view demo_view demo_sqlite) ∧
        in_transaction demo_view demo_sqlite = false ∧ in_transaction demo_view s' = false
    | Err _ => update_failed demo_view demo_sqlite s'
        (set_v_height (Some 7) (Sqlite_view demo_view demo_sqlite))
    | _ => False
    end) demo_sqlite.
Proof.
  assert (in_u64 7) as H7 by done. split; [done|].
  apply (Sqlite_upsert_height_spec demo_view demo_fresh t_inv t_keys t_height);
    [apply demo_sqlite_wf|done].
Defined.
