(* ===== verification/Monerod.v ===== *)
(** What the crate uses of the [monero] crate, and the trait [Client] of
    [library/src/monerod_client/mod.rs] through which it talks to a daemon. *)
From S2P Require Import Prelude.
From S2P Require Import Invoice.
From S2P Require Import Storage.

(** The types and methods of the [monero] crate the source names.  Blocks,
    transactions, key checkers and view pairs stay abstract. *)
Class Monero := {
  mblock : Type;
  prev_id : mblock → Hash;                       (* block.header.prev_id *)
  tx_hashes : mblock → list Hash;                (* block.tx_hashes *)
  transaction : Type;
  transaction_hash : transaction → Hash;         (* tx.hash() *)
  unlock_time : transaction → Z;                 (* tx.prefix().unlock_time *)
  SubKeyChecker : Type;
  OwnedTxOut : Type;
  TxError : Type;
  check_outputs_with : transaction → SubKeyChecker → list OwnedTxOut + TxError;
  owned_index : OwnedTxOut → Z;                  (* output.index() *)
  owned_key : OwnedTxOut → Hash;                 (* the key of output.out().target *)
  owned_sub_index : OwnedTxOut → SubIndex;       (* output.sub_index() *)
  owned_amount : OwnedTxOut → option Z;          (* output.amount(), in piconeros *)
  ViewPair : Type;
  get_subaddress : ViewPair → SubIndex → string; (* printed *)
  SubKeyChecker_new : ViewPair → Z * Z → Z * Z → SubKeyChecker;
  checker_table_len : SubKeyChecker → Z;         (* checker.table.len() *)
}.

#[export] Instance Hash_eq_dec : EqDecision Hash := Z.eq_dec.
#[export] Instance Hash_countable : Countable Hash := Z_countable.

(** [trait Client].  [W] is the client together with the world it talks to:
    every call may change what later calls answer. *)
Class MonerodClient `{Monero} (W RpcError : Type) := {
  mc_block : Z → M W RpcError (Hash * mblock);
  mc_block_transactions : mblock → M W RpcError (list transaction);
  mc_txpool : M W RpcError (list transaction);
  mc_txpool_hashes : M W RpcError (gset Hash);
  mc_transactions_by_hashes : list Hash → M W RpcError (list transaction);
  mc_daemon_height : M W RpcError Z;
  mc_url : W → string;
}.

(** A call always returns (the RPC client has a timeout), with a result that has
    the values of its type; and it fails only if [may_fail]. *)
Class ClientReturns `{MonerodClient W RpcError} (may_fail : Prop) : Prop := {
  block_returns h w :
    wp (mc_block h) (λ _ r, (∃ a, r = Ok a) ∨ may_fail ∧ ∃ e, r = Err e) w;
  block_transactions_returns b w :
    wp (mc_block_transactions b) (λ _ r, (∃ a, r = Ok a) ∨ may_fail ∧ ∃ e, r = Err e) w;
  daemon_height_returns w :
    wp mc_daemon_height (λ _ r, (∃ a, r = Ok a ∧ in_u64 a) ∨ may_fail ∧ ∃ e, r = Err e) w;
}.
Arguments ClientReturns {_} W RpcError {_} may_fail.

(** What a daemon tells about blocks is genuine: ids are the hashes of blocks
    ([hash_of], which has no collisions), and the transactions are those of
    the block. *)
Class Genuine `{MonerodClient W RpcError}
    (hash_of : mblock → Hash) (txs_of : mblock → list transaction) : Prop := {
  hash_of_inj :: Inj (=) (=) hash_of;
  block_genuine h w :
    wp (mc_block h) (λ _ r, ∀ id b, r = Ok (id, b) → id = hash_of b) w;
  block_transactions_genuine b w :
    wp (mc_block_transactions b) (λ _ r, ∀ txs, r = Ok txs → txs = txs_of b) w;
}.
Arguments Genuine {_} W RpcError {_} hash_of txs_of.

(** The daemon's main chain, as long as it does not reorganise. *)
Class ServesChain `{MonerodClient W RpcError} (hash_of : mblock → Hash)
    (chain : Z → mblock) : Prop := {
  chain_linked h : prev_id (chain (h + 1)) = hash_of (chain h);
  block_of_chain h w :
    wp (mc_block h) (λ _ r, ∀ id b, r = Ok (id, b) → b = chain h) w;
}.
Arguments ServesChain {_} W RpcError {_} hash_of chain.

Lemma chain_linked_pred `{MonerodClient W RpcError} hash_of chain
    `{!ServesChain W RpcError hash_of chain} h :
  prev_id (chain h) = hash_of (chain (h - 1)).
Proof.
  rewrite <-(chain_linked (W:=W) (RpcError:=RpcError) (hash_of:=hash_of) (chain:=chain)).
  do 2 f_equal. lia.
Qed.
Arguments chain_linked_pred {_} W {RpcError _ hash_of chain _} h.

(** The height the daemon reports, as long as no block is found. *)
Class DaemonHeight `{MonerodClient W RpcError} (d : Z) : Prop := {
  daemon_height_is w : wp mc_daemon_height (λ _ r, ∀ a, r = Ok a → a = d) w;
}.
Arguments DaemonHeight {_} W RpcError {_} d.
