(* ===== verification/Demo.v ===== *)
(** A small concrete instance of the external interfaces, on which the
    properties are applied: blocks are numbers, the id of a block is its
    number and its predecessor is the number before. *)
From S2P Require Import Prelude.
From S2P Require Import Invoice.
From S2P Require Import Storage.
From S2P Require Import Monerod.

Record DemoOut := mk_DemoOut {
  do_index : Z;
  do_key : Hash;
  do_sub_index : SubIndex;
  do_amount : option Z;
}.
Record DemoTx := mk_DemoTx {
  dt_hash : Hash;
  dt_unlock_time : Z;
  dt_outs : list DemoOut;
}.

(** A view key owns the outputs to the subaddresses of the checker's range. *)
Definition demo_owned (tx : DemoTx) (ck : (Z * Z) * (Z * Z)) : list DemoOut :=
  filter (λ o, ck.1.1 ≤ major (do_sub_index o) < ck.1.2 ∧
               ck.2.1 ≤ minor (do_sub_index o) < ck.2.2) (dt_outs tx).

Definition DemoMonero : Monero := {|
  mblock := Z;
  prev_id := Z.pred;
  tx_hashes := λ b, [b];
  transaction := DemoTx;
  transaction_hash := dt_hash;
  unlock_time := dt_unlock_time;
  SubKeyChecker := (Z * Z) * (Z * Z);
  OwnedTxOut := DemoOut;
  TxError := Empty_set;
  check_outputs_with := λ tx ck, inl (demo_owned tx ck);
  owned_index := do_index;
  owned_key := do_key;
  owned_sub_index := do_sub_index;
  owned_amount := do_amount;
  ViewPair := unit;
  get_subaddress := λ _ i, SubIndex_fmt i;
  SubKeyChecker_new := λ _ mj mn, (mj, mn);
  checker_table_len := λ ck, (ck.1.2 - ck.1.1) * (ck.2.2 - ck.2.1);
|}.
#[export] Existing Instance DemoMonero.

Definition demo_hash (b : mblock (Monero:=DemoMonero)) : Hash := b.

(** What the daemon has: the block at height [h] is [h + dw_branch]. *)
Record DemoWorld := mk_DemoWorld {
  dw_branch : Z;
  dw_txs : Z → list DemoTx;
  dw_pool : list DemoTx;
  dw_height : Z;
  dw_fails : option nat;   (* the call that fails, if one does *)
}.

(** The client counts its calls. *)
Definition demo_call (wd : DemoWorld) {A} (a : A) : M nat unit A :=
  λ n, (S n, if decide (dw_fails wd = Some n) then Err tt else Ok a).

Definition demo_lookup (wd : DemoWorld) (hs : list Hash) : list DemoTx :=
  filter (λ tx, dt_hash tx ∈ hs) (dw_pool wd).

Definition DemoClient (wd : DemoWorld) : MonerodClient (H:=DemoMonero) nat unit := {|
  mc_block := λ h, demo_call wd (h + dw_branch wd, (h + dw_branch wd : mblock));
  mc_block_transactions := λ b, demo_call wd (dw_txs wd b);
  mc_txpool := demo_call wd (dw_pool wd);
  mc_txpool_hashes := demo_call wd (list_to_set (dt_hash <$> dw_pool wd));
  mc_transactions_by_hashes := λ hs, demo_call wd (demo_lookup wd hs);
  mc_daemon_height := demo_call wd (dw_height wd);
  mc_url := λ _, "http://node:18081"%string;
|}.

Section demo.
Context (wd : DemoWorld) (Hh : in_u64 (dw_height wd)).
#[local] Existing Instance DemoClient.

Lemma demo_returns :
  @ClientReturns DemoMonero nat unit (DemoClient wd) (is_Some (dw_fails wd)).
Proof using Hh.
  split; intros; unfold wp; simpl; case_decide as E; rewrite ?E; eauto.
Qed.

Lemma demo_genuine : @Genuine DemoMonero nat unit (DemoClient wd) demo_hash (dw_txs wd).
Proof using Type.
  split; [by intros ??|..]; intros; unfold wp; simpl; case_decide; intros; by simplify_eq.
Qed.

Lemma demo_chain :
  @ServesChain DemoMonero nat unit (DemoClient wd) demo_hash (λ h, h + dw_branch wd).
Proof using Type.
  split; [intros; unfold demo_hash; simpl; lia|].
  intros; unfold wp; simpl; case_decide; intros; by simplify_eq.
Qed.

Lemma demo_height : @DaemonHeight DemoMonero nat unit (DemoClient wd) (dw_height wd).
Proof using Type. split; intros; unfold wp; simpl; case_decide; intros; by simplify_eq. Qed.
End demo.

#[export] Instance demo_build : Build := {| overflow_checks := true |}.

#[export,refine] Instance demo_order : HashOrder := {| iter_order := λ _ l, l |}.
Proof. done. Defined.
