(* ===== verification/BlockCache.v ===== *)
(** The block cache: [library/src/caching/block_cache.rs]. *)
From S2P Require Import Prelude.
From S2P Require Import Invoice.
From S2P Require Import Storage.
From S2P Require Import Monerod.
From S2P Require Import Demo.

Section block_cache.
Context `{Build} `{Monero} {W RpcError : Type} `{!MonerodClient W RpcError}.

Inductive BlockCacheError := BlockCacheRpc (e : RpcError).

Record Block := mk_Block {
  b_hash : Hash;
  b_height : Z;
  b_inner : mblock;
  b_transactions : list transaction;
}.

(** The two atomics [height] and [daemon_height] are shared with the
    payment gateway; the cache is their only writer once it exists. *)
Record BlockCache := mk_BlockCache {
  bc_height : Z;
  bc_daemon_height : Z;
  bc_blocks : list Block;
  bc_client : W;
}.

Definition set_bc_height (h : Z) (c : BlockCache) : BlockCache :=
  mk_BlockCache h (bc_daemon_height c) (bc_blocks c) (bc_client c).
Definition set_bc_daemon_height (h : Z) (c : BlockCache) : BlockCache :=
  mk_BlockCache (bc_height c) h (bc_blocks c) (bc_client c).
Definition set_bc_blocks (bs : list Block) (c : BlockCache) : BlockCache :=
  mk_BlockCache (bc_height c) (bc_daemon_height c) bs (bc_client c).
Definition set_bc_client (w : W) (c : BlockCache) : BlockCache :=
  mk_BlockCache (bc_height c) (bc_daemon_height c) (bc_blocks c) w.

(** [self.monerod_client.call(..).await?]. *)
Definition rpc {A} (call : M W RpcError A) : M BlockCache BlockCacheError A :=
  zoom bc_client set_bc_client (map_err BlockCacheRpc call).

(** The blocks from [initial_height] down, newest first. *)
Definition BlockCache_init (cache_size : nat) (initial_height daemon_height : Z) :
    M W BlockCacheError BlockCache :=
  let! blocks := fold_each (seq 0 cache_size) [] (λ blocks i,
    let! height := u64_sub initial_height (Z.of_nat i) in
    let! (block_id, block) := map_err BlockCacheRpc (mc_block height) in
    let! transactions := map_err BlockCacheRpc (mc_block_transactions block) in
    ret (blocks ++ [mk_Block block_id height block transactions])) in
  gets (mk_BlockCache initial_height daemon_height blocks).

(** One iteration of the loop over adjacent blocks; [updated] is its
    accumulator. *)
Definition fix_reorg_step (cache_height : Z) (updated : Z) (i : nat) :
    M BlockCache BlockCacheError Z :=
  let! blocks := gets bc_blocks in
  match blocks !! i, blocks !! S i with
  | Some upper, Some lower =>
      if decide (prev_id (b_inner upper) = b_hash lower) then ret updated
      else
        let! height := u64_sub cache_height 1 in
        let! height := u64_sub height (Z.of_nat i) in
        let! (block_id, block) := rpc (mc_block height) in
        let! transactions := rpc (mc_block_transactions block) in
        let! height := u64_sub cache_height 1 in
        let! height := u64_sub height (Z.of_nat i) in
        modify (λ c, set_bc_blocks
          (<[S i := mk_Block block_id height block transactions]> (bc_blocks c)) c) ;;;
        ret (Z.max updated 1 + 1)
  | _, _ => panic (* index out of bounds *)
  end.

Definition BlockCache_check_and_fix_reorg : M BlockCache BlockCacheError Z :=
  let! cache_height := gets bc_height in
  let! blocks := gets bc_blocks in
  match blocks with
  | [] => panic (* [0 - 1] overflows, or the first index is out of bounds *)
  | _ :: tl => fold_each (seq 0 (length tl)) 0 (fix_reorg_step cache_height)
  end.

(** [self.blocks.remove(self.blocks.len() - 1)]. *)
Definition remove_last {A} (l : list A) : list A := take (length l - 1) l.

Definition BlockCache_update : M BlockCache BlockCacheError Z :=
  let! blockchain_height := rpc mc_daemon_height in
  modify (set_bc_daemon_height blockchain_height) ;;;
  let! height := gets bc_height in
  let! updated :=
    (if height <? saturating_sub blockchain_height 1 then
       let! next := u64_add height 1 in
       let! (block_id, block) := rpc (mc_block next) in
       let! transactions := rpc (mc_block_transactions block) in
       let! next := u64_add height 1 in
       modify (λ c, set_bc_blocks
         (mk_Block block_id next block transactions :: bc_blocks c) c) ;;;
       modify (λ c, set_bc_blocks (remove_last (bc_blocks c)) c) ;;;
       modify (λ c, set_bc_height (wrap_u64 (bc_height c + 1)) c) ;;;
       ret 1
     else ret 0) in
  let! reorg := BlockCache_check_and_fix_reorg in
  ret (Z.max updated reorg).

Definition BlockCache_is_synchronized (c : BlockCache) : bool :=
  saturating_sub (bc_daemon_height c) 1 <=? bc_height c.


(** * Lemmas *)

(** Height [bc_height c - i] at depth [i]. *)
Definition cache_wf (c : BlockCache) : Prop :=
  (0 < length (bc_blocks c))%nat ∧ in_u64 (bc_height c) ∧
  Z.of_nat (length (bc_blocks c)) ≤ bc_height c + 1 ∧
  ∀ i b, bc_blocks c !! i = Some b → b_height b = bc_height c - Z.of_nat i.

(** Each block names the one below it as its predecessor. *)
Definition linked (blocks : list Block) : Prop :=
  ∀ i upper lower, blocks !! i = Some upper → blocks !! S i = Some lower →
    prev_id (b_inner upper) = b_hash lower.

Lemma wp_rpc {A} (call : M W RpcError A) (P : A → Prop)
    (may_fail : Prop) (Q : BlockCache → outcome BlockCacheError A → Prop) c :
  wp call (λ _ r, (∃ a, r = Ok a ∧ P a) ∨ may_fail ∧ ∃ e, r = Err e) (bc_client c) →
  (∀ w a, P a → Q (set_bc_client w c) (Ok a)) →
  (may_fail → ∀ w e, Q (set_bc_client w c) (Err (BlockCacheRpc e))) →
  wp (rpc call) Q c.
Proof.
  intros Hcall Hok Herr. unfold rpc. apply wp_zoom, wp_map_err.
  eapply wp_mono; [exact Hcall|]. intros w r [(a & -> & ?)|(? & e & ->)]; auto.
Qed.

(** The facts known of the answers of a client. *)
Lemma block_call `{!ClientReturns W RpcError may_fail} (P : Hash * mblock → Prop) h w :
  wp (mc_block h) (λ _ r, ∀ id b, r = Ok (id, b) → P (id, b)) w →
  wp (mc_block h) (λ _ r, (∃ a, r = Ok a ∧ P a) ∨ may_fail ∧ ∃ e, r = Err e) w.
Proof.
  pose proof (block_returns h w) as Hr. unfold wp in *. intros HP.
  destruct Hr as [[[id b] Hr]|Hr]; eauto.
Qed.

Lemma block_transactions_call `{!ClientReturns W RpcError may_fail}
    (P : list transaction → Prop) b w :
  wp (mc_block_transactions b) (λ _ r, ∀ txs, r = Ok txs → P txs) w →
  wp (mc_block_transactions b) (λ _ r, (∃ a, r = Ok a ∧ P a) ∨ may_fail ∧ ∃ e, r = Err e) w.
Proof.
  pose proof (block_transactions_returns b w) as Hr. unfold wp in *. intros HP.
  destruct Hr as [[a Hr]|Hr]; eauto.
Qed.

Lemma fix_reorg_indices (blocks : list Block) :
  blocks ≠ [] → match blocks with [] => [] | _ :: tl => seq 0 (length tl) end =
                seq 0 (length blocks - 1).
Proof. destruct blocks; [done|]. intros _. simpl. by rewrite Nat.sub_0_r. Qed.

Section steps.
Context (may_fail : Prop) `{!ClientReturns W RpcError may_fail}.
(** What is known of a fetched block and of fetched transactions. *)
Context (PB : Z → Hash * mblock → Prop) (PT : mblock → list transaction → Prop).
Context (HPB : ∀ h w, wp (mc_block h) (λ _ r, ∀ id b, r = Ok (id, b) → PB h (id, b)) w).
Context (HPT : ∀ b w, wp (mc_block_transactions b) (λ _ r, ∀ txs, r = Ok txs → PT b txs) w).

(** One iteration: nothing if the two blocks are linked, else the lower
    one is fetched again. *)
Lemma wp_fix_reorg_step updated i c (Q : BlockCache → outcome BlockCacheError Z → Prop) :
  cache_wf c → (S i < length (bc_blocks c))%nat →
  (∀ upper lower,
     bc_blocks c !! i = Some upper → bc_blocks c !! S i = Some lower →
     prev_id (b_inner upper) = b_hash lower → Q c (Ok updated)) →
  (∀ upper lower id b txs w,
     bc_blocks c !! i = Some upper → bc_blocks c !! S i = Some lower →
     prev_id (b_inner upper) ≠ b_hash lower →
     PB (bc_height c - Z.of_nat (S i)) (id, b) → PT b txs →
     Q (set_bc_blocks (<[S i := mk_Block id (bc_height c - Z.of_nat (S i)) b txs]> (bc_blocks c))
          (set_bc_client w c)) (Ok (Z.max updated 1 + 1))) →
  (may_fail → ∀ w e, Q (set_bc_client w c) (Err e)) →
  wp (fix_reorg_step (bc_height c) updated i) Q c.
Proof using All.
  intros (Hlen & Hh & Hle & Hhs) Hi Hsame Hfix Herr. unfold fix_reorg_step.
  apply wp_bind, wp_gets.
  destruct (lookup_lt_is_Some_2 (bc_blocks c) i) as [upper Hu]; [lia|].
  destruct (lookup_lt_is_Some_2 (bc_blocks c) (S i)) as [lower Hl]; [lia|].
  rewrite Hu, Hl. case_decide as Hp; [apply wp_ret; eauto|].
  unfold in_u64 in Hh.
  apply wp_bind, wp_u64_sub; [unfold in_u64; lia|].
  apply wp_bind, wp_u64_sub; [unfold in_u64; lia|].
  replace (bc_height c - 1 - Z.of_nat i) with (bc_height c - Z.of_nat (S i)) by lia.
  apply wp_bind. eapply wp_rpc; [apply block_call, HPB| |auto].
  intros w [id b] Hb. apply wp_bind. eapply wp_rpc; [apply block_transactions_call, HPT| |].
  2:{ intros Hf w' e. by apply (Herr Hf w' (BlockCacheRpc e)). }
  intros w' txs Htxs.
  apply wp_bind, wp_u64_sub; [unfold in_u64; lia|].
  apply wp_bind, wp_u64_sub; [unfold in_u64; lia|].
  replace (bc_height c - 1 - Z.of_nat i) with (bc_height c - Z.of_nat (S i)) by lia.
  apply wp_bind, wp_modify, wp_ret. eapply (Hfix upper lower id b txs w'); eauto.
Qed.

(** Replacing a block by one of the same height keeps the heights. *)
Lemma cache_wf_replace c w i id b txs :
  cache_wf c →
  cache_wf (set_bc_blocks (<[i := mk_Block id (bc_height c - Z.of_nat i) b txs]> (bc_blocks c))
              (set_bc_client w c)).
Proof.
  intros (Hlen & Hh & Hle & Hhs). unfold cache_wf; simpl. rewrite length_insert.
  split_and!; auto. intros j bl [(-> & <- & _)|[_ Hj]]%list_lookup_insert_Some; auto.
Qed.

(** The loop: [I k updated c] after [k] iterations. *)
Lemma wp_fix_reorg (I : nat → Z → BlockCache → Prop)
    (Q : BlockCache → outcome BlockCacheError Z → Prop) c :
  cache_wf c →
  I 0%nat 0 c →
  (∀ updated c', cache_wf c' → bc_height c' = bc_height c →
     length (bc_blocks c') = length (bc_blocks c) →
     bc_daemon_height c' = bc_daemon_height c →
     I (length (bc_blocks c) - 1)%nat updated c' → Q c' (Ok updated)) →
  (∀ k updated c', cache_wf c' → bc_height c' = bc_height c →
     length (bc_blocks c') = length (bc_blocks c) →
     (S k < length (bc_blocks c))%nat → I k updated c' →
     (∀ upper lower,
        bc_blocks c' !! k = Some upper → bc_blocks c' !! S k = Some lower →
        prev_id (b_inner upper) = b_hash lower → I (S k) updated c') ∧
     (∀ upper lower id b txs w,
        bc_blocks c' !! k = Some upper → bc_blocks c' !! S k = Some lower →
        prev_id (b_inner upper) ≠ b_hash lower →
        PB (bc_height c - Z.of_nat (S k)) (id, b) → PT b txs →
        I (S k) (Z.max updated 1 + 1)
          (set_bc_blocks (<[S k := mk_Block id (bc_height c - Z.of_nat (S k)) b txs]> (bc_blocks c'))
             (set_bc_client w c')))) →
  (may_fail → ∀ e c', cache_wf c' → bc_height c' = bc_height c →
     length (bc_blocks c') = length (bc_blocks c) →
     bc_daemon_height c' = bc_daemon_height c → Q c' (Err e)) →
  wp BlockCache_check_and_fix_reorg Q c.
Proof using All.
  intros Hwf HI Hdone Hstep Herr. unfold BlockCache_check_and_fix_reorg.
  apply wp_bind, wp_gets, wp_bind, wp_gets.
  set (n := (length (bc_blocks c) - 1)%nat).
  assert (Hn : (length (bc_blocks c) = S n)%nat) by (destruct Hwf; lia).
  destruct (bc_blocks c) as [|top tl] eqn:Eb; [done|].
  replace (length tl) with n by (simpl in Hn; lia). rewrite <-Eb in *.
  apply (wp_fold_each _ _ _ (λ rest updated c', ∃ k,
    rest = seq k (n - k) ∧ (k ≤ n)%nat ∧ cache_wf c' ∧ bc_height c' = bc_height c ∧
    length (bc_blocks c') = length (bc_blocks c) ∧
    bc_daemon_height c' = bc_daemon_height c ∧ I k updated c')).
  - exists 0%nat. rewrite Nat.sub_0_r. split_and!; auto; lia.
  - intros updated c' (k & Hk & Hkn & ?). destruct_and!. apply Hdone; auto.
    assert (n - k = 0)%nat by by destruct (n - k)%nat.
    by replace (length (bc_blocks c) - 1)%nat with k by lia.
  - intros i rest updated c' (k & Hk & Hkn & Hwf' & Hh' & Hl' & Hd' & HI').
    destruct (n - k)%nat as [|m] eqn:Em; [done|]. simplify_eq/=.
    destruct (Hstep k updated c') as [Hs Hf]; auto; [lia|].
    rewrite <-Hh'. apply wp_fix_reorg_step; [done|lia|..].
    + intros upper lower Hu Hlo Hp. exists (S k). split_and!; eauto; try lia.
      f_equal. lia.
    + intros upper lower id b txs w Hu Hlo Hp HB HT. rewrite Hh' in HB.
      exists (S k). split_and!; simpl; auto; try lia.
      * f_equal. lia.
      * by apply cache_wf_replace.
      * by rewrite length_insert.
      * rewrite Hh'. eauto.
    + intros Hfail w e. by apply Herr.
Qed.

(** The cache after a new top block has come in. *)
Definition advance_cache (d : Z) (id : Hash) (b : mblock) (txs : list transaction) (w : W)
    (c : BlockCache) : BlockCache :=
  mk_BlockCache (bc_height c + 1) d
    (mk_Block id (bc_height c + 1) b txs :: take (length (bc_blocks c) - 1) (bc_blocks c)) w.

Lemma advance_cache_wf d id b txs w c :
  cache_wf c → in_u64 (bc_height c + 1) → cache_wf (advance_cache d id b txs w c).
Proof.
  intros (Hlen & Hh & Hle & Hhs) Hin. unfold cache_wf; simpl. rewrite length_take.
  split_and!; auto; try lia. intros [|i] bl; simpl; [intros [= <-]; simpl; lia|].
  intros [Hi _]%lookup_take_Some. rewrite (Hhs _ _ Hi). lia.
Qed.

Lemma remove_last_cons {A} (x : A) l :
  l ≠ [] → remove_last (x :: l) = x :: take (length l - 1) l.
Proof. destruct l; [done|]. intros _. unfold remove_last. simpl. by rewrite Nat.sub_0_r. Qed.

(** An update: either the cache is not behind, or a block comes in. *)
Lemma wp_update (PD : Z → Prop) (Q : BlockCache → outcome BlockCacheError Z → Prop) c :
  (∀ w, wp mc_daemon_height (λ _ r, ∀ d, r = Ok d → PD d) w) →
  cache_wf c →
  (may_fail → ∀ d w e, Q (set_bc_client w c) (Err e) ∧
            Q (set_bc_daemon_height d (set_bc_client w c)) (Err e)) →
  (∀ d w, in_u64 d ∧ PD d → saturating_sub d 1 ≤ bc_height c →
     wp BlockCache_check_and_fix_reorg (λ c' r, match r with
        | Ok n => Q c' (Ok (Z.max 0 n)) | Err e => Q c' (Err e)
        | Panic => Q c' Panic | Hang => Q c' Hang end)
       (set_bc_daemon_height d (set_bc_client w c))) →
  (∀ d id b txs w, in_u64 d ∧ PD d → bc_height c < saturating_sub d 1 →
     PB (bc_height c + 1) (id, b) → PT b txs →
     wp BlockCache_check_and_fix_reorg (λ c' r, match r with
        | Ok n => Q c' (Ok (Z.max 1 n)) | Err e => Q c' (Err e)
        | Panic => Q c' Panic | Hang => Q c' Hang end)
       (advance_cache d id b txs w c)) →
  wp BlockCache_update Q c.
Proof using All.
  intros HPD Hwf Herr Hstay Hadv. unfold BlockCache_update.
  apply wp_bind. eapply (wp_rpc _ (λ d, in_u64 d ∧ PD d)).
  { pose proof (daemon_height_returns (bc_client c)) as Hd. specialize (HPD (bc_client c)).
    unfold wp in *. destruct Hd as [(d & ? & ?)|?]; eauto 10. }
  2:{ intros Hf w e. by apply (proj1 (Herr Hf 0 w _)). }
  intros w d Hd. apply wp_bind, wp_modify, wp_bind, wp_gets. simpl.
  destruct (Z.ltb_spec (bc_height c) (saturating_sub d 1)) as [Hlt|Hge].
  2:{ apply wp_bind, wp_ret, wp_bind. by apply Hstay. }
  assert (Hin : in_u64 (bc_height c + 1)).
  { destruct Hwf as (_ & [??] & _). unfold saturating_sub, in_u64 in *. lia. }
  apply wp_bind, wp_bind, wp_u64_add; [done|].
  apply wp_bind. eapply wp_rpc; [apply block_call, HPB| |].
  2:{ intros Hf w' e. apply (proj2 (Herr Hf d w' _)). }
  intros w' [id b] Hb. apply wp_bind. eapply wp_rpc; [apply block_transactions_call, HPT| |].
  2:{ intros Hf w'' e. apply (proj2 (Herr Hf d w'' _)). }
  intros w'' txs Htxs. apply wp_bind, wp_u64_add; [done|].
  apply wp_bind, wp_modify, wp_bind, wp_modify, wp_bind, wp_modify, wp_ret, wp_bind.
  unfold set_bc_blocks, set_bc_daemon_height, set_bc_client, set_bc_height; simpl.
  rewrite remove_last_cons by (destruct Hwf; by destruct (bc_blocks c); [simpl in *; lia|]).
  unfold wrap_u64. rewrite Z.mod_small by (unfold in_u64, u64_max in Hin; lia).
  by apply Hadv.
Qed.

(** A new cache: the [n] blocks from height [h] down. *)
Lemma wp_init n h d w :
  (0 < n)%nat → in_u64 h → Z.of_nat n ≤ h + 1 →
  wp (BlockCache_init n h d) (λ _ r, match r with
    | Ok c => cache_wf c ∧ bc_height c = h ∧ bc_daemon_height c = d ∧
        length (bc_blocks c) = n ∧
        ∀ i b, bc_blocks c !! i = Some b →
          PB (h - Z.of_nat i) (b_hash b, b_inner b) ∧ PT (b_inner b) (b_transactions b)
    | Err _ => may_fail
    | _ => False
    end) w.
Proof using All.
  intros Hn Hh Hle. unfold BlockCache_init. apply wp_bind.
  apply (wp_fold_each _ _ _ (λ rest blocks _, ∃ k, rest = seq k (n - k) ∧ (k ≤ n)%nat ∧
    length blocks = k ∧ ∀ i b, blocks !! i = Some b → b_height b = h - Z.of_nat i ∧
      PB (h - Z.of_nat i) (b_hash b, b_inner b) ∧ PT (b_inner b) (b_transactions b))).
  - exists 0%nat. rewrite Nat.sub_0_r. split_and!; [done|lia|done|done].
  - intros blocks s (k & Hk & Hkn & Hl & HP). apply wp_gets.
    assert (k = n) as -> by (destruct (n - k)%nat eqn:E; [lia|done]).
    unfold cache_wf. simpl. rewrite Hl. split_and!; naive_solver.
  - intros i rest blocks s (k & Hk & Hkn & Hl & HP).
    destruct (n - k)%nat as [|m] eqn:Em; [done|]. simplify_eq/=.
    unfold in_u64 in Hh. apply wp_bind, wp_u64_sub; [unfold in_u64; lia|].
    apply wp_bind, wp_map_err. eapply wp_mono; [apply block_call, HPB|].
    intros s1 r [([id b] & -> & Hb)|(? & e & ->)]; [|done].
    apply wp_bind, wp_map_err. eapply wp_mono; [apply block_transactions_call, HPT|].
    intros s2 r [(txs & -> & Ht)|(? & e & ->)]; [|done].
    apply wp_ret. exists (S (length blocks)). split_and!; [f_equal; lia|lia|..].
    + rewrite length_app. simpl. lia.
    + intros i bl [?|[Hi [Hz <-]%list_lookup_singleton_Some]]%lookup_app_Some; [by apply HP|].
      by replace i with (length blocks) by lia.
Qed.

End steps.

(** * Properties *)

(** An update keeps the cache well formed whatever the daemon answers
    and also when it fails half way: the same number of blocks, at
    consecutive heights down from the cache height, which grows by at most
    one.  It never panics (no index out of bounds, no arithmetic overflow),
    and the number of updated blocks it reports counts a new block and is at
    most the size of the cache. *)
Theorem BlockCache_update_wf `{!ClientReturns W RpcError may_fail} c :
  cache_wf c →
  wp BlockCache_update (λ c' r,
    cache_wf c' ∧ length (bc_blocks c') = length (bc_blocks c) ∧
    bc_height c ≤ bc_height c' ≤ bc_height c + 1 ∧
    match r with
    | Ok n => bc_height c' - bc_height c ≤ n ≤ Z.of_nat (length (bc_blocks c))
    | Err _ => True
    | _ => False
    end) c.
Proof.
  intros Hwf.
  assert (Hlen : (0 < length (bc_blocks c))%nat) by by destruct Hwf.
  assert (Hreorg : ∀ c1, cache_wf c1 → length (bc_blocks c1) = length (bc_blocks c) →
    bc_height c ≤ bc_height c1 ≤ bc_height c + 1 →
    wp BlockCache_check_and_fix_reorg (λ c' r,
      cache_wf c' ∧ length (bc_blocks c') = length (bc_blocks c) ∧
      bc_height c' = bc_height c1 ∧
      match r with
      | Ok n => 0 ≤ n ≤ Z.of_nat (length (bc_blocks c))
      | Err _ => True
      | _ => False
      end) c1).
  { intros c1 Hwf1 Hlen1 Hh1.
    apply (wp_fix_reorg may_fail (λ _ _, True) (λ _ _, True) ltac:(done) ltac:(done)
             (λ k updated _, 0 ≤ updated ≤ Z.of_nat k + 1));
      simpl; auto; [lia|..].
    - intros updated c' ? Hh' Hl' _ Hu. rewrite Hl', Hlen1 in *. split_and!; auto; try lia.
    - intros. split; intros; lia.
    - intros _ e c' ? Hh' Hl' _. rewrite Hl'. auto. }
  apply (wp_update may_fail (λ _ _, True) (λ _ _, True) ltac:(done) ltac:(done)
           (λ _, True)); [done|done|..].
  - intros _ d w e. unfold cache_wf in *. simpl. split_and!; naive_solver lia.
  - intros d w Hd Hge. eapply wp_mono; [apply Hreorg; simpl; [done|done|lia]|].
    intros c' [n| | |]; naive_solver lia.
  - intros d id b txs w Hd Hlt _ _. eapply wp_mono; [apply Hreorg; simpl|].
    + apply advance_cache_wf; [done|]. destruct Hwf as (_ & [??] & _).
      unfold saturating_sub, in_u64 in *. lia.
    + rewrite length_take. lia.
    + lia.
    + intros c' [n| | |]; naive_solver lia.
Qed.

(** Blocks at the depth [n] of the new cache [c'] or deeper are those of the
    old cache [c]. *)
Definition reported (c c' : BlockCache) (n : Z) : Prop :=
  ∀ i, n ≤ Z.of_nat i → (i < length (bc_blocks c))%nat →
    bc_blocks c' !! i = bc_blocks c !! (i - Z.to_nat (bc_height c' - bc_height c))%nat.

(** In a cache that is a chain, nothing is replaced. *)
Lemma fix_reorg_linked `{!ClientReturns W RpcError may_fail} c :
  cache_wf c → linked (bc_blocks c) →
  wp BlockCache_check_and_fix_reorg (λ c' r, match r with
    | Ok n => n = 0 ∧ bc_blocks c' = bc_blocks c ∧ bc_height c' = bc_height c
    | _ => True
    end) c.
Proof.
  intros Hwf Hlink.
  apply (wp_fix_reorg may_fail (λ _ _, True) (λ _ _, True) ltac:(done) ltac:(done)
           (λ _ updated c', bc_blocks c' = bc_blocks c ∧ updated = 0)); [done|done|..].
  - by intros updated c' _ Hh' _ _ [-> ->].
  - intros k updated c' _ _ _ _ [Hb ->]. split; [done|].
    intros upper lower id b txs w' Hu Hl Hne _ _. destruct Hne.
    rewrite Hb in Hu, Hl. by eapply Hlink.
  - done.
Qed.

(** In a cache whose blocks below the top are a chain, replacements form a
    contiguous run below the top. *)
Lemma fix_reorg_tail_linked `{!ClientReturns W RpcError may_fail} c :
  cache_wf c →
  (∀ i upper lower, (0 < i)%nat → bc_blocks c !! i = Some upper →
     bc_blocks c !! S i = Some lower → prev_id (b_inner upper) = b_hash lower) →
  wp BlockCache_check_and_fix_reorg (λ c' r, match r with
    | Ok n => bc_height c' = bc_height c ∧
        ∀ i, Z.max 1 n ≤ Z.of_nat i → bc_blocks c' !! i = bc_blocks c !! i
    | _ => True
    end) c.
Proof.
  intros Hwf Htail.
  apply (wp_fix_reorg may_fail (λ _ _, True) (λ _ _, True) ltac:(done) ltac:(done)
           (λ k updated c', ∃ m : nat, (m ≤ k)%nat ∧
              updated = (if decide (m = 0%nat) then 0 else Z.of_nat m + 1) ∧
              ∀ i, (m < i)%nat → bc_blocks c' !! i = bc_blocks c !! i)); [done|..].
  - exists 0%nat. split_and!; [lia|done|done].
  - intros updated c' _ Hh' _ _ (m & Hm & -> & Hsame). split; [done|].
    intros i Hi. apply Hsame. case_decide; lia.
  - intros k updated c' _ _ Hlen' Hk (m & Hm & -> & Hsame). split.
    { intros upper lower _ _ _. exists m. split_and!; [lia|done|done]. }
    intros upper lower id' b' txs' w' Hu Hl Hne _ _.
    destruct (decide (m = k)) as [->|Hmk].
    + exists (S k). split_and!; [lia|repeat case_decide; lia|].
      intros i Hi. simpl. rewrite list_lookup_insert_ne by lia. apply Hsame. lia.
    + destruct Hne. rewrite Hsame in Hu, Hl by lia. apply (Htail k); [lia|done|done].
  - done.
Qed.

(** The number an update reports is deep enough.  If the cached blocks
    were a chain before a successful update, then every block of the new
    cache at the reported depth or deeper is the very block that was cached
    for that height before: only shallower blocks need to be scanned.
    (Whatever chain the daemon tells about.) *)
Theorem BlockCache_update_reports `{!ClientReturns W RpcError may_fail} c :
  cache_wf c → linked (bc_blocks c) →
  wp BlockCache_update (λ c' r, match r with Ok n => reported c c' n | _ => True end) c.
Proof.
  intros Hwf Hlink. assert (Hlen : length (bc_blocks c) ≠ 0%nat) by (destruct Hwf; lia).
  apply (wp_update may_fail (λ _ _, True) (λ _ _, True) ltac:(done) ltac:(done)
           (λ _, True)); [done|done|done|..].
  - intros d w Hd Hge. eapply wp_mono; [by apply fix_reorg_linked|].
    intros c' [n| | |]; try done. intros (-> & Hb & Hh) i _ _. rewrite Hb, Hh. simpl.
    by rewrite Z.sub_diag, Nat.sub_0_r.
  - intros d id b txs w Hd Hlt _ _.
    assert (Hin : in_u64 (bc_height c + 1)).
    { destruct Hwf as (_ & [??] & _). unfold saturating_sub, in_u64 in *. lia. }
    eapply wp_mono; [apply fix_reorg_tail_linked; [by apply advance_cache_wf|]|].
    + intros [|i] upper lower Hi; [lia|]. simpl.
      intros [Hu _]%lookup_take_Some [Hl _]%lookup_take_Some. by eapply Hlink.
    + intros c' [n| | |]; try done. simpl. intros [Hh Hsame] i Hi Hilen.
      rewrite Hh, Hsame by lia. destruct i as [|i]; [lia|]. simpl.
      replace (Z.to_nat (bc_height c + 1 - bc_height c)) with 1%nat by lia.
      rewrite lookup_take_lt by lia. f_equal. lia.
Qed.

(** If no block comes in, a cache that is a chain stays as it is. *)
Lemma BlockCache_update_idle `{!ClientReturns W RpcError may_fail} c :
  cache_wf c → linked (bc_blocks c) →
  wp BlockCache_update (λ c' r, match r with
    | Ok n => bc_height c' = bc_height c → n = 0 ∧ bc_blocks c' = bc_blocks c
    | _ => True
    end) c.
Proof.
  intros Hwf Hlink.
  apply (wp_update may_fail (λ _ _, True) (λ _ _, True) ltac:(done) ltac:(done)
           (λ _, True)); [done|done|done|..].
  - intros d w Hd Hge. eapply wp_mono; [by apply fix_reorg_linked|].
    intros c' [n| | |]; try done. by intros (-> & Hb & _) _.
  - intros d id b txs w Hd Hlt _ _. eapply wp_mono; [apply fix_reorg_tail_linked|].
    + apply advance_cache_wf; [done|]. destruct Hwf as (_ & [??] & _).
      unfold saturating_sub, in_u64 in *. lia.
    + intros [|i] upper lower Hi; [lia|]. simpl.
      intros [Hu _]%lookup_take_Some [Hl _]%lookup_take_Some. by eapply Hlink.
    + intros c' [n| | |]; try done. simpl. intros [Hh _] ?. lia.
Qed.

Section chain.
Context (hash_of : mblock → Hash) (txs_of : mblock → list transaction).
Context (chain : Z → mblock).

Definition genuine_block (b : Block) : Prop :=
  b_hash b = hash_of (b_inner b) ∧ b_transactions b = txs_of (b_inner b).

(** The block of the main chain at a height, as the cache holds it. *)
Definition chain_block (h : Z) : Block :=
  mk_Block (hash_of (chain h)) h (chain h) (txs_of (chain h)).

(** The cache holds the main chain from its height down. *)
Definition on_chain (c : BlockCache) : Prop :=
  ∀ i, (i < length (bc_blocks c))%nat →
       bc_blocks c !! i = Some (chain_block (bc_height c - Z.of_nat i)).

Context `{!ClientReturns W RpcError may_fail} `{!Genuine W RpcError hash_of txs_of}
        `{!ServesChain W RpcError hash_of chain}.

(** What the daemon answers about a block of its chain. *)
Definition chain_answer (h : Z) (p : Hash * mblock) : Prop :=
  p.1 = hash_of p.2 ∧ p.2 = chain h.

Lemma fetched_block h w :
  wp (mc_block h) (λ _ r, ∀ id b, r = Ok (id, b) → chain_answer h (id, b)) w.
Proof using All.
  pose proof (block_genuine h w) as Hg. pose proof (block_of_chain h w) as Hc.
  unfold wp in *. intros id b Hr. split; simpl; eauto.
Qed.

Lemma on_chain_linked c : on_chain c → linked (bc_blocks c).
Proof using All.
  intros Hon i upper lower Hu Hl.
  pose proof (lookup_lt_Some _ _ _ Hu). pose proof (lookup_lt_Some _ _ _ Hl).
  rewrite Hon in Hu, Hl by done. simplify_eq. simpl.
  replace (bc_height c - Z.of_nat i) with (bc_height c - Z.of_nat (S i) + 1) by lia.
  apply chain_linked.
Qed.

(** Repairing from a top block that is on the chain brings the whole cache
    onto it. *)
Lemma fix_reorg_follows_chain c :
  cache_wf c → Forall genuine_block (bc_blocks c) →
  wp BlockCache_check_and_fix_reorg
     (λ c' r, match r with
              | Ok _ => cache_wf c' ∧ bc_height c' = bc_height c ∧
                  bc_daemon_height c' = bc_daemon_height c ∧
                  Forall genuine_block (bc_blocks c') ∧
                  (bc_blocks c !! 0%nat = Some (chain_block (bc_height c)) → on_chain c')
              | Err _ => may_fail
              | _ => False
              end) c.
Proof using All.
  intros Hwf Hgen.
  apply (wp_fix_reorg may_fail chain_answer (λ b txs, txs = txs_of b)
    fetched_block block_transactions_genuine
    (λ k _ c', Forall genuine_block (bc_blocks c') ∧
       (bc_blocks c !! 0%nat = Some (chain_block (bc_height c)) →
        ∀ i, (i ≤ k)%nat → bc_blocks c' !! i = Some (chain_block (bc_height c - Z.of_nat i))))).
  - done.
  - split; [done|]. intros Htop i Hi. replace i with 0%nat by lia. by rewrite Z.sub_0_r.
  - intros _ c' Hwf' Hh' Hl' Hd' [? Hon]. split_and!; [done..|].
    intros Htop i Hi. rewrite Hh'. apply Hon; [done|lia].
  - intros k _ c' Hwf' Hh' Hl' Hk [Hgen' Hon]. split.
    + intros upper lower Hu Hl Hp. split; [done|]. intros Htop i Hi.
      destruct (decide (i = S k)) as [->|]; [|apply Hon; [done|lia]].
      rewrite (Hon Htop) in Hu by lia. simplify_eq. simpl in Hp.
      destruct (Forall_lookup_1 _ _ _ _ Hgen' Hl) as [Hid Htxs].
      destruct Hwf' as (_ & _ & _ & Hhs). specialize (Hhs _ _ Hl).
      assert (b_inner lower = chain (bc_height c - Z.of_nat (S k))) as Hin.
      { apply (inj hash_of). rewrite <-Hid, <-Hp.
        rewrite (chain_linked_pred W (RpcError:=RpcError) (hash_of:=hash_of)). do 2 f_equal. lia. }
      rewrite Hl. f_equal. destruct lower; unfold chain_block; simpl in *. congruence.
    + intros upper lower id b txs w Hu Hl Hp [Hid Hb] Htxs. simpl in *. subst.
      split; [by apply Forall_insert|]. intros Htop i Hi.
      destruct (decide (i = S k)) as [->|].
      * rewrite list_lookup_insert_eq by lia. done.
      * rewrite list_lookup_insert_ne by lia. apply Hon; [done|lia].
  - auto.
Qed.

(** One update, seen from the chain; [PD] is what is known of the height
    the daemon reports. *)
Lemma update_follows_chain (PD : Z → Prop) c :
  (∀ w, wp mc_daemon_height (λ _ r, ∀ d, r = Ok d → PD d) w) →
  cache_wf c → Forall genuine_block (bc_blocks c) →
  wp BlockCache_update (λ c' r, match r with
    | Ok _ =>
        cache_wf c' ∧ PD (bc_daemon_height c') ∧ Forall genuine_block (bc_blocks c') ∧
        bc_height c' =
          bc_height c + (if bc_height c <? saturating_sub (bc_daemon_height c') 1 then 1 else 0) ∧
        (bc_height c' = bc_height c + 1 ∨
         bc_blocks c !! 0%nat = Some (chain_block (bc_height c)) → on_chain c')
    | Err _ => may_fail
    | _ => False
    end) c.
Proof using All.
  intros HPD Hwf Hgen.
  apply (wp_update may_fail chain_answer (λ b txs, txs = txs_of b)
    fetched_block block_transactions_genuine PD); [done|done|done|..].
  - intros d w [Hd HP] Hge. eapply wp_mono; [by apply fix_reorg_follows_chain|].
    intros c' [n| | |]; try done. simpl. intros (? & Hh & Hd' & ? & Hon).
    rewrite Hd', (proj2 (Z.ltb_ge _ _)) by done.
    split_and!; [done..|lia|]. intros [?|Htop]; [lia|auto].
  - intros d id b txs w [Hd HP] Hlt [Hid Hb] ->. simpl in *. subst.
    eapply wp_mono; [apply fix_reorg_follows_chain|].
    + apply advance_cache_wf; [done|]. destruct Hwf as (_ & [??] & _).
      unfold saturating_sub, in_u64 in *. lia.
    + simpl. constructor; [done|]. by apply Forall_take.
    + intros c' [n| | |]; try done. simpl. intros (? & Hh & Hd' & ? & Hon).
      rewrite Hd', (proj2 (Z.ltb_lt _ _)) by done.
      split_and!; [done..|]. intros _. by apply Hon.
Qed.


(** A new cache holds the main chain: the [n] blocks down from its
    initial height, fetched one after the other. *)
Theorem BlockCache_init_on_chain n h d w :
  (0 < n)%nat → in_u64 h → Z.of_nat n ≤ h + 1 →
  wp (BlockCache_init n h d) (λ _ r, match r with
    | Ok c => cache_wf c ∧ bc_height c = h ∧ bc_daemon_height c = d ∧
        length (bc_blocks c) = n ∧ on_chain c ∧ Forall genuine_block (bc_blocks c)
    | Err _ => may_fail
    | _ => False
    end) w.
Proof using All.
  intros Hn Hh Hle. eapply wp_mono.
  { by apply (wp_init may_fail chain_answer (λ b txs, txs = txs_of b)
                fetched_block block_transactions_genuine). }
  intros _ [c|e| |]; try done. intros (Hwf & Hch & Hcd & Hl & HP).
  destruct Hwf as (Hne & Hin & Hb & Hhs).
  split_and!; try done.
  - intros i Hi. destruct (lookup_lt_is_Some_2 _ _ Hi) as [b Hib].
    destruct (HP _ _ Hib) as [[H1 H2] H3]. specialize (Hhs _ _ Hib).
    rewrite Hib. f_equal. destruct b; unfold chain_block; simpl in *. congruence.
  - apply Forall_lookup. intros i b Hib. by destruct (HP _ _ Hib) as [[H1 _] H3].
Qed.

(** [n] scans, as far as the block cache is concerned. *)
Fixpoint BlockCache_updates (n : nat) : M BlockCache BlockCacheError unit :=
  match n with
  | O => ret tt
  | S n => let! _ := BlockCache_update in BlockCache_updates n
  end.

(** The cache catches up.  If calls to the daemon do not fail and its
    chain does not grow beyond height [d - 1] meanwhile, a cache that is
    [n] blocks behind is synchronized after [n] updates and holds the
    main chain; each update succeeds. *)
Theorem BlockCache_catches_up d c n :
  (may_fail → False) → DaemonHeight W RpcError d →
  cache_wf c → Forall genuine_block (bc_blocks c) →
  (0 < n)%nat → bc_height c + Z.of_nat n = d - 1 →
  wp (BlockCache_updates n) (λ c' r,
    r = Ok tt ∧ bc_height c' = d - 1 ∧ BlockCache_is_synchronized c' = true ∧
    cache_wf c' ∧ on_chain c') c.
Proof using All.
  intros Hnf HD. revert c. induction n as [|n IH]; intros c Hwf Hgen Hn Hd; [lia|].
  assert (0 ≤ bc_height c) by by destruct Hwf as (_ & [??] & _).
  cbn [BlockCache_updates]. apply wp_bind. eapply wp_mono.
  { apply (update_follows_chain (.= d)); [|done..]. intros w. apply daemon_height_is. }
  intros c' [u| | |]; try done. simpl. intros (Hwf' & Hd' & Hgen' & Hh & Hon).
  unfold saturating_sub in Hh. rewrite Hd' in Hh.
  rewrite (proj2 (Z.ltb_lt _ _)) in Hh by lia.
  destruct n as [|n].
  - apply wp_ret. unfold BlockCache_is_synchronized, saturating_sub.
    rewrite Z.leb_le. split_and!; [done|lia|lia|done|auto].
  - apply IH; [done..|lia|lia].
Qed.
End chain.

End block_cache.
Arguments Block {_}.
Arguments BlockCache {_} W.
Arguments BlockCacheError RpcError : clear implicits.

(** * Concrete runs *)

Section demo.
Context (wd : DemoWorld).

Definition demo_update : BlockCache nat → BlockCache nat * outcome (BlockCacheError unit) Z :=
  BlockCache_update (MonerodClient0:=DemoClient wd).
Definition demo_init (n : nat) (h d : Z) : nat → nat * outcome (BlockCacheError unit) (BlockCache nat) :=
  BlockCache_init (MonerodClient0:=DemoClient wd) n h d.
End demo.

Definition demo_block (id h : Z) : Block := @mk_Block DemoMonero id h id [].

(** The daemon has blocks 0 to 6; the cache holds three blocks of another
    branch, up to height 5. *)
Definition demo_world (fails : option nat) : DemoWorld := mk_DemoWorld 0 (λ _, []) [] 7 fails.
Definition demo_forked : BlockCache nat :=
  mk_BlockCache 5 6 [demo_block 1005 5; demo_block 1004 4; demo_block 1003 3] 0%nat.

Lemma demo_forked_wf : cache_wf demo_forked.
Proof.
  split_and!; simpl; [lia|unfold in_u64, u64_max; lia|lia|].
  intros [|[|[|i]]] b; simpl; intros; by simplify_eq/=.
Qed.

Lemma demo_forked_linked : linked (bc_blocks demo_forked).
Proof. intros [|[|[|i]]] u l; simpl; intros; by simplify_eq/=. Qed.

Lemma demo_forked_genuine : Forall (genuine_block demo_hash (λ _, [])) (bc_blocks demo_forked).
Proof. repeat constructor. Qed.

(** What a failed repair loses.  If a call fails while a reorganisation
    is being repaired, the update returns an error, but the blocks it has
    already fetched stay in the cache, and the next update counts from the
    first unlinked pair only: it replaces the block at depth 2 and reports
    that 2 blocks are new, so that block is in no report. *)
Theorem BlockCache_failed_repair_loses_block :
  ∃ wd c1 e c2,
    demo_update wd demo_forked = (c1, Err e) ∧ demo_update wd c1 = (c2, Ok 2) ∧
    bc_blocks c2 !! 2%nat = Some (demo_block 4 4) ∧ demo_block 4 4 ∉ bc_blocks c1.
Proof.
  exists (demo_world (Some 5%nat)),
    (mk_BlockCache 6 7 [demo_block 6 6; demo_block 5 5; demo_block 1004 4] 6%nat).
  eexists _, _. split; [by vm_compute|]. split; [by vm_compute|]. split; [by vm_compute|].
  simpl. rewrite !elem_of_cons, elem_of_nil. intros H. destruct_or!; by simplify_eq.
Qed.

Lemma demo_world_height f : in_u64 (dw_height (demo_world f)).
Proof. split; vm_compute; congruence. Qed.

Lemma BlockCache_update_wf_witness :
  cache_wf (demo_update (demo_world None) demo_forked).1 ∧
  (demo_update (demo_world None) demo_forked).2 = Ok 3.
Proof.
  split; [|by vm_compute].
  exact (proj1 (@BlockCache_update_wf _ _ _ _ _ _ (demo_returns _ (demo_world_height None))
                  demo_forked demo_forked_wf)).
Defined.

(** The same, on the daemon's branch. *)
Definition demo_behind : BlockCache nat :=
  mk_BlockCache 5 6 [demo_block 5 5; demo_block 4 4; demo_block 3 3] 0%nat.

Lemma demo_behind_wf : cache_wf demo_behind ∧ linked (bc_blocks demo_behind).
Proof.
  split.
  - split_and!; simpl; [lia|unfold in_u64, u64_max; lia|lia|].
    intros [|[|[|i]]] b; simpl; intros; by simplify_eq/=.
  - intros [|[|[|i]]] u l; simpl; intros; by simplify_eq/=.
Qed.

Lemma BlockCache_update_reports_witness :
  (demo_update (demo_world None) demo_behind).2 = Ok 1 ∧
  bc_blocks (demo_update (demo_world None) demo_behind).1 !! 1%nat = Some (demo_block 5 5).
Proof.
  split; [by vm_compute|].
  pose proof (@BlockCache_update_reports _ _ _ _ _ _
    (demo_returns _ (demo_world_height None)) demo_behind (proj1 demo_behind_wf)
    (proj2 demo_behind_wf)) as H.
  refine (H 1%nat _ _); simpl; lia.
Defined.


Lemma BlockCache_init_on_chain_witness :
  ∃ c, demo_init (demo_world None) 3 6 7 0%nat = (6%nat, Ok c) ∧
       on_chain demo_hash (λ _, []) (λ h, h + 0) c.
Proof.
  pose proof (@BlockCache_init_on_chain _ _ _ _ _ demo_hash (λ _, []) (λ h, h + 0) _
    (demo_returns _ (demo_world_height None)) (demo_genuine _) (demo_chain _)
    3%nat 6 7 0%nat) as H.
  eexists. split; [by vm_compute|].
  refine (proj1 (proj2 (proj2 (proj2 (proj2 (H _ _ _)))))).
  - lia.
  - by decide_goal.
  - lia.
Defined.

Lemma BlockCache_catches_up_witness :
  bc_height (BlockCache_updates (MonerodClient0:=DemoClient (demo_world None)) 1 demo_forked).1 = 6.
Proof.
  refine (proj1 (proj2 (@BlockCache_catches_up _ _ _ _ _ demo_hash (λ _, []) (λ h, h + 0) _
    (demo_returns _ (demo_world_height None)) (demo_genuine _) (demo_chain _)
    7 demo_forked 1 _ (demo_height _) demo_forked_wf demo_forked_genuine _ _))).
  - by intros [].
  - lia.
  - by vm_compute.
Defined.
