(* ===== verification/TxpoolCache.v ===== *)
(** The txpool cache: [library/src/caching/txpool_cache.rs]. *)
From S2P Require Import Prelude.
From S2P Require Import Invoice.
From S2P Require Import Storage.
From S2P Require Import Monerod.
From S2P Require Import Demo.

(** A [HashMap] from transaction hashes. *)
Notation TxMap A := (gmap Hash A).

(** [map.retain(|k, _| keys.contains(k))]. *)
Definition retain_keys {A} (keys : gset Hash) (m : TxMap A) : TxMap A :=
  filter (λ p, p.1 ∈ keys) m.

(** [map.extend(entries)]: later entries replace earlier ones. *)
Definition extend {A} (entries : list (Hash * A)) (m : TxMap A) : TxMap A :=
  foldl (λ m p, <[p.1 := p.2]> m) m entries.

(** The same from another map, whose keys are distinct. *)
Definition extend_map {A} (entries : TxMap A) (m : TxMap A) : TxMap A := entries ∪ m.

Section txpool_cache.
Context `{HashOrder} `{Monero} {W RpcError : Type} `{!MonerodClient W RpcError}.

Inductive TxpoolCacheError := TxpoolRpc (e : RpcError).

Record TxpoolCache := mk_TxpoolCache {
  tc_client : W;
  tc_transactions : TxMap transaction;
  tc_discovered_transfers : TxMap (list (SubIndex * Transfer));
}.

Definition set_tc_client (w : W) (c : TxpoolCache) : TxpoolCache :=
  mk_TxpoolCache w (tc_transactions c) (tc_discovered_transfers c).
Definition set_tc_transactions (m : TxMap transaction) (c : TxpoolCache) : TxpoolCache :=
  mk_TxpoolCache (tc_client c) m (tc_discovered_transfers c).
Definition set_tc_discovered (m : TxMap (list (SubIndex * Transfer))) (c : TxpoolCache) :
    TxpoolCache :=
  mk_TxpoolCache (tc_client c) (tc_transactions c) m.

Definition with_hash (tx : transaction) : Hash * transaction := (transaction_hash tx, tx).

Definition TxpoolCache_init : M W TxpoolCacheError TxpoolCache :=
  let! txs := map_err TxpoolRpc mc_txpool in
  gets (λ w, mk_TxpoolCache w (extend (with_hash <$> txs) ∅) ∅).

(** [for hash in &txpool_hashes]: the hashes not yet known. *)
Definition new_hashes (txpool_hashes : gset Hash) (known : TxMap transaction) : list Hash :=
  filter (λ hash, known !! hash = None) (iter_order (elements txpool_hashes)).

(** The two futures of the [join!] touch different things (the daemon,
    the two maps): the cache is pruned whether or not the call fails. *)
Definition TxpoolCache_update : M TxpoolCache TxpoolCacheError (list transaction) :=
  let rpc {A} (call : M W RpcError A) := zoom tc_client set_tc_client (map_err TxpoolRpc call) in
  let! txpool_hashes := rpc mc_txpool_hashes in
  let! known := gets tc_transactions in
  let! new_transactions := try_ (rpc (mc_transactions_by_hashes (new_hashes txpool_hashes known))) in
  modify (λ c, set_tc_transactions (retain_keys txpool_hashes (tc_transactions c)) c) ;;;
  modify (λ c, set_tc_discovered (retain_keys txpool_hashes (tc_discovered_transfers c)) c) ;;;
  let! new_transactions :=
    lift (match new_transactions with inl txs => Ok txs | inr e => Err e end) in
  modify (λ c, set_tc_transactions
    (extend (with_hash <$> new_transactions) (tc_transactions c)) c) ;;;
  ret new_transactions.

Definition TxpoolCache_insert_transfers (transfers : TxMap (list (SubIndex * Transfer)))
    (c : TxpoolCache) : TxpoolCache :=
  set_tc_discovered (extend_map transfers (tc_discovered_transfers c)) c.

(** * Lemmas *)

Lemma extend_lookup {A} (entries : list (Hash * A)) (m : TxMap A) k :
  is_Some (extend entries m !! k) ↔ is_Some (m !! k) ∨ k ∈ entries.*1.
Proof.
  unfold extend. revert m. induction entries as [|[k' a] l IH]; intros m; simpl.
  { rewrite elem_of_nil. naive_solver. }
  rewrite IH, elem_of_cons, lookup_insert. case_decide; subst.
  - split; eauto.
  - naive_solver.
Qed.

Lemma retain_lookup {A} keys (m : TxMap A) k :
  retain_keys keys m !! k = if decide (k ∈ keys) then m !! k else None.
Proof.
  unfold retain_keys. apply option_eq. intros a. rewrite map_lookup_filter_Some. simpl.
  case_decide; naive_solver.
Qed.

Lemma elem_of_new_hashes hs known k :
  k ∈ new_hashes hs known ↔ k ∈ hs ∧ known !! k = None.
Proof.
  unfold new_hashes. rewrite list_elem_of_filter, iter_order_perm, elem_of_elements. naive_solver.
Qed.

Lemma new_hashes_NoDup hs known : NoDup (new_hashes hs known).
Proof. unfold new_hashes. apply NoDup_filter. rewrite iter_order_perm. apply NoDup_elements. Qed.

(** What the daemon answers while its pool holds [hs]: never a transaction
    it was not asked for (but some may be missing). *)
Class PoolIs (hs : gset Hash) : Prop := {
  pool_hashes w : wp mc_txpool_hashes (λ _ r, match r with
    | Ok s => s = hs | Err _ => True | _ => False end) w;
  pool_transactions l w : wp (mc_transactions_by_hashes l) (λ _ r, match r with
    | Ok txs => ∀ tx, tx ∈ txs → transaction_hash tx ∈ l
    | Err _ => True | _ => False end) w;
}.

(** A transaction is known exactly if its hash is among the keys. *)
Definition knows (c : TxpoolCache) (k : Hash) : Prop := is_Some (tc_transactions c !! k).

(** * Properties *)

(** One update of the txpool cache.  On success it returns
    transactions of the pool that were not known before, and then knows
    exactly the still pooled ones among the old and the returned ones.  On
    an error of the second call it knows only old ones, so a transaction
    it missed is asked for again.  Either way the transfers remembered for
    the transactions that left the pool are dropped and all others kept. *)
Theorem TxpoolCache_update_spec hs `{!PoolIs hs} c :
  wp TxpoolCache_update (λ c' r, match r with
    | Ok txs =>
        (∀ tx, tx ∈ txs → transaction_hash tx ∈ hs ∧ ¬ knows c (transaction_hash tx)) ∧
        (∀ k, knows c' k ↔ k ∈ hs ∧ (knows c k ∨ ∃ tx, tx ∈ txs ∧ transaction_hash tx = k)) ∧
        (∀ k, tc_discovered_transfers c' !! k =
              if decide (k ∈ hs) then tc_discovered_transfers c !! k else None)
    | Err _ =>
        (∀ k, knows c' k → knows c k) ∧
        (∀ k, k ∈ hs → tc_transactions c' !! k = tc_transactions c !! k ∧
           tc_discovered_transfers c' !! k = tc_discovered_transfers c !! k)
    | _ => False
    end) c.
Proof.
  unfold TxpoolCache_update, knows.
  apply wp_bind, wp_zoom, wp_map_err. eapply wp_mono; [apply pool_hashes|].
  intros w [hs'|e| |]; try done. intros ->. apply wp_bind, wp_gets. simpl.
  apply wp_bind, wp_try, wp_zoom, wp_map_err. eapply wp_mono; [apply pool_transactions|].
  intros w' [txs|e| |]; try done; simpl; intros Htxs.
  - wp_go. unfold wp; simpl. wp_go. split_and!.
    + intros tx Htx. apply Htxs, elem_of_new_hashes in Htx as [? ?].
      split; [done|]. by apply eq_None_not_Some.
    + intros k. rewrite extend_lookup, retain_lookup, <-list_fmap_compose.
      rewrite list_elem_of_fmap. simpl. split.
      * intros [Hk|(tx & -> & Htx)]; [case_decide; [eauto|by destruct Hk]|].
        pose proof Htx as Hin. apply Htxs, elem_of_new_hashes in Hin as [? _]. eauto.
      * intros [Hk [?|(tx & ? & <-)]]; [rewrite decide_True by done; auto|eauto].
    + intros k. apply retain_lookup.
  - wp_go. unfold wp; simpl. split.
    + intros k. rewrite retain_lookup. case_decide; [done|by intros [??]].
    + intros k Hk. rewrite !retain_lookup, !decide_True by done. done.
Qed.

End txpool_cache.
Arguments TxpoolCache {_} W.
Arguments TxpoolCacheError RpcError : clear implicits.

(** * Concrete runs *)

Lemma demo_pool wd :
  PoolIs (MonerodClient0:=DemoClient wd) (list_to_set (dt_hash <$> dw_pool wd)).
Proof.
  split; intros; unfold wp; simpl; case_decide; simpl; try done.
  intros tx [Hin _]%list_elem_of_filter. exact Hin.
Qed.

Definition demo_tx (hash : Hash) (outs : list DemoOut) : DemoTx := mk_DemoTx hash 0 outs.
Definition demo_pool_world : DemoWorld :=
  mk_DemoWorld 0 (λ _, []) [demo_tx 100 []; demo_tx 101 []] 7 None.
Definition demo_txpool_cache : TxpoolCache nat :=
  mk_TxpoolCache 0%nat {[100 := demo_tx 100 []; 99 := demo_tx 99 []]} {[99 := []]}.

(** 99 has left the pool, 101 is new. *)
Lemma TxpoolCache_update_spec_witness :
  ∃ c', TxpoolCache_update (MonerodClient0:=DemoClient demo_pool_world) demo_txpool_cache
          = (c', Ok [demo_tx 101 []]) ∧
        tc_discovered_transfers c' !! 99 = None.
Proof.
  pose proof (TxpoolCache_update_spec (MonerodClient0:=DemoClient demo_pool_world) _
    (PoolIs0:=demo_pool demo_pool_world) demo_txpool_cache) as Hspec.
  eexists. split; [by vm_compute|].
  exact (proj2 (proj2 Hspec) 99).
Defined.
