(* ===== verification/SubaddressCache.v ===== *)
(** The cache of unused subaddresses: [library/src/caching/subaddress_cache.rs]. *)
From S2P Require Import Prelude.
From S2P Require Import Invoice.
From S2P Require Import Storage.
From S2P Require Import InMemory.
From S2P Require Import Monerod.
From S2P Require Import Demo.

Definition MIN_AVAILABLE_SUBADDRESSES : Z := 100.

(** The [ChaCha12Rng] of the [rand_chacha] crate. *)
Class RngCore := {
  Rng : Type;
  from_entropy : Rng;
  seed_from_u64 : Z → Rng;
  gen_range : Z → Rng → Z * Rng;       (* rng.gen_range(0..n) *)
}.
Class LawfulRng `{RngCore} : Prop := {
  gen_range_bound n r : 0 < n → 0 ≤ (gen_range n r).1 < n;
}.

(** [iter().max()] of an [IndexSet]. *)
Definition sub_index_max (l : list SubIndex) : option SubIndex :=
  foldl (λ acc i, match acc with
                  | None => Some i
                  | Some m => if is_gt (SubIndex_cmp m i) then Some m else Some i
                  end) None l.

Section subaddress_cache.
Context `{Monero} `{RngCore}.

(** [highest_minor_index] is an atomic that the payment gateway keeps a
    second handle to; only the cache stores to it. *)
Record SubaddressCache := mk_SubaddressCache {
  sc_major_index : Z;
  sc_highest_minor_index : Z;
  sc_available : list (SubIndex * string);
  sc_viewpair : ViewPair;
  sc_rng : Rng;
}.

Definition set_sc_highest (h : Z) (c : SubaddressCache) : SubaddressCache :=
  mk_SubaddressCache (sc_major_index c) h (sc_available c) (sc_viewpair c) (sc_rng c).
Definition set_sc_available (l : list (SubIndex * string)) (c : SubaddressCache) :
    SubaddressCache :=
  mk_SubaddressCache (sc_major_index c) (sc_highest_minor_index c) l (sc_viewpair c) (sc_rng c).
Definition set_sc_rng (r : Rng) (c : SubaddressCache) : SubaddressCache :=
  mk_SubaddressCache (sc_major_index c) (sc_highest_minor_index c) (sc_available c)
    (sc_viewpair c) r.

(** The [while] loop of [generate_range]; [None] is out of fuel. *)
Fixpoint generate_loop (fuel : nat) (current to : SubIndex) (viewpair : ViewPair)
    (subaddresses : list (SubIndex * string)) : option (list (SubIndex * string)) :=
  match SubIndex_cmp current to with
  | Gt => Some subaddresses
  | _ =>
      match fuel with
      | O => None
      | S fuel =>
          let subaddress := get_subaddress viewpair current in
          let subaddresses := subaddresses ++ [(current, subaddress)] in
          match checked_add_u32 (minor current) 1 with
          | Some minor => generate_loop fuel (SubIndex_new (major current) minor) to viewpair
                            subaddresses
          | None => Some subaddresses
          end
      end
  end.

(** The last minor index of the range. *)
Definition last_minor (from to : SubIndex) : Z :=
  if major from =? major to then minor to else u32_max.

Definition generate_range (from to : SubIndex) (viewpair : ViewPair) :
    option (list (SubIndex * string)) :=
  if is_lt (SubIndex_cmp to from) then Some []
  else generate_loop (Z.to_nat (last_minor from to - minor from + 1)) from to viewpair [].

(** The closure that collects the used indices in an [IndexSet]. *)
Definition used_closure {E} : EachClosure (list SubIndex) E :=
  λ invoice_or_err,
    let! invoice := lift (match invoice_or_err with inl i => Ok i | inr e => Err e end) in
    modify (λ used, if decide (inv_index invoice ∈ used) then used else used ++ [inv_index invoice]).

Definition SubaddressCache_init {St EI EK EH EF} `{!Storage St EI EK EH EF}
    (viewpair : ViewPair) (major_index : Z) (seed : option Z) :
    M (Manager St) (StorageError EI EK EH EF) SubaddressCache :=
  let! used_sub_indexes := Client_try_for_each_invoice used_closure [] in
  let max_used :=
    match sub_index_max used_sub_indexes with
    | Some max_sub_index => minor max_sub_index
    | None => 0
    end in
  let highest_minor_index := Z.max (MIN_AVAILABLE_SUBADDRESSES - 1) max_used in
  let! range := lift (match generate_range (SubIndex_new major_index 0)
                              (SubIndex_new major_index highest_minor_index) viewpair with
                      | Some l => Ok l | None => Hang end) in
  let available := filter (λ p, p.1 ∉ used_sub_indexes) (im_collect range) in
  let rng := match seed with Some s => seed_from_u64 s | None => from_entropy end in
  ret (mk_SubaddressCache major_index highest_minor_index available viewpair rng).

Definition SubaddressCache_len (c : SubaddressCache) : Z := Z.of_nat (length (sc_available c)).

(** [n] rounds of the loop, with the count so far. *)
Fixpoint extend_loop (n : nat) (count : Z) (c : SubaddressCache) : SubaddressCache * Z :=
  match n with
  | O => (c, count)
  | S n =>
      if sc_highest_minor_index c =? u32_max then (c, count)
      else
        let sub_index := SubIndex_new (sc_major_index c) (sc_highest_minor_index c + 1) in
        let subaddress := get_subaddress (sc_viewpair c) sub_index in
        let c := set_sc_available (im_insert sub_index subaddress (sc_available c)) c in
        let c := set_sc_highest (minor sub_index) c in
        extend_loop n (count + 1) c
  end.
Definition SubaddressCache_extend_by (n : Z) (c : SubaddressCache) : SubaddressCache * Z :=
  extend_loop (Z.to_nat n) 0 c.

(** [gen_range] panics on an empty range.  The recursive call is the retry
    after an index out of bounds. *)
Fixpoint remove_random_loop {E} (fuel : nat) : M SubaddressCache E (SubIndex * string) :=
  match fuel with
  | O => hang
  | S fuel =>
      let! c := gets id in
      if SubaddressCache_len c =? 0 then panic
      else
        let (map_index, rng) := gen_range (SubaddressCache_len c) (sc_rng c) in
        modify (set_sc_rng rng) ;;;
        match im_shift_remove_index (Z.to_nat map_index) (sc_available c) with
        | (available, Some (sub_index, subaddress)) =>
            modify (set_sc_available available) ;;;
            modify (λ c, if SubaddressCache_len c <=? MIN_AVAILABLE_SUBADDRESSES
                         then (SubaddressCache_extend_by MIN_AVAILABLE_SUBADDRESSES c).1
                         else c) ;;;
            ret (sub_index, subaddress)
        | (_, None) => remove_random_loop fuel
        end
  end.
(** An index of [gen_range] is in bounds, so one attempt is enough. *)
Definition SubaddressCache_remove_random {E} : M SubaddressCache E (SubIndex * string) :=
  remove_random_loop 1.

Definition SubaddressCache_insert (sub_index : SubIndex) (address : string)
    (c : SubaddressCache) : SubaddressCache :=
  set_sc_available (im_insert sub_index address (sc_available c)) c.

(** * Lemmas *)

(** The entry of a minor index. *)
Definition entry (viewpair : ViewPair) (major_index m : Z) : SubIndex * string :=
  (SubIndex_new major_index m, get_subaddress viewpair (SubIndex_new major_index m)).

Lemma last_minor_cases from to :
  (major from = major to ∧ last_minor from to = minor to) ∨
  (major from ≠ major to ∧ last_minor from to = u32_max).
Proof. unfold last_minor. destruct (Z.eqb_spec (major from) (major to)); auto. Qed.

Lemma last_minor_succ mj mn mn' to :
  last_minor (SubIndex_new mj mn) to = last_minor (SubIndex_new mj mn') to.
Proof. done. Qed.

Lemma entries_cons vp mj mn last :
  mn ≤ last →
  entry vp mj <$> seqZ mn (last - mn + 1) =
    entry vp mj mn :: (entry vp mj <$> seqZ (mn + 1) (last - (mn + 1) + 1)).
Proof.
  intros. rewrite seqZ_cons by lia. cbn [fmap list_fmap].
  by replace (Z.pred _) with (last - (mn + 1) + 1) by lia.
Qed.

Lemma generate_loop_spec fuel current to vp acc :
  in_u32 (minor current) → in_u32 (minor to) → major current ≤ major to →
  minor current ≤ last_minor current to + 1 →
  Z.of_nat fuel = last_minor current to - minor current + 1 →
  generate_loop fuel current to vp acc =
    Some (acc ++ (entry vp (major current) <$>
                    seqZ (minor current) (last_minor current to - minor current + 1))).
Proof.
  revert current acc. induction fuel as [|fuel IH]; intros [mj mn] acc Hcur Hto Hmj Hle Hf;
    destruct (last_minor_cases (SubIndex_new mj mn) to) as [[Hmaj Hlast]|[Hmaj Hlast]];
    unfold in_u32, SubIndex_cmp in *; cbn [generate_loop major minor] in *.
  - rewrite <-Hf. simpl. rewrite app_nil_r. unfold SubIndex_cmp. simpl.
    by rewrite Hmaj, Z.compare_refl, (proj2 (Z.compare_gt_iff _ _)) by lia.
  - lia.
  - rewrite entries_cons by lia. unfold SubIndex_cmp. simpl.
    rewrite (proj2 (Z.compare_eq_iff _ _) Hmaj).
    assert (∃ c, mn ?= minor to = c ∧ c ≠ Gt) as (c & -> & Hc).
    { eexists; split; [done|]. rewrite Z.compare_gt_iff. lia. }
    unfold checked_add_u32. case_decide as Hmax.
    + specialize (IH (SubIndex_new mj (mn + 1)) (acc ++ [entry vp mj mn])).
      rewrite (last_minor_succ _ _ mn) in IH. cbn [major minor] in IH.
      rewrite <-(assoc_L (++)) in IH. cbn [app] in IH.
      destruct c; [apply IH; lia|apply IH; lia|done].
    + rewrite seqZ_nil by lia. by destruct c.
  - rewrite entries_cons by lia. unfold SubIndex_cmp. simpl.
    rewrite (proj2 (Z.compare_lt_iff _ _)) by lia.
    unfold checked_add_u32. case_decide as Hmax.
    + specialize (IH (SubIndex_new mj (mn + 1)) (acc ++ [entry vp mj mn])).
      rewrite (last_minor_succ _ _ mn) in IH. cbn [major minor] in IH.
      rewrite <-(assoc_L (++)) in IH. cbn [app] in IH.
      apply IH; lia.
    + by rewrite seqZ_nil by lia.
Qed.

(** A well-formed cache: distinct indices of the one major index, up to the
    highest minor one, each with its own address. *)
Definition sc_wf (c : SubaddressCache) : Prop :=
  in_u32 (sc_major_index c) ∧ in_u32 (sc_highest_minor_index c) ∧
  NoDup (sc_available c).*1 ∧
  ∀ i a, (i, a) ∈ sc_available c →
    major i = sc_major_index c ∧ 0 ≤ minor i ≤ sc_highest_minor_index c ∧
    a = get_subaddress (sc_viewpair c) i.

(** None of the indices in use is available, now or after an extension. *)
Definition avoids (c : SubaddressCache) (used : SubIndex → Prop) : Prop :=
  ∀ i, used i → i ∉ (sc_available c).*1 ∧
    (major i = sc_major_index c → minor i ≤ sc_highest_minor_index c).

(** The cache with [k] more entries. *)
Definition extended (k : Z) (c : SubaddressCache) : SubaddressCache :=
  mk_SubaddressCache (sc_major_index c) (sc_highest_minor_index c + k)
    (sc_available c ++ (entry (sc_viewpair c) (sc_major_index c) <$>
                          seqZ (sc_highest_minor_index c + 1) k))
    (sc_viewpair c) (sc_rng c).

Lemma elem_of_entries vp mj a n p :
  p ∈ entry vp mj <$> seqZ a n ↔
  major p.1 = mj ∧ a ≤ minor p.1 < a + n ∧ p.2 = get_subaddress vp p.1.
Proof.
  rewrite list_elem_of_fmap. setoid_rewrite elem_of_seqZ. split.
  - by intros (m & -> & ?).
  - destruct p as [[mj' mn] ad]; simpl. intros (-> & ? & ->). by exists mn.
Qed.

Lemma entries_NoDup vp mj a n : NoDup (entry vp mj <$> seqZ a n).*1.
Proof.
  rewrite <-list_fmap_compose. apply NoDup_fmap_2; [|apply NoDup_seqZ].
  intros m m' Heq. by injection Heq.
Qed.

Lemma extended_wf k c :
  sc_wf c → 0 ≤ k → sc_highest_minor_index c + k ≤ u32_max → sc_wf (extended k c).
Proof.
  intros (Hmj & Hh & Hnd & Hin) Hk Hmax. unfold sc_wf, in_u32 in *; simpl. split_and!; try lia.
  - rewrite fmap_app, NoDup_app. split_and!; [done| |apply entries_NoDup].
    intros x ([x' a] & -> & Hx)%list_elem_of_fmap ([x'' a'] & Heq & Hx')%list_elem_of_fmap.
    apply elem_of_entries in Hx'. simpl in *. subst. apply Hin in Hx. lia.
  - intros i a [Hi|Hi]%elem_of_app; [apply Hin in Hi as (?&?&?)|apply elem_of_entries in Hi];
      simpl in *; split_and!; naive_solver lia.
Qed.

Lemma extended_avoids k c used :
  sc_wf c → 0 ≤ k → avoids c used → avoids (extended k c) used.
Proof.
  intros (_ & [? _] & _) Hk Hav i Hi. destruct (Hav i Hi) as [Hni Hle]. simpl. split.
  - rewrite fmap_app, elem_of_app. intros [?|(p & -> & Hp)%list_elem_of_fmap]; [done|].
    apply elem_of_entries in Hp as (? & ? & _). lia.
  - intros Hmj. specialize (Hle Hmj). lia.
Qed.

Lemma extend_loop_spec n count c :
  sc_wf c →
  let k := Z.min (Z.of_nat n) (u32_max - sc_highest_minor_index c) in
  extend_loop n count c = (extended k c, count + k).
Proof.
  revert count c. induction n as [|n IH]; intros count c Hwf k; subst k;
    pose proof Hwf as (Hmj & Hh & Hnd & Hin); unfold in_u32 in Hh; cbn [extend_loop].
  - rewrite Z.min_l by lia. unfold extended. simpl. rewrite app_nil_r, !Z.add_0_r. by destruct c.
  - destruct (Z.eqb_spec (sc_highest_minor_index c) u32_max) as [E|E].
    + rewrite E, Z.sub_diag, Z.min_r by lia. unfold extended. simpl.
      rewrite app_nil_r, !Z.add_0_r. by destruct c.
    + assert (Hfresh : SubIndex_new (sc_major_index c) (sc_highest_minor_index c + 1)
                         ∉ (sc_available c).*1).
      { intros ([i a] & Heq & Hp)%list_elem_of_fmap. apply Hin in Hp. simpl in *. subst.
        simpl in *. lia. }
      rewrite im_insert_fresh by done. cbn [minor].
      change (extend_loop n (count + 1) (extended 1 c) =
        (extended (Z.min (Z.of_nat (S n)) (u32_max - sc_highest_minor_index c)) c,
         count + Z.min (Z.of_nat (S n)) (u32_max - sc_highest_minor_index c))).
      rewrite IH by (apply extended_wf; [done|lia|lia]).
      set (k := Z.min (Z.of_nat n) (u32_max - sc_highest_minor_index (extended 1 c))).
      assert (Hk : 0 ≤ k) by (subst k; simpl; lia).
      replace (Z.min (Z.of_nat (S n)) (u32_max - sc_highest_minor_index c)) with (1 + k)
        by (subst k; simpl; lia).
      f_equal; [|lia]. unfold extended. simpl. rewrite <-(assoc_L (++)). f_equal; [lia|].
      f_equal. rewrite (seqZ_cons _ (1 + k)) by lia. simpl. do 2 f_equal.
      f_equal; lia.
Qed.

(** The cache without the entry at a position. *)
Lemma shift_removed c n i a :
  sc_wf c → sc_available c !! n = Some (i, a) →
  sc_wf (set_sc_available (delete n (sc_available c)) c) ∧
  (i, a) ∈ sc_available c ∧ i ∉ (delete n (sc_available c)).*1 ∧
  length (sc_available c) = S (length (delete n (sc_available c))) ∧
  ∀ x, x ∈ (delete n (sc_available c)).*1 → x ∈ (sc_available c).*1.
Proof.
  intros (Hmj & Hh & Hnd & Hin) Hn. pose proof (delete_Permutation _ _ _ Hn) as Hp.
  rewrite (fmap_Permutation fst _ _ Hp) in Hnd. simpl in Hnd. apply NoDup_cons in Hnd as [Hi Hnd].
  split_and!.
  - unfold sc_wf; simpl. split; [done|]. split; [done|]. split; [done|].
    intros j b Hj. apply Hin. rewrite Hp. by right.
  - by eapply list_elem_of_lookup_2.
  - done.
  - by apply Permutation_length in Hp.
  - intros x Hx. rewrite (fmap_Permutation fst _ _ Hp). simpl. by right.
Qed.

(** Extending at the end of [remove_random]. *)
Definition topped_up (c : SubaddressCache) : SubaddressCache :=
  if SubaddressCache_len c <=? MIN_AVAILABLE_SUBADDRESSES
  then (SubaddressCache_extend_by MIN_AVAILABLE_SUBADDRESSES c).1 else c.

Lemma topped_up_spec c :
  sc_wf c →
  ∃ k, 0 ≤ k ∧ sc_highest_minor_index c + k ≤ u32_max ∧ topped_up c = extended k c ∧
    (MIN_AVAILABLE_SUBADDRESSES ≤ SubaddressCache_len (extended k c) ∨
     sc_highest_minor_index (extended k c) = u32_max).
Proof.
  intros Hwf. pose proof Hwf as (_ & [? ?] & _). unfold topped_up, SubaddressCache_extend_by.
  destruct (Z.leb_spec (SubaddressCache_len c) MIN_AVAILABLE_SUBADDRESSES) as [Hle|Hgt].
  - rewrite extend_loop_spec by done. eexists. split_and!; [..|done|]; simpl;
      unfold MIN_AVAILABLE_SUBADDRESSES in *; [lia|lia|].
    unfold SubaddressCache_len; simpl. rewrite length_app, length_fmap, length_seqZ. lia.
  - exists 0. assert (extended 0 c = c) as ->.
    { unfold extended. simpl. rewrite app_nil_r, Z.add_0_r. by destruct c. }
    split_and!; [lia|lia|done|left; lia].
Qed.

(** What one removal does. *)
Lemma remove_random_removed `{!LawfulRng} {E} c :
  sc_wf c → sc_available c ≠ [] →
  ∃ n i a r, sc_available c !! n = Some (i, a) ∧
    SubaddressCache_remove_random (E:=E) c =
      (topped_up (set_sc_available (delete n (sc_available c)) (set_sc_rng r c)), Ok (i, a)).
Proof.
  intros Hwf Hne. unfold SubaddressCache_remove_random, remove_random_loop, bind, gets.
  assert (Hlen : 0 < SubaddressCache_len c).
  { unfold SubaddressCache_len. destruct (sc_available c); [done|simpl; lia]. }
  simpl. rewrite (proj2 (Z.eqb_neq _ _)) by lia.
  pose proof (gen_range_bound (SubaddressCache_len c) (sc_rng c) Hlen) as Hb.
  destruct (gen_range (SubaddressCache_len c) (sc_rng c)) as [z r]. simpl in *.
  unfold SubaddressCache_len in Hb.
  destruct (lookup_lt_is_Some_2 (sc_available c) (Z.to_nat z)) as [[i a] Hia]; [lia|].
  exists (Z.to_nat z), i, a, r. rewrite Hia. done.
Qed.

Lemma sub_index_max_spec (l : list SubIndex) :
  match sub_index_max l with
  | None => l = []
  | Some m => m ∈ l ∧ Forall (λ i, SubIndex_cmp i m ≠ Gt) l
  end.
Proof.
  unfold sub_index_max. induction l as [|i l IH] using rev_ind; [done|].
  rewrite foldl_app. simpl. destruct (foldl _ None l) as [m|] eqn:Em.
  - destruct IH as [Hm Hall]. destruct (SubIndex_cmp m i) eqn:Ec; simpl.
    + apply (ord_eq (cmp:=SubIndex_cmp)) in Ec as ->. split; [set_solver|].
      apply Forall_app; split; [done|]. apply Forall_singleton.
      by rewrite (proj2 (ord_eq (cmp:=SubIndex_cmp) i i) eq_refl).
    + split; [set_solver|]. apply Forall_app; split.
      * eapply Forall_impl; [done|]. intros j Hj. simpl in Hj.
        destruct (SubIndex_cmp j m) eqn:Ej; [|by rewrite (ord_trans (cmp:=SubIndex_cmp) _ _ _ Ej Ec)|done].
        apply (ord_eq (cmp:=SubIndex_cmp)) in Ej as ->. by rewrite Ec.
      * apply Forall_singleton. by rewrite (proj2 (ord_eq (cmp:=SubIndex_cmp) i i) eq_refl).
    + split; [set_solver|]. apply Forall_app; split; [done|]. apply Forall_singleton.
      by rewrite (ord_antisym (cmp:=SubIndex_cmp) m i), Ec.
  - subst. simpl. split; [set_solver|]. apply Forall_singleton.
    by rewrite (proj2 (ord_eq (cmp:=SubIndex_cmp) i i) eq_refl).
Qed.

(** The loop that collects the used indices. *)
Lemma used_loop {E} (items : list (Invoice + E)) invoices acc :
  Forall2 (λ it i, it = inl i ∨ ∃ e, it = inr e) items invoices →
  wp (for_each items used_closure)
     (λ used r, match r with
                | Ok _ => ∀ x, x ∈ used ↔ x ∈ acc ∨ x ∈ inv_index <$> invoices
                | Err _ => True
                | _ => False
                end) acc.
Proof.
  intros Hf. revert acc. induction Hf as [|it i items invoices Hit _ IH]; intros acc.
  { apply wp_ret. set_solver. }
  cbn [for_each]. apply wp_bind. unfold used_closure at 1.
  destruct Hit as [->|[e ->]]; [|done].
  apply wp_bind. unfold lift, wp at 1. simpl. apply wp_modify.
  eapply wp_mono; [apply IH|]. intros used [[]|?| |]; try done. intros Hused x. rewrite Hused.
  case_decide; set_solver.
Qed.

(** One removal, in terms of the indices in use. *)
Lemma wp_remove_random `{!LawfulRng} {E} c :
  sc_wf c → sc_available c ≠ [] →
  wp (SubaddressCache_remove_random (E:=E)) (λ c' r, ∃ i a, r = Ok (i, a) ∧
    (i, a) ∈ sc_available c ∧ a = get_subaddress (sc_viewpair c) i ∧
    sc_wf c' ∧ sc_viewpair c' = sc_viewpair c ∧ sc_major_index c' = sc_major_index c ∧
    (∀ used, avoids c used → ¬ used i ∧ avoids c' (λ x, x = i ∨ used x)) ∧
    (MIN_AVAILABLE_SUBADDRESSES ≤ SubaddressCache_len c' ∨
     sc_highest_minor_index c' = u32_max)) c.
Proof.
  intros Hwf Hne. destruct (remove_random_removed (E:=E) c Hwf Hne) as (n & i & a & r & Hia & Heq).
  unfold wp. rewrite Heq. cbn [fst snd].
  destruct (shift_removed (set_sc_rng r c) n i a Hwf Hia) as (Hwf1 & Hin & Hi & _ & Hsub).
  set (c1 := set_sc_available (delete n (sc_available c)) (set_sc_rng r c)) in *.
  destruct (topped_up_spec c1 Hwf1) as (k & Hk & Hmax & -> & Hlen).
  pose proof Hwf as (_ & _ & _ & Hall). destruct (Hall i a Hin) as (Hmj & Hmi & Ha).
  exists i, a. split_and!; [done|done|done|by apply extended_wf|done|done| |done].
  intros used Hav. split.
  - intros Hu. destruct (Hav i Hu) as [[] _]. apply list_elem_of_fmap. by exists (i, a).
  - apply extended_avoids; [done|lia|]. intros x [->|Hx]; [split; [exact Hi|simpl; lia]|].
    destruct (Hav x Hx) as [Hnx Hle]. split; [|done]. intros ?. by apply Hnx, Hsub.
Qed.

(** The whole range. *)
Lemma generate_range_total from to vp :
  SubIndex_wf from → SubIndex_wf to →
  generate_range from to vp = Some
    (if is_lt (SubIndex_cmp to from) then []
     else entry vp (major from) <$>
            seqZ (minor from) (last_minor from to - minor from + 1)).
Proof.
  intros [? Hf] [? Ht]. unfold generate_range, is_lt, SubIndex_cmp.
  assert (Hle : major from ≤ major to → minor from ≤ last_minor from to + 1 →
    generate_loop (Z.to_nat (last_minor from to - minor from + 1)) from to vp [] =
      Some (entry vp (major from) <$> seqZ (minor from) (last_minor from to - minor from + 1))).
  { intros. rewrite generate_loop_spec by (done || lia). done. }
  destruct (last_minor_cases from to) as [[Hmj Hlast]|[Hmj Hlast]]; unfold in_u32 in *.
  - rewrite (proj2 (Z.compare_eq_iff _ _)) by done.
    destruct (Z.compare_spec (minor to) (minor from)); [apply Hle; lia|done|apply Hle; lia].
  - destruct (Z.compare_spec (major to) (major from)); [lia|done|apply Hle; lia].
Qed.


(** * Properties *)

(** [generate_range] terminates and generates one entry for each minor
    index from that of [from], in order, all of the major index of [from]:
    up to the minor index of [to], or up to the last of all if [to] has a
    greater major index; nothing if [to] is below [from]. *)
Theorem generate_range_spec from to vp :
  SubIndex_wf from → SubIndex_wf to →
  generate_range from to vp = Some
    (if is_lt (SubIndex_cmp to from) then []
     else entry vp (major from) <$>
            seqZ (minor from) (last_minor from to - minor from + 1)).
Proof. apply generate_range_total. Qed.

(** Handing out a subaddress.  From a well-formed, nonempty cache the
    retry never happens: one of the available entries is handed out, with
    the address that belongs to its index.  If the cache avoids the indices
    in use, the index handed out is not in use, and the new cache avoids it
    too; so no two invoices ever share a subaddress.  Afterwards there are
    at least 100 entries again, unless the minor indices are exhausted. *)
Theorem SubaddressCache_remove_random_fresh `{!LawfulRng} {E} c :
  sc_wf c → sc_available c ≠ [] →
  wp (SubaddressCache_remove_random (E:=E)) (λ c' r, ∃ i a, r = Ok (i, a) ∧
    (i, a) ∈ sc_available c ∧ a = get_subaddress (sc_viewpair c) i ∧
    sc_wf c' ∧ sc_viewpair c' = sc_viewpair c ∧ sc_major_index c' = sc_major_index c ∧
    (∀ used, avoids c used → ¬ used i ∧ avoids c' (λ x, x = i ∨ used x)) ∧
    (MIN_AVAILABLE_SUBADDRESSES ≤ SubaddressCache_len c' ∨
     sc_highest_minor_index c' = u32_max)) c.
Proof. apply wp_remove_random. Qed.

Section init.
Context {St EI EK EH EF : Type} `{!Storage St EI EK EH EF}.
Context (wf : St → Prop) (view : St → StoreView) `{!LawfulStorage St EI EK EH EF wf view}.

(** The indices of the stored invoices. *)
Definition stored_index (s : St) (i : SubIndex) : Prop :=
  ∃ id inv, v_invoices (view s) !! id = Some inv ∧ inv_index inv = i.

Lemma stored_index_elem s invoices x :
  invoices ≡ₚ (map_to_list (v_invoices (view s))).*2 →
  stored_index s x ↔ x ∈ inv_index <$> invoices.
Proof.
  intros Hperm. rewrite Hperm. unfold stored_index. rewrite list_elem_of_fmap.
  setoid_rewrite list_elem_of_fmap. split.
  - intros (id & inv & ? & <-). exists inv. split; [done|]. exists (id, inv).
    by rewrite elem_of_map_to_list.
  - intros (inv & -> & [id inv'] & -> & ?%elem_of_map_to_list). eauto.
Qed.

(** The highest minor index of [init], from the used indices. *)
Definition max_used (used : list SubIndex) : Z :=
  match sub_index_max used with Some m => minor m | None => 0 end.

Lemma max_used_spec s used major_index :
  wf s → (∀ x, x ∈ used ↔ stored_index s x) →
  in_u32 (max_used used) ∧
  ((∀ i, stored_index s i → major i ≤ major_index) →
   ∀ i, stored_index s i → major i = major_index → minor i ≤ max_used used).
Proof using All.
  intros Hwf Hused. unfold max_used. pose proof (sub_index_max_spec used) as Hm.
  destruct (sub_index_max used) as [m|].
  2:{ subst. split; [split; unfold u32_max; lia|]. intros _ i Hi. apply Hused in Hi. set_solver. }
  destruct Hm as [Hin Hall]. apply Hused in Hin as Hst. destruct Hst as (id & inv & Hid & <-).
  split; [by destruct (law_wf s Hwf id inv Hid) as [_ [[_ ?] _]]|].
  intros Hbound i Hi Hieq. rewrite Forall_forall in Hall.
  specialize (Hall i (proj2 (Hused i) Hi)). specialize (Hbound (inv_index inv)).
  assert (major (inv_index inv) ≤ major_index) by (apply Hbound; exists id; eauto).
  unfold SubIndex_cmp in Hall.
  destruct (Z.compare_spec (major i) (major (inv_index inv))) as [E|E|E]; [|lia|done].
  by apply Z.compare_le_iff in Hall.
Qed.

(** It is the minor index of a stored invoice, unless nothing is stored. *)
Lemma max_used_stored s used :
  (∀ x, x ∈ used ↔ stored_index s x) →
  max_used used = 0 ∨ ∃ i, stored_index s i ∧ minor i = max_used used.
Proof using Type.
  intros Hused. unfold max_used. pose proof (sub_index_max_spec used) as Hm.
  destruct (sub_index_max used) as [m|]; [|by left]. right. exists m. split; [by apply Hused, Hm|done].
Qed.

(** The entries of a range without the used ones. *)
Definition unused (viewpair : ViewPair) (major_index h : Z) (used : list SubIndex) :
    list (SubIndex * string) :=
  filter (λ p : SubIndex * string, p.1 ∉ used) (entry viewpair major_index <$> seqZ 0 (h - 0 + 1)).

Lemma elem_of_unused viewpair major_index h used i :
  i ∈ (unused viewpair major_index h used).*1 ↔
  major i = major_index ∧ 0 ≤ minor i ≤ h ∧ i ∉ used.
Proof.
  unfold unused. rewrite list_elem_of_fmap. setoid_rewrite list_elem_of_filter.
  setoid_rewrite elem_of_entries. split.
  - intros (p & -> & Hu & Hm & Hb & _). split_and!; [done|lia|lia|done].
  - intros (? & ? & ?). exists (i, get_subaddress viewpair i). simpl. split_and!; try done; lia.
Qed.

Lemma unused_wf viewpair major_index h used rng :
  in_u32 major_index → in_u32 h →
  sc_wf (mk_SubaddressCache major_index h (unused viewpair major_index h used) viewpair rng).
Proof.
  intros Hm Hh. split; [done|]. split; [done|]. split.
  - eapply sublist_NoDup; [apply (entries_NoDup viewpair major_index 0 (h - 0 + 1))|].
    apply fmap_sublist, sublist_filter.
  - intros i a [_ Hi]%list_elem_of_filter. apply elem_of_entries in Hi. simpl in *.
    destruct Hi as (? & ? & ?). split_and!; [done|lia|lia|done].
Qed.

(** The range [init] starts with. *)
Lemma initial_range viewpair major_index h :
  in_u32 major_index → in_u32 h →
  generate_range (SubIndex_new major_index 0) (SubIndex_new major_index h) viewpair =
    Some (entry viewpair major_index <$> seqZ 0 (h - 0 + 1)).
Proof.
  intros Hm Hh. rewrite generate_range_total by (split; simpl; first [done|unfold in_u32, u32_max; lia]).
  unfold last_minor, SubIndex_cmp. cbn [major minor]. rewrite Z.compare_refl, Z.eqb_refl.
  destruct (Z.compare_spec h 0); [done| |done]. unfold in_u32 in Hh. lia.
Qed.

(** A new cache holds every index of its major index, up to the
    highest minor one it starts with, except those of stored invoices,
    and leaves the store alone.  The highest minor index is that of a fixed
    number of subaddresses or that of a stored invoice.  It avoids the indices in use provided no
    stored invoice has a greater major index than the cache. *)
Theorem SubaddressCache_init_spec s viewpair major_index seed :
  wf s → in_u32 major_index →
  wp (SubaddressCache_init viewpair major_index seed) (λ mgr r,
    mgr = Running s ∧
    match r with
    | Ok c =>
        sc_wf c ∧ sc_major_index c = major_index ∧
        (MIN_AVAILABLE_SUBADDRESSES - 1 ≤ sc_highest_minor_index c ∧
         (sc_highest_minor_index c = MIN_AVAILABLE_SUBADDRESSES - 1 ∨
          ∃ i, stored_index s i ∧ minor i = sc_highest_minor_index c)) ∧
        (∀ i, i ∈ (sc_available c).*1 ↔
           major i = major_index ∧ 0 ≤ minor i ≤ sc_highest_minor_index c ∧
           ¬ stored_index s i) ∧
        ((∀ i, stored_index s i → major i ≤ major_index) → avoids c (stored_index s))
    | Err _ => True
    | _ => False
    end) (Running s).
Proof using All.
  intros Hwf Hmaj. destruct (law_for_each s Hwf) as (items & invoices & Hperm & Hitems & Heach).
  pose proof (used_loop items invoices [] Hitems) as Hloop.
  unfold SubaddressCache_init. apply wp_bind. unfold wp at 1. simpl.
  unfold map_err, for_each_method. rewrite Heach. unfold wp in Hloop.
  destruct (for_each items used_closure []) as [used [[]|e| |]]; simpl in *; try done.
  assert (Hused : ∀ x, x ∈ used ↔ stored_index s x).
  { intros x. rewrite Hloop, (stored_index_elem s invoices x Hperm). set_solver. }
  destruct (max_used_spec s used major_index Hwf Hused) as [Hmx Hle].
  change (match sub_index_max used with Some m => minor m | None => 0 end) with (max_used used).
  set (h := Z.max (MIN_AVAILABLE_SUBADDRESSES - 1) (max_used used)).
  assert (Hh : in_u32 h) by (unfold h, in_u32, MIN_AVAILABLE_SUBADDRESSES, u32_max in *; lia).
  rewrite initial_range by done. apply wp_bind. unfold lift, wp at 1. cbn [fst snd].
  rewrite im_collect_NoDup by apply entries_NoDup.
  apply wp_ret. split; [done|]. fold (unused viewpair major_index h used).
  split; [by apply unused_wf|]. split; [done|]. split; [|split].
  - cbn. split; [unfold h; lia|].
    destruct (Z.max_spec (MIN_AVAILABLE_SUBADDRESSES - 1) (max_used used)) as [[? E]|[? E]]; fold h in E;
      rewrite E; [right|by left].
    destruct (max_used_stored s used Hused) as [E0|Hi]; [|done].
    rewrite E0 in *. unfold MIN_AVAILABLE_SUBADDRESSES in *. lia.
  - intros i. cbn [sc_available sc_highest_minor_index]. by rewrite elem_of_unused, Hused.
  - intros Hbound i Hi. cbn [sc_available sc_highest_minor_index sc_major_index]. split.
    + rewrite elem_of_unused, Hused. by intros (_ & _ & []).
    + intros Hieq. specialize (Hle Hbound i Hi Hieq). unfold h. lia.
Qed.
End init.

End subaddress_cache.

(** * Concrete runs *)

(** A generator that makes the choices it is given. *)
#[export] Instance demo_rng : RngCore := {|
  Rng := list Z;
  from_entropy := [0; 149];
  seed_from_u64 := λ s, [s];
  gen_range := λ n r, (hd 0 r mod n, tl r);
|}.
#[export] Instance demo_rng_lawful : LawfulRng.
Proof. split. intros n r Hn. apply Z.mod_pos_bound, Hn. Qed.

Definition demo_invoice (major minor : Z) : Invoice :=
  mk_Invoice "" (SubIndex_new major minor) 10 1 0 None 1 10 20 [] "".
Definition demo_store (l : list Invoice) : InMemory :=
  mk_InMemory (list_to_map ((λ i, (Invoice_id i, i)) <$> l)) ∅ None.

Lemma demo_store_wf l : Forall Invoice_wf l → InMemory_wf (demo_store l).
Proof.
  intros Hl id i Hi. apply elem_of_list_to_map_2, list_elem_of_fmap in Hi as (j & Heq & Hj).
  simplify_eq. rewrite Forall_forall in Hl. auto.
Qed.

Definition demo_sc_init (seed : option Z) :
    Manager InMemory → Manager InMemory * outcome _ SubaddressCache :=
  SubaddressCache_init (tt : ViewPair (Monero:=DemoMonero)) 1 seed.
Definition demo_remove_random :
    SubaddressCache → SubaddressCache * outcome Empty_set (SubIndex * string) :=
  SubaddressCache_remove_random.


Lemma generate_range_spec_witness :
  ∃ a b, generate_range (SubIndex_new 1 (u32_max - 1)) (SubIndex_new 2 0)
           (tt : ViewPair (Monero:=DemoMonero)) =
         Some [(SubIndex_new 1 (u32_max - 1), a); (SubIndex_new 1 u32_max, b)].
Proof.
  eexists _, _. etrans; [apply generate_range_spec; decide_goal|]. by vm_compute.
Defined.

Lemma SubaddressCache_init_spec_witness :
  let s := demo_store [demo_invoice 1 3] in
  match (demo_sc_init (Some 5) (Running s)).2 with
  | Ok c => sc_wf c ∧ SubIndex_new 1 3 ∉ (sc_available c).*1
  | _ => False
  end.
Proof.
  intros s. pose proof (SubaddressCache_init_spec InMemory_wf InMemory_view s
    (tt : ViewPair (Monero:=DemoMonero)) 1 (Some 5)) as Hspec.
  assert (Hok : match (demo_sc_init (Some 5) (Running s)).2 with Ok _ => true | _ => false end = true)
    by by vm_compute.
  destruct Hspec as [_ Hspec].
  { apply demo_store_wf. decide_goal. }
  { split; by vm_compute. }
  unfold demo_sc_init in *. revert Hspec Hok.
  generalize (SubaddressCache_init (tt : ViewPair (Monero:=DemoMonero)) 1 (Some 5) (Running s)).2.
  intros [c| | |]; try done. intros (Hwf & _ & _ & Hin & _) _. split; [done|].
  rewrite Hin. intros (_ & _ & []). exists (Invoice_id (demo_invoice 1 3)), (demo_invoice 1 3).
  split; by vm_compute.
Defined.

Definition demo_sc_small : SubaddressCache :=
  mk_SubaddressCache 1 0 [(SubIndex_new 1 0, "1/0"%string)]
    (tt : ViewPair (Monero:=DemoMonero)) [7].

Lemma SubaddressCache_remove_random_fresh_witness :
  (demo_remove_random demo_sc_small).2 = Ok (SubIndex_new 1 0, "1/0"%string) ∧
  sc_wf (demo_remove_random demo_sc_small).1.
Proof.
  destruct (SubaddressCache_remove_random_fresh (E:=Empty_set) demo_sc_small) as
    (i & a & Hr & Hin & _ & Hwf & _).
  - split; [split; by vm_compute|]. split; [split; by vm_compute|]. split.
    + simpl. apply NoDup_singleton.
    + intros i a [= -> ->]%list_elem_of_singleton. simpl. split_and!; [done|lia|lia|by vm_compute].
  - done.
  - by split; [vm_compute|].
Defined.
