(* ===== verification/InvoiceTests.v ===== *)
(** The unit tests of [library/src/invoice.rs] and of
    [library/src/caching/subaddress_cache.rs], with the printing of [F64Text]. *)
From Stdlib Require Import Ascii.
From S2P Require Import Prelude.
From S2P Require Import TestKit.
From S2P Require Import Invoice.
From S2P Require Import Text.
From S2P Require Import F64.
From S2P Require Import InvoiceText.
From S2P Require Import F64Text.
From S2P Require Import Monerod.
From S2P Require Import SubaddressCache.

(** * [invoice.rs] *)

Section invoice.
Context `{Build} `{NumberText}.

Definition test_invoice (creation requested : Z) : outcome Empty_set Invoice :=
  (Invoice_new (S:=unit) "testAddress" (SubIndex_new 0 1) creation requested 5 10 "test_description" tt).2.

(** The text of the amount, [None] if the test panics. *)
Definition test_payment_request (c : Z * Z) : option text :=
  match test_invoice 0 c.1 with
  | Ok invoice =>
      let invoice := set_paid c.2 (inv_paid_height invoice) invoice in
      strip_prefix (txt "monero:testAddress?tx_amount=") (Invoice_uri invoice)
  | _ => None
  end.
Definition payment_request_cases : list ((Z * Z) * option text) :=
  [((1, 0), Some (txt "0.000000000001")); ((u64_max, 0), Some (txt "18446744.073709551615"));
   ((1, 1), Some (txt "0.0")); ((2460000000000, 1230000000000), Some (txt "1.23"))].

Definition test_xmr_requested (requested : Z) : option text :=
  match test_invoice 0 requested with
  | Ok invoice => Some (f64_to_string (Invoice_xmr_requested invoice))
  | _ => None
  end.
Definition xmr_requested_cases : list (Z * option text) :=
  [(1, Some (txt "0.000000000001")); (u64_max, Some (txt "18446744.07370955")); (0, Some (txt "0"))].

Definition test_expires_in : Test unit :=
  let! invoice := lift (test_invoice 12345 1) in
  assert_eq Z.eqb (Invoice_expiration_in invoice) 10.

Definition test_invoice_id_integer_roundtrip (invoice_id : InvoiceId) (expected_int : Z) : Test unit :=
  let actual_int := u128_from_InvoiceId invoice_id in
  assert_eq Z.eqb actual_int expected_int ;;;
  let rebuilt_invoice_id := InvoiceId_from_u128 actual_int in
  assert_eq same rebuilt_invoice_id invoice_id.
End invoice.

(** * [caching/subaddress_cache.rs] *)

Section range.
Context `{Build} `{Monero}.

(** [a.cmp(&b)] of [u32], and [Iterator::min], [max]: the first least and
    the last greatest element. *)
Definition least (l : list SubIndex) : option SubIndex :=
  foldl (λ acc x, match acc with
                  | Some y => if is_lt (SubIndex_cmp x y) then Some x else Some y
                  | None => Some x
                  end) None l.
Definition greatest (l : list SubIndex) : option SubIndex :=
  foldl (λ acc x, match acc with
                  | Some y => if is_lt (SubIndex_cmp x y) then Some y else Some x
                  | None => Some x
                  end) None l.

(** [+] of [u32]. *)
Definition u32_add {S E} (x y : Z) : M S E Z :=
  if decide (in_u32 (x + y)) then ret (x + y)
  else if overflow_checks then panic else ret ((x + y) mod 2 ^ 32).

Definition expected_num_generated {S E} (from to : SubIndex) : M S E Z :=
  match major from ?= major to with
  | Eq => if minor from <=? minor to then u32_add (minor to - minor from) 1 else ret 0
  | Lt => u32_add (u32_max - minor from) 1
  | Gt => ret 0
  end.
Definition expected_max_generated (from to : SubIndex) : option SubIndex :=
  match negb (is_gt (SubIndex_cmp from to)), major from ?= major to with
  | true, Eq => Some to
  | _, Gt | false, _ => None
  | true, Lt => Some (SubIndex_new (major from) u32_max)
  end.

Definition test_generated_range (viewpair : ViewPair) (from to : SubIndex) : Test unit :=
  let! subaddresses := lift (match generate_range from to viewpair with Some l => Ok l | None => Hang end) in
  let! expected := expected_num_generated from to in
  assert_eq Z.eqb (Z.of_nat (length subaddresses)) expected ;;;
  let sub_indices := subaddresses.*1 in
  assert_eq same (least sub_indices) (if is_gt (SubIndex_cmp from to) then None else Some from) ;;;
  let max_generated := (λ x, SubIndex_new (major from) (minor x)) <$> greatest sub_indices in
  assert_eq same max_generated (expected_max_generated from to).

Definition generated_range_cases : list (SubIndex * SubIndex) :=
  [(SubIndex_new 0 0, SubIndex_new 0 100); (SubIndex_new 0 0, SubIndex_new 0 0);
   (SubIndex_new 1 0, SubIndex_new 1 0); (SubIndex_new 1 0, SubIndex_new 1 100);
   (SubIndex_new 1 100, SubIndex_new 1 0);
   (SubIndex_new 0 (u32_max - 100), SubIndex_new 1 0);
   (SubIndex_new 0 (u32_max - 100), SubIndex_new 0 u32_max)].

(** ** The tests pass *)

Lemma entries_index vp mj l : (entry vp mj <$> l).*1 = SubIndex_new mj <$> l.
Proof. by rewrite <-list_fmap_compose. Qed.

Lemma least_from mj l x : Forall (Z.le x) l → least (SubIndex_new mj <$> x :: l) = Some (SubIndex_new mj x).
Proof.
  intros Hl. unfold least. simpl. induction Hl as [|y l Hy _ IH]; [done|]. simpl.
  unfold SubIndex_cmp at 2. simpl. rewrite Z.compare_refl. destruct (Z.compare_spec y x); simpl; [done|lia|done].
Qed.

Lemma greatest_last mj l x :
  Forall (λ y, y ≤ x) l → greatest (SubIndex_new mj <$> l ++ [x]) = Some (SubIndex_new mj x).
Proof.
  intros Hl. unfold greatest. rewrite fmap_app, foldl_app. simpl.
  assert (Hacc : ∀ o, (∀ y, o = Some y → major y = mj ∧ minor y ≤ x) →
    ∀ y, foldl (λ acc x, match acc with
                         | Some y => if is_lt (SubIndex_cmp x y) then Some y else Some x
                         | None => Some x
                         end) o (SubIndex_new mj <$> l) = Some y → major y = mj ∧ minor y ≤ x).
  { induction Hl as [|z l Hz _ IH]; intros o Ho; [exact Ho|]. simpl. apply IH.
    intros y. destruct o as [o|]; [|by intros [= <-]]. case_match; intros [= <-]; auto. }
  destruct (foldl _ None _) as [y|] eqn:E; [|done].
  destruct (Hacc None ltac:(done) y E) as [Hmj Hmi]. unfold SubIndex_cmp. simpl. rewrite Hmj, Z.compare_refl.
  by destruct (Z.compare_spec x (minor y)); simpl; [|lia|].
Qed.

(** On a range that is not empty. *)
Lemma range_bounds mj a n :
  0 < n → least (SubIndex_new mj <$> seqZ a n) = Some (SubIndex_new mj a) ∧
  greatest (SubIndex_new mj <$> seqZ a n) = Some (SubIndex_new mj (a + n - 1)).
Proof.
  intros Hn. split.
  - rewrite seqZ_cons by done. apply least_from, Forall_forall. intros x Hx%elem_of_seqZ. lia.
  - replace n with ((n - 1) + 1) at 1 by lia. rewrite seqZ_app by lia. rewrite (seqZ_cons _ 1) by lia. simpl (seqZ _ (Z.pred 1)).
    rewrite greatest_last; [repeat f_equal; lia|]. apply Forall_forall. intros x Hx%elem_of_seqZ. lia.
Qed.

(** The test on the range of [n] indices from [from] on, or on none. *)
Lemma range_test_run vp from to n :
  generate_range from to vp = Some (entry vp (major from) <$> seqZ (minor from) n) →
  expected_num_generated (S:=unit) (E:=Empty_set) from to = ret (Z.max 0 n) →
  is_gt (SubIndex_cmp from to) = negb (0 <? n) →
  expected_max_generated from to =
    (if 0 <? n then Some (SubIndex_new (major from) (minor from + n - 1)) else None) →
  passes (test_generated_range vp from to) tt = true.
Proof.
  intros Hr Hn Hgt Hmax. unfold passes, test_generated_range. rewrite Hr. unfold bind, lift. rewrite Hn.
  unfold ret, assert_eq, assert_that. cbv zeta. rewrite Hgt, Hmax, entries_index, !length_fmap, length_seqZ.
  replace (Z.of_nat (Z.to_nat n)) with (Z.max 0 n) by lia. rewrite Z.eqb_refl.
  destruct (Z.ltb_spec 0 n) as [Hpos|Hneg]; cbn [negb].
  - destruct (range_bounds (major from) (minor from) n Hpos) as [-> ->].
    replace (SubIndex_new (major from) (minor from)) with from by by destruct from. by rewrite !same_refl.
  - rewrite seqZ_nil by lia. by rewrite same_refl.
Qed.

(** The test passes on every range: on those of its cases and all others,
    unless the number of indices that it computes overflows. *)
Theorem generated_range_passes vp from to :
  SubIndex_wf from → SubIndex_wf to → last_minor from to - minor from < u32_max →
  passes (test_generated_range vp from to) tt = true.
Proof.
  intros Hf Ht Hn. pose proof (generate_range_total from to vp Hf Ht) as Hr.
  destruct Hf as [[? ?] [? ?]], Ht as [[? ?] [? ?]].
  assert (Hadd : ∀ x, 0 ≤ x < u32_max → u32_add (S:=unit) (E:=Empty_set) x 1 = ret (x + 1)).
  { intros x Hx. unfold u32_add. rewrite decide_True; [done|]. unfold in_u32. lia. }
  set (n := if is_lt (SubIndex_cmp to from) then 0 else last_minor from to - minor from + 1).
  apply (range_test_run vp from to n).
  - rewrite Hr. unfold n. by destruct (is_lt _).
  - unfold n, expected_num_generated, last_minor, is_lt, SubIndex_cmp in *.
    rewrite (Z.compare_antisym (major to)).
    destruct (Z.compare_spec (major to) (major from)) as [E|E|E]; simpl.
    + rewrite E, Z.eqb_refl in *. destruct (Z.compare_spec (minor to) (minor from)), (Z.leb_spec (minor from) (minor to));
        try lia; rewrite ?Hadd by lia; f_equal; lia.
    + f_equal.
    + rewrite (proj2 (Z.eqb_neq _ _)) in * by lia. rewrite Hadd by lia. f_equal. lia.
  - unfold n, last_minor, is_lt, is_gt, SubIndex_cmp in *. rewrite (Z.compare_antisym (major to)).
    destruct (Z.compare_spec (major to) (major from)) as [E|E|E]; simpl; [|done|].
    + rewrite E, Z.eqb_refl. rewrite (Z.compare_antisym (minor to)).
      destruct (Z.compare_spec (minor to) (minor from)); simpl; [| |]; symmetry; [|done|]; apply negb_false_iff, Z.ltb_lt; lia.
    + rewrite (proj2 (Z.eqb_neq _ _)) by lia. symmetry. apply negb_false_iff, Z.ltb_lt. lia.
  - unfold n, expected_max_generated, last_minor, is_lt, is_gt, SubIndex_cmp in *.
    rewrite (Z.compare_antisym (major to)), (Z.compare_antisym (minor to)).
    destruct (Z.compare_spec (major to) (major from)) as [E|E|E]; simpl; [|done|].
    + rewrite E, Z.eqb_refl. destruct to as [mj mn]; simpl in *; subst.
      destruct (Z.compare_spec mn (minor from)); simpl; [| done |];
        rewrite (proj2 (Z.ltb_lt _ _)) by lia; do 2 f_equal; lia.
    + rewrite (proj2 (Z.eqb_neq _ _)) by lia. rewrite (proj2 (Z.ltb_lt _ _)) by lia. do 2 f_equal; lia.
Qed.
End range.

(** * The test cases *)

(** An invoice id is read back from its integer, whatever it is. *)
Lemma id_roundtrip_passes id :
  InvoiceId_wf id →
  passes (test_invoice_id_integer_roundtrip id (u128_from_InvoiceId id)) tt = true.
Proof.
  intros Hid. unfold passes, test_invoice_id_integer_roundtrip, bind, assert_eq, assert_that.
  rewrite Z.eqb_refl. cbn [ret]. rewrite InvoiceId_u128_roundtrip by done. by rewrite same_refl.
Qed.

(** The tests of [invoice.rs] give the results that they expect, with the
    amounts printed as the standard library prints them. *)
Theorem invoice_tests_pass `{Build} (as_xmr : Z → f64) :
  let numbers := StdNumbers as_xmr in
  forallb (case test_payment_request) payment_request_cases = true ∧
  forallb (case test_xmr_requested) xmr_requested_cases = true ∧
  passes test_expires_in tt = true ∧
  passes (test_invoice_id_integer_roundtrip (InvoiceId_new (SubIndex_new 0 0) 0) 0) tt = true.
Proof. split_and!; by vm_compute. Qed.
