(* ===== verification/Pubsub.v ===== *)
(** Subscriptions to invoice updates: [library/src/pubsub.rs].

    The [mpsc] channels of [tokio] live in a heap, [channels]; a [Sender] or a
    [Receiver] is the address of its channel.  A channel is closed for its
    receiver when no [Sender] of it is left in the publisher, and closed for
    its senders when the [Subscriber] has been dropped. *)
From S2P Require Import Prelude.
From S2P Require Import Invoice.

Definition SUBSCRIPTION_BUFFER_LEN : nat := 2048.

Record Channel := mk_Channel {
  ch_queue : list Invoice;
  ch_receiver : bool;        (* the receiver is alive *)
}.

(** A random [u128], and the address of a channel. *)
Notation SenderId := Z.
Notation Sender := nat.
Notation Senders := (list (SenderId * Sender)).

(** The two locked maps, and the channels. *)
Record Publisher := mk_Publisher {
  invoice_subs : gmap InvoiceId Senders;
  global_subs : Senders;
  channels : list Channel;
}.

Definition set_invoice_subs (m : gmap InvoiceId Senders) (p : Publisher) : Publisher :=
  mk_Publisher m (global_subs p) (channels p).
Definition set_global_subs (l : Senders) (p : Publisher) : Publisher :=
  mk_Publisher (invoice_subs p) l (channels p).
Definition set_channels (cs : list Channel) (p : Publisher) : Publisher :=
  mk_Publisher (invoice_subs p) (global_subs p) cs.

Definition Publisher_new : Publisher := mk_Publisher ∅ [] [].

(** [channel(SUBSCRIPTION_BUFFER_LEN)]. *)
Definition new_channel (p : Publisher) : Publisher * nat :=
  (set_channels (channels p ++ [mk_Channel [] true]) p, length (channels p)).

(** A [Subscriber] holds the receiver.  [sender_id] is the random draw of
    [SenderId::new()].  When nobody tracks the invoice, the fresh channel is
    dropped again. *)
Definition Publisher_subscribe (sender_id : SenderId) (invoice_id : InvoiceId) (p : Publisher) :
    Publisher * option nat :=
  match invoice_subs p !! invoice_id with
  | None => (p, None)
  | Some subs =>
      let (p, tx) := new_channel p in
      (set_invoice_subs (<[invoice_id := im_insert sender_id tx subs]> (invoice_subs p)) p, Some tx)
  end.

Definition Publisher_subscribe_all (sender_id : SenderId) (p : Publisher) : Publisher * nat :=
  let (p, tx) := new_channel p in
  (set_global_subs (im_insert sender_id tx (global_subs p)) p, tx).

Definition Publisher_insert_invoice (invoice_id : InvoiceId) (p : Publisher) : Publisher :=
  set_invoice_subs (<[invoice_id := []]> (invoice_subs p)) p.

Definition Publisher_remove_invoice (invoice_id : InvoiceId) (p : Publisher) : Publisher :=
  set_invoice_subs (delete invoice_id (invoice_subs p)) p.

(** The senders of one invoice, or the global ones. *)
Definition subs_of (invoice_id : option InvoiceId) (p : Publisher) : Senders :=
  match invoice_id with
  | Some id => default [] (invoice_subs p !! id)
  | None => global_subs p
  end.

Definition get_sender_by_index (invoice_id : option InvoiceId) (index : nat) (p : Publisher) :
    option (SenderId * Sender) :=
  match invoice_id with
  | Some id => match invoice_subs p !! id with
               | Some map => map !! index
               | None => None
               end
  | None => global_subs p !! index
  end.

Definition remove_sender (invoice_id : option InvoiceId) (sender_id : SenderId) (p : Publisher) :
    Publisher :=
  match invoice_id with
  | Some id => match invoice_subs p !! id with
               | Some map => set_invoice_subs
                   (<[id := im_swap_remove sender_id map]> (invoice_subs p)) p
               | None => p
               end
  | None => set_global_subs (im_swap_remove sender_id (global_subs p)) p
  end.

(** [sender.send(invoice).await.is_err()]: an error if the receiver is gone,
    else it waits for room in the buffer. *)
Definition send {E} (sender : Sender) (invoice : Invoice) : M Publisher E bool :=
  let! cs := gets channels in
  match cs !! sender with
  | None => panic
  | Some ch =>
      if ch_receiver ch then
        if decide (length (ch_queue ch) < SUBSCRIPTION_BUFFER_LEN)%nat then
          modify (set_channels (<[sender := mk_Channel (ch_queue ch ++ [invoice]) true]> cs)) ;;;
          ret false
        else hang
      else ret true
  end.

(** One of the two loops of [send_updates], with its local variables. *)
Fixpoint send_loop {E} (fuel : nat) (invoice_id : option InvoiceId) (invoice : Invoice)
    (index : nat) (closed : bool) : M Publisher E unit :=
  match fuel with
  | O => hang
  | S fuel =>
      let! s := gets (get_sender_by_index invoice_id index) in
      match s with
      | None => ret tt
      | Some (sender_id, sender) =>
          let! is_err := send sender invoice in
          let closed := if is_err : bool then true else closed in
          if closed : bool then
            modify (remove_sender invoice_id sender_id) ;;;
            send_loop fuel invoice_id invoice index closed
          else send_loop fuel invoice_id invoice (S index) closed
      end
  end.

(** Each round removes a sender or passes one. *)
Definition send_fuel (invoice_id : option InvoiceId) (p : Publisher) : nat :=
  S (length (subs_of invoice_id p)).

Definition Publisher_send_updates {E} (invoice : Invoice) : M Publisher E unit :=
  let! fuel := gets (send_fuel (Some (Invoice_id invoice))) in
  send_loop fuel (Some (Invoice_id invoice)) invoice 0 false ;;;
  let! fuel := gets (send_fuel None) in
  send_loop fuel None invoice 0 false.

(** ** The receiving side *)

Definition has_sender (rx : nat) (p : Publisher) : bool :=
  existsb (λ s, bool_decide (s = rx)) (global_subs p).*2
  || existsb (λ m, existsb (λ s, bool_decide (s = rx)) m.*2) (map_to_list (invoice_subs p)).*2.

Inductive TryRecvError := Empty | Disconnected.
Inductive SubscriberError := RecvTimeout | TryRecv (e : TryRecvError).

Definition pop (rx : nat) (ch : Channel) (q : list Invoice) : Publisher → Publisher :=
  λ p, set_channels (<[rx := mk_Channel q (ch_receiver ch)]> (channels p)) p.

(** [Subscriber::recv] and [poll]: waits while the channel
    is empty and somebody could still send. *)
Definition Subscriber_recv {E} (rx : nat) : M Publisher E (option Invoice) :=
  let! p := gets id in
  match channels p !! rx with
  | None => panic
  | Some ch =>
      match ch_queue ch with
      | invoice :: q => modify (pop rx ch q) ;;; ret (Some invoice)
      | [] => if has_sender rx p then hang else ret None
      end
  end.

(** In an asynchronous context, as [tokio] documents, it panics. *)
Definition Subscriber_blocking_recv {E} (async_context : bool) (rx : nat) :
    M Publisher E (option Invoice) :=
  if async_context then panic else Subscriber_recv rx.

Definition Subscriber_try_recv (rx : nat) : M Publisher SubscriberError Invoice :=
  let! p := gets id in
  match channels p !! rx with
  | None => panic
  | Some ch =>
      match ch_queue ch with
      | invoice :: q => modify (pop rx ch q) ;;; ret invoice
      | [] => throw (TryRecv (if has_sender rx p then Empty else Disconnected))
      end
  end.

(** Nothing is sent before the timeout. *)
Definition Subscriber_recv_timeout (rx : nat) : M Publisher SubscriberError (option Invoice) :=
  λ p, match Subscriber_recv rx p with
       | (p', Hang) => (p', Err RecvTimeout)
       | r => r
       end.

(** Dropping the subscriber. *)
Definition Subscriber_drop (rx : nat) (p : Publisher) : Publisher :=
  set_channels (alter (λ ch, mk_Channel [] false) rx (channels p)) p.

(** * Lemmas *)

(** A live channel takes one more invoice. *)
Definition pushed (invoice : Invoice) (ch : Channel) : Channel :=
  if ch_receiver ch then mk_Channel (ch_queue ch ++ [invoice]) true else ch.

(** The channels of [ss] have been sent to. *)
Definition delivered (ss : list Sender) (invoice : Invoice) (cs : list Channel) : list Channel :=
  imap (λ i ch, if decide (i ∈ ss) then pushed invoice ch else ch) cs.

Lemma delivered_lookup ss invoice cs i :
  delivered ss invoice cs !! i =
    (λ ch, if decide (i ∈ ss) then pushed invoice ch else ch) <$> cs !! i.
Proof. apply list_lookup_imap. Qed.

Lemma delivered_nil invoice cs : delivered [] invoice cs = cs.
Proof. apply list_eq. intros i. rewrite delivered_lookup. simpl. by destruct (cs !! i). Qed.

Lemma delivered_perm ss ss' invoice cs :
  (∀ s, s ∈ ss ↔ s ∈ ss') → delivered ss invoice cs = delivered ss' invoice cs.
Proof.
  intros H. apply list_eq. intros i. rewrite !delivered_lookup.
  destruct (cs !! i); [|done]. simpl. f_equal. apply decide_ext, H.
Qed.

Lemma delivered_app ss ss' invoice cs :
  (∀ s, s ∈ ss → s ∉ ss') →
  delivered ss' invoice (delivered ss invoice cs) = delivered (ss ++ ss') invoice cs.
Proof.
  intros Hd. apply list_eq. intros i. rewrite !delivered_lookup. destruct (cs !! i); [|done].
  simpl. f_equal. specialize (Hd i). repeat case_decide; set_solver.
Qed.

Definition alive (cs : list Channel) (s : Sender) : bool :=
  match cs !! s with Some ch => ch_receiver ch | None => false end.

(** Room for one more invoice. *)
Definition has_room (cs : list Channel) (s : Sender) : Prop :=
  ∃ ch, cs !! s = Some ch ∧
    (ch_receiver ch = true → (length (ch_queue ch) < SUBSCRIPTION_BUFFER_LEN)%nat).

Lemma alive_delivered ss invoice cs s : alive (delivered ss invoice cs) s = alive cs s.
Proof.
  unfold alive. rewrite delivered_lookup. destruct (cs !! s) as [ch|]; [|done]. simpl.
  case_decide; [|done]. unfold pushed.
  by destruct ch as [q []].
Qed.

Lemma has_room_delivered ss invoice cs s :
  s ∉ ss → has_room cs s → has_room (delivered ss invoice cs) s.
Proof.
  intros Hs (ch & Hch & Hlen). exists ch. split; [|done].
  rewrite delivered_lookup, Hch. simpl. by rewrite decide_False by done.
Qed.

Definition set_subs (key : option InvoiceId) (l : Senders) (p : Publisher) : Publisher :=
  match key with
  | Some id => match invoice_subs p !! id with
               | Some _ => set_invoice_subs (<[id := l]> (invoice_subs p)) p
               | None => p
               end
  | None => set_global_subs l p
  end.

Lemma get_sender_subs key i p : get_sender_by_index key i p = subs_of key p !! i.
Proof. destruct key as [id|]; [|done]. simpl. by destruct (invoice_subs p !! id). Qed.

Lemma remove_sender_subs key id p :
  remove_sender key id p = set_subs key (im_swap_remove id (subs_of key p)) p.
Proof. destruct key as [k|]; [|done]. simpl. by destruct (invoice_subs p !! k). Qed.

Lemma set_subs_id key p : set_subs key (subs_of key p) p = p.
Proof.
  destruct p as [m g cs], key as [k|]; [|done]. simpl.
  destruct (m !! k) as [l|] eqn:E; [|done]. simpl. unfold set_invoice_subs. simpl. f_equal.
  by apply insert_id.
Qed.

Lemma set_subs_set key l l' p : set_subs key l (set_subs key l' p) = set_subs key l p.
Proof.
  destruct key as [k|]; [|done]. simpl. destruct (invoice_subs p !! k) eqn:E; simpl.
  - rewrite lookup_insert_eq. unfold set_invoice_subs. simpl. by rewrite insert_insert_eq.
  - by rewrite E.
Qed.

Lemma subs_of_set key l p : subs_of key p ≠ [] → subs_of key (set_subs key l p) = l.
Proof.
  destruct key as [k|]; [|done]. simpl. destruct (invoice_subs p !! k) eqn:E; [|done].
  intros _. simpl. by rewrite lookup_insert_eq.
Qed.

Lemma subs_of_set_ne key key' l p : key ≠ key' → subs_of key (set_subs key' l p) = subs_of key p.
Proof.
  destruct key as [k|], key' as [k'|]; simpl; try done; intros Hne;
    destruct (invoice_subs p !! k') eqn:E; simpl; try done.
  rewrite lookup_insert_ne; [done|congruence].
Qed.

Lemma channels_set_subs key l p : channels (set_subs key l p) = channels p.
Proof. destruct key as [k|]; [|done]. simpl. by destruct (invoice_subs p !! k). Qed.

Lemma set_channels_set_subs key l cs p :
  set_subs key l (set_channels cs p) = set_channels cs (set_subs key l p).
Proof. destruct key as [k|]; [|done]. simpl. by destruct (invoice_subs p !! k). Qed.

Lemma set_channels_twice cs cs' p : set_channels cs (set_channels cs' p) = set_channels cs p.
Proof. done. Qed.

Lemma subs_of_set_channels key cs p : subs_of key (set_channels cs p) = subs_of key p.
Proof. by destruct key. Qed.

Lemma send_spec {E} s invoice p :
  has_room (channels p) s →
  send (E:=E) s invoice p =
    (set_channels (delivered [s] invoice (channels p)) p, Ok (negb (alive (channels p) s))).
Proof.
  intros (ch & Hch & Hlen). unfold send, bind, gets, alive. rewrite Hch.
  destruct (ch_receiver ch) eqn:Er.
  - rewrite decide_True by auto. unfold modify, ret. do 2 f_equal.
    apply list_eq. intros i. rewrite delivered_lookup, list_lookup_insert.
    pose proof (lookup_lt_Some _ _ _ Hch). destruct (decide (s = i)) as [->|Hne].
    + rewrite decide_True by done. rewrite Hch. simpl. rewrite decide_True by by left.
      unfold pushed. by rewrite Er.
    + rewrite decide_False by naive_solver. destruct (channels p !! i); [|done]. simpl.
      rewrite decide_False; [done|]. by intros ->%list_elem_of_singleton.
  - unfold ret. f_equal. replace (delivered [s] invoice (channels p)) with (channels p).
    { by destruct p. }
    apply list_eq. intros i. rewrite delivered_lookup. destruct (channels p !! i) as [ch'|] eqn:E'; [|done].
    simpl. case_decide as Hi; [|done]. apply list_elem_of_singleton in Hi as ->. simplify_eq.
    unfold pushed. by rewrite Er.
Qed.

(** The senders before the first one whose receiver is gone. *)
Fixpoint live_prefix (cs : list Channel) (l : Senders) : Senders :=
  match l with
  | [] => []
  | s :: l => if alive cs s.2 then s :: live_prefix cs l else []
  end.

(** The senders can be served one after the other. *)
Definition servable (cs : list Channel) (l : Senders) : Prop :=
  NoDup l.*1 ∧ NoDup l.*2 ∧ ∀ s, s ∈ l.*2 → has_room cs s.

(** Once a receiver has been found gone, everybody that is left is sent to
    and removed. *)
Lemma send_loop_closed {E} key invoice fuel l1 l2 p :
  subs_of key p = l1 ++ l2 → servable (channels p) l2 → NoDup (l1 ++ l2).*1 →
  (length l2 < fuel)%nat →
  send_loop (E:=E) fuel key invoice (length l1) true p =
    (set_channels (delivered l2.*2 invoice (channels p)) (set_subs key l1 p), Ok tt).
Proof.
  revert l2 p. induction fuel as [|fuel IH]; intros l2 p Hl Hs Hnd Hf; [lia|].
  cbn [send_loop]. unfold bind at 1, gets. rewrite get_sender_subs, Hl.
  destruct l2 as [|[id s] l2].
  { rewrite app_nil_r in *. rewrite lookup_ge_None_2 by done. subst l1.
    simpl. rewrite delivered_nil, set_subs_id. by destruct p. }
  rewrite list_lookup_middle by done. destruct Hs as (Hn1 & Hn2 & Hroom).
  unfold bind at 1. rewrite send_spec by (apply Hroom; by left).
  set (p1 := set_channels _ p).
  assert ((if negb (alive (channels p) s) then true else true) = true) as -> by by destruct (alive _ _).
  unfold bind, modify. rewrite remove_sender_subs.
  assert (Hl1 : subs_of key p1 = l1 ++ (id, s) :: l2) by by rewrite <-Hl; destruct key.
  destruct (im_swap_remove_app id s l1 l2 Hnd) as (l2' & Hrm & Hp). rewrite Hl1, Hrm.
  simpl in Hn1, Hn2. apply NoDup_cons in Hn1 as [? Hn1], Hn2 as [? Hn2].
  rewrite IH with (l2 := l2').
  - rewrite set_subs_set, channels_set_subs. f_equal. unfold p1.
    rewrite set_channels_set_subs, set_channels_twice. cbn [channels set_channels]. f_equal.
    rewrite delivered_app.
    + apply delivered_perm. intros x. by rewrite (fmap_Permutation snd _ _ Hp).
    + intros x ->%list_elem_of_singleton. by rewrite (fmap_Permutation snd _ _ Hp).
  - apply subs_of_set. rewrite Hl1. by destruct l1.
  - rewrite channels_set_subs. unfold servable. rewrite (fmap_Permutation fst _ _ Hp), (fmap_Permutation snd _ _ Hp).
    split_and!; [done|done|]. intros x. rewrite (fmap_Permutation snd _ _ Hp). intros Hx.
    apply has_room_delivered; [|apply Hroom; by right]. intros ->%list_elem_of_singleton. done.
  - rewrite fmap_app, (fmap_Permutation fst _ _ Hp), <-fmap_app.
    rewrite !fmap_app in *. simpl in Hnd. rewrite NoDup_app in *. rewrite NoDup_cons in Hnd. set_solver.
  - apply Permutation_length in Hp. simpl in Hf. lia.
Qed.

Lemma live_prefix_delivered ss invoice cs l :
  live_prefix (delivered ss invoice cs) l = live_prefix cs l.
Proof. induction l as [|s l IH]; [done|]. simpl. by rewrite alive_delivered, IH. Qed.

Lemma servable_tail cs id s l invoice :
  servable cs ((id, s) :: l) → servable (delivered [s] invoice cs) l.
Proof.
  intros (Hn1 & Hn2 & Hroom). apply NoDup_cons in Hn1 as [? ?], Hn2 as [? ?].
  split_and!; [done|done|]. intros x Hx. apply has_room_delivered; [|apply Hroom; by right].
  by intros ->%list_elem_of_singleton.
Qed.

Lemma delivered_cons s (l : Senders) id invoice cs :
  s ∉ l.*2 →
  delivered l.*2 invoice (delivered [s] invoice cs) = delivered ((id, s) :: l).*2 invoice cs.
Proof. intros Hs. rewrite delivered_app; [done|]. by intros x ->%list_elem_of_singleton. Qed.

Lemma subs_of_set_prefix key cs p :
  subs_of key (set_subs key (live_prefix cs (subs_of key p)) p) = live_prefix cs (subs_of key p).
Proof.
  destruct key as [id|]; [|done]. simpl. destruct (invoice_subs p !! id) eqn:E; simpl.
  - by rewrite lookup_insert_eq.
  - by rewrite E.
Qed.

(** A whole loop: everybody is sent to; only the senders before the first
    one found gone are kept. *)
Lemma send_loop_spec {E} key invoice fuel l1 l2 p :
  subs_of key p = l1 ++ l2 → servable (channels p) l2 → NoDup (l1 ++ l2).*1 →
  (length l2 < fuel)%nat →
  send_loop (E:=E) fuel key invoice (length l1) false p =
    (set_channels (delivered l2.*2 invoice (channels p))
       (set_subs key (l1 ++ live_prefix (channels p) l2) p), Ok tt).
Proof.
  revert l1 l2 p. induction fuel as [|fuel IH]; intros l1 l2 p Hl Hs Hnd Hf; [lia|].
  cbn [send_loop]. unfold bind at 1, gets. rewrite get_sender_subs, Hl.
  destruct l2 as [|[id s] l2].
  { rewrite app_nil_r in Hl. rewrite lookup_ge_None_2 by by rewrite app_nil_r.
    subst l1. simpl. rewrite app_nil_r, delivered_nil, set_subs_id. by destruct p. }
  rewrite list_lookup_middle by done. pose proof Hs as (Hn1 & Hn2 & Hroom).
  unfold bind at 1. rewrite send_spec by (apply Hroom; by left).
  set (p1 := set_channels _ p).
  assert (Hl1 : subs_of key p1 = l1 ++ (id, s) :: l2) by by rewrite <-Hl; destruct key.
  assert (Hs1 : servable (channels p1) l2) by by eapply servable_tail.
  apply NoDup_cons in Hn2 as [Hns _]. simpl. destruct (alive (channels p) s) eqn:Ea; simpl.
  - replace (S (length l1)) with (length (l1 ++ [(id, s)])) by (rewrite length_app; simpl; lia).
    rewrite IH with (l2 := l2); rewrite <-?(assoc_L (++)); [|done|done|done|simpl in Hf; lia].
    f_equal. unfold p1. rewrite set_channels_set_subs, set_channels_twice. cbn [channels set_channels].
    by rewrite live_prefix_delivered, (delivered_cons s l2 id) by done.
  - unfold bind, modify. rewrite remove_sender_subs.
    destruct (im_swap_remove_app id s l1 l2 Hnd) as (l2' & Hrm & Hp). rewrite Hl1, Hrm.
    rewrite send_loop_closed with (l2 := l2').
    + rewrite set_subs_set, channels_set_subs. f_equal. unfold p1.
      rewrite set_channels_set_subs, set_channels_twice, app_nil_r. cbn [channels set_channels].
      f_equal. rewrite <-(delivered_cons s l2 id) by done.
      apply delivered_perm. intros x. by rewrite (fmap_Permutation snd _ _ Hp).
    + apply subs_of_set. rewrite Hl1. by destruct l1.
    + rewrite channels_set_subs. destruct Hs1 as (? & ? & ?). unfold servable.
      rewrite (fmap_Permutation fst _ _ Hp), (fmap_Permutation snd _ _ Hp). split_and!; [done..|].
      intros x. rewrite (fmap_Permutation snd _ _ Hp). auto.
    + rewrite fmap_app, (fmap_Permutation fst _ _ Hp), <-fmap_app.
      rewrite !fmap_app in *. simpl in Hnd. rewrite NoDup_app in *. rewrite NoDup_cons in Hnd. set_solver.
    + apply Permutation_length in Hp. simpl in Hf. lia.
Qed.

(** Subscribers of an invoice and of all invoices. *)
Definition subscribers (id : InvoiceId) (p : Publisher) : Senders :=
  subs_of (Some id) p ++ subs_of None p.

(** Both loops. *)
Lemma send_updates_effect {E} invoice p :
  let id := Invoice_id invoice in
  NoDup (subs_of (Some id) p).*1 → NoDup (subs_of None p).*1 →
  NoDup (subscribers id p).*2 → (∀ s, s ∈ (subscribers id p).*2 → has_room (channels p) s) →
  ∃ p', Publisher_send_updates (E:=E) invoice p = (p', Ok tt) ∧
    channels p' = delivered (subscribers id p).*2 invoice (channels p) ∧
    (∀ key, subs_of key p' =
      if decide (key = Some id ∨ key = None)
      then live_prefix (channels p) (subs_of key p) else subs_of key p).
Proof.
  intros id Hk1 Hk2 Hnd Hroom. unfold subscribers in *. rewrite fmap_app in *.
  pose proof Hnd as (Hn1 & Hd & Hn2)%NoDup_app.
  unfold Publisher_send_updates, bind at 1, gets. fold id.
  unfold bind at 1. rewrite (send_loop_spec (Some id) invoice _ [] (subs_of (Some id) p));
    [|done|split_and!; set_solver|done|unfold send_fuel; lia].
  cbn [app]. set (p1 := set_channels _ _).
  assert (Hp1 : ∀ key, key ≠ Some id → subs_of key p1 = subs_of key p).
  { intros key Hne. unfold p1. rewrite subs_of_set_channels. by apply subs_of_set_ne. }
  assert (Hpos : subs_of (Some id) p1 = live_prefix (channels p) (subs_of (Some id) p)).
  { unfold p1. rewrite subs_of_set_channels. apply (subs_of_set_prefix (Some id)). }
  unfold bind, gets. rewrite (send_loop_spec None invoice _ [] (subs_of None p)).
  - eexists. split; [done|]. split.
    + cbn [channels set_channels]. unfold p1. cbn [channels set_channels].
      rewrite delivered_app by (intros s ? ?; by eapply Hd). done.
    + intros key. rewrite subs_of_set_channels. destruct (decide (key = None)) as [->|Hne].
      * rewrite decide_True by auto. simpl. unfold p1. cbn [channels set_channels].
        by rewrite live_prefix_delivered.
      * rewrite subs_of_set_ne by done. case_decide as Hor.
        -- destruct Hor as [->|?]; [exact Hpos|done].
        -- apply Hp1. naive_solver.
  - by rewrite Hp1.
  - split_and!; [done|done|]. intros s Hs. unfold p1. cbn [channels set_channels].
    apply has_room_delivered; [|set_solver]. intros ?. by eapply Hd.
  - done.
  - unfold send_fuel. rewrite Hp1 by done. lia.
Qed.

(** ** Well-formed publishers *)

(** The senders of one list have distinct ids, and each belongs to a channel
    of its own. *)
Definition pub_wf (p : Publisher) : Prop :=
  (∀ key, NoDup (subs_of key p).*1) ∧
  (∀ key i s, subs_of key p !! i = Some s → (s.2 < length (channels p))%nat) ∧
  (∀ key key' i j s s', subs_of key p !! i = Some s → subs_of key' p !! j = Some s' →
     s.2 = s'.2 → key = key' ∧ i = j).

Lemma pub_wf_NoDup p key : pub_wf p → NoDup (subs_of key p).*2.
Proof.
  intros (_ & _ & Hinj). apply NoDup_alt. intros i j x.
  rewrite !list_lookup_fmap. intros (s & Hs & ->)%fmap_Some (s' & Hs' & E)%fmap_Some.
  by destruct (Hinj key key i j s s').
Qed.

Lemma pub_wf_subscribers p id : pub_wf p → NoDup (subscribers id p).*2.
Proof.
  intros Hwf. unfold subscribers. rewrite fmap_app. apply NoDup_app. split_and!.
  - by apply (pub_wf_NoDup p (Some id)).
  - intros x (s & -> & [i Hi]%list_elem_of_lookup_1)%list_elem_of_fmap
      (s' & E & [j Hj]%list_elem_of_lookup_1)%list_elem_of_fmap.
    destruct Hwf as (_ & _ & Hinj). by destruct (Hinj (Some id) None i j s s').
  - by apply (pub_wf_NoDup p None).
Qed.

(** Fewer senders, and as many channels. *)
Lemma pub_wf_shrink p p' :
  pub_wf p → length (channels p') = length (channels p) →
  (∀ key, ∃ l, subs_of key p = subs_of key p' ++ l) → pub_wf p'.
Proof.
  intros (Hnd & Hch & Hinj) Hlen Hpre.
  assert (Hsub : ∀ key i s, subs_of key p' !! i = Some s → subs_of key p !! i = Some s).
  { intros key i s Hi. destruct (Hpre key) as [l ->]. by apply lookup_app_l_Some. }
  split_and!.
  - intros key. specialize (Hnd key). destruct (Hpre key) as [l El]. rewrite El, fmap_app in Hnd.
    by apply NoDup_app in Hnd as [? _].
  - intros key i s Hi. rewrite Hlen. eauto.
  - intros key key' i j s s' Hi Hj. eauto.
Qed.

Lemma im_insert_lookup {K V} `{EqDecision K} (k : K) (v : V) m i q :
  im_insert k v m !! i = Some q → q = (k, v) ∨ m !! i = Some q.
Proof.
  revert i. induction m as [|[k' v'] m IH]; intros i; simpl.
  { destruct i; simpl; [naive_solver|by rewrite lookup_nil]. }
  case_decide; destruct i; simpl; naive_solver.
Qed.

Lemma im_insert_unique {K V} `{EqDecision K} (k : K) (v : V) m i j q q' :
  NoDup m.*1 → im_insert k v m !! i = Some q → im_insert k v m !! j = Some q' →
  q.1 = q'.1 → i = j.
Proof.
  intros Hnd Hi Hj E. apply (NoDup_lookup (im_insert k v m).*1 i j q.1).
  - by apply im_insert_NoDup.
  - by rewrite list_lookup_fmap, Hi.
  - by rewrite list_lookup_fmap, Hj, E.
Qed.

(** A new channel, and a sender of it in one of the lists. *)
Lemma pub_wf_subscribed p p' key sid :
  pub_wf p → channels p' = channels p ++ [mk_Channel [] true] →
  (∀ key', subs_of key' p' = if decide (key' = key)
     then im_insert sid (length (channels p)) (subs_of key p) else subs_of key' p) →
  pub_wf p'.
Proof.
  intros (Hnd & Hch & Hinj) Hcs Hsubs.
  assert (Hold : ∀ key' i s, subs_of key' p' !! i = Some s →
    (key' = key ∧ s = (sid, length (channels p))) ∨ subs_of key' p !! i = Some s).
  { intros key' i s. rewrite Hsubs. case_decide as E; [|auto]. subst key'.
    intros [->| ?]%im_insert_lookup; auto. }
  split_and!.
  - intros key'. rewrite Hsubs. case_decide; auto using im_insert_NoDup.
  - intros key' i s Hi. rewrite Hcs, length_app. simpl.
    destruct (Hold key' i s Hi) as [[_ ->]|Hs]; simpl; [lia|]. apply Hch in Hs. lia.
  - intros k1 k2 i j s s' Hi Hj E.
    destruct (Hold k1 i s Hi) as [[-> ->]|Hs], (Hold k2 j s' Hj) as [[-> ->]|Hs']; simpl in E.
    + split; [done|]. rewrite Hsubs, decide_True in Hi, Hj by done.
      by eapply im_insert_unique.
    + apply Hch in Hs'. lia.
    + apply Hch in Hs. lia.
    + eauto.
Qed.

Lemma live_prefix_prefix cs l : ∃ l', l = live_prefix cs l ++ l'.
Proof.
  induction l as [|s l [l' IH]]; simpl; [by exists []|].
  destruct (alive cs s.2); [|by eexists]. exists l'. simpl. by rewrite <-IH.
Qed.

Lemma Publisher_new_wf : pub_wf Publisher_new.
Proof.
  assert (H : ∀ key, subs_of key Publisher_new = []).
  { intros [id|]; [|done]. simpl. by rewrite lookup_empty. }
  split_and!; intros *; rewrite ?H; [apply NoDup_nil_2|by rewrite lookup_nil..].
Qed.

Lemma insert_invoice_wf id p : pub_wf p → pub_wf (Publisher_insert_invoice id p).
Proof.
  intros Hwf. apply (pub_wf_shrink p); [done|done|].
  intros [id'|]; simpl; [|by exists []; rewrite app_nil_r].
  rewrite lookup_insert. case_decide as E; simpl; [by eexists|by exists []; rewrite app_nil_r].
Qed.

(** What the gateway, the scanner and the subscribers do with a publisher. *)
Inductive pub_step (p : Publisher) : Publisher → Prop :=
  | step_subscribe sid id : pub_step p (Publisher_subscribe sid id p).1
  | step_subscribe_all sid : pub_step p (Publisher_subscribe_all sid p).1
  | step_insert_invoice id : pub_step p (Publisher_insert_invoice id p)
  | step_remove_invoice id : pub_step p (Publisher_remove_invoice id p)
  | step_send_updates invoice :
      (∀ s, s ∈ (subscribers (Invoice_id invoice) p).*2 → has_room (channels p) s) →
      pub_step p (Publisher_send_updates (E:=Empty_set) invoice p).1
  | step_recv rx : pub_step p (Subscriber_recv (E:=Empty_set) rx p).1
  | step_drop rx : pub_step p (Subscriber_drop rx p).

Lemma has_sender_spec rx p :
  has_sender rx p = true ↔ ∃ key i s, subs_of key p !! i = Some s ∧ s.2 = rx.
Proof.
  unfold has_sender. rewrite orb_true_iff, !existsb_exists. split.
  - intros [(x & Hx & E)|(m & Hm & (x & Hx & E)%existsb_exists)]; apply bool_decide_eq_true in E as ->.
    + apply list_elem_of_In, list_elem_of_fmap in Hx as (s & -> & [i Hi]%list_elem_of_lookup_1).
      by exists None, i, s.
    + apply list_elem_of_In, list_elem_of_fmap in Hm as ([id m'] & -> & Hm%elem_of_map_to_list).
      apply list_elem_of_In, list_elem_of_fmap in Hx as (s & -> & [i Hi]%list_elem_of_lookup_1).
      exists (Some id), i, s. simpl. by rewrite Hm.
  - intros ([id|] & i & s & Hi & <-); simpl in Hi.
    + right. destruct (invoice_subs p !! id) as [m|] eqn:E; [|done]. exists m. split.
      * apply list_elem_of_In, list_elem_of_fmap. exists (id, m). by rewrite elem_of_map_to_list.
      * apply existsb_exists. exists s.2. rewrite bool_decide_eq_true. split; [|done].
        apply list_elem_of_In, list_elem_of_fmap. exists s. split; [done|].
        by eapply list_elem_of_lookup_2.
    + left. exists s.2. rewrite bool_decide_eq_true. split; [|done].
      apply list_elem_of_In, list_elem_of_fmap. exists s. split; [done|].
      by eapply list_elem_of_lookup_2.
Qed.

(** ** Waiting *)

Lemma has_room_before ss invoice cs s :
  s ∉ ss → has_room (delivered ss invoice cs) s → has_room cs s.
Proof.
  intros Hs (ch & Hch & Hlen). exists ch. split; [|done].
  rewrite delivered_lookup in Hch. destruct (cs !! s); simpl in Hch; [|done].
  by rewrite decide_False in Hch.
Qed.

(** A full buffer blocks the sender. *)
Lemma send_waits {E} s invoice p :
  (s < length (channels p))%nat →
  has_room (channels p) s ∨ (send (E:=E) s invoice p).2 = Hang.
Proof.
  intros [ch Hch]%lookup_lt_is_Some. unfold send, bind, gets. rewrite Hch.
  destruct (ch_receiver ch) eqn:Er; [case_decide|]; [left|by right|left]; exists ch; split; [done..|].
  intros ?. congruence.
Qed.

(** A loop that is not blocked found room for everybody. *)
Lemma send_loop_waits {E} key invoice fuel closed l1 l2 p :
  subs_of key p = l1 ++ l2 → NoDup (l1 ++ l2).*1 → NoDup l2.*2 →
  (∀ s, s ∈ l2.*2 → (s < length (channels p))%nat) →
  (send_loop (E:=E) fuel key invoice (length l1) closed p).2 ≠ Hang →
  ∀ s, s ∈ l2.*2 → has_room (channels p) s.
Proof.
  revert closed l1 l2 p. induction fuel as [|fuel IH]; intros closed l1 l2 p Hl Hk Hn Hin Hrun; [done|].
  destruct l2 as [|[id s] l2]; [by intros s ?%elem_of_nil|]. revert Hrun.
  cbn [send_loop]. unfold bind at 1, gets. rewrite get_sender_subs, Hl, list_lookup_middle by done.
  destruct (send_waits (E:=E) s invoice p) as [Hroom|Hfull]; [apply Hin; by left| |].
  2:{ unfold bind. destruct (send s invoice p) as [p' r]. simpl in Hfull. by subst r. }
  unfold bind at 1. rewrite send_spec by done. set (p1 := set_channels _ p).
  apply NoDup_cons in Hn as [Hs Hn].
  assert (Hl1 : subs_of key p1 = l1 ++ (id, s) :: l2) by by rewrite <-Hl; destruct key.
  assert (Hlen : length (channels p1) = length (channels p)) by apply length_imap.
  assert (Hback : ∀ x, x ∈ l2.*2 → has_room (channels p1) x → has_room (channels p) x).
  { intros x Hx. apply has_room_before. by intros ->%list_elem_of_singleton. }
  set (c := if negb _ then _ else _). intros Hrun x [->|Hx]%elem_of_cons; [done|]. apply Hback; [done|].
  destruct c.
  - unfold bind, modify in Hrun. rewrite remove_sender_subs in Hrun.
    destruct (im_swap_remove_app id s l1 l2 Hk) as (l2' & Hrm & Hp). rewrite Hl1, Hrm in Hrun.
    rewrite <-(channels_set_subs key (l1 ++ l2')). eapply (IH true l1 l2').
    + apply subs_of_set. rewrite Hl1. by destruct l1.
    + rewrite fmap_app, (fmap_Permutation fst _ _ Hp), <-fmap_app.
      rewrite !fmap_app in *. simpl in Hk. rewrite NoDup_app in *. rewrite NoDup_cons in Hk. set_solver.
    + by rewrite (fmap_Permutation snd _ _ Hp).
    + intros y. rewrite (fmap_Permutation snd _ _ Hp), channels_set_subs, Hlen. intros ?. apply Hin. by right.
    + exact Hrun.
    + by rewrite (fmap_Permutation snd _ _ Hp).
  - eapply (IH false (l1 ++ [(id, s)]) l2); rewrite <-?(assoc_L (++)); [done..| | |done].
    + intros y ?. rewrite Hlen. apply Hin. by right.
    + by rewrite length_app, Nat.add_1_r.
Qed.

Lemma send_updates_waits {E} invoice p :
  pub_wf p → (Publisher_send_updates (E:=E) invoice p).2 ≠ Hang →
  ∀ s, s ∈ (subscribers (Invoice_id invoice) p).*2 → has_room (channels p) s.
Proof.
  intros Hwf. pose proof Hwf as (Hnd & Hin & _).
  pose proof (pub_wf_subscribers p (Invoice_id invoice) Hwf) as Hsub.
  unfold subscribers in *. rewrite fmap_app in *. apply NoDup_app in Hsub as (Hn1 & Hd & Hn2).
  assert (Hlen : ∀ key s, s ∈ (subs_of key p).*2 → (s < length (channels p))%nat).
  { intros key s (x & -> & [i Hi]%list_elem_of_lookup_1)%list_elem_of_fmap. by eapply Hin. }
  set (key := Some (Invoice_id invoice)) in *. unfold Publisher_send_updates. fold key.
  unfold bind at 1, gets. intros Hrun.
  assert (H1 : ∀ s, s ∈ (subs_of key p).*2 → has_room (channels p) s).
  { eapply (send_loop_waits (E:=E) key invoice (send_fuel key p) false []); [done|apply Hnd|done|by apply Hlen|].
    intros Hh. apply Hrun. unfold bind at 1. cbn [length] in Hh.
    destruct (send_loop _ _ _ _ _ p) as [p' r]. simpl in Hh. by subst r. }
  revert Hrun. unfold bind at 1.
  rewrite (send_loop_spec key invoice _ [] (subs_of key p));
    [|done|by split_and!|apply Hnd|unfold send_fuel; lia].
  set (p1 := set_channels _ _). unfold bind, gets. intros Hrun.
  assert (Hp1 : subs_of None p1 = subs_of None p).
  { unfold p1. rewrite subs_of_set_channels. by apply subs_of_set_ne. }
  intros s [?|Hs]%elem_of_app; [by apply H1|]. eapply (has_room_before (subs_of key p).*2 invoice).
  { intros ?. by eapply Hd. }
  eapply (send_loop_waits (E:=E) None invoice _ false [] (subs_of None p) p1);
    [done|apply Hnd|done| |exact Hrun|done].
  intros x Hx. unfold p1. cbn [channels set_channels]. unfold delivered. rewrite length_imap. by eapply Hlen.
Qed.

Lemma send_updates_wf {E} invoice p :
  pub_wf p → (∀ s, s ∈ (subscribers (Invoice_id invoice) p).*2 → has_room (channels p) s) →
  pub_wf (Publisher_send_updates (E:=E) invoice p).1.
Proof.
  intros Hwf Hroom. pose proof Hwf as (Hnd & _ & _).
  destruct (send_updates_effect (E:=E) invoice p) as (p' & -> & Hc & Hsubs); auto.
  { by apply pub_wf_subscribers. }
  apply (pub_wf_shrink p); [done| |].
  - simpl. rewrite Hc. unfold delivered. apply length_imap.
  - intros key. simpl. rewrite Hsubs. case_decide; [apply live_prefix_prefix|].
    exists []. by rewrite app_nil_r.
Qed.

(** Whatever its users do. *)
Lemma pub_step_wf p p' : pub_step p p' → pub_wf p → pub_wf p'.
Proof.
  intros Hstep Hwf. destruct Hstep.
  - unfold Publisher_subscribe. destruct (invoice_subs p !! id) as [subs|] eqn:E; [|done].
    apply (pub_wf_subscribed p _ (Some id) sid Hwf); [done|]. intros [id'|]; simpl; [|done].
    rewrite lookup_insert, E. case_decide as E1; case_decide as E2; naive_solver.
  - by apply (pub_wf_subscribed p _ None sid Hwf); [|intros [id'|]].
  - by apply insert_invoice_wf.
  - apply (pub_wf_shrink p); [done|done|]. intros [id'|]; simpl; [|by exists []; rewrite app_nil_r].
    rewrite lookup_delete. case_decide as E; simpl; [by eexists|by exists []; rewrite app_nil_r].
  - by apply send_updates_wf.
  - unfold Subscriber_recv, bind, gets, id. destruct (channels p !! rx) as [ch|]; [|done].
    destruct (ch_queue ch) as [|invoice q]; [by destruct (has_sender rx p)|].
    apply (pub_wf_shrink p); [done|by simpl; rewrite length_insert|].
    intros key. exists []. rewrite app_nil_r. by destruct key.
  - apply (pub_wf_shrink p); [done|by simpl; rewrite length_alter|].
    intros key. exists []. rewrite app_nil_r. by destruct key.
Qed.

(** * Properties *)

(** C16: publishing an update terminates, as long as no live subscriber has a
    full buffer.  Every live subscriber to the invoice or to all invoices
    receives it exactly once, and nobody else receives anything.  Of each of
    the two lists the senders before the first one whose receiver is gone are
    kept; that one and all after it are removed. *)
Theorem Publisher_send_updates_spec {E} invoice p :
  pub_wf p →
  (∀ s, s ∈ (subscribers (Invoice_id invoice) p).*2 → has_room (channels p) s) →
  ∃ p', Publisher_send_updates (E:=E) invoice p = (p', Ok tt) ∧
    (∀ s, channels p' !! s =
      (λ ch, if decide (s ∈ (subscribers (Invoice_id invoice) p).*2) then pushed invoice ch else ch)
        <$> channels p !! s) ∧
    (∀ key, subs_of key p' =
      if decide (key = Some (Invoice_id invoice) ∨ key = None)
      then live_prefix (channels p) (subs_of key p) else subs_of key p).
Proof.
  intros Hwf Hroom. pose proof Hwf as (Hnd & _ & _).
  destruct (send_updates_effect (E:=E) invoice p) as (p' & Hs & Hc & Hsubs); auto.
  { by apply pub_wf_subscribers. }
  exists p'. split_and!; [done| |done]. intros s. by rewrite Hc, delivered_lookup.
Qed.


(** A subscriber without a sender in the publisher never waits: it gets the
    updates that are still in its buffer, in order, and then [None]. *)
Lemma disconnected_recv {E} p rx ch :
  (∀ key, rx ∉ (subs_of key p).*2) → channels p !! rx = Some ch →
  ∃ p', Subscriber_recv (E:=E) rx p = (p', Ok (head (ch_queue ch))) ∧
    channels p' !! rx = Some (mk_Channel (tail (ch_queue ch)) (ch_receiver ch)).
Proof.
  intros Hno Hch. unfold Subscriber_recv, bind, gets. simpl. rewrite Hch.
  pose proof (lookup_lt_Some _ _ _ Hch).
  destruct (ch_queue ch) as [|invoice q] eqn:Eq; simpl.
  2:{ eexists. split; [done|]. simpl. by rewrite list_lookup_insert_eq. }
  destruct (has_sender rx p) eqn:Ehas.
  - exfalso. apply has_sender_spec in Ehas as (key & i & s & Hi & <-). apply (Hno key).
    apply list_elem_of_fmap. exists s. split; [done|]. by eapply list_elem_of_lookup_2.
  - eexists. split; [done|]. simpl. rewrite Hch. f_equal. destruct ch; simpl in *. by subst.
Qed.

(** Who subscribed to [id] has no other sender. *)
Lemma only_subscription p id rx key :
  pub_wf p → rx ∈ (subs_of (Some id) p).*2 → key ≠ Some id → rx ∉ (subs_of key p).*2.
Proof.
  intros (_ & _ & Hinj) Hrx Hne Hin.
  apply list_elem_of_fmap in Hrx as (s & -> & [i Hi]%list_elem_of_lookup_1).
  apply list_elem_of_fmap in Hin as (s' & E & [j Hj]%list_elem_of_lookup_1).
  by destruct (Hinj (Some id) key i j s s').
Qed.

(** Once an invoice is removed, its subscribers never wait. *)
Theorem Publisher_remove_invoice_closes {E} id p rx ch :
  pub_wf p → rx ∈ (subs_of (Some id) p).*2 → channels p !! rx = Some ch →
  ∃ p', Subscriber_recv (E:=E) rx (Publisher_remove_invoice id p) = (p', Ok (head (ch_queue ch))) ∧
    channels p' !! rx = Some (mk_Channel (tail (ch_queue ch)) (ch_receiver ch)).
Proof.
  intros Hp Hrx Hch. apply disconnected_recv; [|done]. intros key Hin.
  destruct (decide (key = Some id)) as [->|Hne].
  - simpl in Hin. rewrite lookup_delete_eq in Hin. by apply elem_of_nil in Hin.
  - eapply (only_subscription p id rx key); [done..|]. destruct key as [id'|]; [|done].
    simpl in *. rewrite lookup_delete_ne in Hin by congruence. done.
Qed.

(** * Concrete runs *)

Definition demo_update_of (amount_paid : Z) : Invoice :=
  mk_Invoice "" (SubIndex_new 1 3) 10 1 amount_paid None 1 10 20 [] "".

(** Three subscribers to everything. *)
Definition demo_publisher : Publisher :=
  (Publisher_subscribe_all 13 (Publisher_subscribe_all 12
    (Publisher_subscribe_all 11 Publisher_new).1).1).1.


Lemma demo_publisher_wf : pub_wf demo_publisher.
Proof.
  split_and!.
  - intros [id|]; [apply NoDup_nil_2|]. by apply (bool_decide_unpack _); vm_compute.
  - intros [id|] i s; [done|]. intros Hi%list_elem_of_lookup_2. revert s Hi. apply Forall_forall.
    by apply (bool_decide_unpack _); vm_compute.
  - intros [id|] [id'|] i j s s' Hi Hj E; try done. split; [done|].
    eapply (NoDup_lookup (subs_of None demo_publisher).*2).
    + by apply (bool_decide_unpack _); vm_compute.
    + by rewrite list_lookup_fmap, Hi.
    + by rewrite list_lookup_fmap, Hj, E.
Qed.

Lemma Publisher_send_updates_spec_witness :
  ∃ p', Publisher_send_updates (E:=Empty_set) (demo_update_of 1) demo_publisher = (p', Ok tt).
Proof.
  destruct (Publisher_send_updates_spec (E:=Empty_set) (demo_update_of 1) demo_publisher
    demo_publisher_wf) as (p' & Hp & _).
  - intros s Hs. change (s ∈ [0; 1; 2]%nat) in Hs. rewrite !elem_of_cons, elem_of_nil in Hs.
    destruct_or!; subst; try done; (eexists; split; [reflexivity|]); intros _; simpl;
      unfold SUBSCRIPTION_BUFFER_LEN; lia.
  - eauto.
Defined.


Definition demo_subscribed : Publisher :=
  (Publisher_subscribe 5 (Invoice_id (demo_update_of 1))
     (Publisher_insert_invoice (Invoice_id (demo_update_of 1)) Publisher_new)).1.

Lemma demo_subscribed_wf : pub_wf demo_subscribed.
Proof.
  apply (pub_wf_subscribed (Publisher_insert_invoice (Invoice_id (demo_update_of 1)) Publisher_new)
    _ (Some (Invoice_id (demo_update_of 1))) 5); [|done|].
  - apply insert_invoice_wf, Publisher_new_wf.
  - intros [id|]; [|done]. unfold demo_subscribed, Publisher_subscribe. simpl.
    rewrite lookup_insert_eq. simpl. rewrite lookup_insert.
    repeat case_decide; naive_solver.
Qed.

Lemma Publisher_remove_invoice_closes_witness :
  ∃ p', Subscriber_recv (E:=Empty_set) 0 (Publisher_remove_invoice (Invoice_id (demo_update_of 1))
          demo_subscribed) = (p', Ok None).
Proof.
  destruct (Publisher_remove_invoice_closes (E:=Empty_set) (Invoice_id (demo_update_of 1))
    demo_subscribed 0 (mk_Channel [] true) demo_subscribed_wf) as (p' & H & _).
  - apply list_elem_of_here.
  - done.
  - exists p'. exact H.
Defined.
