(* ===== verification/Scanner.v ===== *)
(** The scanner: [library/src/scanner.rs].

    [Scanner_scan] is one pass of the scanning task: it updates the two
    caches, scans what is new in them for outputs to tracked subaddresses,
    recomputes the invoices, stores and publishes the changed ones.  The two
    futures of each [join!] run one after the other, the first one first, and
    both to their end. *)
From S2P Require Import Prelude.
From S2P Require Import Invoice.
From S2P Require Import Storage.
From S2P Require Import Monerod.
From S2P Require Import BlockCache.
From S2P Require Import TxpoolCache.
From S2P Require Import Pubsub.

Record OwnedAmount := mk_OwnedAmount { oa_sub_index : SubIndex; oa_amount : Z }.
#[export] Instance OwnedAmount_eq_dec : EqDecision OwnedAmount.
Proof. solve_decision. Defined.

(** A transfer and the subaddress it went to. *)
Notation SubTransfer := (SubIndex * Transfer)%type.

Section scanner.
Context `{Build} `{HashOrder} `{Monero} {W RpcError : Type} `{!MonerodClient W RpcError}.
Context {St EI EK EH EF : Type} `{!Storage St EI EK EH EF}.

Inductive ScannerError :=
  | Unblind (i : SubIndex)
  | ScannerStorage (e : StorageError EI EK EH EF)
  | Threading
  | OwnedOutputCheck (e : TxError)
  | OutputTarget
  | OutputIndex
  | ScannerRpc (e : RpcError)
  | ScannerBlockCache (e : BlockCacheError RpcError)
  | ScannerTxpoolCache (e : TxpoolCacheError RpcError).

(** The store and the publisher are shared with the payment gateway. *)
Record Scanner := mk_Scanner {
  s_store : Manager St;
  s_block_cache : BlockCache W;
  s_txpool_cache : TxpoolCache W;
  s_publisher : Publisher;
  s_first_scan : bool;
}.

Definition set_s_store (m : Manager St) (s : Scanner) : Scanner :=
  mk_Scanner m (s_block_cache s) (s_txpool_cache s) (s_publisher s) (s_first_scan s).
(** The clients of the two caches are clones that talk to one daemon. *)
Definition set_s_block_cache (c : BlockCache W) (s : Scanner) : Scanner :=
  mk_Scanner (s_store s) c (set_tc_client (bc_client c) (s_txpool_cache s))
    (s_publisher s) (s_first_scan s).
Definition set_s_txpool_cache (c : TxpoolCache W) (s : Scanner) : Scanner :=
  mk_Scanner (s_store s) (set_bc_client (tc_client c) (s_block_cache s)) c
    (s_publisher s) (s_first_scan s).
Definition set_s_publisher (p : Publisher) (s : Scanner) : Scanner :=
  mk_Scanner (s_store s) (s_block_cache s) (s_txpool_cache s) p (s_first_scan s).
Definition set_s_first_scan (b : bool) (s : Scanner) : Scanner :=
  mk_Scanner (s_store s) (s_block_cache s) (s_txpool_cache s) (s_publisher s) b.

Definition on_store {A} (m : M (Manager St) ScannerError A) : M Scanner ScannerError A :=
  zoom s_store set_s_store m.
Definition store {A} (m : M (Manager St) (StorageError EI EK EH EF) A) :
    M (Manager St) ScannerError A :=
  map_err ScannerStorage m.

(** ** Scanning transactions *)

Definition OwnedTxOut_id (output : OwnedTxOut) (tx_hash : Hash) : OutputId :=
  mk_OutputId tx_hash (owned_index output).

(** [u8::try_from(output.index())] fails from 256 on. *)
Definition output_key_is_unique (output : OwnedTxOut) (tx_hash : Hash) :
    M (Manager St) ScannerError bool :=
  let key := owned_key output in
  if 255 <? owned_index output then throw OutputIndex
  else
    let output_id := OwnedTxOut_id output tx_hash in
    let! maybe_stored_output_id := store (Client_get_output_key_id (mk_OutputPubKey key)) in
    match maybe_stored_output_id with
    | Some stored_output_id =>
        if decide (stored_output_id ≠ output_id) then ret false else ret true
    | None =>
        store (Client_insert_output_key (mk_OutputPubKey key) output_id) ;;;
        ret true
    end.

(** The parallel part: transactions without a time lock, with the outputs
    that the view key owns, in their order. *)
Fixpoint owned_outputs_per_tx (transactions : list transaction) (checker : SubKeyChecker) :
    outcome ScannerError (list (Hash * list OwnedTxOut)) :=
  match transactions with
  | [] => Ok []
  | tx :: transactions =>
      if unlock_time tx =? 0 then
        match check_outputs_with tx checker with
        | inr e => Err (OwnedOutputCheck e)
        | inl outputs =>
            match owned_outputs_per_tx transactions checker with
            | Ok l => Ok ((transaction_hash tx, outputs) :: l)
            | r => r
            end
        end
      else owned_outputs_per_tx transactions checker
  end.

(** [amounts_received.entry(tx_hash).or_insert_with(Vec::new).push(amount)]. *)
Definition push_amount (tx_hash : Hash) (amount : OwnedAmount) (m : TxMap (list OwnedAmount)) :
    TxMap (list OwnedAmount) :=
  <[tx_hash := default [] (m !! tx_hash) ++ [amount]]> m.

(** The body of the loop over the outputs. *)
Definition scan_output (tx_hash : Hash) (amounts_received : TxMap (list OwnedAmount))
    (output : OwnedTxOut) : M (Manager St) ScannerError (TxMap (list OwnedAmount)) :=
  let! unique := output_key_is_unique output tx_hash in
  if negb unique then ret amounts_received
  else
    let sub_index := owned_sub_index output in
    let! contains := store (Client_contains_sub_index sub_index) in
    if contains : bool then
      match owned_amount output with
      | None => throw (Unblind sub_index)
      | Some amount => ret (push_amount tx_hash (mk_OwnedAmount sub_index amount) amounts_received)
      end
    else ret amounts_received.

Definition scan_transactions (transactions : list transaction) (sub_key_checker : SubKeyChecker) :
    M (Manager St) ScannerError (TxMap (list OwnedAmount)) :=
  let! outputs_per_tx := lift (owned_outputs_per_tx transactions sub_key_checker) in
  fold_each outputs_per_tx ∅ (λ amounts_received p,
    fold_each p.2 amounts_received (scan_output p.1)).

Definition to_transfer (height : option Z) (a : OwnedAmount) : SubTransfer :=
  (oa_sub_index a, Transfer_new (oa_amount a) height).

(** [blocks_updated] blocks, the deepest one first. *)
Definition scan_blocks (sub_key_checker : SubKeyChecker) (blocks_updated : Z) :
    M Scanner ScannerError (list SubTransfer) :=
  let! block_cache := gets s_block_cache in
  let! first_scan := gets s_first_scan in
  let blocks_updated :=
    if first_scan : bool then Z.of_nat (length (bc_blocks block_cache)) else blocks_updated in
  fold_each (reverse (seq 0 (Z.to_nat blocks_updated))) [] (λ transfers i,
    match bc_blocks block_cache !! i with
    | None => panic (* index out of bounds *)
    | Some block =>
        let! amounts_received :=
          on_store (scan_transactions (b_transactions block) sub_key_checker) in
        let! block_cache_height := u64_sub (bc_height block_cache) (Z.of_nat i) in
        ret (transfers ++
          (to_transfer (Some block_cache_height) <$> mjoin ((hash_iter amounts_received).*2)))
    end).

Definition scan_txpool (sub_key_checker : SubKeyChecker) (new_transactions : list transaction) :
    M Scanner ScannerError (list SubTransfer) :=
  let! txpool_cache := gets s_txpool_cache in
  let discovered_transfers := tc_discovered_transfers txpool_cache in
  let! amounts_received := on_store (scan_transactions new_transactions sub_key_checker) in
  let new_transfers : TxMap (list SubTransfer) :=
    (λ amounts : list OwnedAmount, to_transfer None <$> amounts) <$> amounts_received in
  let transfers := extend_map discovered_transfers new_transfers in
  modify (λ s, set_s_txpool_cache
    (TxpoolCache_insert_transfers new_transfers (s_txpool_cache s)) s) ;;;
  ret (mjoin (hash_iter transfers).*2).

(** ** Updating the invoices *)

(** The body of the loop over [transfers]. *)
Definition add_transfer {S E} (invoice : Invoice) (p : SubTransfer) : M S E Invoice :=
  let '(sub_index, owned_transfer) := p in
  if decide (sub_index = inv_index invoice) then
    let! h := u64_sub (inv_creation_height invoice) 1 in
    if is_gt (Transfer_cmp_by_height owned_transfer (Transfer_new 0 (Some h)))
    then ret (set_transfers (inv_transfers invoice ++ [owned_transfer]) invoice)
    else ret invoice
  else ret invoice.

(** The body of the loop over [invoice.transfers]. *)
Definition count_transfer {S E} (invoice : Invoice) (transfer : Transfer) : M S E Invoice :=
  let! paid := u64_add (inv_amount_paid invoice) (amount transfer) in
  let invoice := set_paid paid (inv_paid_height invoice) invoice in
  ret (if (inv_amount_requested invoice <=? paid) && bool_decide (inv_paid_height invoice = None)
       then set_paid paid (height transfer) invoice else invoice).

(** The closure of [update_invoices]; it captures [updated_invoices]. *)
Definition update_closure (transfers : list SubTransfer) (block_cache_height deepest_update : Z) :
    EachClosure (list Invoice) EI :=
  λ invoice_or_err,
    match invoice_or_err with
    | inr _ => ret tt
    | inl old_invoice =>
        let invoice := set_transfers
          (filter (λ transfer, is_lt (Transfer_cmp_by_height transfer
                                 (Transfer_new 0 (Some deepest_update))) = true)
             (inv_transfers old_invoice)) old_invoice in
        let! invoice := fold_each transfers invoice add_transfer in
        let! next := u64_add block_cache_height 1 in
        let invoice := if inv_current_height invoice =? next then invoice
                       else set_current_height next invoice in
        if negb (Invoice_eq invoice old_invoice) then
          let invoice := set_paid 0 None invoice in
          let! invoice := fold_each (inv_transfers invoice) invoice count_transfer in
          modify (λ updated_invoices, updated_invoices ++ [invoice])
        else ret tt
    end.

Definition update_invoices (transfers : list SubTransfer) (blocks_updated : Z) :
    M Scanner ScannerError (list Invoice) :=
  let! block_cache_height := gets (λ s, bc_height (s_block_cache s)) in
  let! deepest_update := u64_sub block_cache_height blocks_updated in
  let! deepest_update := u64_add deepest_update 1 in
  on_store (store (Client_try_for_each_invoice
    (update_closure transfers block_cache_height deepest_update) [])).

(** ** A scan *)

Definition update_caches : M Scanner ScannerError (Z * list transaction) :=
  let! blocks_updated :=
    zoom s_block_cache set_s_block_cache (map_err ScannerBlockCache BlockCache_update) in
  let! new_transactions :=
    zoom s_txpool_cache set_s_txpool_cache (map_err ScannerTxpoolCache TxpoolCache_update) in
  ret (blocks_updated, new_transactions).

Definition result {S A E} (r : A + E) : M S E A :=
  lift (match r with inl a => Ok a | inr e => Err e end).

(** Save an update; publish it if that worked. *)
Definition save_update (invoice : Invoice) : M Scanner ScannerError unit :=
  let! r := try_ (on_store (store (Client_update_invoice invoice))) in
  match r with
  | inr _ => ret tt
  | inl _ => zoom s_publisher set_s_publisher (Publisher_send_updates invoice)
  end.

Definition Scanner_scan (sub_key_checker : SubKeyChecker) : M Scanner ScannerError unit :=
  let! (blocks_updated, new_transactions) := update_caches in
  let! blocks_amounts_or_err := try_ (scan_blocks sub_key_checker blocks_updated) in
  let! txpool_amounts_or_err := try_ (scan_txpool sub_key_checker new_transactions) in
  let! blocks_amounts := result blocks_amounts_or_err in
  let! txpool_amounts := result txpool_amounts_or_err in
  let transfers := blocks_amounts ++ txpool_amounts in
  modify (set_s_first_scan false) ;;;
  let! updated_invoices := update_invoices transfers blocks_updated in
  for_each updated_invoices save_update ;;;
  let! cache_height := gets (λ s, bc_height (s_block_cache s)) in
  let! _ := on_store (store (Client_upsert_height cache_height)) in
  on_store (store Client_flush).

Definition Scanner_is_synchronized (s : Scanner) : bool :=
  BlockCache_is_synchronized (s_block_cache s).
Definition Scanner_cache_height (s : Scanner) : Z := bc_height (s_block_cache s).
Definition Scanner_daemon_height (s : Scanner) : Z := bc_daemon_height (s_block_cache s).

(** ** A new scanner *)

Definition last_height : M (Manager St) ScannerError (option Z) :=
  let! h := store Client_get_height in
  match h with
  | Some h => ret (Some h)
  | None =>
      let! h := store Client_lowest_invoice_height in
      match h with
      | Some h => ret (Some h)
      | None => ret None
      end
  end.

(** What a new scanner is given, and the two atomics of the gateway. *)
Record ScannerEnv := mk_ScannerEnv {
  env_client : W;
  env_store : Manager St;
  env_publisher : Publisher;
  env_cache_height : Z;
  env_daemon_height : Z;
}.
Definition set_env_client (w : W) (e : ScannerEnv) : ScannerEnv :=
  mk_ScannerEnv w (env_store e) (env_publisher e) (env_cache_height e) (env_daemon_height e).
Definition set_env_store (m : Manager St) (e : ScannerEnv) : ScannerEnv :=
  mk_ScannerEnv (env_client e) m (env_publisher e) (env_cache_height e) (env_daemon_height e).
Definition set_env_publisher (p : Publisher) (e : ScannerEnv) : ScannerEnv :=
  mk_ScannerEnv (env_client e) (env_store e) p (env_cache_height e) (env_daemon_height e).
Definition set_env_heights (c d : Z) (e : ScannerEnv) : ScannerEnv :=
  mk_ScannerEnv (env_client e) (env_store e) (env_publisher e) c d.

Definition env_call {A E} (f : E → ScannerError) (m : M W E A) : M ScannerEnv ScannerError A :=
  zoom env_client set_env_client (map_err f m).

Definition Scanner_new (block_cache_size : nat) (initial_height : option Z) :
    M ScannerEnv ScannerError Scanner :=
  let! daemon_height := env_call ScannerRpc mc_daemon_height in
  let! last := zoom env_store set_env_store last_height in
  let start := match last with
               | Some h => h
               | None => default daemon_height initial_height
               end in
  let! cache_height := u64_sub (Z.max (Z.min start daemon_height) (Z.of_nat block_cache_size)) 1 in
  modify (set_env_heights cache_height daemon_height) ;;;
  let! block_cache := try_ (env_call ScannerBlockCache
    (BlockCache_init block_cache_size cache_height daemon_height)) in
  let! txpool_cache := try_ (env_call ScannerTxpoolCache TxpoolCache_init) in
  let! ids := zoom env_store set_env_store (store Client_get_invoice_ids) in
  modify (λ e, set_env_publisher
    (foldl (λ p id, Publisher_insert_invoice id p) (env_publisher e) ids) e) ;;;
  let! block_cache := result block_cache in
  let! txpool_cache := result txpool_cache in
  gets (λ e, mk_Scanner (env_store e) (set_bc_client (env_client e) block_cache)
               (set_tc_client (env_client e) txpool_cache) (env_publisher e) true).

End scanner.
Arguments ScannerError {_} RpcError EI EK EH EF.
Arguments Scanner {_} W St.
Arguments ScannerEnv W St : clear implicits.
