(* ===== verification/ScannerUpdate.v ===== *)
(** What a scan does to an invoice: the properties of [update_invoices] of
    [library/src/scanner.rs]. *)
From S2P Require Import Prelude.
From S2P Require Import Invoice.
From S2P Require Import Storage.
From S2P Require Import Monerod.
From S2P Require Import BlockCache.
From S2P Require Import Scanner.

(** * The effect on one invoice, as a function *)

(** Transfers that an update down to height [deepest] leaves alone. *)
Definition below (deepest : Z) (t : Transfer) : Prop :=
  match height t with Some h => h < deepest | None => False end.
#[export] Instance below_dec d t : Decision (below d t).
Proof. unfold below. destruct (height t); apply _. Defined.

(** Found transfers that count for the invoice: to its subaddress, and in
    no block older than the invoice. *)
Definition counts_for (i : Invoice) (p : SubTransfer) : Prop :=
  p.1 = inv_index i ∧
  match height p.2 with Some h => inv_creation_height i ≤ h | None => True end.
#[export] Instance counts_for_dec i p : Decision (counts_for i p).
Proof. unfold counts_for. destruct (height p.2); apply _. Defined.

Definition new_transfers (found : list SubTransfer) (deepest : Z) (i : Invoice) : list Transfer :=
  filter (below deepest) (inv_transfers i) ++ (filter (counts_for i) found).*2.

Definition total (ts : list Transfer) : Z := zsum (amount <$> ts).

(** The height of the first transfer in a block that makes the running total
    reach the requested amount. *)
Fixpoint paid_at (acc requested : Z) (ts : list Transfer) : option Z :=
  match ts with
  | [] => None
  | t :: ts =>
      let acc := acc + amount t in
      if requested <=? acc then
        match height t with
        | Some h => Some h
        | None => paid_at acc requested ts
        end
      else paid_at acc requested ts
  end.

(** The invoice before the decision whether it has changed, and after the
    recalculation. *)
Definition rescanned (found : list SubTransfer) (top deepest : Z) (i : Invoice) : Invoice :=
  set_current_height (top + 1) (set_transfers (new_transfers found deepest i) i).
Definition recalculated (i : Invoice) : Invoice :=
  set_paid (total (inv_transfers i)) (paid_at 0 (inv_amount_requested i) (inv_transfers i)) i.

(** No sum of the computation leaves the range of [u64]. *)
Definition no_overflow (found : list SubTransfer) (top deepest : Z) (i : Invoice) : Prop :=
  1 ≤ inv_creation_height i ∧ in_u64 (inv_creation_height i) ∧ in_u64 (top + 1) ∧
  Forall (λ t, 0 ≤ amount t) (new_transfers found deepest i) ∧
  total (new_transfers found deepest i) ≤ u64_max.

Section update.
Context `{Build}.

Lemma total_app l k : total (l ++ k) = total l + total k.
Proof. unfold total. by rewrite fmap_app, zsum_app. Qed.

Lemma total_nonneg l : Forall (λ t, 0 ≤ amount t) l → 0 ≤ total l.
Proof. intros. apply zsum_nonneg. by rewrite Forall_fmap. Qed.

Lemma u64_sub_1 {S E} x : 1 ≤ x → in_u64 x → u64_sub (S:=S) (E:=E) x 1 = ret (x - 1).
Proof. intros ? [??]. unfold u64_sub. rewrite u64_checked_in; [done|]. split; lia. Qed.

(** The loop over what was found. *)
Lemma add_found {S E} found (i : Invoice) (s : S) :
  1 ≤ inv_creation_height i → in_u64 (inv_creation_height i) →
  fold_each (E:=E) found i add_transfer s =
  (s, Ok (set_transfers (inv_transfers i ++ (filter (counts_for i) found).*2) i)).
Proof.
  revert i. induction found as [|[x t] found IH]; intros i Hc Hin.
  { simpl. rewrite app_nil_r. by destruct i. }
  cbn [fold_each]. rewrite filter_cons. unfold bind at 1, add_transfer at 1.
  assert (Hskip : ¬ counts_for i (x, t) →
    fold_each (E:=E) found i add_transfer s = (s, Ok (set_transfers (inv_transfers i ++
      (if decide (counts_for i (x, t)) then (x, t) :: filter (counts_for i) found
       else filter (counts_for i) found).*2) i))).
  { intros Hn. rewrite decide_False by done. by apply IH. }
  destruct (decide (x = inv_index i)) as [Hx|Hx]; cbn [ret].
  2:{ apply Hskip. by intros [? _]. }
  unfold bind at 1. rewrite u64_sub_1 by done. cbn [ret].
  destruct (is_gt _) eqn:Eg; cbn [ret].
  2:{ apply Hskip. intros [_ Hh]. apply not_true_iff_false in Eg. apply Eg, is_gt_height.
      simpl in Hh. destruct (height t); [lia|done]. }
  apply is_gt_height in Eg.
  rewrite decide_True by (split; [done|simpl; destruct (height t); [lia|done]]).
  etrans; [by apply (IH (set_transfers (inv_transfers i ++ [t]) i))|].
  simpl. by rewrite <-(assoc_L (++)).
Qed.

(** The loop that adds up the transfers. *)
Lemma add_up {S E} ts (i : Invoice) (s : S) :
  0 ≤ inv_amount_paid i → Forall (λ t, 0 ≤ amount t) ts →
  inv_amount_paid i + total ts ≤ u64_max →
  fold_each (E:=E) ts i count_transfer s =
  (s, Ok (set_paid (inv_amount_paid i + total ts)
            (match inv_paid_height i with
             | Some h => Some h
             | None => paid_at (inv_amount_paid i) (inv_amount_requested i) ts
             end) i)).
Proof.
  revert i. induction ts as [|t ts IH]; intros i Hp Hts Hmax.
  { unfold total. simpl. rewrite Z.add_0_r. by destruct i as [????? [] ?????]. }
  apply Forall_cons in Hts as [Ht Hts]. pose proof (total_nonneg ts Hts).
  change (total (t :: ts)) with (amount t + total ts) in *.
  cbn [fold_each]. unfold bind at 1, count_transfer at 1, bind at 1, u64_add. rewrite u64_checked_in by (split; lia).
  cbn [ret inv_amount_requested inv_paid_height set_paid paid_at].
  set (j := if _ && _ then _ else _).
  assert (Hj : j = set_paid (inv_amount_paid i + amount t)
    (match inv_paid_height i with
     | Some h => Some h
     | None => if inv_amount_requested i <=? inv_amount_paid i + amount t then height t else None
     end) i).
  { unfold j. destruct (inv_paid_height i); [rewrite bool_decide_false, andb_false_r by done; done|].
    rewrite bool_decide_true, andb_true_r by done. by destruct (_ <=? _). }
  rewrite Hj. etrans; [apply IH; simpl; [lia|done|lia]|]. simpl. unfold set_paid. simpl.
  do 3 f_equal; [lia|]. destruct (inv_paid_height i); [done|].
  destruct (_ <=? _); [|done]. by destruct (height t).
Qed.

Lemma update_closure_spec {EI} found top deepest i (acc : list Invoice) :
  no_overflow found top deepest i →
  update_closure (EI:=EI) found top deepest (inl i) acc =
    (acc ++ (if Invoice_eq (rescanned found top deepest i) i then []
             else [recalculated (rescanned found top deepest i)]), Ok tt).
Proof.
  intros (Hc & Hcin & Hnext & Hpos & Hmax). unfold update_closure.
  set (i1 := set_transfers _ i).
  unfold bind at 1. rewrite (add_found found i1) by done. cbn [ret].
  assert (Hts : inv_transfers i1 ++ (filter (counts_for i1) found).*2 = new_transfers found deepest i).
  { unfold i1, new_transfers. simpl. f_equal. apply list_filter_iff. intros t.
    rewrite is_lt_height. unfold below. destruct (height t); naive_solver. }
  rewrite Hts. unfold bind at 1, u64_add. rewrite u64_checked_in by done. cbn [ret].
  set (i2 := if inv_current_height _ =? _ then _ else _).
  assert (i2 = rescanned found top deepest i) as ->.
  { unfold i2, rescanned, set_current_height. simpl.
    destruct (Z.eqb_spec (inv_current_height i) (top + 1)) as [E|E]; [|done].
    unfold set_transfers. simpl. by rewrite E. }
  destruct (Invoice_eq (rescanned found top deepest i) i); cbn [negb].
  { unfold ret. by rewrite app_nil_r. }
  unfold bind at 1. rewrite add_up; simpl; [|lia|done|done]. done.
Qed.

(** Closure errors aside, the loop over the invoices collects the changed
    ones. *)
Lemma update_loop {EI} found top deepest (items : list (Invoice + EI)) acc :
  (∀ i, inl i ∈ items → no_overflow found top deepest i) →
  for_each items (update_closure found top deepest) acc =
    (acc ++ mjoin ((λ it, match it with
       | inl i => if Invoice_eq (rescanned found top deepest i) i then []
                  else [recalculated (rescanned found top deepest i)]
       | inr _ => [] end) <$> items), Ok tt).
Proof.
  revert acc. induction items as [|[i|e] items IH]; intros acc Hov; cbn [for_each fmap list_fmap].
  { unfold ret. by rewrite app_nil_r. }
  - unfold bind. rewrite update_closure_spec by (apply Hov; by left).
    rewrite IH by (intros; apply Hov; by right). cbn [mjoin list_join]. by rewrite (assoc_L (++)).
  - unfold bind. cbn [update_closure ret]. apply IH. intros; apply Hov; by right.
Qed.
End update.

(** * Properties *)

(** [o] is the height of the first mined transfer at which the running total
    reaches [requested]; [None] if there is none. *)
Definition is_paid_height (requested : Z) (ts : list Transfer) (o : option Z) : Prop :=
  match o with
  | Some h => ∃ l t k, ts = l ++ t :: k ∧ height t = Some h ∧ requested ≤ total (l ++ [t]) ∧
      ∀ l' t' k', l = l' ++ t' :: k' → requested ≤ total (l' ++ [t']) → height t' = None
  | None => ∀ l t k, ts = l ++ t :: k → requested ≤ total (l ++ [t]) → height t = None
  end.

Lemma paid_at_spec pre requested ts :
  (∀ l t k, pre = l ++ t :: k → requested ≤ total (l ++ [t]) → height t = None) →
  is_paid_height requested (pre ++ ts) (paid_at (total pre) requested ts).
Proof.
  revert pre. induction ts as [|t ts IH]; intros pre Hpre; simpl.
  { by rewrite app_nil_r. }
  assert (Htot : total pre + amount t = total (pre ++ [t])).
  { rewrite total_app. unfold total at 3. simpl. lia. }
  assert (Hgo : (requested ≤ total (pre ++ [t]) → height t = None) →
    is_paid_height requested (pre ++ t :: ts) (paid_at (total pre + amount t) requested ts)).
  { intros Ht. rewrite Htot. replace (pre ++ t :: ts) with ((pre ++ [t]) ++ ts)
      by by rewrite <-(assoc_L (++)).
    apply IH. intros l t' k Heq Hreq.
    destruct k as [|x k _] using rev_ind.
    - apply app_inj_tail in Heq as [-> ->]. auto.
    - rewrite app_comm_cons, (assoc_L (++)) in Heq. apply app_inj_tail in Heq as [-> ->].
      by eapply Hpre. }
  rewrite Htot in *. destruct (Z.leb_spec requested (total (pre ++ [t]))) as [Hle|Hgt].
  - destruct (height t) as [h|] eqn:Eh; [|auto]. exists pre, t, ts. auto.
  - apply Hgo. lia.
Qed.

(** What a changed invoice looks like after a scan up to height [top]. *)
Definition updated_to (found : list SubTransfer) (top deepest : Z) (i j : Invoice) : Prop :=
  inv_transfers j = new_transfers found deepest i ∧
  inv_amount_paid j = total (inv_transfers j) ∧
  is_paid_height (inv_amount_requested i) (inv_transfers j) (inv_paid_height j) ∧
  inv_current_height j = top + 1 ∧
  inv_address j = inv_address i ∧ Invoice_id j = Invoice_id i ∧
  inv_amount_requested j = inv_amount_requested i ∧
  inv_confirmations_required j = inv_confirmations_required i ∧
  inv_expiration_height j = inv_expiration_height i ∧ inv_description j = inv_description i.

Lemma recalculated_updated found top deepest i :
  updated_to found top deepest i (recalculated (rescanned found top deepest i)).
Proof.
  unfold updated_to. split_and!; try done. simpl.
  by apply (paid_at_spec [] _ (new_transfers found deepest i)); intros [|].
Qed.

Section properties.
Context `{Build}.

(** How a scan changes one invoice.  Its transfers are those below the
    deepest updated block and those found for it, which replaces whatever a
    reorganisation has undone; the amount paid is their sum, the paid height
    that of the first block in which the requested amount is reached, and
    the current height one above the top block.  If neither the transfers
    (in any order) nor the height change, the invoice is not reported. *)
Theorem update_closure_correct {EI} found top deepest i (acc : list Invoice) :
  no_overflow found top deepest i →
  ∃ out, update_closure (EI:=EI) found top deepest (inl i) acc = (acc ++ out, Ok tt) ∧
    ((out = [] ∧ new_transfers found deepest i ≡ₚ inv_transfers i ∧
      inv_current_height i = top + 1) ∨
     ∃ j, out = [j] ∧ updated_to found top deepest i j).
Proof.
  intros Hov. eexists. split; [by apply update_closure_spec|].
  destruct (Invoice_eq (rescanned found top deepest i) i) eqn:E.
  - left. apply Invoice_eq_same in E as [Hp He]. split_and!; [done|done|].
    by apply (f_equal inv_current_height) in He.
  - right. eexists. split; [done|]. apply recalculated_updated.
Qed.

(** The transfers to any subaddress in the blocks from [lo] to [hi]: [ledger h]
    are the subaddresses and amounts paid in block [h]. *)
Definition block_transfers (ledger : Z → list (SubIndex * Z)) (lo hi : Z) : list SubTransfer :=
  mjoin ((λ h, (λ p : SubIndex * Z, (p.1, Transfer_new p.2 (Some h))) <$> ledger h)
            <$> seqZ lo (hi - lo + 1)).

(** What the chain owes the invoice, up to the block at height [top]. *)
Definition owed (ledger : Z → list (SubIndex * Z)) (top : Z) (i : Invoice) : list Transfer :=
  (filter (λ p : SubTransfer, p.1 = inv_index i)
     (block_transfers ledger (inv_creation_height i) top)).*2.

Lemma elem_of_block_transfers ledger lo hi x t :
  (x, t) ∈ block_transfers ledger lo hi →
  ∃ h, height t = Some h ∧ lo ≤ h ≤ hi ∧ (x, amount t) ∈ ledger h.
Proof.
  unfold block_transfers. rewrite list_elem_of_join. intros (l & Hin & Hl).
  apply list_elem_of_fmap in Hl as (h & -> & Hh%elem_of_seqZ).
  apply list_elem_of_fmap in Hin as ([x' a] & [= -> ->] & Ha). exists h. simpl.
  split_and!; [done|lia|lia|done].
Qed.

Lemma block_transfers_split ledger lo mid hi :
  lo ≤ mid → mid ≤ hi + 1 →
  block_transfers ledger lo hi = block_transfers ledger lo (mid - 1) ++ block_transfers ledger mid hi.
Proof.
  intros. unfold block_transfers. replace (hi - lo + 1) with ((mid - 1 - lo + 1) + (hi - mid + 1)) by lia.
  rewrite seqZ_app by lia. rewrite fmap_app, join_app. by replace (lo + (mid - 1 - lo + 1)) with mid by lia.
Qed.

Lemma block_transfers_ext ledger ledger' lo hi :
  (∀ h, lo ≤ h ≤ hi → ledger h = ledger' h) →
  block_transfers ledger lo hi = block_transfers ledger' lo hi.
Proof.
  intros Heq. unfold block_transfers. f_equal. apply list_fmap_ext. intros k h Hk.
  apply list_elem_of_lookup_2, elem_of_seqZ in Hk. rewrite Heq; [done|lia].
Qed.

(** The transfers to the invoice among those of some blocks, by height. *)
Definition owed_in (ledger : Z → list (SubIndex * Z)) (lo hi : Z) (i : Invoice) : list Transfer :=
  (filter (λ p : SubTransfer, p.1 = inv_index i) (block_transfers ledger lo hi)).*2.

Lemma owed_in_height ledger lo hi i t :
  t ∈ owed_in ledger lo hi i → ∃ h, height t = Some h ∧ lo ≤ h ≤ hi.
Proof.
  unfold owed_in. intros ([x t'] & -> & [_ Hin]%list_elem_of_filter)%list_elem_of_fmap.
  apply elem_of_block_transfers in Hin as (h & ? & ? & _). eauto.
Qed.

Lemma owed_in_split ledger lo mid hi i :
  lo ≤ mid → mid ≤ hi + 1 →
  owed_in ledger lo hi i = owed_in ledger lo (mid - 1) i ++ owed_in ledger mid hi i.
Proof.
  intros. unfold owed_in. rewrite (block_transfers_split ledger lo mid hi) by done.
  by rewrite filter_app, fmap_app.
Qed.

Lemma below_owed ledger lo hi deepest i :
  deepest ≤ hi + 1 → filter (below deepest) (owed_in ledger lo hi i) =
    (if decide (lo ≤ deepest) then owed_in ledger lo (deepest - 1) i else []).
Proof.
  intros Hd. case_decide as Hlo.
  - rewrite (owed_in_split ledger lo deepest hi i) by done. rewrite filter_app.
    rewrite (filter_none _ (owed_in ledger deepest hi i)), app_nil_r.
    + apply filter_all. intros t (h & Hh & ?)%owed_in_height. unfold below. rewrite Hh. lia.
    + intros t (h & Hh & ?)%owed_in_height. unfold below. rewrite Hh. lia.
  - apply filter_none. intros t (h & Hh & ?)%owed_in_height. unfold below. rewrite Hh. lia.
Qed.

Lemma counts_owed ledger deepest top i :
  deepest ≤ top + 1 →
  (filter (counts_for i) (block_transfers ledger deepest top)).*2 =
    owed_in ledger (Z.max deepest (inv_creation_height i)) top i.
Proof.
  intros Hd. set (c := inv_creation_height i).
  assert (Hall : ∀ lo, c ≤ lo →
    (filter (counts_for i) (block_transfers ledger lo top)).*2 = owed_in ledger lo top i).
  { intros lo Hlo. unfold owed_in. f_equal. apply filter_ext_in. intros [x t] Hin.
    apply elem_of_block_transfers in Hin as (h & Hh & ? & _). unfold counts_for. simpl. rewrite Hh.
    split; [by intros [? _]|]. intros ?. split; [done|lia]. }
  assert (Hnone : ∀ lo hi, hi < c → filter (counts_for i) (block_transfers ledger lo hi) = []).
  { intros lo hi Hhi. apply filter_none. intros [x t] Hin.
    apply elem_of_block_transfers in Hin as (h & Hh & ? & _). unfold counts_for. simpl. rewrite Hh.
    intros [_ ?]. lia. }
  destruct (Z.max_spec deepest c) as [[Hlt ->]|[Hge ->]]; [|by apply Hall].
  destruct (decide (c ≤ top + 1)).
  - rewrite (block_transfers_split ledger deepest c top) by lia.
    rewrite filter_app, Hnone by lia. apply Hall. lia.
  - rewrite Hnone by lia. unfold owed_in, block_transfers. by rewrite seqZ_nil by lia.
Qed.

(** If the transfers of the invoice were those of the blocks of [old], the new
    ones are those of the blocks of [new]. *)
Lemma new_transfers_follow_chain old new top0 top deepest pool0 pool i :
  deepest ≤ top0 + 1 → deepest ≤ top + 1 →
  (∀ h, h < deepest → old h = new h) →
  Forall (λ t, height t = None) pool0 → Forall (λ p : SubTransfer, height p.2 = None) pool →
  inv_transfers i ≡ₚ owed old top0 i ++ pool0 →
  new_transfers (block_transfers new deepest top ++ pool) deepest i ≡ₚ
    owed new top i ++ (filter (λ p : SubTransfer, p.1 = inv_index i) pool).*2.
Proof.
  intros Hd0 Hd Hsame Hp0 Hp Htr. unfold new_transfers.
  rewrite (filter_Permutation _ _ _ Htr), filter_app, filter_app, fmap_app.
  rewrite (filter_none _ pool0), app_nil_r.
  2:{ intros t Ht. rewrite Forall_forall in Hp0. unfold below. rewrite (Hp0 t Ht). by intros []. }
  assert (Hpool : filter (counts_for i) pool = filter (λ p : SubTransfer, p.1 = inv_index i) pool).
  { apply filter_ext_in. intros p Hin. rewrite Forall_forall in Hp. unfold counts_for.
    rewrite (Hp p Hin). naive_solver. }
  rewrite Hpool, (assoc_L (++)). f_equiv.
  change (owed old top0 i) with (owed_in old (inv_creation_height i) top0 i).
  change (owed new top i) with (owed_in new (inv_creation_height i) top i).
  rewrite below_owed, counts_owed by done. case_decide as Hc.
  - rewrite Z.max_l by done. rewrite (owed_in_split new (inv_creation_height i) deepest top i) by done.
    unfold owed_in at 1. rewrite (block_transfers_ext old new); [done|].
    intros. apply Hsame. lia.
  - by rewrite Z.max_r by lia.
Qed.

(** One invoice follows the chain through reorganisations.  Suppose the
    transfers of an invoice are exactly those of the blocks of one chain
    [old] up to [top0], and some unmined ones, and the chain is now [new],
    which has the same blocks below [deepest].  If a scan finds what the
    blocks of [new] from [deepest] to its top [top] and the txpool pay, the
    transfers become exactly those of the blocks of [new] up to [top] and the
    unmined ones of now, and an invoice that is reported has been paid their
    sum. *)
Theorem update_closure_follows_chain {EI} old new top0 top deepest pool0 pool i acc :
  let found := block_transfers new deepest top ++ pool in
  let now := owed new top i ++ (filter (λ p : SubTransfer, p.1 = inv_index i) pool).*2 in
  deepest ≤ top0 + 1 → deepest ≤ top + 1 →
  (∀ h, h < deepest → old h = new h) →
  Forall (λ t, height t = None) pool0 → Forall (λ p : SubTransfer, height p.2 = None) pool →
  inv_transfers i ≡ₚ owed old top0 i ++ pool0 →
  no_overflow found top deepest i →
  ∃ out, update_closure (EI:=EI) found top deepest (inl i) acc = (acc ++ out, Ok tt) ∧
    inv_transfers (default i (head out)) ≡ₚ now ∧
    inv_current_height (default i (head out)) = top + 1 ∧
    Forall (λ j, inv_amount_paid j = total now) out.
Proof.
  intros found now Hd0 Hd Hsame Hp0 Hp Htr Hov.
  pose proof (new_transfers_follow_chain old new top0 top deepest pool0 pool i
    Hd0 Hd Hsame Hp0 Hp Htr) as Hnow.
  eexists. split; [by apply update_closure_spec|].
  destruct (Invoice_eq (rescanned found top deepest i) i) eqn:E; simpl.
  - apply Invoice_eq_same in E as [Hperm He]. split_and!; [|by apply (f_equal inv_current_height) in He|done].
    by rewrite <-Hperm.
  - split_and!; [done|done|]. apply Forall_singleton. by apply zsum_perm, fmap_Permutation.
Qed.

Section store.
Context {St EI EK EH EF : Type} `{!Storage St EI EK EH EF}.
Context (wf : St → Prop) (view : St → StoreView) `{!LawfulStorage St EI EK EH EF wf view}.
Context `{Monero} {W : Type}.

(** [update_invoices] over a whole store: it reports, for a selection
    of the stored invoices (those that could be read), exactly those that
    change, each as the previous property says; nothing is written yet. *)
Theorem update_invoices_spec {RpcError} found n (s : Scanner W St) st :
  let top := bc_height (s_block_cache s) in
  let deepest := top - n + 1 in
  s_store s = Running st → wf st →
  0 ≤ n ≤ top → in_u64 (top + 1) →
  (∀ id i, v_invoices (view st) !! id = Some i → no_overflow found top deepest i) →
  ∃ invoices out, update_invoices (RpcError:=RpcError) found n s = (s, Ok out) ∧
    invoices ⊆+ (map_to_list (v_invoices (view st))).*2 ∧
    Forall2 (updated_to found top deepest)
      (filter (λ i, Invoice_eq (rescanned found top deepest i) i = false) invoices) out.
Proof.
  intros top deepest Hst Hwf Hn Hin Hov.
  destruct (law_for_each st Hwf) as (items & invoices & Hperm & Hitems & Heach).
  assert (Hread : ∃ readable, (∀ i, inl i ∈ items → i ∈ invoices) ∧
    readable `sublist_of` invoices ∧ omap (λ it, match it with inl i => Some i | inr _ => None end) items = readable).
  { clear -Hitems. induction Hitems as [|it i items invoices Hit Hitems (readable & Hin & Hsub & Ho)].
    { exists []. split_and!; [|done|done]. intros i Hi. by apply elem_of_nil in Hi. }
    destruct Hit as [->|[e ->]].
    - exists (i :: readable). split_and!; [|by apply sublist_skip|by rewrite <-Ho].
      intros j [[= ->]|?]%elem_of_cons; [left|right; auto].
    - exists readable. split_and!; [|by apply sublist_cons|done].
      intros j [?|?]%elem_of_cons; [done|right; auto]. }
  destruct Hread as (readable & Hin' & Hsub & Hread).
  assert (Hov' : ∀ i, inl i ∈ items → no_overflow found top deepest i).
  { intros i Hi. apply Hin' in Hi. rewrite Hperm in Hi.
    apply list_elem_of_fmap in Hi as ([id i'] & -> & Hi%elem_of_map_to_list). eauto. }
  exists readable. unfold update_invoices, bind at 1, gets. cbv beta. fold top.
  unfold bind at 1, u64_sub. unfold in_u64 in Hin. rewrite u64_checked_in by (split; lia). cbn [ret].
  unfold bind at 1, u64_add. rewrite u64_checked_in by (split; lia). cbn [ret]. fold deepest.
  unfold on_store, zoom, store, map_err, Client_try_for_each_invoice, client_request. rewrite Hst.
  cbn [Manager_handle]. unfold map_err, for_each_method. rewrite Heach, update_loop by done.
  eexists. split; [|split].
  - by rewrite <-Hst; destruct s.
  - rewrite <-Hperm. by apply sublist_submseteq.
  - rewrite <-Hread. clear. induction items as [|[i|e] items IH]; [done| |done].
    cbn [fmap list_fmap mjoin list_join omap list_omap]. rewrite filter_cons.
    destruct (Invoice_eq _ i); simpl; [done|]. constructor; [apply recalculated_updated|done].
Qed.
End store.

End properties.
