(* ===== verification/ScannerOutputs.v ===== *)
(** Which outputs a scan counts: the properties of [scan_transactions] and
    [output_key_is_unique] of [library/src/scanner.rs]. *)
From S2P Require Import Prelude.
From S2P Require Import Invoice.
From S2P Require Import Storage.
From S2P Require Import Monerod.
From S2P Require Import TxpoolCache.
From S2P Require Import Scanner.

(** * The reference: which outputs are accepted *)

Section accept.
Context `{Monero}.

Notation Keys := (gmap OutputPubKey OutputId).
(** An owned output and the hash of its transaction. *)
Notation TxOutput := (Hash * OwnedTxOut)%type.

Definition output_key (p : TxOutput) : OutputPubKey := mk_OutputPubKey (owned_key p.2).
Definition output_id (p : TxOutput) : OutputId := OwnedTxOut_id p.2 p.1.

Definition unique (keys : Keys) (p : TxOutput) : bool :=
  match keys !! output_key p with
  | Some id => bool_decide (id = output_id p)
  | None => true
  end.
Definition recorded (keys : Keys) (p : TxOutput) : Keys :=
  match keys !! output_key p with
  | Some _ => keys
  | None => <[output_key p := output_id p]> keys
  end.

(** The keys known after the outputs, and the outputs whose key is their own. *)
Fixpoint accept (keys : Keys) (outs : list TxOutput) : Keys * list TxOutput :=
  match outs with
  | [] => (keys, [])
  | p :: outs =>
      let '(keys', accepted) := accept (recorded keys p) outs in
      (keys', if unique keys p then p :: accepted else accepted)
  end.

(** The owned outputs of the transactions without a time lock. *)
Definition owned_outs (transactions : list transaction) (checker : SubKeyChecker) : list TxOutput :=
  mjoin ((λ tx, match check_outputs_with tx checker with
                | inl outs => (λ o, (transaction_hash tx, o)) <$> outs
                | inr _ => []
                end) <$> filter (λ tx, unlock_time tx = 0) transactions).

(** The values that the types of an output allow. *)
Definition output_wf (p : TxOutput) : Prop :=
  hash_wf p.1 ∧ hash_wf (owned_key p.2) ∧ 0 ≤ owned_index p.2 ∧ SubIndex_wf (owned_sub_index p.2).

(** [counted] are all the accepted outputs to a tracked index, and possibly
    others. *)
Inductive picks (tracked : SubIndex → Prop) : list TxOutput → list TxOutput → Prop :=
  | picks_nil : picks tracked [] []
  | picks_take p l counted : picks tracked l counted → picks tracked (p :: l) (p :: counted)
  | picks_skip p l counted :
      ¬ tracked (owned_sub_index p.2) → picks tracked l counted → picks tracked (p :: l) counted.

Definition counted_amount (p : TxOutput) : OwnedAmount :=
  mk_OwnedAmount (owned_sub_index p.2) (default 0 (owned_amount p.2)).

(** [m'] has the amounts of [counted] on top of those of [m]. *)
Definition adds (m m' : TxMap (list OwnedAmount)) (counted : list TxOutput) : Prop :=
  ∀ h, default [] (m' !! h) =
       default [] (m !! h) ++ (counted_amount <$> filter (λ p : TxOutput, p.1 = h) counted).

(** * Lemmas *)

Lemma accept_app keys l k :
  accept keys (l ++ k) =
    ((accept (accept keys l).1 k).1, (accept keys l).2 ++ (accept (accept keys l).1 k).2).
Proof.
  revert keys. induction l as [|p l IH]; intros keys; simpl; [by destruct (accept keys k)|].
  rewrite IH. destruct (accept (recorded keys p) l) as [k1 l1]. simpl. by destruct (unique keys p).
Qed.

Lemma recorded_subseteq keys p : keys ⊆ recorded keys p.
Proof. unfold recorded. destruct (keys !! _) eqn:E; [done|]. by apply insert_subseteq. Qed.

Lemma accept_subseteq keys l : keys ⊆ (accept keys l).1.
Proof.
  revert keys. induction l as [|p l IH]; intros keys; simpl; [done|].
  specialize (IH (recorded keys p)). destruct (accept (recorded keys p) l). simpl in *.
  etrans; [apply recorded_subseteq|done].
Qed.

(** Every accepted output owns its key. *)
Lemma accept_owns keys l p :
  p ∈ (accept keys l).2 → (accept keys l).1 !! output_key p = Some (output_id p).
Proof.
  revert keys. induction l as [|q l IH]; intros keys; simpl; [by intros ?%elem_of_nil|].
  specialize (IH (recorded keys q)). pose proof (accept_subseteq (recorded keys q) l) as Hsub.
  destruct (accept (recorded keys q) l) as [k1 l1]. simpl in *.
  destruct (unique keys q) eqn:Eu; [|done]. intros [->|?]%elem_of_cons; [|auto].
  eapply lookup_weaken; [|exact Hsub]. unfold unique in Eu. unfold recorded.
  destruct (keys !! output_key q) as [id|] eqn:E.
  - apply bool_decide_eq_true in Eu as ->. done.
  - by rewrite lookup_insert_eq.
Qed.

Lemma picks_elem tracked l counted p : picks tracked l counted → p ∈ counted → p ∈ l.
Proof. induction 1; rewrite ?elem_of_cons; naive_solver. Qed.

Lemma picks_app tracked l1 c1 l2 c2 :
  picks tracked l1 c1 → picks tracked l2 c2 → picks tracked (l1 ++ l2) (c1 ++ c2).
Proof. induction 1; intros; simpl; [done|constructor; auto|apply picks_skip; auto]. Qed.

Lemma adds_nil m : adds m m [].
Proof. intros h. simpl. by rewrite app_nil_r. Qed.

Lemma adds_trans m1 m2 m3 c1 c2 : adds m1 m2 c1 → adds m2 m3 c2 → adds m1 m3 (c1 ++ c2).
Proof.
  intros H1 H2 h. rewrite (H2 h), (H1 h), filter_app, fmap_app. by rewrite (assoc_L (++)).
Qed.

Lemma adds_push m h o a :
  owned_amount o = Some a →
  adds m (push_amount h (mk_OwnedAmount (owned_sub_index o) a) m) [(h, o)].
Proof.
  intros Ha h'. unfold push_amount. rewrite lookup_insert, filter_cons, filter_nil. simpl.
  repeat case_decide; simplify_eq; simpl; [|by rewrite app_nil_r].
  unfold counted_amount. simpl. by rewrite Ha.
Qed.

Section store.
Context {St EI EK EH EF RpcError : Type} `{!Storage St EI EK EH EF}.
Context (wf : St → Prop) (view : St → StoreView) `{HL : !LawfulStorage St EI EK EH EF wf view}.

Definition flatten (l : list (Hash * list OwnedTxOut)) : list TxOutput :=
  mjoin ((λ p, (λ o, (p.1, o)) <$> p.2) <$> l).

Lemma flatten_cons h outs l : flatten ((h, outs) :: l) = ((λ o, (h, o)) <$> outs) ++ flatten l.
Proof. done. Qed.

Lemma owned_outputs_spec transactions checker l :
  owned_outputs_per_tx (RpcError:=RpcError) (EI:=EI) (EK:=EK) (EH:=EH) (EF:=EF)
    transactions checker = Ok l →
  flatten l = owned_outs transactions checker.
Proof.
  revert l. induction transactions as [|tx txs IH]; intros l; simpl; [by intros [= <-]|].
  unfold owned_outs. rewrite filter_cons. destruct (Z.eqb_spec (unlock_time tx) 0) as [E|E].
  - rewrite decide_True by done. cbn [fmap list_fmap mjoin list_join].
    destruct (check_outputs_with tx checker) as [outs|e]; [|done].
    destruct (owned_outputs_per_tx txs checker) as [l'|e| |] eqn:E'; try done.
    intros [= <-]. cbn [flatten fmap list_fmap mjoin list_join]. unfold flatten in *.
    cbn [fmap list_fmap mjoin list_join]. f_equal. by apply IH.
  - rewrite decide_False by done. apply IH.
Qed.

(** Subaddresses of stored invoices. *)
Definition tracked (s : St) (x : SubIndex) : Prop :=
  ∃ id, is_Some (v_invoices (view s) !! id) ∧ sub_index id = x.

(** A request to a running, lawful store. *)
Lemma wp_request {E A} (message : Method EI A) (f : E → AnyError EI EK EH EF) (m : M St E A)
    (ok : A → StoreView → Prop) (Q : Manager St → outcome (ScannerError RpcError EI EK EH EF) A → Prop) s :
  Manager_handle message = map_err f m →
  wp m (or_fail wf view s ok) s →
  (∀ s' a, wf s' → ok a (view s') → Q (Running s') (Ok a)) →
  (∀ s' e, wf s' → view s' = view s → Q (Running s') (Err e)) →
  wp (store (client_request message)) Q (Running s).
Proof.
  intros Hm Hwp Hok Herr. unfold wp, store, map_err, client_request in *. rewrite Hm. unfold map_err.
  destruct (m s) as [s' [a|e| |]]; destruct Hwp as [Hwf Hr]; simpl in *; auto; done.
Qed.

(** What scanning leaves of the store: the same invoices, and the keys of
    the outputs. *)
Definition scanned (s s' : St) (keys : Keys) : Prop :=
  wf s' ∧ v_invoices (view s') = v_invoices (view s) ∧ v_keys (view s') = keys.

Lemma wp_output_key_is_unique h o s :
  wf s → output_wf (h, o) →
  wp (output_key_is_unique (RpcError:=RpcError) o h) (λ mgr r, ∃ s', mgr = Running s' ∧
    match r with
    | Ok b => scanned s s' (recorded (v_keys (view s)) (h, o)) ∧ b = unique (v_keys (view s)) (h, o)
    | Err _ => wf s'
    | _ => False
    end) (Running s).
Proof.
  intros Hwf (Hh & Hk & Hi & _). unfold output_key_is_unique.
  destruct (Z.ltb_spec 255 (owned_index o)); [by exists s|].
  apply wp_bind. eapply wp_request; [done|by apply law_key_get|..]; [|eauto].
  intros s1 a Hwf1 [Hv ->]. unfold recorded, unique, output_key, output_id. simpl.
  destruct (v_keys (view s) !! mk_OutputPubKey (owned_key o)) as [id|] eqn:E.
  - assert (scanned s s1 (v_keys (view s))) by by rewrite <-Hv in *; unfold scanned; rewrite Hv.
    case_decide as Hid; apply wp_ret; exists s1; (split; [done|]); (split; [done|]).
    + by rewrite bool_decide_false by congruence.
    + by rewrite bool_decide_true.
  - apply wp_bind. eapply wp_request; [done|apply law_key_insert; try done|..]; [|eauto|eauto].
    { simpl in *. by split; simpl; [|lia]. }
    intros s2 [] Hwf2 [_ Hv2]. apply wp_ret. exists s2. split; [done|]. split; [|done].
    unfold scanned. by rewrite Hv2, Hv.
Qed.

Lemma scan_outputs_of h outs m s :
  wf s → Forall (λ o, output_wf (h, o)) outs →
  wp (fold_each outs m (scan_output (RpcError:=RpcError) h)) (λ mgr r, ∃ s', mgr = Running s' ∧
    match r with
    | Ok m' => ∃ counted,
        let '(keys, accepted) := accept (v_keys (view s)) ((λ o, (h, o)) <$> outs) in
        scanned s s' keys ∧ picks (tracked s) accepted counted ∧
        Forall (λ p : TxOutput, is_Some (owned_amount p.2)) counted ∧ adds m m' counted
    | Err _ => wf s'
    | _ => False
    end) (Running s).
Proof.
  intros Hwf Houts. revert m s Hwf. induction Houts as [|o outs Ho Houts IH]; intros m s Hwf.
  { apply wp_ret. exists s. split; [done|]. exists []. simpl.
    split_and!; [done..|constructor|done|apply adds_nil]. }
  cbn [fold_each fmap list_fmap accept]. apply wp_bind. unfold scan_output at 1.
  apply wp_bind. eapply wp_mono; [by apply wp_output_key_is_unique|].
  intros mgr [b|e| |] (s1 & -> & Hr); try done; [|by exists s1].
  destruct Hr as [(Hwf1 & Hinv1 & Hk1) ->].
  assert (Htr1 : tracked s = tracked s1) by (unfold tracked; by rewrite Hinv1).
  (* The rest of the loop, from a state [s2] that looks like [s1]. *)
  assert (Hrest : ∀ s2 m2 c2, wf s2 → view s2 = view s1 →
    Forall (λ p : TxOutput, is_Some (owned_amount p.2)) c2 → adds m m2 c2 →
    (∀ l c, picks (tracked s) l c →
       picks (tracked s) (if unique (v_keys (view s)) (h, o) then (h, o) :: l else l) (c2 ++ c)) →
    wp (fold_each outs m2 (scan_output (RpcError:=RpcError) h)) (λ mgr r, ∃ s', mgr = Running s' ∧
      match r with
      | Ok m' => ∃ counted,
          let '(keys, accepted) :=
            let '(keys', accepted) :=
              accept (recorded (v_keys (view s)) (h, o)) ((λ o, (h, o)) <$> outs) in
            (keys', if unique (v_keys (view s)) (h, o) then (h, o) :: accepted else accepted) in
          scanned s s' keys ∧ picks (tracked s) accepted counted ∧
          Forall (λ p : TxOutput, is_Some (owned_amount p.2)) counted ∧ adds m m' counted
      | Err _ => wf s'
      | _ => False
      end) (Running s2)).
  { intros s2 m2 c2 Hwf2 Hv2 Hsome Hadd Hpick. eapply wp_mono; [by apply IH|].
    intros mgr [m'|e| |] (s' & -> & Hr); try done; exists s'; [|done].
    split; [done|]. destruct Hr as (c & Hc). exists (c2 ++ c). rewrite Hv2, Hk1 in Hc.
    destruct (accept _ _) as [keys accepted]. destruct Hc as ((? & Hi & ?) & Hp & Ha & Hadd').
    rewrite Hv2, Hinv1 in Hi.
    assert (Htr2 : tracked s2 = tracked s) by (unfold tracked; by rewrite Hv2, Hinv1).
    rewrite Htr2 in Hp. split_and!; [done..|auto|by apply Forall_app|by eapply adds_trans]. }
  destruct (unique (v_keys (view s)) (h, o)) eqn:Eu; cbn [negb].
  2:{ apply wp_ret. apply (Hrest s1 m []); auto using adds_nil. }
  apply wp_bind. eapply wp_request; [done|apply law_contains; [done|apply Ho]|..]; [|by eauto].
  intros s2 b Hwf2 [Hv2 Hb]. destruct b.
  - destruct (owned_amount o) as [a|] eqn:Ea; [|apply wp_throw; by eauto].
    apply wp_ret. apply (Hrest s2 _ [(h, o)]); auto using adds_push.
    intros l c Hp. by constructor.
  - apply wp_ret. apply (Hrest s2 m []); auto using adds_nil.
    intros l c Hp. apply picks_skip; [|done]. rewrite Htr1. intros (id & Hid & Hx).
    by specialize (Hb id Hid Hx).
Qed.

Lemma scan_outputs_all l m s :
  wf s → Forall output_wf (flatten l) →
  wp (fold_each l m (λ amounts p, fold_each p.2 amounts (scan_output (RpcError:=RpcError) p.1)))
    (λ mgr r, ∃ s', mgr = Running s' ∧
    match r with
    | Ok m' => ∃ counted,
        let '(keys, accepted) := accept (v_keys (view s)) (flatten l) in
        scanned s s' keys ∧ picks (tracked s) accepted counted ∧
        Forall (λ p : TxOutput, is_Some (owned_amount p.2)) counted ∧ adds m m' counted
    | Err _ => wf s'
    | _ => False
    end) (Running s).
Proof.
  revert m s. induction l as [|[h outs] l IH]; intros m s Hwf Hl.
  { apply wp_ret. exists s. split; [done|]. exists []. simpl.
    split_and!; [done..|constructor|done|apply adds_nil]. }
  rewrite flatten_cons, Forall_app, Forall_fmap in Hl. destruct Hl as [Houts Hl].
  cbn [fold_each]. apply wp_bind. eapply wp_mono; [by apply scan_outputs_of|].
  intros mgr [m1|e| |] (s1 & -> & Hr); try done; [|by exists s1]. destruct Hr as (c1 & Hc1).
  rewrite flatten_cons, accept_app. cbn [fst snd] in *.
  destruct (accept (v_keys (view s)) _) as [keys1 acc1]. destruct Hc1 as (Hs1 & Hp1 & Ha1 & Hadd1).
  destruct Hs1 as (Hwf1 & Hinv1 & Hk1). eapply wp_mono; [by apply IH|].
  intros mgr [m2|e| |] (s2 & -> & Hr); try done; exists s2; [|done]. split; [done|].
  destruct Hr as (c2 & Hc2). exists (c1 ++ c2). rewrite Hk1 in Hc2. simpl.
  destruct (accept keys1 (flatten l)) as [keys2 acc2]. destruct Hc2 as ((? & Hi2 & ?) & Hp2 & ? & ?).
  assert (Htr : tracked s1 = tracked s) by (unfold tracked; by rewrite Hinv1).
  rewrite Htr in Hp2. rewrite Hinv1 in Hi2.
  split_and!; [done..|by apply picks_app|by apply Forall_app|by eapply adds_trans].
Qed.

(** * Properties *)

(** C7: what a scan of transactions counts, and the protection against the
    burning bug.  On success the amounts are, transaction by transaction
    and in order, those of the owned outputs of the transactions without a
    time lock whose key is not recorded for another output, provided they
    go to the subaddress of a stored invoice (a store may let others
    through).  Every counted output is recorded in the store under its
    key; so of the outputs with the same key only one ever counts.  The
    invoices of the store are untouched. *)
Theorem scan_transactions_spec transactions checker s :
  wf s → Forall output_wf (owned_outs transactions checker) →
  wp (scan_transactions (RpcError:=RpcError) transactions checker) (λ mgr r, ∃ s',
    mgr = Running s' ∧ wf s' ∧
    match r with
    | Ok m => ∃ counted,
        let '(keys, accepted) := accept (v_keys (view s)) (owned_outs transactions checker) in
        v_invoices (view s') = v_invoices (view s) ∧ v_keys (view s') = keys ∧
        picks (tracked s) accepted counted ∧
        (∀ h, default [] (m !! h) =
              counted_amount <$> filter (λ p : TxOutput, p.1 = h) counted) ∧
        Forall (λ p : TxOutput, is_Some (owned_amount p.2)) counted ∧
        (∀ p, p ∈ counted → v_keys (view s') !! output_key p = Some (output_id p)) ∧
        (∀ p q, p ∈ counted → q ∈ counted → output_key p = output_key q →
                output_id p = output_id q)
    | Err _ => True
    | _ => False
    end) (Running s).
Proof using All.
  intros Hwf Houts. unfold scan_transactions. apply wp_bind. unfold lift, wp at 1. cbn [fst snd].
  pose proof (owned_outputs_spec transactions checker) as Hout.
  destruct (owned_outputs_per_tx transactions checker) as [l|e| |] eqn:E; cycle 1.
  - by exists s.
  - exfalso. clear -E. induction transactions as [|tx txs IH]; simpl in E; [done|].
    repeat (case_match; simplify_eq; auto).
  - exfalso. clear -E. induction transactions as [|tx txs IH]; simpl in E; [done|].
    repeat (case_match; simplify_eq; auto).
  - rewrite <-(Hout l eq_refl) in *. eapply wp_mono; [by apply scan_outputs_all|].
    intros mgr [m|e| |] (s' & -> & Hr); try done; exists s'; (split; [done|]); [|done].
    destruct Hr as (counted & Hc). pose proof (accept_owns (v_keys (view s)) (flatten l)) as Howns.
    destruct (accept (v_keys (view s)) (flatten l)) as [keys accepted].
    destruct Hc as ((Hwf' & Hi & Hk) & Hp & Hsome & Hadd). split; [done|]. exists counted.
    assert (Hown : ∀ p, p ∈ counted → keys !! output_key p = Some (output_id p)).
    { intros p Hin. apply Howns. by eapply picks_elem. }
    split_and!; try done.
    + by rewrite Hk.
    + intros p q Hpin Hqin Heq. apply Hown in Hpin, Hqin. rewrite Heq in Hpin. congruence.
Qed.
End store.
End accept.
