(* ===== verification/ScannerDemo.v ===== *)
(** Concrete runs of the scanner against a small daemon and the in-memory
    store: witnesses of its properties, and two runs that go wrong. *)
From S2P Require Import Prelude.
From S2P Require Import Invoice.
From S2P Require Import Storage.
From S2P Require Import InMemory.
From S2P Require Import Monerod.
From S2P Require Import Demo.
From S2P Require Import BlockCache.
From S2P Require Import TxpoolCache.
From S2P Require Import SubaddressCache.
From S2P Require Import Pubsub.
From S2P Require Import Scanner.
From S2P Require Import ScannerUpdate.
From S2P Require Import ScannerOutputs.

Notation DemoScannerError := (ScannerError unit InMemoryStorageError InMemoryStorageError
  InMemoryStorageError InMemoryStorageError).

Definition demo_checker : SubKeyChecker (Monero:=DemoMonero) := ((1, 2), (0, 100)).

(** Subaddress (1, 3) is paid 5 piconeros in block 5. *)
Definition demo_payment : DemoTx := demo_tx 500 [mk_DemoOut 0 77 (SubIndex_new 1 3) (Some 5)].
Definition demo_chain_world (fails : option nat) : DemoWorld :=
  mk_DemoWorld 0 (λ b, if b =? 5 then [demo_payment] else []) [] 7 fails.

Definition demo_new (wd : DemoWorld) (size : nat) :
    ScannerEnv nat InMemory → ScannerEnv nat InMemory * outcome DemoScannerError (Scanner nat InMemory) :=
  Scanner_new (MonerodClient0:=DemoClient wd) size None.
Definition demo_scan (wd : DemoWorld) :
    Scanner nat InMemory → Scanner nat InMemory * outcome DemoScannerError unit :=
  Scanner_scan (MonerodClient0:=DemoClient wd) demo_checker.

(** Scan [n] times, whatever the results. *)
Fixpoint demo_scans (wd : DemoWorld) (n : nat) (s : Scanner nat InMemory) : Scanner nat InMemory :=
  match n with
  | O => s
  | S n => demo_scans wd n (demo_scan wd s).1
  end.

(** Restart: a new scanner on the store of the old one. *)
Definition demo_env (store : Manager InMemory) : ScannerEnv nat InMemory :=
  mk_ScannerEnv 0%nat store Publisher_new 0 0.

(** What is stored for the invoice: paid amount and transfers. *)
Definition demo_paid (s : Scanner nat InMemory) (id : InvoiceId) : option (Z * list Transfer) :=
  match s_store s with
  | Running st => (λ i, (inv_amount_paid i, inv_transfers i)) <$> im_invoices st !! id
  | Dead => None
  end.

(** An invoice over 10 piconeros, created when block 3 was the newest. *)
Definition demo_bill : Invoice :=
  mk_Invoice "1/3" (SubIndex_new 1 3) 4 10 0 None 1 4 20 [] "".

(** A scanner on a store, [None] if it cannot be set up. *)
Definition demo_start (wd : DemoWorld) (store : Manager InMemory) : option (Scanner nat InMemory) :=
  match demo_new wd 3 (demo_env store) with
  | (_, Ok s) => Some s
  | _ => None
  end.
Definition demo_stored_height (s : Scanner nat InMemory) : option Z :=
  match s_store s with Running st => im_height st | Dead => None end.



(** * Witnesses *)

Definition demo_found : list SubTransfer := [(SubIndex_new 1 3, Transfer_new 5 (Some 5))].

Lemma demo_no_overflow : no_overflow demo_found 6 5 demo_bill.
Proof.
  split; [simpl; lia|]. split; [split; vm_compute; congruence|].
  split; [split; vm_compute; congruence|]. split; [|vm_compute; congruence].
  apply (bool_decide_unpack _). by vm_compute.
Qed.

Lemma update_closure_correct_witness :
  ∃ j, update_closure (EI:=Empty_set) demo_found 6 5 (inl demo_bill) [] = ([j], Ok tt) ∧
       updated_to demo_found 6 5 demo_bill j.
Proof.
  destruct (update_closure_correct (EI:=Empty_set) demo_found 6 5 demo_bill [] demo_no_overflow)
    as (out & Heq & [(_ & _ & Hh)|(j & -> & Hj)]).
  - discriminate Hh.
  - by exists j.
Defined.

(** The block that paid 5 was replaced by one that pays 7. *)
Lemma update_closure_follows_chain_witness :
  let i := set_transfers [Transfer_new 5 (Some 5)] demo_bill in
  let old := λ h, if h =? 5 then [(SubIndex_new 1 3, 5)] else [] in
  let new := λ h, if h =? 5 then [(SubIndex_new 1 3, 7)] else [] in
  ∃ out, update_closure (EI:=Empty_set) (block_transfers new 5 6 ++ []) 6 5 (inl i) [] = (out, Ok tt) ∧
    Forall (λ j, inv_amount_paid j = 7) out.
Proof.
  intros i old new.
  destruct (update_closure_follows_chain (EI:=Empty_set) old new 5 6 5 [] [] i []) as (out & H1 & _ & _ & H2);
    try lia; try done.
  - intros h Hh. unfold old, new. by destruct (Z.eqb_spec h 5); [lia|].
  - split; [simpl; lia|]. split; [split; vm_compute; congruence|].
    split; [split; vm_compute; congruence|]. split; [|vm_compute; congruence].
    apply (bool_decide_unpack _). by vm_compute.
  - by exists out.
Defined.

Definition demo_scanner (store : InMemory) : Scanner nat InMemory :=
  mk_Scanner (Running store) (mk_BlockCache 6 7 [demo_block 6 6; demo_block 5 5] 0%nat)
    (mk_TxpoolCache 0%nat ∅ ∅) Publisher_new false.

Lemma update_invoices_spec_witness :
  ∃ invoices out,
    update_invoices (RpcError:=unit) demo_found 2 (demo_scanner (demo_store [demo_bill])) =
      (demo_scanner (demo_store [demo_bill]), Ok out) ∧
    Forall2 (updated_to demo_found 6 5)
      (filter (λ i, Invoice_eq (rescanned demo_found 6 5 i) i = false) invoices) out.
Proof.
  destruct (update_invoices_spec InMemory_wf InMemory_view (RpcError:=unit) demo_found 2
    (demo_scanner (demo_store [demo_bill])) (demo_store [demo_bill])) as (invoices & out & H1 & _ & H2).
  - done.
  - apply demo_store_wf. decide_goal.
  - simpl. lia.
  - split; vm_compute; congruence.
  - intros id i Hi.
    assert (i = demo_bill) as ->; [|apply demo_no_overflow].
    assert (Hm : v_invoices (InMemory_view (demo_store [demo_bill])) = {[Invoice_id demo_bill := demo_bill]})
      by (apply (bool_decide_unpack _); by vm_compute).
    rewrite Hm in Hi. by apply lookup_singleton_Some in Hi as [_ <-].
  - by exists invoices, out.
Defined.

(** A transaction that pays twice to the same key: only one output counts. *)
Definition demo_burning : list (transaction (Monero:=DemoMonero)) :=
  [demo_tx 501 [mk_DemoOut 0 88 (SubIndex_new 1 3) (Some 5);
                mk_DemoOut 1 88 (SubIndex_new 1 3) (Some 6)]].

Lemma scan_transactions_spec_witness :
  let r := scan_transactions (RpcError:=unit) demo_burning demo_checker
             (Running (demo_store [demo_bill])) in
  r.2 = Ok {[501 := [mk_OwnedAmount (SubIndex_new 1 3) 5]]} ∧
  ∃ s', r.1 = Running s' ∧ InMemory_wf s'.
Proof.
  intros r. split; [by vm_compute|].
  destruct (scan_transactions_spec (RpcError:=unit) InMemory_wf InMemory_view demo_burning
    demo_checker (demo_store [demo_bill])) as (s' & Hs & Hwf & _).
  - apply demo_store_wf. decide_goal.
  - by repeat constructor.
  - by exists s'.
Defined.
