(* ===== verification/ScannerInvariant.v ===== *)
(** What scanning keeps, however a scan ends: the invoices of the store with
    everything that was agreed when they were created.  The properties of
    whole passes of [library/src/scanner.rs], panics and errors included. *)
From S2P Require Import Prelude.
From S2P Require Import Sustains.
From S2P Require Import Invoice.
From S2P Require Import Storage.
From S2P Require Import Monerod.
From S2P Require Import BlockCache.
From S2P Require Import TxpoolCache.
From S2P Require Import Pubsub.
From S2P Require Import Scanner.
From S2P Require Import ScannerOutputs.

(** An invoice without what a scan may change: what was agreed on. *)
Definition terms (i : Invoice) : Invoice := set_paid 0 None (set_transfers [] (set_current_height 0 i)).
Definition terms_of (v : StoreView) : gmap InvoiceId Invoice := terms <$> v_invoices v.

Lemma terms_id i j : terms i = terms j → Invoice_id i = Invoice_id j.
Proof. intros E. by apply (f_equal Invoice_id) in E. Qed.
Lemma terms_index i j : terms i = terms j → inv_index i = inv_index j.
Proof. intros E. by apply (f_equal inv_index) in E. Qed.
Lemma terms_address i j : terms i = terms j → inv_address i = inv_address j.
Proof. intros E. by apply (f_equal inv_address) in E. Qed.

(** Replacing an invoice by one with the same terms. *)
Lemma terms_of_insert v id i :
  terms_of v !! id = Some (terms i) →
  terms_of (set_v_invoices (<[id := i]> (v_invoices v)) v) = terms_of v.
Proof. intros E. unfold terms_of in *. cbn [v_invoices set_v_invoices]. by rewrite fmap_insert, insert_id. Qed.

(** What external code returns has the values of its Rust types. *)
Class TypedCrates `{MonerodClient W RpcError} : Prop := {
  typed_outputs tx ck outs o :
    check_outputs_with tx ck = inl outs → o ∈ outs →
    output_wf (transaction_hash tx, o) ∧ ∀ a, owned_amount o = Some a → in_u64 a;
  typed_daemon_height w : wp mc_daemon_height (λ _ r, ∀ d, r = Ok d → in_u64 d) w;
}.
Arguments TypedCrates {_} W RpcError {_}.

(** The transfers that a scan handles. *)
Notation transfers_wf l := (Forall (λ p : SubTransfer, Transfer_wf p.2) l).
Definition amounts_wf (l : list OwnedAmount) : Prop := Forall (λ a, in_u64 (oa_amount a)) l.

(** What holds of the stored invoices during a scan: a property of them that
    says at least what their terms are. *)
Class ScanInv (ts : gmap InvoiceId Invoice) (Inv : StoreView → Prop) : Prop := {
  inv_terms v : Inv v → terms_of v = ts;
  inv_invoices v v' : v_invoices v' = v_invoices v → Inv v → Inv v';
}.
#[export] Hint Mode ScanInv - ! : typeclass_instances.
Definition terms_are (ts : gmap InvoiceId Invoice) (v : StoreView) : Prop := terms_of v = ts.
Definition invoices_are (m : gmap InvoiceId Invoice) (v : StoreView) : Prop := v_invoices v = m.
#[export] Instance terms_are_inv ts : ScanInv ts (terms_are ts).
Proof. split; [done|]. unfold terms_are, terms_of. by intros v v' ->. Qed.
#[export] Instance invoices_are_inv m : ScanInv (terms <$> m) (invoices_are m).
Proof. split; unfold invoices_are, terms_of; congruence. Qed.

Section scanner.
Context `{Build} `{HashOrder} `{Monero} {W RpcError : Type} `{!MonerodClient W RpcError}
  `{!TypedCrates W RpcError}.
Context {St EI EK EH EF : Type} `{!Storage St EI EK EH EF}.
Context (wf : St → Prop) (view : St → StoreView) `{HL : !LawfulStorage St EI EK EH EF wf view}.
Notation ScanError := (ScannerError RpcError EI EK EH EF).
Notation Scanner := (Scanner W St).

(** ** The store *)

Section terms.
Context (ts : gmap InvoiceId Invoice) (Inv : StoreView → Prop) `{HI : !ScanInv ts Inv}.

(** As long as the store runs, it is well formed and its invoices are as they
    should be. *)
Definition mgr_ok (m : Manager St) : Prop :=
  ∀ s, m = Running s → wf s ∧ Inv (view s).

(** A request that is a lawful operation of the store. *)
Lemma sustains_request {E A} (message : Method EI A) (f : E → AnyError EI EK EH EF) (m : M St E A)
    (P : A → Prop) (ok : St → A → StoreView → Prop) :
  Manager_handle message = map_err f m →
  (∀ s, wf s → wp m (or_fail wf view s (ok s)) s) →
  (∀ s a v', wf s → Inv (view s) → ok s a v' → Inv v' ∧ P a) →
  sustains mgr_ok P (client_request message).
Proof.
  intros Hm Hwp Hok [s|] Hs; [|by unfold client_request].
  destruct (Hs s eq_refl) as [Hwf Ht]. pose proof (Hwp s Hwf) as Hr. unfold wp in Hr.
  unfold client_request. rewrite Hm. unfold map_err.
  destruct (m s) as [s' [a|e| |]]; destruct Hr as [Hwf' Hr]; simpl in *; try done.
  - destruct (Hok s a _ Hwf Ht Hr) as [Ht' Ha]. split; [|by intros ? [= <-]].
    by intros ? [= <-].
  - split; [|done]. intros ? [= <-]. by rewrite Hr.
Qed.

Lemma keeps_key_get k : OutputPubKey_wf k → keeps mgr_ok (Client_get_output_key_id k).
Proof using All.
  intros Hk. eapply (sustains_request _ EKey); [done|intros; by apply law_key_get|].
  by intros s o v' _ E [-> ->].
Qed.

Lemma keeps_key_insert k o :
  OutputPubKey_wf k → OutputId_wf o → keeps mgr_ok (Client_insert_output_key k o).
Proof using All.
  intros Hk Ho. eapply (sustains_request _ EKey); [done|intros; by apply law_key_insert|].
  intros s [] v' _ E [_ ->]. split; [|done]. by apply (inv_invoices (view s)).
Qed.

Lemma keeps_contains x : SubIndex_wf x → keeps mgr_ok (Client_contains_sub_index x).
Proof using All.
  intros Hx. eapply (sustains_request _ EInvoice); [done|intros; by apply law_contains|].
  by intros s b v' _ E [-> _].
Qed.

Lemma keeps_upsert h : in_u64 h → keeps mgr_ok (Client_upsert_height h).
Proof using All.
  intros Hh. eapply (sustains_request _ EHeight); [done|intros; by apply law_upsert|].
  intros s o v' _ E [_ ->]. split; [|done]. by apply (inv_invoices (view s)).
Qed.

Lemma keeps_get_height : keeps mgr_ok Client_get_height.
Proof using All.
  eapply (sustains_request _ EHeight); [done|intros; by apply law_height|].
  by intros s o v' _ E [-> _].
Qed.

Lemma keeps_get_ids : keeps mgr_ok Client_get_invoice_ids.
Proof using All.
  eapply (sustains_request _ EInvoice); [done|intros; by apply law_get_ids|].
  by intros s o v' _ E [-> _].
Qed.

Lemma keeps_get id : InvoiceId_wf id → keeps mgr_ok (Client_get_invoice id).
Proof using All.
  intros Hid. eapply (sustains_request _ EInvoice); [done|intros; by apply law_get|].
  by intros s o v' _ E [-> _].
Qed.

Lemma keeps_flush : keeps mgr_ok Client_flush.
Proof using All.
  eapply (sustains_request _ EFlush); [done|intros; by apply law_flush|].
  by intros s o v' _ E ->.
Qed.

(** Reading all invoices: the closure sees invoices with these terms. *)
Definition stored_one (i : Invoice) : Prop :=
  Invoice_wf i ∧ ts !! Invoice_id i = Some (terms i).

Lemma sustains_for_each_invoice {C} (f : EachClosure C EI) (c : C) (P : C → Prop) :
  P c → (∀ it, (∀ i, it = inl i → stored_one i) → keeps P (f it)) →
  sustains mgr_ok P (Client_try_for_each_invoice f c).
Proof using All.
  intros Hc Hf [s|] Hs; [|by unfold Client_try_for_each_invoice, client_request].
  destruct (Hs s eq_refl) as [Hwf Ht].
  destruct (law_for_each s Hwf) as (items & invoices & Hperm & Hitems & Heach).
  assert (Hall : Forall (λ it, ∀ i, it = inl i → stored_one i) items).
  { apply Forall_forall. intros it Hin i ->.
    apply list_elem_of_lookup in Hin as [n Hn].
    destruct (Forall2_lookup_l _ _ _ _ _ Hitems Hn) as (j & Hj & [[= <-]|[e ?]]); [|done].
    apply list_elem_of_lookup_2 in Hj. rewrite Hperm in Hj.
    apply list_elem_of_fmap in Hj as ([id i'] & -> & Hi%elem_of_map_to_list).
    destruct (law_wf s Hwf id i' Hi) as [<- Hiwf]. split; [done|].
    rewrite <-(inv_terms _ Ht). unfold terms_of. rewrite lookup_fmap. cbn [fst snd] in *. by rewrite Hi. }
  pose proof (sustains_for_each P _ items f Hall Hf c Hc) as [Hc' _].
  unfold Client_try_for_each_invoice, client_request. cbn [Manager_handle].
  unfold map_err, for_each_method. rewrite Heach.
  destruct (for_each items f c) as [c' [[]|e| |]]; simpl in *;
    (split; [|by intros ? [= <-]]); intros ? [= <-]; done.
Qed.

Lemma keeps_lowest : keeps mgr_ok Client_lowest_invoice_height.
Proof using All.
  intros [s|] Hs; [|by unfold Client_lowest_invoice_height, client_request].
  split; [|done]. unfold Client_lowest_invoice_height, client_request. cbn [Manager_handle].
  unfold map_err. pose proof (is_lowest_height_state s) as Es.
  destruct (is_lowest_height s) as [s' [| | |]]; simpl in *; subst; by intros ? [= <-]; auto.
Qed.

(** ** Scanning transactions *)

Definition typed_output (h : Hash) (o : OwnedTxOut) : Prop :=
  output_wf (h, o) ∧ ∀ a, owned_amount o = Some a → in_u64 a.

Lemma owned_outputs_typed txs ck l :
  owned_outputs_per_tx (RpcError:=RpcError) (EI:=EI) (EK:=EK) (EH:=EH) (EF:=EF) txs ck = Ok l →
  Forall (λ p, Forall (typed_output p.1) p.2) l.
Proof using TypedCrates0.
  revert l. induction txs as [|tx txs IH]; intros l; simpl; [by intros [= <-]|].
  destruct (unlock_time tx =? 0); [|apply IH].
  destruct (check_outputs_with tx ck) as [outs|e] eqn:E; [|done].
  destruct (owned_outputs_per_tx txs ck) as [l'|e| |]; try done. intros [= <-].
  constructor; [|by apply IH]. simpl. apply Forall_forall. intros o Ho.
  by apply (typed_outputs tx ck outs).
Qed.

Lemma sustains_output_key_is_unique h o :
  output_wf (h, o) → keeps mgr_ok (output_key_is_unique (RpcError:=RpcError) o h).
Proof using All.
  intros (Hh & Hk & Hi & _). unfold output_key_is_unique.
  destruct (Z.ltb_spec 255 (owned_index o)); [apply sustains_throw|].
  eapply sustains_bind; [by apply sustains_map_err, keeps_key_get|]. intros [id|] _.
  - by case_decide; apply sustains_ret.
  - eapply sustains_bind; [|intros _ _; by apply sustains_ret].
    apply sustains_map_err, keeps_key_insert; [done|]. simpl in *. by split; simpl; [|lia].
Qed.

Definition received_wf (m : TxMap (list OwnedAmount)) : Prop := map_Forall (λ _, amounts_wf) m.

Lemma sustains_scan_output h m o :
  typed_output h o → received_wf m →
  sustains mgr_ok received_wf (scan_output (RpcError:=RpcError) h m o).
Proof using All.
  intros [Hwf Ha] Hm. unfold scan_output.
  eapply sustains_bind; [by apply sustains_output_key_is_unique|]. intros [] _; simpl; [|by apply sustains_ret].
  eapply sustains_bind; [apply sustains_map_err, keeps_contains, Hwf|].
  intros [] _; [|by apply sustains_ret].
  destruct (owned_amount o) as [a|]; [|apply sustains_throw]. apply sustains_ret.
  unfold push_amount. apply map_Forall_insert_2; [|done]. apply Forall_app. split.
  - destruct (m !! h) as [l|] eqn:E; [by apply (Hm h l)|constructor].
  - apply Forall_singleton. by apply Ha.
Qed.

Lemma sustains_scan_transactions txs ck :
  sustains mgr_ok received_wf (scan_transactions (RpcError:=RpcError) txs ck).
Proof using All.
  unfold scan_transactions. eapply sustains_bind.
  - apply sustains_lift. intros l Hl. exact (owned_outputs_typed txs ck l Hl).
  - intros l Hl. eapply sustains_fold_each; [apply map_Forall_empty|exact Hl|].
    intros m [h outs] Hm Houts. eapply sustains_fold_each; [done|exact Houts|].
    intros. by apply sustains_scan_output.
Qed.

(** ** Blocks and txpool *)

Definition bc_ok (c : BlockCache W) : Prop := in_u64 (bc_height c) ∧ in_u64 (bc_daemon_height c).
Definition pool_ok (c : TxpoolCache W) : Prop :=
  map_Forall (λ _ l, transfers_wf l) (tc_discovered_transfers c).
Definition scanner_ok (s : Scanner) : Prop :=
  mgr_ok (s_store s) ∧ bc_ok (s_block_cache s) ∧ pool_ok (s_txpool_cache s).

Lemma keeps_on_store {A} (P : A → Prop) (m : M (Manager St) ScanError A) :
  sustains mgr_ok P m → sustains scanner_ok P (on_store m).
Proof using Type.
  intros Hm. eapply sustains_zoom; [exact Hm|by intros s (? & _)|]. by intros s t (_ & ? & ?) ?.
Qed.

Lemma amounts_transfers_wf l h :
  amounts_wf l → match h with Some h => in_u64 h | None => True end →
  transfers_wf (to_transfer h <$> l).
Proof using Type. intros Hl Hh. apply Forall_fmap. eapply Forall_impl; [exact Hl|]. by intros a Ha. Qed.

Lemma Forall_mjoin {A} (P : A → Prop) (ls : list (list A)) :
  Forall (Forall P) ls → Forall P (mjoin ls).
Proof using Type. induction 1; simpl; [constructor|]. by apply Forall_app. Qed.

(** The values of a map, in the order of its iteration. *)
Lemma hash_iter_values {A} (P : A → Prop) (m : TxMap A) :
  map_Forall (λ _, P) m → Forall P (hash_iter m).*2.
Proof using Type.
  intros Hm. apply Forall_fmap, Forall_forall. intros [k a] Hin. apply elem_of_hash_iter in Hin.
  by apply (Hm k a).
Qed.

Lemma sustains_scan_blocks ck n :
  sustains scanner_ok (λ l, transfers_wf l) (scan_blocks (RpcError:=RpcError) ck n).
Proof using All.
  unfold scan_blocks. eapply sustains_bind; [by apply (sustains_gets _ (λ c, bc_ok c)); intros s (_ & ? & _)|].
  intros c Hc. eapply sustains_bind; [by apply (sustains_gets _ (λ _, True))|]. intros first _.
  eapply (sustains_fold_each _ (λ _, True)); [constructor|by apply Forall_forall|].
  intros l i Hl _. destruct (bc_blocks c !! i) as [b|]; [|apply sustains_panic].
  eapply sustains_bind; [apply keeps_on_store, sustains_scan_transactions|]. intros m Hm.
  eapply sustains_bind; [apply sustains_u64_sub|]. intros h Hh. apply sustains_ret.
  apply Forall_app. split; [done|]. apply amounts_transfers_wf; [|done].
  by apply Forall_mjoin, hash_iter_values.
Qed.

Lemma sustains_scan_txpool ck txs :
  sustains scanner_ok (λ l, transfers_wf l) (scan_txpool (RpcError:=RpcError) ck txs).
Proof using All.
  unfold scan_txpool. eapply sustains_bind; [by apply (sustains_gets _ pool_ok); intros s (_ & _ & ?)|].
  intros c Hc. eapply sustains_bind; [apply keeps_on_store, sustains_scan_transactions|].
  intros m Hm.
  set (new := (λ amounts : list OwnedAmount, to_transfer None <$> amounts) <$> m).
  assert (Hnew : map_Forall (λ _ l, transfers_wf l) new).
  { intros h l (amounts & <- & E)%lookup_fmap_Some. apply amounts_transfers_wf; [|done]. by apply (Hm h). }
  eapply sustains_bind.
  - apply sustains_modify. intros s (? & ? & Hp). split; [done|]. split; [done|].
    unfold pool_ok. simpl. by apply map_Forall_union_2.
  - intros [] _. apply sustains_ret. apply Forall_mjoin, hash_iter_values.
    by apply map_Forall_union_2.
Qed.

(** ** Updating the invoices *)

(** [j] is [i] after some steps of an update. *)
Definition update_of (i j : Invoice) : Prop := Invoice_wf j ∧ terms j = terms i.

Lemma update_of_transfers i j l :
  update_of i j → Forall Transfer_wf l → update_of i (set_transfers l j).
Proof using Type. intros [(? & ? & ? & ? & ? & ? & ? & _) E] Hl. by split; [split_and!|]. Qed.

Lemma update_of_paid i j paid h :
  update_of i j → in_u64 paid → update_of i (set_paid paid h j).
Proof using Type. intros [(? & ? & ? & _ & ? & ? & ? & ?) E] Hp. by split; [split_and!|]. Qed.

Lemma update_of_current i j h : update_of i j → in_u64 h → update_of i (set_current_height h j).
Proof using Type. intros [(? & ? & ? & ? & ? & _ & ? & ?) E] Hh. by split; [split_and!|]. Qed.

Lemma update_of_stored i j : stored_one i → update_of i j → stored_one j.
Proof using Type.
  intros [_ Ht] [Hj E]. split; [done|]. by rewrite (terms_id j i E), E.
Qed.

Lemma sustains_add_transfer {S E} (I : S → Prop) i j p :
  update_of i j → Transfer_wf p.2 → sustains I (update_of i) (add_transfer (E:=E) j p).
Proof using Type.
  intros Hj Hp. destruct p as [x t]. unfold add_transfer. case_decide; [|by apply sustains_ret].
  eapply sustains_bind; [apply sustains_u64_sub|]. intros h _.
  destruct (is_gt _); [|by apply sustains_ret]. apply sustains_ret, update_of_transfers; [done|].
  apply Forall_app. split; [apply Hj|by apply Forall_singleton].
Qed.

Lemma sustains_count_transfer {S E} (I : S → Prop) i j t :
  update_of i j → sustains I (update_of i) (count_transfer (E:=E) j t).
Proof using Type.
  intros Hj. unfold count_transfer. eapply sustains_bind; [apply sustains_u64_add|].
  intros paid Hp. apply sustains_ret.
  destruct (_ && _); [apply update_of_paid; [|done]|]; by apply update_of_paid.
Qed.

Lemma keeps_update_closure transfers top deepest it :
  transfers_wf transfers → (∀ i, it = inl i → stored_one i) →
  keeps (Forall stored_one) (update_closure (EI:=EI) transfers top deepest it).
Proof using Type.
  intros Htr Hit. unfold update_closure. destruct it as [i|e]; [|by apply sustains_ret].
  specialize (Hit i eq_refl).
  eapply (sustains_bind _ (update_of i)).
  { eapply (sustains_fold_each _ (λ p : SubTransfer, Transfer_wf p.2)); [|exact Htr|].
    - apply update_of_transfers; [by split; [apply Hit|]|].
      destruct Hit as [(_ & _ & _ & _ & _ & _ & _ & Hts) _]. rewrite Forall_forall in *.
      intros t [_ ?]%list_elem_of_filter. auto.
    - intros. by apply sustains_add_transfer. }
  intros j Hj. eapply sustains_bind; [apply sustains_u64_add|]. intros next Hnext.
  set (j' := if _ =? next then j else _).
  assert (Hj' : update_of i j') by by subst j'; destruct (_ =? _); [|apply update_of_current].
  destruct (negb _); [|by apply sustains_ret].
  eapply (sustains_bind _ (update_of i)).
  { eapply (sustains_fold_each _ (λ _, True)); [by apply update_of_paid|by apply Forall_forall|].
    intros. by apply sustains_count_transfer. }
  intros k Hk. apply sustains_modify. intros acc Hacc. apply Forall_app. split; [done|].
  by apply Forall_singleton, (update_of_stored i).
Qed.

Lemma sustains_update_invoices transfers n :
  transfers_wf transfers →
  sustains scanner_ok (Forall stored_one) (update_invoices (RpcError:=RpcError) transfers n).
Proof using All.
  intros Htr. unfold update_invoices.
  eapply sustains_bind; [by apply (sustains_gets _ (λ _, True))|]. intros top _.
  eapply sustains_bind; [apply sustains_u64_sub|]. intros d _.
  eapply sustains_bind; [apply sustains_u64_add|]. intros deepest _.
  apply keeps_on_store, sustains_map_err, sustains_for_each_invoice; [constructor|].
  intros it Hit. by apply keeps_update_closure.
Qed.

(** ** The caches *)

Lemma keeps_call {A} (call : M W RpcError A) (P : A → Prop) :
  (∀ w, wp call (λ _ r, ∀ a, r = Ok a → P a) w) → sustains bc_ok P (rpc call).
Proof using Type.
  intros Hcall. eapply (sustains_zoom _ (λ _, True)); [|done|by intros c w ? _].
  apply sustains_map_err. intros w _. split; [done|]. apply Hcall.
Qed.

Lemma keeps_any {A} (call : M W RpcError A) : keeps bc_ok (rpc call).
Proof using Type. by apply keeps_call. Qed.

Lemma keeps_blocks (f : list Block → list Block) :
  keeps bc_ok (modify (E:=BlockCacheError RpcError) (λ c, set_bc_blocks (f (bc_blocks c)) c)).
Proof using Type. by apply sustains_modify. Qed.

Lemma keeps_fix_reorg : keeps bc_ok (BlockCache_check_and_fix_reorg (RpcError:=RpcError)).
Proof using Type.
  unfold BlockCache_check_and_fix_reorg.
  eapply sustains_bind; [by apply (sustains_gets _ (λ _, True))|]. intros h _.
  eapply sustains_bind; [by apply (sustains_gets _ (λ _, True))|]. intros [|b bs] _; [apply sustains_panic|].
  eapply (sustains_fold_each _ (λ _, True)); [done|by apply Forall_forall|]. intros n i _ _.
  unfold fix_reorg_step. eapply sustains_bind; [by apply (sustains_gets _ (λ _, True))|]. intros blocks _.
  destruct (blocks !! i); [|apply sustains_panic]. destruct (blocks !! S i); [|apply sustains_panic].
  case_decide; [by apply sustains_ret|].
  do 2 (eapply sustains_bind; [apply sustains_u64_sub|intros ? _]).
  eapply sustains_bind; [apply keeps_any|]. intros [id blk] _.
  eapply sustains_bind; [apply keeps_any|]. intros txs _.
  do 2 (eapply sustains_bind; [apply sustains_u64_sub|intros ? _]).
  eapply sustains_bind; [apply keeps_blocks|]. intros [] _. by apply sustains_ret.
Qed.

Lemma keeps_BlockCache_update : keeps bc_ok (BlockCache_update (RpcError:=RpcError)).
Proof using TypedCrates0.
  unfold BlockCache_update.
  eapply sustains_bind; [apply (keeps_call _ in_u64), typed_daemon_height|]. intros d Hd.
  eapply sustains_bind; [by apply sustains_modify; intros c [? _]|]. intros [] _.
  eapply sustains_bind; [by apply (sustains_gets _ (λ _, True))|]. intros h _.
  eapply (sustains_bind _ (λ _, True)).
  2:{ intros n _. eapply sustains_bind; [apply keeps_fix_reorg|]. intros m _. by apply sustains_ret. }
  destruct (h <? _); [|by apply sustains_ret].
  eapply sustains_bind; [apply sustains_u64_add|]. intros next _.
  eapply sustains_bind; [apply keeps_any|]. intros [id blk] _.
  eapply sustains_bind; [apply keeps_any|]. intros txs _.
  eapply sustains_bind; [apply sustains_u64_add|]. intros next' _.
  do 2 (eapply sustains_bind; [apply keeps_blocks|intros [] _]).
  eapply sustains_bind.
  { apply sustains_modify. intros c [_ ?]. by split; [apply wrap_u64_in|]. }
  intros [] _. by apply sustains_ret.
Qed.

Lemma keeps_TxpoolCache_update : keeps pool_ok (TxpoolCache_update (RpcError:=RpcError)).
Proof using Type.
  assert (Hcall : ∀ A (call : M W RpcError A),
    keeps pool_ok (zoom tc_client set_tc_client (map_err TxpoolRpc call))).
  { intros A call. eapply (sustains_zoom _ (λ _, True)); [|done|by intros c w ? _].
    by apply sustains_map_err. }
  unfold TxpoolCache_update. eapply sustains_bind; [apply Hcall|]. intros hs _.
  eapply sustains_bind; [by apply (sustains_gets _ (λ _, True))|]. intros known _.
  eapply sustains_bind; [eapply sustains_keeps, sustains_try, Hcall|]. intros r _.
  eapply sustains_bind; [by apply sustains_modify|]. intros [] _.
  eapply sustains_bind.
  { apply sustains_modify. intros c Hc. unfold pool_ok. cbn [tc_discovered_transfers set_tc_discovered].
    intros h l. rewrite retain_lookup. case_decide; [|done]. by apply Hc. }
  intros [] _. eapply sustains_bind; [by apply (sustains_lift _ (λ _, True))|]. intros txs _.
  eapply sustains_bind; [by apply sustains_modify|]. intros [] _. by apply sustains_ret.
Qed.

Lemma keeps_update_caches : keeps scanner_ok (update_caches (RpcError:=RpcError) (EI:=EI) (EK:=EK) (EH:=EH) (EF:=EF)).
Proof using TypedCrates0.
  unfold update_caches. eapply sustains_bind.
  { eapply sustains_zoom; [apply sustains_map_err, keeps_BlockCache_update|by intros s (_ & ? & _)|].
    by intros s t (? & _ & ?) ?. }
  intros n _. eapply sustains_bind.
  { eapply sustains_zoom; [apply sustains_map_err, keeps_TxpoolCache_update|by intros s (_ & _ & ?)|].
    by intros s t (? & ? & _) ?. }
  intros txs _. by apply sustains_ret.
Qed.

(** ** Caught results *)

Lemma sustains_result {S E A} (I : S → Prop) (P : A → Prop) (r : A + E) :
  match r with inl a => P a | inr _ => True end → sustains I P (result r).
Proof using Type. intros Hr. apply sustains_lift. destruct r; by intros ? [= <-]. Qed.

(** ** A new scanner *)

Definition env_ok (e : ScannerEnv W St) : Prop :=
  mgr_ok (env_store e) ∧ in_u64 (env_cache_height e) ∧ in_u64 (env_daemon_height e).

Lemma keeps_env_store {A} (P : A → Prop) (m : M (Manager St) ScanError A) :
  sustains mgr_ok P m → sustains env_ok P (zoom env_store set_env_store m).
Proof using Type.
  intros Hm. eapply sustains_zoom; [exact Hm|by intros e (? & _)|]. by intros e t (_ & ? & ?) ?.
Qed.

Lemma keeps_env_call {E A} (f : E → ScanError) (call : M W E A) (P : A → Prop) :
  sustains (λ _, True) P call → sustains env_ok P (env_call f call).
Proof using Type.
  intros Hcall. eapply (sustains_zoom _ (λ _, True)); [by apply sustains_map_err|done|].
  by intros e w (? & ? & ?) _.
Qed.

Lemma sustains_last_height :
  keeps mgr_ok (last_height (RpcError:=RpcError) (EI:=EI) (EK:=EK) (EH:=EH) (EF:=EF)).
Proof using All.
  unfold last_height. eapply sustains_bind; [apply sustains_map_err, keeps_get_height|].
  intros [h|] _; [by apply sustains_ret|].
  eapply sustains_bind; [apply sustains_map_err, keeps_lowest|]. by intros [h|] _; apply sustains_ret.
Qed.

Lemma sustains_BlockCache_init n h d :
  sustains (λ _, True) (λ c, bc_height c = h ∧ bc_daemon_height c = d)
    (BlockCache_init (RpcError:=RpcError) n h d).
Proof using Type.
  unfold BlockCache_init. eapply (sustains_bind _ (λ _, True)); [by intros w _; split|].
  intros bs _. by apply sustains_gets.
Qed.

Lemma sustains_TxpoolCache_init :
  sustains (λ _, True) pool_ok (TxpoolCache_init (RpcError:=RpcError)).
Proof using Type.
  unfold TxpoolCache_init. eapply (sustains_bind _ (λ _, True)); [by intros w _; split|].
  intros txs _. apply sustains_gets. intros w _. apply map_Forall_empty.
Qed.

Lemma sustains_Scanner_new n initial :
  sustains env_ok (λ s, bc_ok (s_block_cache s) ∧ pool_ok (s_txpool_cache s)) (Scanner_new (RpcError:=RpcError) n initial).
Proof using All.
  unfold Scanner_new. eapply (sustains_bind _ in_u64).
  { apply keeps_env_call. intros w _. split; [done|]. apply typed_daemon_height. }
  intros d Hd. eapply sustains_bind; [apply keeps_env_store, sustains_last_height|]. intros last _.
  eapply sustains_bind; [apply sustains_u64_sub|]. intros h Hh.
  eapply sustains_bind; [by apply sustains_modify; intros e (? & _)|]. intros [] _.
  eapply sustains_bind; [apply sustains_try, keeps_env_call, sustains_BlockCache_init|]. intros r1 Hr1.
  eapply sustains_bind; [apply sustains_try, keeps_env_call, sustains_TxpoolCache_init|]. intros r2 Hr2.
  eapply sustains_bind; [apply keeps_env_store, sustains_map_err, keeps_get_ids|]. intros ids _.
  eapply sustains_bind; [by apply sustains_modify; intros e (? & ? & ?)|]. intros [] _.
  eapply sustains_bind; [apply sustains_result; exact Hr1|]. intros c [Hc1 Hc2].
  eapply sustains_bind; [apply sustains_result; exact Hr2|]. intros p Hp.
  apply sustains_gets. intros e _. split; [|done]. unfold bc_ok. simpl. by rewrite Hc1, Hc2.
Qed.
End terms.

(** ** A whole scan *)

Lemma keeps_update ts i :
  Invoice_wf i → ts !! Invoice_id i = Some (terms i) →
  keeps (mgr_ok (terms_are ts)) (Client_update_invoice i).
Proof using All.
  intros Hi Ht. eapply (sustains_request _ _ EInvoice); [done|intros; by apply law_update|].
  intros s o v' _ E [-> ->]. split; [|done].
  destruct (v_invoices (view s) !! Invoice_id i); [|done]. unfold terms_are in *.
  by rewrite terms_of_insert; [|rewrite E].
Qed.

Lemma keeps_save_update ts i : stored_one ts i → keeps (scanner_ok (terms_are ts)) (save_update (RpcError:=RpcError) i).
Proof using All.
  intros [Hi Ht]. unfold save_update. eapply sustains_bind.
  { eapply sustains_keeps, sustains_try, keeps_on_store, sustains_map_err. by apply keeps_update. }
  intros [o|e] _; [|by apply sustains_ret].
  eapply (sustains_zoom _ (λ _, True)); [by intros p _|done|]. by intros s p (? & ? & ?) _.
Qed.

Lemma keeps_Scanner_scan ts ck : keeps (scanner_ok (terms_are ts)) (Scanner_scan (RpcError:=RpcError) ck).
Proof using All.
  unfold Scanner_scan. eapply sustains_bind; [apply keeps_update_caches|]. intros [n txs] _.
  eapply sustains_bind; [apply sustains_try, (sustains_scan_blocks ts _)|]. intros r1 Hr1.
  eapply sustains_bind; [apply sustains_try, (sustains_scan_txpool ts _)|]. intros r2 Hr2.
  eapply sustains_bind; [apply sustains_result; exact Hr1|]. intros l1 Hl1.
  eapply sustains_bind; [apply sustains_result; exact Hr2|]. intros l2 Hl2.
  eapply sustains_bind; [by apply sustains_modify; intros s (? & ? & ?)|]. intros [] _.
  eapply sustains_bind; [apply (sustains_update_invoices ts _); by apply Forall_app|]. intros l Hl.
  eapply sustains_bind; [eapply sustains_for_each; [exact Hl|intros; by apply keeps_save_update]|].
  intros [] _.
  eapply sustains_bind; [by apply (sustains_gets _ in_u64); intros s (_ & [? _] & _)|]. intros h Hh.
  eapply sustains_bind; [by apply keeps_on_store, sustains_map_err, (keeps_upsert ts _)|]. intros o _.
  by apply keeps_on_store, sustains_map_err, (keeps_flush ts _).
Qed.

(** Only a store that is gone can have any terms. *)
Lemma mgr_ok_all (m : Manager St) : (∀ ts, mgr_ok (terms_are ts) m) → m = Dead.
Proof using Type.
  intros Hm. destruct m as [s|]; [|done]. exfalso.
  destruct (Hm ∅ s eq_refl) as [_ E].
  set (i := mk_Invoice "" (SubIndex_new 0 0) 0 0 0 None 0 0 0 [] "").
  destruct (Hm {[Invoice_id i := i]} s eq_refl) as [_ E']. unfold terms_are in *. rewrite E in E'.
  apply (f_equal (lookup (Invoice_id i))) in E'. by rewrite lookup_empty, lookup_singleton_eq in E'.
Qed.

(** * Properties *)

Lemma on_store_first_scan {A} (m : M (Manager St) ScanError A) :
  keeps (λ s : Scanner, s_first_scan s = false) (on_store m).
Proof using Type. by eapply (sustains_zoom _ (λ _, True)). Qed.

Lemma on_store_request {A} (message : Method EI A) (s s' : Scanner) a :
  on_store (store (RpcError:=RpcError) (client_request message)) s = (s', Ok a) →
  ∃ st st' , s_store s = Running st ∧ s' = set_s_store (Running st') s ∧
    Manager_handle message st = (st', Ok a).
Proof using Type.
  unfold on_store, zoom, store, map_err, client_request.
  intros E. destruct (s_store s) as [st|] eqn:Est; [|done]. exists st.
  destruct (Manager_handle message st) as [st' [a'|e| |]]; simplify_eq/=. by exists st'.
Qed.

(** Recording the height, and making it durable. *)
Lemma record_height h (s s' : Scanner) st :
  s_store s = Running st → wf st → in_u64 h →
  (let! _ := on_store (store (RpcError:=RpcError) (Client_upsert_height h)) in
   on_store (store Client_flush)) s = (s', Ok tt) →
  ∃ st', s' = set_s_store (Running st') s ∧ wf st' ∧ view st' = set_v_height (Some h) (view st).
Proof using HL.
  intros Hst Hwf Hh E. unfold bind in E.
  destruct (on_store (store (Client_upsert_height h)) s) as [s1 [o|e| |]] eqn:E1; try done.
  apply on_store_request in E1 as (st0 & st1 & Est & -> & E1). rewrite Hst in Est.
  injection Est as <-. apply on_store_request in E as (st1' & st2 & [= <-] & -> & E2).
  pose proof (law_upsert st h Hwf Hh) as Hup. unfold wp in Hup.
  cbn [Manager_handle] in E1, E2. unfold map_err in E1, E2.
  destruct (hs_upsert h st) as [? [| | |]]; simplify_eq/=. destruct Hup as [Hwf1 [_ Hv]].
  pose proof (law_flush st1 Hwf1) as Hfl. unfold wp in Hfl.
  destruct (storage_flush st1) as [? [| | |]]; simplify_eq/=. destruct Hfl as [Hwf2 Hv2].
  exists st2. split; [by destruct s|]. split; [done|]. by rewrite Hv2, Hv.
Qed.

(** What a scan records at its end: after the updates, the height. *)
Lemma scan_records ts ck (s s' : Scanner) :
  scanner_ok (terms_are ts) s → Scanner_scan (RpcError:=RpcError) ck s = (s', Ok tt) →
  s_first_scan s' = false ∧ ∃ st', s_store s' = Running st' ∧
    v_height (view st') = Some (bc_height (s_block_cache s')).
Proof using All.
  intros Hs E. unfold Scanner_scan in E.
  apply (sustains_bind_Ok (scanner_ok (terms_are ts)) (λ _, True)) in E as (s1 & [n txs] & Hs1 & _ & E);
    [|apply keeps_update_caches|done].
  eapply (sustains_bind_Ok (scanner_ok (terms_are ts))) in E as (s2 & r1 & Hs2 & Hr1 & E);
    [|apply sustains_try, (sustains_scan_blocks ts _)|done].
  eapply (sustains_bind_Ok (scanner_ok (terms_are ts))) in E as (s3 & r2 & Hs3 & Hr2 & E);
    [|apply sustains_try, (sustains_scan_txpool ts _)|done].
  eapply (sustains_bind_Ok (scanner_ok (terms_are ts))) in E as (s4 & l1 & Hs4 & Hl1 & E);
    [|apply sustains_result; exact Hr1|done].
  eapply (sustains_bind_Ok (scanner_ok (terms_are ts))) in E as (s5 & l2 & Hs5 & Hl2 & E);
    [|apply sustains_result; exact Hr2|done].
  set (I := λ s : Scanner, scanner_ok (terms_are ts) s ∧ s_first_scan s = false).
  assert (Hset : I (set_s_first_scan false s5)) by by destruct Hs5 as (? & ? & ?).
  unfold bind at 1, modify in E.
  eapply (sustains_bind_Ok I) in E as (s6 & l & Hs6 & Hl & E); [| |exact Hset].
  2:{ apply sustains_and; [apply (sustains_update_invoices ts _); by apply Forall_app|].
      unfold update_invoices. repeat (eapply sustains_bind; [by eapply sustains_keeps,
        (sustains_gets _ (λ _, True)) || eapply sustains_keeps, sustains_u64_sub ||
        eapply sustains_keeps, sustains_u64_add|intros ? _]). apply on_store_first_scan. }
  eapply (sustains_bind_Ok I) in E as (s7 & [] & Hs7 & _ & E); [| |exact Hs6].
  2:{ eapply sustains_for_each; [exact Hl|]. intros i Hi.
      apply sustains_and; [by apply keeps_save_update|]. unfold save_update.
      eapply sustains_bind; [eapply sustains_keeps, sustains_try, on_store_first_scan|].
      intros [o|e] _; [|by apply sustains_ret]. by eapply (sustains_zoom _ (λ _, True)). }
  unfold bind at 1, gets in E. destruct Hs7 as [(Hm & [Hh _] & _) Hfirst].
  assert (∃ st, s_store s7 = Running st) as [st Hst].
  { unfold bind in E. destruct (on_store _ s7) as [s8 [o|e| |]] eqn:E1; try done.
    apply on_store_request in E1 as (st & _ & Est & _). by exists st. }
  destruct (Hm st Hst) as [Hwf _].
  destruct (record_height _ _ _ st Hst Hwf Hh E) as (st' & -> & _ & Hv). simpl.
  split; [done|]. exists st'. by rewrite Hv.
Qed.

(** C8: a scan keeps what was agreed.  However it ends (well, with an error,
    by a panic or blocked on a subscriber that does not read), and whatever
    the daemon answers, no invoice is added to the store or removed from it,
    and none changes its id, subaddress, requested amount, confirmations,
    expiration or description; fields stay in the range of their types.  A
    scan that ends well has stored the height of its cache, so a gateway that
    is started again goes on from there. *)
Theorem Scanner_scan_keeps_terms ck (s : Scanner) st :
  s_store s = Running st → wf st → bc_ok (s_block_cache s) → pool_ok (s_txpool_cache s) →
  wp (Scanner_scan (RpcError:=RpcError) ck) (λ s' r,
    (∀ st', s_store s' = Running st' →
       wf st' ∧ view_wf (view st') ∧ terms_of (view st') = terms_of (view st)) ∧
    bc_ok (s_block_cache s') ∧ pool_ok (s_txpool_cache s') ∧
    (r = Ok tt → s_first_scan s' = false ∧ ∃ st', s_store s' = Running st' ∧
       v_height (view st') = Some (bc_height (s_block_cache s')))) s.
Proof using All.
  intros Hst Hwf Hbc Hpool.
  assert (Hs : scanner_ok (terms_are (terms_of (view st))) s).
  { split; [|done]. intros st1. rewrite Hst. by intros [= <-]. }
  destruct (keeps_Scanner_scan _ ck s Hs) as [(Hm & Hbc' & Hpool') _].
  unfold wp. split; [|split; [done|split; [done|]]].
  - intros st' E. destruct (Hm st' E) as [Hwf' Ht]. split; [done|]. split; [by apply law_wf|done].
  - intros Hr. eapply scan_records; [exact Hs|].
    rewrite <-Hr. apply surjective_pairing.
Qed.
End scanner.
