(* ===== verification/ScannerDelivers.v ===== *)
(** What subscribers learn from a scan: everything that it stores.  The
    composition of [library/src/scanner.rs] with [library/src/pubsub.rs]. *)
From S2P Require Import Prelude.
From S2P Require Import Sustains.
From S2P Require Import Invoice.
From S2P Require Import Storage.
From S2P Require Import Monerod.
From S2P Require Import BlockCache.
From S2P Require Import TxpoolCache.
From S2P Require Import Pubsub.
From S2P Require Import Scanner.
From S2P Require Import ScannerOutputs.
From S2P Require Import ScannerInvariant.

(** * Listening *)

(** The updates that a subscription is about. *)
Definition wanted (key : option InvoiceId) (i : Invoice) : Prop :=
  match key with Some id => Invoice_id i = id | None => True end.
#[export] Instance wanted_dec key i : Decision (wanted key i).
Proof. unfold wanted. destruct key; apply _. Defined.

Lemma filter_wanted_all (us : list Invoice) : filter (wanted None) us = us.
Proof. induction us as [|u us IH]; [done|]. by rewrite filter_cons, IH. Qed.

(** The receiver [rx] is alive, and so are those that are served before it. *)
Definition listens (p : Publisher) (key : option InvoiceId) (rx : nat) : Prop :=
  rx ∈ (live_prefix (channels p) (subs_of key p)).*2.

(** From [p0] to [p], everybody who listened has been sent the updates [us]
    that concern him, and nothing else. *)
Definition heard (p0 : Publisher) (us : list Invoice) (p : Publisher) : Prop :=
  ∀ key rx, listens p0 key rx → listens p key rx ∧ ∃ ch ch',
    channels p0 !! rx = Some ch ∧ channels p !! rx = Some ch' ∧ ch_receiver ch' = true ∧
    ch_queue ch' = ch_queue ch ++ filter (wanted key) us.

Lemma live_prefix_alive cs l x : x ∈ (live_prefix cs l).*2 → alive cs x = true.
Proof.
  induction l as [|s l IH]; simpl; [by intros ?%elem_of_nil|].
  destruct (alive cs s.2) eqn:E; [|by intros ?%elem_of_nil]. intros [->|Hx]%elem_of_cons; auto.
Qed.

Lemma live_prefix_elem cs l x : x ∈ (live_prefix cs l).*2 → x ∈ l.*2.
Proof.
  induction l as [|s l IH]; simpl; [done|].
  destruct (alive cs s.2); [|by intros ?%elem_of_nil]. intros [->|Hx]%elem_of_cons; [left|right; auto].
Qed.

Lemma live_prefix_again cs l : live_prefix cs (live_prefix cs l) = live_prefix cs l.
Proof.
  induction l as [|s l IH]; [done|]. simpl. destruct (alive cs s.2) eqn:E; [|done].
  simpl. by rewrite E, IH.
Qed.

Lemma heard_nothing p : heard p [] p.
Proof.
  intros key rx Hl. split; [done|]. apply live_prefix_alive in Hl. unfold alive in Hl.
  destruct (channels p !! rx) as [ch|]; [|done]. exists ch, ch. by rewrite app_nil_r.
Qed.

(** Whose channel is that? *)
Lemma listens_subscribed p key rx id :
  pub_wf p → listens p key rx → (rx ∈ (subscribers id p).*2 ↔ key = Some id ∨ key = None).
Proof.
  intros (_ & _ & Hinj) Hl%live_prefix_elem. unfold subscribers. rewrite fmap_app, elem_of_app. split.
  - apply list_elem_of_fmap in Hl as (s & -> & [i Hi]%list_elem_of_lookup_1).
    intros [(s' & E & [j Hj]%list_elem_of_lookup_1)%list_elem_of_fmap
           |(s' & E & [j Hj]%list_elem_of_lookup_1)%list_elem_of_fmap].
    + left. by destruct (Hinj key (Some id) i j s s').
    + right. by destruct (Hinj key None i j s s').
  - intros [-> | ->]; auto.
Qed.

(** One more update. *)
Lemma heard_update {E} p0 us p i :
  pub_wf p → heard p0 us p →
  (∀ s, s ∈ (subscribers (Invoice_id i) p).*2 → has_room (channels p) s) →
  heard p0 (us ++ [i]) (Publisher_send_updates (E:=E) i p).1.
Proof.
  intros Hwf Hh Hroom. pose proof Hwf as (Hnd & _ & _).
  destruct (send_updates_effect (E:=E) i p) as (p' & -> & Hc & Hsubs); auto using pub_wf_subscribers.
  intros key rx Hl0. destruct (Hh key rx Hl0) as (Hl & ch & ch' & Hch & Hch' & Halive & Hq).
  simpl. split.
  - unfold listens. rewrite Hc, live_prefix_delivered, Hsubs.
    case_decide; [by rewrite live_prefix_again|done].
  - exists ch. rewrite Hc, delivered_lookup, Hch'. simpl. eexists. split; [done|]. split; [done|].
    rewrite filter_app, filter_cons, filter_nil, (assoc_L (++)), <-Hq.
    pose proof (listens_subscribed p key rx (Invoice_id i) Hwf Hl) as Hsub.
    destruct (decide (rx ∈ _)) as [Hin|Hout].
    + unfold pushed. rewrite Halive. simpl. rewrite decide_True; [done|].
      apply Hsub in Hin as [-> | ->]; done.
    + rewrite decide_False; [by rewrite app_nil_r|]. intros Hw. apply Hout, Hsub.
      destruct key as [id|]; [left; by rewrite Hw|by right].
Qed.

(** * Scanning *)

(** The stored invoices, as somebody knows them who was told of [us]. *)
Definition replay (us : list Invoice) (m : gmap InvoiceId Invoice) : gmap InvoiceId Invoice :=
  foldl (λ m i, <[Invoice_id i := i]> m) m us.

Lemma replay_snoc us i m : replay (us ++ [i]) m = <[Invoice_id i := i]> (replay us m).
Proof. unfold replay. by rewrite foldl_app. Qed.

Section scanner.
Context `{Build} `{HashOrder} `{Monero} {W RpcError : Type} `{!MonerodClient W RpcError}
  `{!TypedCrates W RpcError}.
Context {St EI EK EH EF : Type} `{!Storage St EI EK EH EF}.
Context (wf : St → Prop) (view : St → StoreView) `{HL : !LawfulStorage St EI EK EH EF wf view}.
Notation ScanError := (ScannerError RpcError EI EK EH EF).
Notation Scanner := (Scanner W St).

Section from.
Context (v0 : gmap InvoiceId Invoice) (p0 : Publisher).
Notation stored := (stored_one (terms <$> v0)).

(** Before the first update, and after some. *)
Definition untold (s : Scanner) : Prop :=
  scanner_ok wf view (invoices_are v0) s ∧ s_publisher s = p0.
Definition told (s : Scanner) : Prop :=
  ∃ us, scanner_ok wf view (invoices_are (replay us v0)) s ∧ pub_wf (s_publisher s) ∧
    heard p0 us (s_publisher s) ∧ Forall stored us.

Lemma untold_told s : pub_wf p0 → untold s → told s.
Proof using Type.
  intros Hp [Hs Hpub]. exists []. rewrite Hpub. split_and!; [exact Hs|done|apply heard_nothing|constructor].
Qed.

(** The store has this invoice, however often it has been updated. *)
Lemma replay_stored us i : stored i → is_Some (replay us v0 !! Invoice_id i).
Proof using Type.
  intros [_ Hi]. rewrite lookup_fmap in Hi. assert (Hi0 : is_Some (v0 !! Invoice_id i)).
  { by destruct (v0 !! Invoice_id i). }
  clear Hi. unfold replay. revert Hi0. generalize v0. induction us as [|u us IH]; intros m Hm; [done|].
  simpl. apply IH, lookup_insert_is_Some'. by right.
Qed.

(** Saving an update: stored and published, or neither. *)
Lemma save_update_cases m i (s : Scanner) :
  scanner_ok wf view (invoices_are m) s → Invoice_wf i → is_Some (m !! Invoice_id i) →
  let '(s', r) := save_update (RpcError:=RpcError) i s in
  scanner_ok wf view (invoices_are m) s' ∧ s_publisher s' = s_publisher s ∨
  scanner_ok wf view (invoices_are (<[Invoice_id i := i]> m)) s' ∧
    Publisher_send_updates i (s_publisher s) = (s_publisher s', r).
Proof using All.
  intros (Hm & Hbc & Hpool) Hi [i0 Hi0]. unfold save_update, bind at 1.
  unfold try_, on_store, zoom, store, map_err, Client_update_invoice, client_request.
  destruct (s_store s) as [st|] eqn:Est.
  2:{ left. split; [|done]. by split. }
  destruct (Hm st eq_refl) as [Hwf Hv]. pose proof (law_update st i Hwf Hi) as Hup. unfold wp in Hup.
  cbn [Manager_handle]. unfold map_err. unfold invoices_are in *. rewrite Hv in Hup.
  destruct (is_update i st) as [st' [o|e| |]]; destruct Hup as [Hwf' Hr]; try done.
  - destruct Hr as [-> Hr]. rewrite Hi0 in Hr. simpl in *.
    destruct (Publisher_send_updates i (s_publisher s)) as [p' r]. right. split; [|done].
    split; [|done]. intros st1 [= <-]. split; [done|]. by rewrite Hr.
  - left. simpl in *. split; [|done]. split; [|done]. intros st1 [= <-]. split; [done|]. by rewrite Hr.
Qed.

Lemma save_update_told i : stored i → until_hang told told (save_update (RpcError:=RpcError) i).
Proof using All.
  intros Hi s (us & Hok & Hp & Hh & Hus).
  pose proof (save_update_cases _ i s Hok (proj1 Hi) (replay_stored us i Hi)) as Hcases.
  destruct (save_update i s) as [s' r]. simpl. intros Hr.
  destruct Hcases as [[Hok' Hpub]|[Hok' Hsend]].
  - exists us. by rewrite Hpub.
  - assert (Hroom : ∀ x, x ∈ (subscribers (Invoice_id i) (s_publisher s)).*2 →
      has_room (channels (s_publisher s)) x).
    { apply (send_updates_waits (E:=ScanError)); [done|]. by rewrite Hsend. }
    exists (us ++ [i]). rewrite replay_snoc. split; [done|].
    pose proof (send_updates_wf (E:=ScanError) i _ Hp Hroom) as Hwf.
    pose proof (heard_update (E:=ScanError) p0 us _ i Hp Hh Hroom) as Hh'.
    rewrite Hsend in Hwf, Hh'. split_and!; [done|done|]. apply Forall_app. by split; [|constructor].
Qed.

(** What scans do apart from saving updates tells nobody anything. *)
Notation publisher_is := (λ s : Scanner, s_publisher s = p0).

Lemma quiet_store {A} (m : M (Manager St) ScanError A) : keeps publisher_is (on_store m).
Proof using Type. by eapply (sustains_zoom _ (λ _, True)). Qed.

Lemma quiet_scan_blocks ck n : keeps publisher_is (scan_blocks (RpcError:=RpcError) ck n).
Proof using Type.
  unfold scan_blocks. do 2 (eapply sustains_bind; [by apply (sustains_gets _ (λ _, True))|intros ? _]).
  eapply (sustains_fold_each _ (λ _, True)); [done|by apply Forall_forall|]. intros l i _ _.
  destruct (bc_blocks _ !! i); [|apply sustains_panic].
  eapply sustains_bind; [apply quiet_store|]. intros ? _.
  eapply sustains_bind; [apply sustains_u64_sub|]. intros ? _. by apply sustains_ret.
Qed.

Lemma quiet_scan_txpool ck txs : keeps publisher_is (scan_txpool (RpcError:=RpcError) ck txs).
Proof using Type.
  unfold scan_txpool. eapply sustains_bind; [by apply (sustains_gets _ (λ _, True))|]. intros ? _.
  eapply sustains_bind; [apply quiet_store|]. intros ? _.
  eapply sustains_bind; [by apply sustains_modify|]. intros ? _. by apply sustains_ret.
Qed.

Lemma quiet_update_caches :
  keeps publisher_is (update_caches (RpcError:=RpcError) (EI:=EI) (EK:=EK) (EH:=EH) (EF:=EF)).
Proof using Type.
  unfold update_caches. do 2 (eapply (sustains_bind _ (λ _, True)); [by eapply (sustains_zoom _ (λ _, True))|intros ? _]).
  by apply sustains_ret.
Qed.

Lemma quiet_update_invoices found n :
  keeps publisher_is (update_invoices (RpcError:=RpcError) found n).
Proof using Type.
  unfold update_invoices. eapply sustains_bind; [by apply (sustains_gets _ (λ _, True))|]. intros ? _.
  eapply sustains_bind; [apply sustains_u64_sub|]. intros ? _.
  eapply sustains_bind; [apply sustains_u64_add|]. intros ? _. apply quiet_store.
Qed.

(** A whole scan. *)
Lemma Scanner_scan_told ck :
  pub_wf p0 → until_hang untold told (Scanner_scan (RpcError:=RpcError) ck).
Proof using All.
  intros Hp. pose proof (λ s, untold_told s Hp) as Hto. unfold Scanner_scan.
  eapply until_hang_after; [|exact Hto|].
  { apply sustains_and; [apply (keeps_update_caches wf view (invoices_are v0))|apply quiet_update_caches]. }
  intros [n txs] _. eapply until_hang_after; [|exact Hto|].
  { apply sustains_and; [|eapply sustains_keeps, sustains_try, quiet_scan_blocks].
    apply sustains_try, (sustains_scan_blocks wf view (terms <$> v0) (invoices_are v0)). }
  intros r1 Hr1. eapply until_hang_after; [|exact Hto|].
  { apply sustains_and; [|eapply sustains_keeps, sustains_try, quiet_scan_txpool].
    apply sustains_try, (sustains_scan_txpool wf view (terms <$> v0) (invoices_are v0)). }
  intros r2 Hr2. eapply until_hang_after; [apply sustains_result; exact Hr1|exact Hto|]. intros l1 Hl1.
  eapply until_hang_after; [apply sustains_result; exact Hr2|exact Hto|]. intros l2 Hl2.
  eapply until_hang_after; [|exact Hto|].
  { apply sustains_modify. intros s [(? & ? & ?) ?]. by split. }
  intros [] _. eapply until_hang_after; [|exact Hto|].
  { apply sustains_and; [|apply quiet_update_invoices].
    apply (sustains_update_invoices wf view (terms <$> v0) (invoices_are v0)). by apply Forall_app. }
  intros l Hl. eapply until_hang_bind.
  { intros s Hs%Hto. revert s Hs. apply (until_hang_for_each _ stored); [exact Hl|]. apply save_update_told. }
  intros []. apply (sustains_until_hang _ _ (λ _, True)); [|done].
  eapply sustains_bind; [apply (sustains_gets _ in_u64); by intros s (us & (_ & [? _] & _) & _)|].
  intros h Hh. assert (Hstore : ∀ A (m : M (Manager St) ScanError A),
    (∀ us, keeps (mgr_ok wf view (invoices_are (replay us v0))) m) → keeps told (on_store m)).
  { intros A m Hm s (us & Hok & Hrest).
    destruct (keeps_on_store wf view _ _ m (Hm us) s Hok) as [Hok' _]. split; [|done].
    exists us. split; [exact Hok'|]. unfold on_store, zoom. by destruct (m (s_store s)). }
  eapply sustains_bind; [apply Hstore; intros us; apply sustains_map_err, (keeps_upsert wf view (terms <$> replay us v0) (invoices_are (replay us v0))); exact Hh|].
  intros o _. apply Hstore. intros us. apply sustains_map_err, (keeps_flush wf view (terms <$> replay us v0) (invoices_are (replay us v0))).
Qed.
End from.

(** C5: subscribers learn what the store learns.  However a scan ends, unless
    it is blocked on a subscriber whose buffer is full, there is a list of
    updates such that the stored invoices are the old ones with these updates,
    and every subscriber (whose receiver is alive, and those before it) is sent
    exactly those of them that it subscribed to, in this order; it is still
    subscribed afterwards.  An update that the store refused is not sent. *)
Theorem Scanner_scan_delivers ck (s : Scanner) st :
  s_store s = Running st → wf st → bc_ok (s_block_cache s) → pool_ok (s_txpool_cache s) →
  pub_wf (s_publisher s) →
  wp (Scanner_scan (RpcError:=RpcError) ck) (λ s' r, r ≠ Hang → ∃ us,
    (∀ st', s_store s' = Running st' →
       v_invoices (view st') = replay us (v_invoices (view st))) ∧
    heard (s_publisher s) us (s_publisher s') ∧ pub_wf (s_publisher s')) s.
Proof using All.
  intros Hst Hwf Hbc Hpool Hp Hr.
  destruct (Scanner_scan_told (v_invoices (view st)) _ ck Hp s) as (us & (Hm & _) & Hp' & Hh & _); [|done|].
  { split; [|done]. split; [|done]. rewrite Hst. by intros ? [= <-]. }
  exists us. split_and!; [|done..]. intros st' E. by destruct (Hm st' E).
Qed.
End scanner.
