(* ===== verification/ScannerFinds.v ===== *)
(** What a successful scan finds, against a wallet and a chain: the payments
    of the scanned blocks and of the txpool.  [scan_transactions],
    [scan_blocks] and [scan_txpool] of [library/src/scanner.rs]. *)
From S2P Require Import Prelude.
From S2P Require Import Sustains.
From S2P Require Import Invoice.
From S2P Require Import Storage.
From S2P Require Import Monerod.
From S2P Require Import BlockCache.
From S2P Require Import TxpoolCache.
From S2P Require Import Pubsub.
From S2P Require Import Scanner.
From S2P Require Import ScannerUpdate.
From S2P Require Import ScannerOutputs.
From S2P Require Import ScannerInvariant.

(** * The wallet *)

(** An owned output and the hash of its transaction. *)
Notation TxOutput := (Hash * OwnedTxOut)%type.

Section wallet.
Context `{Monero} (wallet : transaction → list OwnedTxOut).

(** The payments of some transactions: subaddresses and amounts of the
    wallet's outputs, except in transactions with a time lock. *)
Definition paid_by (txs : list transaction) : list (SubIndex * Z) :=
  (λ o, (owned_sub_index o, default 0 (owned_amount o))) <$>
    mjoin (wallet <$> filter (λ tx, unlock_time tx = 0) txs).

(** The payments of the blocks of a chain. *)
Definition ledger (txs_of : mblock → list transaction) (chain : Z → mblock) (h : Z) :
    list (SubIndex * Z) :=
  paid_by (txs_of (chain h)).

(** An output that some transaction pays to the wallet. *)
Definition wallet_output (seen : transaction → Prop) (p : TxOutput) : Prop :=
  ∃ tx, seen tx ∧ p.1 = transaction_hash tx ∧ p.2 ∈ wallet tx.

(** The key checker finds the outputs of the wallet to the subaddresses it
    covers, and nothing else.  Of the transactions [seen] no two outputs to
    the wallet share a key: nobody tries to burn its funds. *)
Class WalletFinds (ck : SubKeyChecker) (covers : SubIndex → Prop) (seen : transaction → Prop) :
    Prop := {
  finds_owned tx outs o : check_outputs_with tx ck = inl outs → o ∈ outs → o ∈ wallet tx;
  finds_covered tx outs x :
    check_outputs_with tx ck = inl outs → covers x →
    filter (λ o, owned_sub_index o = x) outs = filter (λ o, owned_sub_index o = x) (wallet tx);
  no_shared_keys p q :
    wallet_output seen p → wallet_output seen q → output_key p = output_key q →
    output_id p = output_id q;
}.

(** Recorded keys of the wallet's outputs are recorded for these outputs. *)
Definition keys_ok (seen : transaction → Prop) (keys : gmap OutputPubKey OutputId) : Prop :=
  ∀ p id, wallet_output seen p → keys !! output_key p = Some id → id = output_id p.

Context (seen : transaction → Prop) (ck : SubKeyChecker) (covers : SubIndex → Prop)
  `{!WalletFinds ck covers seen}.

Lemma keys_ok_recorded keys p :
  keys_ok seen keys → wallet_output seen p → keys_ok seen (recorded keys p).
Proof using All.
  intros Hk Hp. unfold recorded. destruct (keys !! output_key p); [done|].
  intros q id Hq. rewrite lookup_insert. case_decide as E; [|by apply Hk].
  intros [= <-]. by apply no_shared_keys.
Qed.

(** So every output of the wallet is accepted. *)
Lemma accept_all keys l :
  keys_ok seen keys → Forall (wallet_output seen) l →
  (accept keys l).2 = l ∧ keys_ok seen (accept keys l).1.
Proof using All.
  intros Hk Hl. revert keys Hk. induction Hl as [|p l Hp Hl IH]; intros keys Hk; simpl; [done|].
  destruct (IH (recorded keys p)) as [Hacc Hk']; [by apply keys_ok_recorded|].
  destruct (accept (recorded keys p) l) as [keys' acc]. simpl in *. subst acc.
  assert (unique keys p = true) as ->; [|done].
  unfold unique. destruct (keys !! output_key p) as [id|] eqn:E; [|done].
  apply bool_decide_eq_true. by eapply Hk.
Qed.

(** What the parallel part of [scan_transactions] finds. *)
Lemma owned_outputs_found {EI EK EH EF RpcError : Type} txs l :
  owned_outputs_per_tx (RpcError:=RpcError) (EI:=EI) (EK:=EK) (EH:=EH) (EF:=EF) txs ck = Ok l →
  Forall seen txs →
  Forall (wallet_output seen) (flatten l) ∧
  ∀ x, covers x →
    (filter (λ p : TxOutput, owned_sub_index p.2 = x) (flatten l)).*2 =
    filter (λ o, owned_sub_index o = x) (mjoin (wallet <$> filter (λ tx, unlock_time tx = 0) txs)).
Proof using All.
  intros Hl Hseen. revert l Hl. induction Hseen as [|tx txs Htx Hseen IH]; intros l; simpl.
  { intros [= <-]. by split; [constructor|]. }
  rewrite filter_cons. destruct (Z.eqb_spec (unlock_time tx) 0) as [E|E].
  2:{ rewrite decide_False by done. apply IH. }
  rewrite decide_True by done. destruct (check_outputs_with tx ck) as [outs|e] eqn:Eo; [|done].
  destruct (owned_outputs_per_tx txs ck) as [l'|e| |] eqn:El; try done.
  intros [= <-]. destruct (IH l' eq_refl) as [Hall Hfil].
  rewrite flatten_cons. split.
  - apply Forall_app. split; [|done]. apply Forall_fmap, Forall_forall. intros o Ho.
    exists tx. split; [done|]. split; [done|]. by eapply finds_owned.
  - intros x Hx. rewrite fmap_cons. cbn [mjoin list_join]. rewrite !filter_app, fmap_app, Hfil by done.
    f_equal. rewrite <-(finds_covered tx outs x Eo Hx), filter_fmap, <-list_fmap_compose.
    apply list_fmap_id.
Qed.
End wallet.

Section scanner.
Context `{Build} `{HashOrder} `{Monero} {W RpcError : Type} `{!MonerodClient W RpcError}
  `{!TypedCrates W RpcError}.
Context {St EI EK EH EF : Type} `{!Storage St EI EK EH EF}.
Context (wf : St → Prop) (view : St → StoreView) `{HL : !LawfulStorage St EI EK EH EF wf view}.
Context (wallet : transaction → list OwnedTxOut) (seen : transaction → Prop) (ck : SubKeyChecker)
  (covers : SubIndex → Prop) `{!WalletFinds wallet ck covers seen}.
Notation ScanError := (ScannerError RpcError EI EK EH EF).
Notation Scanner := (Scanner W St).

(** What scanning for outputs keeps of the store [st]. *)
Definition kept (st st' : St) : Prop :=
  wf st' ∧ v_invoices (view st') = v_invoices (view st) ∧ keys_ok wallet seen (v_keys (view st')).

(** Subaddresses of stored invoices that the checker covers. *)
Definition watched (st : St) (x : SubIndex) : Prop := tracked view st x ∧ covers x.

(** Payments as transfers of a height. *)
Definition as_transfers (h : option Z) (l : list (SubIndex * Z)) : list SubTransfer :=
  (λ p, (p.1, Transfer_new p.2 h)) <$> l.

(** The transfers found are those of some payments, as far as watched
    subaddresses are concerned. *)
Definition found_for (st : St) (found paid : list SubTransfer) : Prop :=
  ∀ x, watched st x →
    filter (λ p : SubTransfer, p.1 = x) found ≡ₚ filter (λ p : SubTransfer, p.1 = x) paid.

Lemma found_for_app st f1 f2 p1 p2 :
  found_for st f1 p1 → found_for st f2 p2 → found_for st (f1 ++ f2) (p1 ++ p2).
Proof using Type. intros Hf1 Hf2 x Hx. by rewrite !filter_app, (Hf1 x Hx), (Hf2 x Hx). Qed.

(** The accepted outputs to a tracked index are all picked. *)
Lemma picks_tracked (T : SubIndex → Prop) l counted x :
  picks T l counted → T x →
  filter (λ p : TxOutput, owned_sub_index p.2 = x) counted =
  filter (λ p : TxOutput, owned_sub_index p.2 = x) l.
Proof using Type.
  intros Hp Hx. induction Hp as [|p l c _ IH|p l c Hn _ IH]; [done|..]; rewrite !filter_cons.
  - by rewrite IH.
  - rewrite decide_False; [done|]. intros <-. by apply Hn.
Qed.

Lemma succeeds_scan_transactions txs st :
  wf st → keys_ok wallet seen (v_keys (view st)) → Forall seen txs →
  succeeds (scan_transactions (RpcError:=RpcError) txs ck) (λ mgr m, ∃ st', mgr = Running st' ∧
    kept st st' ∧
    ∀ h, found_for st (to_transfer h <$> mjoin (hash_iter m).*2) (as_transfers h (paid_by wallet txs)))
    (Running st).
Proof using All.
  intros Hwf Hkeys Hseen. unfold scan_transactions.
  apply succeeds_bind, succeeds_lift. intros l Hl.
  destruct (owned_outputs_found wallet seen ck covers txs l Hl Hseen) as [Hall Hfind].
  assert (Hout : Forall output_wf (flatten l)).
  { pose proof (owned_outputs_typed txs ck l Hl) as Ht. unfold flatten.
    apply Forall_mjoin, Forall_fmap. eapply Forall_impl; [exact Ht|]. intros [h outs] Ho.
    apply Forall_fmap. eapply Forall_impl; [exact Ho|]. by intros o [? _]. }
  eapply succeeds_wp; [by apply (scan_outputs_all wf view)|].
  intros mgr m (st' & -> & counted & Hc). exists st'. split; [done|].
  destruct (accept_all wallet seen ck covers _ _ Hkeys Hall) as [Hacc Hk'].
  destruct (accept (v_keys (view st)) (flatten l)) as [keys acc]. simpl in Hacc, Hk'. subst acc.
  destruct Hc as ((Hwf' & Hi & Hk) & Hp & Hsome & Hadd). split; [by split_and!; rewrite ?Hk|].
  intros h x [Htr Hcov].
  assert (Hm : mjoin (hash_iter m).*2 ≡ₚ counted_amount <$> counted).
  { apply (hash_iter_groups (λ p : TxOutput, p.1)). intros k. rewrite Hadd, lookup_empty. done. }
  rewrite Hm. unfold as_transfers, paid_by. rewrite <-!list_fmap_compose, !filter_fmap.
  simpl. rewrite (picks_tracked (tracked view st) (flatten l) counted x Hp Htr).
  rewrite <-(Hfind x Hcov), <-list_fmap_compose. done.
Qed.

Lemma watched_kept st st' x : kept st st' → watched st x → watched st' x.
Proof using Type. intros (_ & Hi & _) [(id & Hid & <-) Hc]. split; [|done]. exists id. by rewrite Hi. Qed.

Lemma found_for_kept st st' found paid :
  kept st st' → found_for st' found paid → found_for st found paid.
Proof using Type. intros Hk Hf x Hx. by apply Hf, (watched_kept st). Qed.

Lemma kept_trans st1 st2 st3 : kept st1 st2 → kept st2 st3 → kept st1 st3.
Proof using Type. intros (_ & Hi & _) (? & Hi' & ?). split_and!; [done|by rewrite Hi', Hi|done]. Qed.

Lemma succeeds_on_store {A} (m : M (Manager St) ScanError A) (P : Manager St → A → Prop) (s : Scanner) :
  succeeds m P (s_store s) →
  succeeds (on_store m) (λ s' a, ∃ mgr, s' = set_s_store mgr s ∧ P mgr a) s.
Proof using Type.
  intros Hm. apply succeeds_zoom. eapply succeeds_mono; [exact Hm|]. eauto.
Qed.

Lemma block_transfers_one led h : block_transfers led h h = as_transfers (Some h) (led h).
Proof using Type.
  unfold block_transfers. replace (h - h + 1) with 1 by lia. simpl.
  rewrite app_nil_r. by rewrite Z.add_0_l.
Qed.

Lemma block_transfers_none led lo hi : hi < lo → block_transfers led lo hi = [].
Proof using Type. intros. unfold block_transfers. by rewrite seqZ_nil by lia. Qed.

Section blocks.
Context (hash_of : mblock → Hash) (txs_of : mblock → list transaction) (chain : Z → mblock).
Context (Hchain_seen : ∀ h, Forall seen (txs_of (chain h))).

(** The transfers of the scanned blocks: all of the cache in the first
    scan, else the updated ones. *)
Lemma succeeds_scan_blocks n (s : Scanner) st :
  let c := s_block_cache s in
  let k := if s_first_scan s then Z.of_nat (length (bc_blocks c)) else n in
  s_store s = Running st → wf st → keys_ok wallet seen (v_keys (view st)) →
  cache_wf c → on_chain hash_of txs_of chain c → 0 ≤ k ≤ Z.of_nat (length (bc_blocks c)) →
  succeeds (scan_blocks (RpcError:=RpcError) ck n) (λ s' l, ∃ st',
    s' = set_s_store (Running st') s ∧ kept st st' ∧
    found_for st l (block_transfers (ledger wallet txs_of chain) (bc_height c - k + 1) (bc_height c))) s.
Proof using All.
  intros c k Hst Hwf Hkeys (Hlen & Hh & Hle & Hhs) Hon Hk.
  set (led := ledger wallet txs_of chain). set (top := bc_height c) in *.
  unfold scan_blocks. apply succeeds_bind, succeeds_gets, succeeds_bind, succeeds_gets. fold c k.
  assert (Hs : s = set_s_store (Running st) s) by (destruct s; simpl in *; by subst).
  eapply succeeds_mono.
  { apply (succeeds_fold_each (λ rest s' l, ∃ j st', rest = reverse (seq 0 j) ∧ Z.of_nat j ≤ k ∧
      s' = set_s_store (Running st') s ∧ kept st st' ∧
      found_for st l (block_transfers led (top - k + 1) (top - Z.of_nat j)))).
    - exists (Z.to_nat k), st. split_and!; [done|lia|done|done..|].
      rewrite block_transfers_none by lia. by intros x _.
    - intros i rest acc s' (j & st' & Hrest & Hj & -> & Hkept & Hf).
      destruct j as [|j]; [done|]. rewrite seq_S, reverse_app in Hrest. simpl in Hrest.
      injection Hrest as -> ->. rewrite Hon by lia. cbn [b_transactions chain_block].
      apply succeeds_bind. eapply succeeds_mono.
      { apply succeeds_on_store. destruct Hkept as (? & ? & ?).
        by apply (succeeds_scan_transactions _ st'). }
      intros s'' m (mgr & -> & st'' & -> & Hkept' & Hm). apply succeeds_bind, succeeds_u64_checked.
      fold top. rewrite wrap_u64_small by (unfold in_u64 in *; lia). apply succeeds_ret.
      exists j, st''. split_and!; [done|lia|done|by eapply kept_trans|].
      rewrite (block_transfers_split led (top - k + 1) (top - Z.of_nat j) (top - Z.of_nat j)) by lia.
      replace (top - Z.of_nat j - 1) with (top - Z.of_nat (S j)) by lia.
      rewrite block_transfers_one. apply found_for_app; [done|].
      eapply (found_for_kept st st'); [done|]. apply Hm. }
  intros s' l (j & st' & Hj & _ & -> & Hkept & Hf). exists st'. split_and!; [done..|].
  assert (j = 0%nat) as ->.
  { apply (f_equal length) in Hj. rewrite length_reverse, length_seq in Hj. by destruct j. }
  by rewrite Z.sub_0_r in Hf.
Qed.
End blocks.

(** ** The txpool *)

(** Transfers that are in no block. *)
Definition unmined (l : list SubTransfer) : Prop := Forall (λ p : SubTransfer, height p.2 = None) l.
Definition pool_unmined (c : TxpoolCache W) : Prop :=
  map_Forall (λ _, unmined) (tc_discovered_transfers c).

Lemma succeeds_scan_txpool txs (s : Scanner) st :
  s_store s = Running st → wf st → keys_ok wallet seen (v_keys (view st)) → Forall seen txs →
  pool_unmined (s_txpool_cache s) →
  succeeds (scan_txpool (RpcError:=RpcError) ck txs) (λ s' l,
    (∃ st', s_store s' = Running st' ∧ kept st st') ∧
    (∃ w, s_block_cache s' = set_bc_client w (s_block_cache s)) ∧
    pool_unmined (s_txpool_cache s') ∧ unmined l) s.
Proof using All.
  intros Hst Hwf Hkeys Htxs Hpool. unfold scan_txpool. apply succeeds_bind, succeeds_gets.
  apply succeeds_bind. eapply succeeds_mono.
  { apply succeeds_on_store. rewrite Hst. by apply (succeeds_scan_transactions _ st). }
  intros s' m (mgr & -> & st' & -> & Hkept & _). apply succeeds_bind, succeeds_modify, succeeds_ret.
  assert (Hnew : map_Forall (λ _, unmined)
    ((λ amounts : list OwnedAmount, to_transfer None <$> amounts) <$> m)).
  { intros h l (amounts & <- & _)%lookup_fmap_Some. apply Forall_fmap, Forall_forall. done. }
  split_and!; [by exists st'|by eexists|by apply map_Forall_union_2|].
  apply Forall_mjoin, (hash_iter_values unmined). by apply map_Forall_union_2.
Qed.

(** The txpool holds transactions that are [seen]. *)
Class PoolSeen : Prop := {
  pool_seen l w : wp (mc_transactions_by_hashes l) (λ _ r, ∀ txs, r = Ok txs → Forall seen txs) w;
}.

Lemma succeeds_TxpoolCache_update `{!PoolSeen} c :
  pool_unmined c →
  succeeds (TxpoolCache_update (RpcError:=RpcError)) (λ c' txs, pool_unmined c' ∧ Forall seen txs) c.
Proof using Type.
  intros Hc. unfold TxpoolCache_update. apply succeeds_bind, succeeds_zoom, succeeds_map_err.
  apply succeeds_any. intros w hs.
  apply succeeds_bind, succeeds_gets, succeeds_bind. cbn [tc_transactions set_tc_client].
  eapply succeeds_mono.
  { apply succeeds_try, (succeeds_zoom _ _ _ (λ c' txs, tc_discovered_transfers c' =
      tc_discovered_transfers c ∧ Forall seen txs)), succeeds_map_err.
    eapply succeeds_wp; [apply pool_seen|]. eauto. }
  intros c' [txs|e] Hc'; [destruct Hc' as [Hd Htxs]|].
  - repeat (apply succeeds_bind, succeeds_modify || apply succeeds_bind). apply succeeds_lift.
    intros ? [= <-]. apply succeeds_bind, succeeds_modify, succeeds_ret. split; [|done].
    unfold pool_unmined. cbn [tc_discovered_transfers set_tc_discovered set_tc_transactions].
    intros h l. rewrite retain_lookup, Hd. case_decide; [|done]. by apply Hc.
  - repeat (apply succeeds_bind, succeeds_modify || apply succeeds_bind). by apply succeeds_lift.
Qed.
End scanner.
