(* ===== verification/ScannerChain.v ===== *)
(** Stored invoices follow the chain: what a whole successful pass of
    [library/src/scanner.rs] makes of the store, against the chain that the
    daemon serves. *)
From S2P Require Import Prelude.
From S2P Require Import Sustains.
From S2P Require Import Invoice.
From S2P Require Import Storage.
From S2P Require Import Monerod.
From S2P Require Import BlockCache.
From S2P Require Import TxpoolCache.
From S2P Require Import Pubsub.
From S2P Require Import Scanner.
From S2P Require Import ScannerUpdate.
From S2P Require Import ScannerOutputs.
From S2P Require Import ScannerInvariant.
From S2P Require Import ScannerFinds.

(** The payment status says what the transfers say, unless their sum
    is no [u64]. *)
Definition settled (i : Invoice) : Prop :=
  total (inv_transfers i) ≤ u64_max →
  inv_amount_paid i = total (inv_transfers i) ∧
  is_paid_height (inv_amount_requested i) (inv_transfers i) (inv_paid_height i).

(** What an update makes of an invoice: nothing if nothing changes. *)
Definition rescan_of (found : list SubTransfer) (top deepest : Z) (i : Invoice) (o : option Invoice) :
    Prop :=
  match o with
  | None => new_transfers found deepest i ≡ₚ inv_transfers i ∧ inv_current_height i = top + 1
  | Some j => Invoice_wf j ∧ terms j = terms i ∧ settled j ∧
      inv_transfers j = new_transfers found deepest i ∧ inv_current_height j = top + 1
  end.

Section invoices.
Context `{Build}.

Lemma succeeds_add_up {S E} ts (i : Invoice) (s : S) :
  in_u64 (inv_amount_paid i) →
  succeeds (E:=E) (fold_each ts i count_transfer)
    (λ s' k, s' = s ∧ ∃ paid h, in_u64 paid ∧ k = set_paid paid h i) s.
Proof.
  intros Hi. apply (succeeds_fold_each (λ _ s' k, s' = s ∧ ∃ paid h, in_u64 paid ∧ k = set_paid paid h i)).
  - split; [done|]. exists (inv_amount_paid i), (inv_paid_height i). by destruct i as [????? [] ?????].
  - intros t l k s' (-> & paid & h & _ & ->). unfold count_transfer.
    apply succeeds_bind, succeeds_u64_checked, succeeds_ret. split; [done|].
    destruct (_ && _); eauto using wrap_u64_in.
Qed.

Lemma new_transfers_wf found deepest i :
  Invoice_wf i → transfers_wf found → Forall Transfer_wf (new_transfers found deepest i).
Proof.
  intros (_ & _ & _ & _ & _ & _ & _ & Hts) Hf. apply Forall_app. split.
  - rewrite Forall_forall in *. intros t [_ ?]%list_elem_of_filter. auto.
  - apply Forall_fmap. rewrite Forall_forall in *. intros p [_ ?]%list_elem_of_filter. simpl. auto.
Qed.

Lemma succeeds_update_closure {EI} found top deepest i (acc : list Invoice) :
  1 ≤ inv_creation_height i → Invoice_wf i → transfers_wf found → in_u64 (top + 1) →
  succeeds (update_closure (EI:=EI) found top deepest (inl i))
    (λ acc' _, ∃ o, rescan_of found top deepest i o ∧ acc' = acc ++ option_list o) acc.
Proof.
  intros Hc Hwf Hf Htop. assert (Hcin : in_u64 (inv_creation_height i)) by by destruct Hwf as (_ & ? & _).
  pose proof (new_transfers_wf found deepest i Hwf Hf) as Hts.
  unfold update_closure. set (i1 := set_transfers _ i). apply succeeds_bind.
  assert (Hi1 : inv_transfers i1 ++ (filter (counts_for i1) found).*2 = new_transfers found deepest i).
  { unfold i1, new_transfers. simpl. f_equal. apply list_filter_iff. intros t.
    rewrite is_lt_height. unfold below. destruct (height t); naive_solver. }
  unfold succeeds at 1, wp. rewrite (add_found found i1) by done. rewrite Hi1. intros ? [= <-].
  apply succeeds_bind, succeeds_u64_checked. rewrite wrap_u64_small by done. cbn [fst].
  set (i2 := if inv_current_height _ =? _ then _ else _).
  assert (i2 = rescanned found top deepest i) as ->.
  { unfold i2, rescanned, set_current_height, set_transfers. simpl.
    by destruct (Z.eqb_spec (inv_current_height i) (top + 1)) as [E|E]; [rewrite E|]. }
  destruct (Invoice_eq (rescanned found top deepest i) i) eqn:E; cbn [negb].
  { apply succeeds_ret. exists None. rewrite app_nil_r. split; [|done].
    apply Invoice_eq_same in E as [Hp He]. split; [done|]. by apply (f_equal inv_current_height) in He. }
  apply succeeds_bind. eapply succeeds_mono.
  - apply succeeds_and; [by apply succeeds_add_up|].
    apply (succeeds_wp _ _ (λ _ r, total (new_transfers found deepest i) ≤ u64_max →
      r = Ok (recalculated (rescanned found top deepest i)))).
    + unfold wp. intros Hmax. rewrite add_up; simpl; [done|lia| |done].
      eapply Forall_impl; [exact Hts|]. by intros t [[??] _].
    + intros s k Hk. exact Hk.
  - intros acc' k [(-> & paid & h & Hpaid & ->) Hk]. apply succeeds_modify.
    eexists (Some _). split; [|done]. split_and!; [|done| |done|done].
    + destruct Hwf as (? & ? & ? & _ & ? & _ & ? & _). by split_and!.
    + intros Hmax. cbn [inv_transfers set_paid] in *. specialize (Hk Hmax). injection Hk as -> ->.
      destruct (recalculated_updated found top deepest i) as (_ & Hp & Hph & _). exact (conj Hp Hph).
Qed.

(** The loop over all invoices. *)
Lemma succeeds_update_loop {EI} found top deepest (invoices acc : list Invoice) :
  Forall (λ i, 1 ≤ inv_creation_height i ∧ Invoice_wf i) invoices → transfers_wf found →
  in_u64 (top + 1) →
  succeeds (for_each (inl <$> invoices) (update_closure (EI:=EI) found top deepest))
    (λ acc' _, ∃ outs, Forall2 (rescan_of found top deepest) invoices outs ∧
       acc' = acc ++ omap id outs) acc.
Proof.
  intros Hall Hf Htop. revert acc.
  induction Hall as [|i invoices [Hc Hwf] _ IH]; intros acc.
  - apply succeeds_ret. exists []. by rewrite app_nil_r.
  - cbn [fmap list_fmap for_each]. apply succeeds_bind.
    eapply succeeds_mono; [by apply succeeds_update_closure|]. intros acc' _ (o & Ho & ->).
    eapply succeeds_mono; [apply IH|]. intros acc'' _ (outs & Houts & ->).
    exists (o :: outs). split; [by constructor|]. rewrite <-(assoc_L (++)). by destruct o.
Qed.
End invoices.

(** * Saving the changed invoices *)

(** Every stored invoice, as it was or as it was saved. *)
Lemma saved_lookup (m : gmap InvoiceId Invoice) (l : list Invoice) id :
  NoDup (Invoice_id <$> l) →
  (∀ j, j ∈ l → Invoice_id j = id → foldl (λ m j, <[Invoice_id j := j]> m) m l !! id = Some j) ∧
  (id ∉ Invoice_id <$> l → foldl (λ m j, <[Invoice_id j := j]> m) m l !! id = m !! id).
Proof.
  revert m. induction l as [|a l IH]; intros m Hnd.
  { split; [|done]. by intros j Hj%elem_of_nil. }
  cbn [fmap list_fmap foldl] in *. apply NoDup_cons in Hnd as [Ha Hnd].
  destruct (IH (<[Invoice_id a := a]> m) Hnd) as [Hin Hout]. split.
  - intros j [->|Hj]%elem_of_cons Hid; [|by apply Hin]. subst id.
    rewrite Hout by done. apply lookup_insert_eq.
  - intros [Hne Hl]%not_elem_of_cons. rewrite Hout by done. by apply lookup_insert_ne.
Qed.

(** The changed invoices among the outcomes of a loop. *)
Lemma changed_of {R : Invoice → option Invoice → Prop} invoices outs :
  (∀ i j, R i (Some j) → Invoice_id j = Invoice_id i) →
  NoDup (Invoice_id <$> invoices) → Forall2 R invoices outs →
  NoDup (Invoice_id <$> omap id outs) ∧
  (∀ j, j ∈ omap id outs → ∃ i, i ∈ invoices ∧ R i (Some j)) ∧
  ∀ i, i ∈ invoices → ∃ o, R i o ∧
    match o with Some j => j ∈ omap id outs | None => Invoice_id i ∉ Invoice_id <$> omap id outs end.
Proof.
  intros HR Hnd Hall. induction Hall as [|i o invoices outs Ho Hall IH].
  { split; [constructor|]. split; intros ? Hin; by apply elem_of_nil in Hin. }
  rewrite fmap_cons in Hnd. apply NoDup_cons in Hnd as [Hi Hnd].
  destruct (IH Hnd) as (Hnd' & Hids & Hsome).
  assert (Hnot : Invoice_id i ∉ Invoice_id <$> omap id outs).
  { intros (j & E & Hj)%list_elem_of_fmap. apply Hi. rewrite E.
    destruct (Hids j Hj) as (i' & Hi' & Ho'). rewrite (HR i' j Ho'). by apply list_elem_of_fmap_2. }
  split_and!.
  - destruct o as [j|]; [|done]. cbn. apply NoDup_cons. split; [|done]. by rewrite (HR i j Ho).
  - intros j Hj. assert (j ∈ omap id outs ∨ o = Some j) as [Hj'|Ho'].
    { destruct o as [j'|]; [|by left]. cbn in Hj. apply elem_of_cons in Hj as [->|?]; auto. }
    + destruct (Hids j Hj') as (i' & ? & ?). exists i'. split; [by right|done].
    + exists i. split; [by left|by rewrite <-Ho'].
  - intros i' [->|Hi']%elem_of_cons.
    + exists o. split; [done|]. destruct o; [by left|done].
    + destruct (Hsome i' Hi') as (o' & Ho' & Hin). exists o'. split; [done|].
      destruct o as [j|]; [|done]. destruct o' as [j'|]; [by right|].
      cbn. rewrite not_elem_of_cons. split; [|done]. rewrite (HR i j Ho). intros E. apply Hi.
      rewrite <-E. apply list_elem_of_fmap. eauto.
Qed.

Section scanner.
Context `{Build} `{HashOrder} `{Monero} {W RpcError : Type} `{!MonerodClient W RpcError}.
Context {St EI EK EH EF : Type} `{!Storage St EI EK EH EF}.
Context (wf : St → Prop) (view : St → StoreView) `{HL : !LawfulStorage St EI EK EH EF wf view}
  `{HR : !ReliableStorage St EI EK EH EF wf view}.
Notation ScanError := (ScannerError RpcError EI EK EH EF).
Notation Scanner := (Scanner W St).

(** Invoices that can be updated. *)
Definition started (v : StoreView) : Prop :=
  ∀ id i, v_invoices v !! id = Some i → 1 ≤ inv_creation_height i.

Lemma succeeds_update_invoices found n (s : Scanner) st :
  let top := bc_height (s_block_cache s) in
  s_store s = Running st → wf st → started (view st) → transfers_wf found →
  in_u64 top → in_u64 (top + 1) → in_u64 (top - n + 1) →
  succeeds (update_invoices (RpcError:=RpcError) found n) (λ s' out, s' = s ∧
    ∃ invoices outs, invoices ≡ₚ (map_to_list (v_invoices (view st))).*2 ∧
      Forall2 (rescan_of found top (top - n + 1)) invoices outs ∧ out = omap id outs) s.
Proof using All.
  intros top Hst Hwf Hstart Hf Htop Htop1 Hdeep. unfold update_invoices.
  apply succeeds_bind, succeeds_gets. fold top.
  apply succeeds_bind, succeeds_u64_checked, succeeds_bind, succeeds_u64_checked.
  assert (wrap_u64 (wrap_u64 (top - n) + 1) = top - n + 1) as ->.
  { etrans; [|by apply wrap_u64_small]. unfold wrap_u64. by rewrite Zplus_mod_idemp_l. }
  destruct (reliable_for_each st Hwf) as (invoices & Hperm & Heach).
  assert (Hall : Forall (λ i, 1 ≤ inv_creation_height i ∧ Invoice_wf i) invoices).
  { apply Forall_forall. intros i Hi. rewrite Hperm in Hi.
    apply list_elem_of_fmap in Hi as ([id i'] & -> & Hi%elem_of_map_to_list).
    split; [by eapply Hstart|]. by destruct (law_wf st Hwf id i' Hi). }
  pose proof (succeeds_update_loop (EI:=EI) found top (top - n + 1) invoices [] Hall Hf Htop1) as Hloop.
  unfold succeeds, wp in *. unfold on_store, zoom, store, map_err, Client_try_for_each_invoice, client_request.
  rewrite Hst. cbn [Manager_handle]. unfold map_err, for_each_method. rewrite Heach.
  destruct (for_each (inl <$> invoices) _ _) as [out [[]|e| |]]; try done; simpl in *.
  intros ? [= <-]. destruct (Hloop tt eq_refl) as (outs & Houts & ->).
  split; [rewrite <-Hst; by destruct s|]. by exists invoices, outs.
Qed.

Lemma succeeds_save_update i (s : Scanner) st :
  s_store s = Running st → wf st → Invoice_wf i → is_Some (v_invoices (view st) !! Invoice_id i) →
  succeeds (save_update (RpcError:=RpcError) i) (λ s' _, ∃ st' p, s' = set_s_publisher p (set_s_store (Running st') s) ∧
    wf st' ∧ view st' = set_v_invoices (<[Invoice_id i := i]> (v_invoices (view st))) (view st)) s.
Proof using All.
  intros Hst Hwf Hi [i0 Hi0]. unfold save_update. apply succeeds_bind.
  pose proof (law_update st i Hwf Hi) as Hup. pose proof (reliable_update st i Hwf Hi) as Hrel.
  unfold wp in Hup. unfold succeeds at 1, wp, try_, on_store, zoom, store, map_err, Client_update_invoice, client_request.
  rewrite Hst. cbn [Manager_handle]. unfold map_err. revert Hup Hrel.
  destruct (is_update i st) as [st' [o|e| |]]; simpl; intros Hup Hrel; [|by destruct (Hrel e)|by destruct Hup..].
  intros ? [= <-]. destruct Hup as (Hwf' & -> & Hv). rewrite Hi0 in Hv.
  apply succeeds_zoom, succeeds_any. intros p []. by exists st', p.
Qed.

(** Saving all of them. *)
Lemma succeeds_save_updates l (s : Scanner) st :
  s_store s = Running st → wf st →
  Forall (λ j, Invoice_wf j ∧ is_Some (v_invoices (view st) !! Invoice_id j)) l →
  succeeds (for_each l (save_update (RpcError:=RpcError))) (λ s' _, ∃ st' p,
    s' = set_s_publisher p (set_s_store (Running st') s) ∧ wf st' ∧
    view st' = set_v_invoices (foldl (λ m j, <[Invoice_id j := j]> m) (v_invoices (view st)) l) (view st)) s.
Proof using All.
  intros Hst Hwf Hl. revert s st Hst Hwf Hl. induction l as [|i l IH]; intros s st Hst Hwf Hl.
  { apply succeeds_ret. exists st, (s_publisher s). split_and!; [by destruct s; simpl in *; subst|done|].
    by destruct (view st). }
  apply Forall_cons in Hl as [[Hi Hid] Hl]. apply succeeds_bind.
  eapply succeeds_mono; [by apply (succeeds_save_update i s st)|].
  intros s1 [] (st1 & p1 & -> & Hwf1 & Hv1).
  eapply succeeds_mono; [apply (IH _ st1); [done|done|]|].
  { eapply Forall_impl; [exact Hl|]. intros j [Hj Hjid]. split; [done|]. rewrite Hv1. simpl.
    rewrite lookup_insert. by case_decide. }
  intros s2 [] (st2 & p2 & -> & Hwf2 & Hv2). exists st2, p2. split_and!; [done|done|].
  by rewrite Hv2, Hv1.
Qed.

Lemma succeeds_record_height h (s : Scanner) st :
  s_store s = Running st → wf st → in_u64 h →
  succeeds (let! _ := on_store (store (RpcError:=RpcError) (Client_upsert_height h)) in
            on_store (store Client_flush))
    (λ s' _, ∃ st', s' = set_s_store (Running st') s ∧ wf st' ∧
       view st' = set_v_height (Some h) (view st)) s.
Proof using HL.
  intros Hst Hwf Hh [] E. apply (record_height (RpcError:=RpcError) wf view h s _ st Hst Hwf Hh).
  by rewrite <-E, <-surjective_pairing.
Qed.

(** The end of a scan, once the transfers are known. *)
Lemma succeeds_finish found n (s : Scanner) st :
  let top := bc_height (s_block_cache s) in
  s_store s = Running st → wf st → started (view st) → transfers_wf found →
  in_u64 top → in_u64 (top + 1) → in_u64 (top - n + 1) →
  succeeds
    (modify (set_s_first_scan false) ;;;
     let! updated_invoices := update_invoices (RpcError:=RpcError) found n in
     for_each updated_invoices save_update ;;;
     let! cache_height := gets (λ s, bc_height (s_block_cache s)) in
     let! _ := on_store (store (Client_upsert_height cache_height)) in
     on_store (store Client_flush))
    (λ s' _, ∃ st' p, s' = set_s_first_scan false (set_s_publisher p (set_s_store (Running st') s)) ∧
       wf st' ∧ v_keys (view st') = v_keys (view st) ∧ v_height (view st') = Some top ∧
       ∀ id i', v_invoices (view st') !! id = Some i' → ∃ i o,
         v_invoices (view st) !! id = Some i ∧ rescan_of found top (top - n + 1) i o ∧ i' = default i o) s.
Proof using All.
  intros top Hst Hwf Hstart Hf Htop Htop1 Hdeep. apply succeeds_bind, succeeds_modify.
  apply succeeds_bind. eapply succeeds_mono; [by apply (succeeds_update_invoices found n _ st)|].
  intros s1 out (-> & invoices & outs & Hperm & Hall & ->).
  change (bc_height _) with top in Hall.
  assert (Hids : NoDup (Invoice_id <$> invoices)).
  { assert (Invoice_id <$> invoices ≡ₚ (map_to_list (v_invoices (view st))).*1) as ->.
    { rewrite Hperm, <-list_fmap_compose.
      rewrite (list_fmap_ext (Invoice_id ∘ snd) fst (map_to_list (v_invoices (view st)))); [done|].
      intros k [id i] Hk. apply list_elem_of_lookup_2, elem_of_map_to_list in Hk. simpl.
      by destruct (law_wf st Hwf id i Hk). }
    apply NoDup_fst_map_to_list. }
  assert (Hstored : ∀ i, i ∈ invoices ↔ v_invoices (view st) !! Invoice_id i = Some i).
  { intros i. rewrite Hperm, list_elem_of_fmap. split.
    - intros ([id i'] & -> & Hi%elem_of_map_to_list). simpl.
      destruct (law_wf st Hwf id i' Hi) as [<- _]. done.
    - intros Hi. exists (Invoice_id i, i). by rewrite elem_of_map_to_list. }
  destruct (changed_of (R:=rescan_of found top (top - n + 1)) invoices outs)
    as (Hnd & Hout & Hin); [by intros i j (_ & Ht & _); apply terms_id|done|done|].
  apply succeeds_bind. eapply succeeds_mono.
  { apply (succeeds_save_updates _ _ st); [done|done|]. apply Forall_forall. intros j Hj.
    destruct (Hout j Hj) as (i & Hi%Hstored & Hwfj & Ht & _). split; [done|].
    rewrite (terms_id j i Ht). eauto. }
  intros s2 [] (st2 & p & -> & Hwf2 & Hv2). apply succeeds_bind, succeeds_gets.
  eapply succeeds_mono; [by apply (succeeds_record_height _ _ st2)|].
  intros s3 [] (st' & -> & Hwf' & Hv'). exists st', p. split_and!; [done|done|by rewrite Hv', Hv2|by rewrite Hv'|].
  rewrite Hv', Hv2. cbn [v_invoices set_v_height set_v_invoices]. intros id i' Hi'.
  destruct (saved_lookup (v_invoices (view st)) _ id Hnd) as [Hsaved Hother].
  destruct (v_invoices (view st) !! id) as [i|] eqn:Ei.
  - assert (Hid : Invoice_id i = id) by by destruct (law_wf st Hwf id i Ei).
    assert (Hi : i ∈ invoices) by (apply Hstored; by rewrite Hid).
    destruct (Hin i Hi) as (o & Ho & Hcase). exists i, o. split_and!; [done|done|].
    destruct o as [j|]; simpl.
    + destruct Ho as (_ & Ht & _). rewrite (Hsaved j) in Hi' by (done || by rewrite (terms_id j i Ht)).
      congruence.
    + rewrite Hid in Hcase. rewrite (Hother Hcase) in Hi'. congruence.
  - exfalso. rewrite Hother in Hi'; [congruence|].
    intros (j & -> & Hj)%list_elem_of_fmap. destruct (Hout j Hj) as (i & Hi%Hstored & _ & Ht & _).
    rewrite (terms_id j i Ht) in Ei. congruence.
Qed.
End scanner.

(** * Chains *)

Section chains.
Context `{Monero} (hash_of : mblock → Hash) `{!Inj (=) (=) hash_of}.

(** Each block names the hash of the one below. *)
Definition is_chain (chain : Z → mblock) : Prop :=
  ∀ h, prev_id (chain (h + 1)) = hash_of (chain h).

(** Chains that share a block share all those below. *)
Lemma chains_agree_below old new b h :
  is_chain old → is_chain new → old b = new b → h ≤ b → old h = new h.
Proof using All.
  intros Hold Hnew Hb Hle. replace h with (b - Z.of_nat (Z.to_nat (b - h))) by lia.
  induction (Z.to_nat (b - h)) as [|n IH]; [by rewrite Z.sub_0_r|].
  apply (inj hash_of). rewrite <-Hold, <-Hnew.
  by replace (b - Z.of_nat (S n) + 1) with (b - Z.of_nat n) by lia; rewrite IH.
Qed.

Lemma is_chain_linked {W} (txs_of : mblock → list transaction) chain (c : BlockCache W) :
  is_chain chain → on_chain hash_of txs_of chain c → linked (bc_blocks c).
Proof using Type.
  intros Hch Hon i upper lower Hu Hl.
  pose proof (lookup_lt_Some _ _ _ Hu). pose proof (lookup_lt_Some _ _ _ Hl).
  rewrite Hon in Hu, Hl by done. simplify_eq. simpl.
  replace (bc_height c - Z.of_nat i) with (bc_height c - Z.of_nat (S i) + 1) by lia. apply Hch.
Qed.
End chains.

Section chain.
Context `{Build} `{HashOrder} `{Monero} {W RpcError : Type} `{!MonerodClient W RpcError}
  `{!TypedCrates W RpcError}.
Context {St EI EK EH EF : Type} `{!Storage St EI EK EH EF}.
Context (wf : St → Prop) (view : St → StoreView) `{HL : !LawfulStorage St EI EK EH EF wf view}
  `{HR : !ReliableStorage St EI EK EH EF wf view}.
Context (wallet : transaction → list OwnedTxOut) (seen : transaction → Prop) (ck : SubKeyChecker)
  (covers : SubIndex → Prop) `{!WalletFinds wallet ck covers seen} `{!PoolSeen seen}.
Context (hash_of : mblock → Hash) (txs_of : mblock → list transaction).
Notation Scanner := (Scanner W St).
Notation on_chain := (on_chain hash_of txs_of).
Notation genuine_block := (genuine_block hash_of txs_of).
Notation is_chain := (is_chain hash_of).

(** ** The caches *)

(** A block cache that holds a chain. *)
Definition cached (chain : Z → mblock) (c : BlockCache W) : Prop :=
  cache_wf c ∧ Forall genuine_block (bc_blocks c) ∧ on_chain chain c ∧ bc_height c < u64_max.

(** The lowest block of the cache. *)
Definition bottom (c : BlockCache W) : Z := bc_height c - Z.of_nat (length (bc_blocks c)) + 1.

Context (may_fail : Prop) `{!ClientReturns W RpcError may_fail} `{!Genuine W RpcError hash_of txs_of}.
Context (old new : Z → mblock) `{Hserves : !ServesChain W RpcError hash_of new} (Hold : is_chain old).

Section heights.
(** What is known of the height that the daemon reports. *)
Context (PD : Z → Prop) (HPD : ∀ w, wp mc_daemon_height (λ _ r, ∀ d, r = Ok d → PD d) w).

Lemma new_is_chain : is_chain new.
Proof using Hserves. intros h. apply (chain_linked (W:=W) (RpcError:=RpcError)). Qed.

(** A block comes in if the daemon is ahead. *)
Definition ahead_of (c c' : BlockCache W) : Prop :=
  bc_height c' =
    bc_height c + (if bc_height c <? saturating_sub (bc_daemon_height c') 1 then 1 else 0).

(** An update that brings in a block moves to the new chain, which is like
    the old one below the reported depth; any other stays with the old one. *)
Lemma succeeds_cache_update c :
  cached old c → old (bottom c) = new (bottom c) →
  succeeds (BlockCache_update (RpcError:=RpcError)) (λ c' n,
    PD (bc_daemon_height c') ∧ ahead_of c c' ∧ length (bc_blocks c') = length (bc_blocks c) ∧
    0 ≤ n ≤ Z.of_nat (length (bc_blocks c')) ∧ bc_height c' - n ≤ bc_height c ∧
    ∃ now, (now = new ∧ bc_height c' = bc_height c + 1 ∨ now = old ∧ bc_height c' = bc_height c) ∧
      cached now c' ∧ ∀ h, h ≤ bc_height c' - n → old h = now h) c.
Proof using All.
  intros (Hwf & Hgen & Hon & Hmax) Hbot.
  pose proof (is_chain_linked hash_of txs_of old c Hold Hon) as Hlink.
  assert (HPD' : ∀ w, wp mc_daemon_height (λ _ r, ∀ d, r = Ok d → in_u64 d ∧ PD d) w).
  { intros w d Hd. split; [by apply (typed_daemon_height w)|by apply (HPD w)]. }
  pose proof (BlockCache_update_wf c Hwf) as H1'.
  pose proof (BlockCache_update_reports c Hwf Hlink) as H2'.
  pose proof (BlockCache_update_idle c Hwf Hlink) as H3'.
  pose proof (update_follows_chain hash_of txs_of new (λ d, in_u64 d ∧ PD d) c HPD' Hwf Hgen) as H4'.
  unfold succeeds, wp in *. intros n Hn. rewrite Hn in *.
  destruct (BlockCache_update c) as [c' r]. simpl in *.
  destruct H1' as (Hwf' & Hlen & Hh & Hn1). destruct H4' as (_ & [Hd Hpd] & Hgen' & Hadv & Hon').
  assert (Hmax' : bc_height c' < u64_max).
  { clear Hpd. revert Hadv. destruct (Z.ltb_spec (bc_height c) (saturating_sub (bc_daemon_height c') 1)); intros ->; [|lia].
    destruct Hd, Hwf as (_ & [??] & _). unfold saturating_sub in *. lia. }
  split; [done|]. split; [done|]. split; [done|]. split; [lia|]. split; [lia|].
  destruct (decide (bc_height c' = bc_height c)) as [Hsame|Hne].
  - destruct (H3' Hsame) as [-> Hb]. exists old. split; [by right|]. split; [|done].
    split_and!; [done|done| |done]. intros i Hi. rewrite Hb, Hsame in *. by apply Hon.
  - assert (Hnew : bc_height c' = bc_height c + 1) by lia.
    exists new. split; [by left|]. split; [by split_and!; auto|]. intros h Hle.
    destruct (decide (h ≤ bottom c)) as [Hb|Hb].
    { by eapply (chains_agree_below hash_of), Hb; [|apply new_is_chain|]. }
    unfold bottom in Hb. destruct (Z_of_nat_complete (bc_height c' - h)) as [i Ei]; [lia|].
    assert (Hi : (i < length (bc_blocks c))%nat) by lia.
    specialize (H2' i ltac:(lia) Hi). rewrite (Hon' (or_introl Hnew)), Hon in H2' by lia.
    apply (inj Some) in H2'. apply (f_equal b_inner) in H2'. simpl in H2'.
    replace (bc_height c' - Z.of_nat i) with h in H2' by lia.
    by replace (bc_height c - Z.of_nat (i - Z.to_nat (bc_height c' - bc_height c))) with h in H2' by lia.
Qed.

Lemma succeeds_update_caches (s : Scanner) :
  let c := s_block_cache s in
  cached old c → old (bottom c) = new (bottom c) → pool_unmined (s_txpool_cache s) →
  succeeds (update_caches (RpcError:=RpcError) (EI:=EI) (EK:=EK) (EH:=EH) (EF:=EF)) (λ s' p,
    let c' := s_block_cache s' in
    s_store s' = s_store s ∧ s_first_scan s' = s_first_scan s ∧
    pool_unmined (s_txpool_cache s') ∧ Forall seen p.2 ∧
    PD (bc_daemon_height c') ∧ ahead_of c c' ∧ length (bc_blocks c') = length (bc_blocks c) ∧ 0 ≤ p.1 ≤ Z.of_nat (length (bc_blocks c')) ∧ bc_height c' - p.1 ≤ bc_height c ∧
    ∃ now, (now = new ∧ bc_height c' = bc_height c + 1 ∨ now = old ∧ bc_height c' = bc_height c) ∧
      cached now c' ∧ ∀ h, h ≤ bc_height c' - p.1 → old h = now h) s.
Proof using All.
  intros c Hc Hbot Hpool. unfold update_caches.
  apply succeeds_bind, succeeds_zoom, succeeds_map_err.
  eapply succeeds_mono; [by apply succeeds_cache_update|]. intros c' n Hn.
  apply succeeds_bind, succeeds_zoom, succeeds_map_err.
  eapply succeeds_mono; [by apply (succeeds_TxpoolCache_update seen)|]. intros p txs [Hp Htxs].
  apply succeeds_ret. exact (conj eq_refl (conj eq_refl (conj Hp (conj Htxs Hn)))).
Qed.

(** ** Invoices and the chain *)

(** The invoice has the transfers that the chain owes it up to height
    [top], and some that are in no block. *)
Definition invoice_follows (chain : Z → mblock) (top : Z) (i : Invoice) : Prop :=
  1 ≤ inv_creation_height i ∧ settled i ∧
  ∃ pool, Forall (λ t, height t = None) pool ∧
    inv_transfers i ≡ₚ owed (ledger wallet txs_of chain) top i ++ pool.

(** So do all stored invoices, up to the height of the cache. *)
Definition scanner_follows (chain : Z → mblock) (s : Scanner) : Prop :=
  (∃ st, s_store s = Running st ∧ wf st ∧ keys_ok wallet seen (v_keys (view st)) ∧
     ∀ id i, v_invoices (view st) !! id = Some i →
       invoice_follows chain (bc_height (s_block_cache s)) i) ∧
  cached chain (s_block_cache s) ∧ bc_ok (s_block_cache s) ∧
  pool_ok (s_txpool_cache s) ∧ pool_unmined (s_txpool_cache s) ∧ s_first_scan s = false.

(** Only the watched transfers matter for an invoice. *)
Lemma new_transfers_found st found paid deepest id i :
  wf st → v_invoices (view st) !! id = Some i → covers (sub_index id) →
  found_for view covers st found paid →
  new_transfers found deepest i ≡ₚ new_transfers paid deepest i.
Proof using HL.
  intros Hwf Hi Hcov Hf. destruct (law_wf st Hwf id i Hi) as [<- _].
  assert (Hsplit : ∀ l : list SubTransfer, filter (counts_for i) l =
    filter (counts_for i) (filter (λ p : SubTransfer, p.1 = inv_index i) l)).
  { intros l. rewrite list_filter_filter_l; [done|]. by intros p [? _]. }
  unfold new_transfers. f_equiv. apply fmap_Permutation.
  rewrite (Hsplit found), (Hsplit paid). apply filter_Permutation, Hf.
  split; [|done]. by exists (Invoice_id i).
Qed.

Lemma terms_creation i j : terms j = terms i → inv_creation_height j = inv_creation_height i.
Proof using Type. intros Ht. by apply (f_equal inv_creation_height) in Ht. Qed.

Lemma owed_terms led top i j : terms j = terms i → owed led top j = owed led top i.
Proof using Type. intros Ht. unfold owed. by rewrite (terms_index j i Ht), (terms_creation i j Ht). Qed.

(** What the chain and the txpool pay the invoice. *)
Definition owed_now (now : Z → mblock) (top : Z) (pool : list SubTransfer) (i : Invoice) :
    list Transfer :=
  owed (ledger wallet txs_of now) top i ++ (filter (λ p : SubTransfer, p.1 = inv_index i) pool).*2.

(** An invoice whose new transfers are these follows the chain. *)
Lemma rescan_follows found pool now top deepest i o :
  unmined pool → 1 ≤ inv_creation_height i → settled i →
  new_transfers found deepest i ≡ₚ owed_now now top pool i → rescan_of found top deepest i o →
  invoice_follows now top (default i o) ∧ inv_current_height (default i o) = top + 1.
Proof using Type.
  intros Hpool Hc Hset Hnow Ho.
  assert (Hmined : Forall (λ t, height t = None)
    (filter (λ p : SubTransfer, p.1 = inv_index i) pool).*2).
  { apply Forall_fmap. unfold unmined in Hpool. rewrite Forall_forall in *.
    intros p [_ ?]%list_elem_of_filter. simpl. auto. }
  destruct o as [j|]; simpl in *.
  - destruct Ho as (_ & Ht & Hsj & Htrj & Hcur). split; [|done]. split; [|split; [done|]].
    + by rewrite (terms_creation i j Ht).
    + eexists. split; [exact Hmined|]. by rewrite Htrj, Hnow, (owed_terms _ _ i j Ht).
  - destruct Ho as [Hperm Hcur]. split; [|done]. split; [done|]. split; [done|].
    eexists. split; [exact Hmined|]. by rewrite <-Hperm, Hnow.
Qed.

(** They are after a scan from height [deepest] on, if the stored ones were
    those of a chain with the same blocks below. *)
Lemma rescan_owed st found pool chain top0 now top deepest id i :
  wf st → v_invoices (view st) !! id = Some i → covers (sub_index id) →
  found_for view covers st found (block_transfers (ledger wallet txs_of now) deepest top ++ pool) →
  deepest ≤ top0 + 1 → deepest ≤ top + 1 → (∀ h, h < deepest → chain h = now h) →
  unmined pool → invoice_follows chain top0 i →
  new_transfers found deepest i ≡ₚ owed_now now top pool i.
Proof using HL.
  intros Hwf Hi Hcov Hf Hd0 Hd Hsame Hpool (Hc & Hset & pool0 & Hp0 & Htr).
  rewrite (new_transfers_found st _ _ deepest id i Hwf Hi Hcov Hf).
  eapply new_transfers_follow_chain; [exact Hd0|done| |exact Hp0|done|exact Htr].
  intros h Hh. unfold ledger. by rewrite Hsame.
Qed.

(** They are after a scan from height [lowest] on, if the invoice is not
    older and had none. *)
Lemma first_owed st found pool now top deepest lowest id i :
  wf st → v_invoices (view st) !! id = Some i → covers (sub_index id) →
  found_for view covers st found (block_transfers (ledger wallet txs_of now) lowest top ++ pool) →
  lowest ≤ top + 1 → lowest ≤ inv_creation_height i → unmined pool → inv_transfers i = [] →
  new_transfers found deepest i ≡ₚ owed_now now top pool i.
Proof using HL.
  intros Hwf Hi Hcov Hf Htop Hlow Hpool Hnone.
  rewrite (new_transfers_found st _ _ deepest id i Hwf Hi Hcov Hf).
  assert (Hp : filter (counts_for i) pool = filter (λ p : SubTransfer, p.1 = inv_index i) pool).
  { apply filter_ext_in. intros p Hp. unfold unmined in Hpool. rewrite Forall_forall in Hpool.
    unfold counts_for. rewrite (Hpool p Hp). naive_solver. }
  unfold new_transfers. rewrite Hnone, filter_app, fmap_app, counts_owed, Hp by done.
  by rewrite Z.max_r by done.
Qed.

(** ** A scan *)

(** What a successful scan did: it found the transfers of the scanned blocks
    of one chain and those of the txpool, and rescanned every invoice. *)
Lemma succeeds_scan (s : Scanner) st :
  let c := s_block_cache s in
  s_store s = Running st → wf st → keys_ok wallet seen (v_keys (view st)) → started (view st) →
  cached old c → bc_ok c → old (bottom c) = new (bottom c) →
  pool_ok (s_txpool_cache s) → pool_unmined (s_txpool_cache s) → (∀ h, Forall seen (txs_of (old h))) →
  (∀ h, Forall seen (txs_of (new h))) →
  succeeds (Scanner_scan (RpcError:=RpcError) ck) (λ s' _,
    let c' := s_block_cache s' in let top := bc_height c' in
    bc_ok c' ∧ pool_ok (s_txpool_cache s') ∧ pool_unmined (s_txpool_cache s') ∧
    s_first_scan s' = false ∧ PD (bc_daemon_height c') ∧ ahead_of c c' ∧
    ∃ now n k found pool st',
      (now = new ∧ top = bc_height c + 1 ∨ now = old ∧ top = bc_height c) ∧
      cached now c' ∧ length (bc_blocks c') = length (bc_blocks c) ∧
      0 ≤ n ≤ Z.of_nat (length (bc_blocks c')) ∧ top - n ≤ bc_height c ∧
      (∀ h, h ≤ top - n → old h = now h) ∧
      k = (if s_first_scan s then Z.of_nat (length (bc_blocks c')) else n) ∧ unmined pool ∧
      found_for view covers st found
        (block_transfers (ledger wallet txs_of now) (top - k + 1) top ++ pool) ∧
      s_store s' = Running st' ∧ wf st' ∧ keys_ok wallet seen (v_keys (view st')) ∧
      v_height (view st') = Some top ∧
      ∀ id i', v_invoices (view st') !! id = Some i' → ∃ i o,
        v_invoices (view st) !! id = Some i ∧ rescan_of found top (top - n + 1) i o ∧ i' = default i o) s.
Proof using All.
  intros c Hst Hwf Hkeys Hstart Hcached Hbc Hbot Hpool Hunm Hseen_old Hseen_new.
  set (ts := terms_of (view st)).
  assert (Hok : scanner_ok wf view (terms_are ts) s).
  { split; [|done]. intros st1. rewrite Hst. by intros [= <-]. }
  unfold Scanner_scan. apply succeeds_bind. eapply succeeds_mono.
  { apply succeeds_and; [apply (sustains_succeeds _ _ _ _ (keeps_update_caches wf view (terms_are ts)) Hok)|].
    by apply succeeds_update_caches. }
  intros s1 [n txs] [[Hok1 _] (Hst1 & Hfirst1 & Hunm1 & Htxs & Hpd & Hahead & Hlen & Hn & Hadv & now & Hnow & Hcached1 & Hsame)].
  cbn [fst snd] in *. rewrite Hst in Hst1.
  set (c1 := s_block_cache s1) in *. set (top := bc_height c1) in *.
  set (k := if s_first_scan s then Z.of_nat (length (bc_blocks c1)) else n).
  assert (Hk : 0 ≤ k ≤ Z.of_nat (length (bc_blocks c1))) by (unfold k; destruct (s_first_scan s); lia).
  assert (Hseen : ∀ h, Forall seen (txs_of (now h))) by (destruct Hnow as [[-> _]|[-> _]]; done).
  destruct Hcached1 as (Hwf1 & Hgen1 & Hon1 & Hmax1).
  (* The blocks. *)
  apply succeeds_bind. eapply succeeds_mono.
  { apply succeeds_and; [eapply sustains_succeeds; [apply sustains_try, (sustains_scan_blocks wf view ts (terms_are ts))|exact Hok1]|].
    apply succeeds_try, (succeeds_scan_blocks wf view wallet seen ck covers hash_of txs_of now Hseen n s1 st);
      [done..|]. by rewrite Hfirst1. }
  intros s2 [l1|e] [[Hok2 Hl1] Hr1].
  2:{ apply succeeds_bind, succeeds_any. intros s3 r2. by apply succeeds_bind, succeeds_lift. }
  destruct Hr1 as (st2 & -> & Hkept2 & Hf1). rewrite Hfirst1 in Hf1. fold c1 top k in Hf1.
  (* The txpool. *)
  apply succeeds_bind. eapply succeeds_mono.
  { apply succeeds_and; [eapply sustains_succeeds; [apply sustains_try, (sustains_scan_txpool wf view ts (terms_are ts))|exact Hok2]|].
    apply succeeds_try, (succeeds_scan_txpool wf view wallet seen ck covers txs _ st2); by destruct Hkept2 as (? & ? & ?). }
  intros s3 [l2|e] [[Hok3 Hl2] Hr2].
  2:{ apply succeeds_bind, succeeds_lift. intros ? [= <-]. by apply succeeds_bind, succeeds_lift. }
  destruct Hr2 as ((st3 & Hst3 & Hkept3) & [w Hw] & Hunm3 & Hl2u).
  apply succeeds_bind, succeeds_lift. intros ? [= <-]. apply succeeds_bind, succeeds_lift. intros ? [= <-].
  (* The invoices. *)
  pose proof (kept_trans wf view wallet seen _ _ _ Hkept2 Hkept3) as (Hwf3 & Hi3 & Hk3).
  change (s_block_cache (set_s_store (Running st2) s1)) with c1 in Hw.
  assert (Htop : bc_height (s_block_cache s3) = top) by by rewrite Hw.
  assert (Hin : in_u64 top ∧ in_u64 (top + 1) ∧ in_u64 (top - n + 1)).
  { destruct Hwf1 as (_ & [??] & Hle & _). fold top in Hle. unfold in_u64 in *. lia. }
  destruct Hin as (Hin0 & Hin1 & Hin2).
  eapply succeeds_mono.
  { apply (succeeds_finish wf view (l1 ++ l2) n s3 st3).
    - done.
    - done.
    - unfold started. by rewrite Hi3.
    - by apply Forall_app.
    - by rewrite Htop.
    - by rewrite Htop.
    - by rewrite Htop. }
  intros s4 [] (st4 & p & -> & Hwf4 & Hk4 & Hh4 & Hlook). cbn [s_block_cache s_txpool_cache s_first_scan
    set_s_first_scan set_s_publisher set_s_store]. rewrite Htop in *.
  destruct Hok3 as (_ & Hbc3 & Hpool3). split; [done|]. split; [done|]. split; [done|]. split; [done|].
  rewrite Hw. split; [done|]. split; [done|]. exists now, n, k, (l1 ++ l2), l2, st4. cbn [bc_height bc_blocks set_bc_client].
  fold c1 top k. split_and!; try done; try lia.
  - apply found_for_app; [done|]. by intros x _.
  - by rewrite Hk4.
  - intros id i' Hi'. rewrite <-Hi3. by apply Hlook.
Qed.

(** ** From one chain to the other *)

Lemma invoice_follows_ext a b top i :
  (∀ h, h ≤ top → a h = b h) → invoice_follows a top i → invoice_follows b top i.
Proof using Type.
  intros Hab (Hc & Hset & pool & Hp & Htr). split; [done|]. split; [done|]. exists pool.
  split; [done|]. rewrite Htr. unfold owed. erewrite block_transfers_ext; [done|].
  intros h Hh. unfold ledger. by rewrite Hab by lia.
Qed.

Lemma cached_ext a b c : (∀ h, h ≤ bc_height c → a h = b h) → cached a c → cached b c.
Proof using Type.
  intros Hab (? & ? & Hon & ?). split_and!; [done|done| |done].
  intros i Hi. rewrite Hon by done. unfold chain_block. by rewrite Hab by lia.
Qed.

Lemma scanner_follows_ext a b s :
  (∀ h, h ≤ bc_height (s_block_cache s) → a h = b h) → scanner_follows a s → scanner_follows b s.
Proof using Type.
  intros Hab ((st & Hst & Hwf & Hk & Hi) & Hc & ?). split; [|split; [by eapply cached_ext|done]].
  exists st. split_and!; [done..|]. intros id i Hid. by eapply invoice_follows_ext, Hi.
Qed.

(** The daemon's chain, if a block came in or the chain is the same up to
    the old top block; the old one, if none came in. *)
Definition moved (s s' : Scanner) : Prop :=
  let c := s_block_cache s in let c' := s_block_cache s' in
  (bc_height c' = bc_height c + 1 ∨ old (bc_height c) = new (bc_height c) → scanner_follows new s') ∧
  (bc_height c' = bc_height c → scanner_follows old s') ∧
  ahead_of c c' ∧
  ∀ st' id i, s_store s' = Running st' → v_invoices (view st') !! id = Some i →
    inv_current_height i = bc_height c' + 1.

Lemma moved_to now s s' :
  (now = new ∧ bc_height (s_block_cache s') = bc_height (s_block_cache s) + 1 ∨
   now = old ∧ bc_height (s_block_cache s') = bc_height (s_block_cache s)) →
  scanner_follows now s' → ahead_of (s_block_cache s) (s_block_cache s') →
  (∀ st' id i, s_store s' = Running st' → v_invoices (view st') !! id = Some i →
    inv_current_height i = bc_height (s_block_cache s') + 1) →
  moved s s'.
Proof using Genuine0 Hserves Hold.
  intros [[-> Hh]|[-> Hh]] Hs' Hahead Hcur; unfold moved; cbv zeta; (split; [|split; [|split; [done|]]]).
  - done.
  - intros ?. lia.
  - done.
  - intros [?|Htop]; [lia|]. eapply scanner_follows_ext, Hs'. intros h Hle. rewrite Hh in Hle.
    by eapply (chains_agree_below hash_of), Hle; [|apply new_is_chain|].
  - done.
  - done.
Qed.

Context (Hseen : ∀ h, Forall seen (txs_of (old h)) ∧ Forall seen (txs_of (new h))).

(** The subaddresses of all stored invoices are in the range of the checker. *)
Definition all_covered (s : Scanner) : Prop :=
  ∀ st id, s_store s = Running st → is_Some (v_invoices (view st) !! id) → covers (sub_index id).

Lemma succeeds_moved (s : Scanner) :
  let c := s_block_cache s in
  scanner_follows old s → old (bottom c) = new (bottom c) → all_covered s →
  succeeds (Scanner_scan (RpcError:=RpcError) ck) (λ s' _, moved s s' ∧ PD (bc_daemon_height (s_block_cache s'))) s.
Proof using All.
  intros c ((st & Hst & Hwf & Hkeys & Hinv) & Hcached & Hbc & Hpool & Hunm & Hfirst) Hbot Hcov.
  eapply succeeds_mono.
  { apply (succeeds_scan s st); try done; [|by intros h; apply Hseen..].
    intros id i Hi. apply (Hinv id i Hi). }
  intros s' [] (Hbc' & Hpool' & Hunm' & Hfirst' & Hpd & Hahead & now & n & k & found & pool & st' & Hnow & Hcached' & Hlen &
    Hn & Hadv & Hsame & Hk & Hpu & Hf & Hst' & Hwf' & Hkeys' & _ & Hlook). rewrite Hfirst in Hk. subst k.
  set (top := bc_height (s_block_cache s')) in *.
  assert (Hall : ∀ id i', v_invoices (view st') !! id = Some i' →
    invoice_follows now top i' ∧ inv_current_height i' = top + 1).
  { intros id i' Hi'. destruct (Hlook id i' Hi') as (i & o & Hi & Ho & ->).
    destruct (Hinv id i Hi) as (Hc & Hset & Hpool0).
    eapply rescan_follows; [exact Hpu|done|done| |exact Ho].
    eapply (rescan_owed st found pool old (bc_height c) now top); [done|exact Hi| |exact Hf| | | |done|].
    - by eapply Hcov.
    - unfold c. lia.
    - lia.
    - intros h Hh. apply Hsame. lia.
    - by apply (Hinv id i). }
  split; [|done]. apply (moved_to now); [done| |done|].
  - split; [|done]. exists st'. split_and!; [done..|]. intros id i' Hi'. by apply (Hall id i').
  - rewrite Hst'. intros ? id i' [= <-] Hi'. by apply (Hall id i').
Qed.

End heights.

(** ** Properties *)

Context (Hseen : ∀ h, Forall seen (txs_of (old h)) ∧ Forall seen (txs_of (new h))).


End chain.
