(* ===== verification/ScannerReturns.v ===== *)
(** A scan succeeds when nothing that it uses fails, and scans catch up
    with the chain: total correctness of the passes of
    [library/src/scanner.rs]. *)
From S2P Require Import Prelude.
From S2P Require Import Sustains.
From S2P Require Import Invoice.
From S2P Require Import Storage.
From S2P Require Import Monerod.
From S2P Require Import BlockCache.
From S2P Require Import TxpoolCache.
From S2P Require Import Pubsub.
From S2P Require Import Scanner.
From S2P Require Import ScannerUpdate.
From S2P Require Import ScannerOutputs.
From S2P Require Import ScannerInvariant.
From S2P Require Import ScannerFinds.
From S2P Require Import ScannerChain.

(** * Runs that return *)

(** The run succeeds, and [P] holds of the state and the result. *)
Definition returns {S E A} (m : M S E A) (P : S → A → Prop) (s : S) : Prop :=
  ∃ s' a, m s = (s', Ok a) ∧ P s' a.

Section returns.
Context {S E : Type}.

Lemma returns_mono {A} (m : M S E A) (P Q : S → A → Prop) s :
  returns m P s → (∀ s' a, P s' a → Q s' a) → returns m Q s.
Proof. intros (s' & a & Hm & HP) HQ. exists s', a. auto. Qed.

(** What is known of the successful runs holds of a run that succeeds. *)
Lemma returns_succeeds {A} (m : M S E A) (P Q : S → A → Prop) s :
  returns m P s → succeeds m Q s → returns m (λ s' a, P s' a ∧ Q s' a) s.
Proof.
  intros (s' & a & Hm & HP) HQ. exists s', a. split_and!; [done..|].
  unfold succeeds, wp in HQ. rewrite Hm in HQ. by apply HQ.
Qed.

Lemma returns_run {A} (m : M S E A) (P : S → A → Prop) s a :
  returns m P s → (m s).2 = Ok a → P (m s).1 a.
Proof. intros (s' & a' & -> & HP). by intros [= <-]. Qed.

Lemma returns_ret {A} (a : A) (P : S → A → Prop) s : P s a → returns (E:=E) (ret a) P s.
Proof. by exists s, a. Qed.

Lemma returns_gets {A} (f : S → A) (P : S → A → Prop) s : P s (f s) → returns (E:=E) (gets f) P s.
Proof. by exists s, (f s). Qed.

Lemma returns_modify (f : S → S) (P : S → unit → Prop) s :
  P (f s) tt → returns (E:=E) (modify f) P s.
Proof. by exists (f s), tt. Qed.

Lemma returns_bind {A B} (m : M S E A) (k : A → M S E B) (Q : S → B → Prop) s :
  returns m (λ s' a, returns (k a) Q s') s → returns (bind m k) Q s.
Proof. intros (s' & a & Hm & Hk). unfold returns, bind. by rewrite Hm. Qed.

Lemma returns_map_err {E' A} (f : E' → E) (m : M S E' A) (P : S → A → Prop) s :
  returns m P s → returns (map_err f m) P s.
Proof. intros (s' & a & Hm & HP). exists s', a. unfold map_err. by rewrite Hm. Qed.

Lemma returns_lift {A} (a : A) (P : S → A → Prop) s : P s a → returns (E:=E) (lift (Ok a)) P s.
Proof. by exists s, a. Qed.

Lemma returns_fold_each {A B} (I : S → Prop) (R : A → Prop) (l : list A) (acc : B)
    (body : B → A → M S E B) s :
  I s → Forall R l → (∀ a acc s, I s → R a → returns (body acc a) (λ s' _, I s') s) →
  returns (fold_each l acc body) (λ s' _, I s') s.
Proof.
  intros HI Hl Hstep. revert acc s HI. induction Hl as [|a l Ha Hl IH]; intros acc s HI.
  - by apply returns_ret.
  - apply returns_bind. eapply returns_mono; [by apply Hstep|]. auto.
Qed.

Lemma returns_for_each {A} (I : S → Prop) (R : A → Prop) (l : list A) (body : A → M S E unit) s :
  I s → Forall R l → (∀ a s, I s → R a → returns (body a) (λ s' _, I s') s) →
  returns (for_each l body) (λ s' _, I s') s.
Proof.
  intros HI Hl Hstep. revert s HI. induction Hl as [|a l Ha Hl IH]; intros s HI.
  - by apply returns_ret.
  - apply returns_bind. eapply returns_mono; [by apply Hstep|]. auto.
Qed.
End returns.

Lemma returns_zoom {S T E A} (prj : S → T) (upd : T → S → S) (m : M T E A) (P : S → A → Prop) s :
  returns m (λ t a, P (upd t s) a) (prj s) → returns (zoom prj upd m) P s.
Proof. intros (t & a & Hm & HP). unfold returns, zoom. rewrite Hm. eauto. Qed.

Lemma returns_try {S E E' A} (m : M S E A) (P : S → A → Prop) s :
  returns m P s →
  returns (try_ (E':=E') m) (λ s' r, match r with inl a => P s' a | inr _ => False end) s.
Proof. intros (s' & a & Hm & HP). exists s', (inl a). unfold try_. by rewrite Hm. Qed.

(** Without overflow checks arithmetic always returns. *)
Lemma returns_u64_checked `{Build} {S E} x (P : S → Z → Prop) s :
  overflow_checks = false → (∀ y, P s y) → returns (E:=E) (u64_checked x) P s.
Proof.
  intros Ho HP. unfold u64_checked. case_decide; [by apply returns_ret|].
  rewrite Ho. by apply returns_ret.
Qed.

(** * Scanning *)

Section scanner.
Context `{Build} `{HashOrder} `{Monero} {W RpcError : Type} `{!MonerodClient W RpcError}
  `{!TypedCrates W RpcError}.
Context {St EI EK EH EF : Type} `{!Storage St EI EK EH EF}.
Context (wf : St → Prop) (view : St → StoreView) `{HL : !LawfulStorage St EI EK EH EF wf view}
  `{HR : !ReliableStorage St EI EK EH EF wf view} `{HN : !InfallibleStorage St EI EK EH EF wf view}.
Notation ScanError := (ScannerError RpcError EI EK EH EF).
Notation Scanner := (Scanner W St).

(** The store runs and is well formed. *)
Definition running (m : Manager St) : Prop := ∃ st, m = Running st ∧ wf st.

Lemma returns_request {E A} (message : Method EI A) (f : E → AnyError EI EK EH EF) (m : M St E A)
    (ok : A → StoreView → Prop) st :
  Manager_handle message = map_err f m → wp m (or_fail wf view st ok) st →
  (∀ e, (m st).2 ≠ Err e) →
  returns (store (RpcError:=RpcError) (client_request message))
    (λ mgr a, ∃ st', mgr = Running st' ∧ wf st' ∧ ok a (view st')) (Running st).
Proof using Type.
  intros Hm Hwp Hne. apply returns_map_err. unfold client_request. rewrite Hm. unfold wp in Hwp.
  revert Hwp Hne. unfold map_err, returns. destruct (m st) as [st' [a|e| |]]; simpl; intros [Hwf Hok] Hne.
  - eauto 10.
  - by destruct (Hne e).
  - done.
  - done.
Qed.

(** The outputs of the wallet can be read. *)
Class WalletReadable (seen : transaction → Prop) (ck : SubKeyChecker) : Prop := {
  readable tx : seen tx → ∃ outs, check_outputs_with tx ck = inl outs ∧
    Forall (λ o, owned_index o ≤ 255 ∧ is_Some (owned_amount o)) outs;
}.

Lemma returns_scan_output h m o mgr :
  running mgr → output_wf (h, o) → owned_index o ≤ 255 → is_Some (owned_amount o) →
  returns (scan_output (RpcError:=RpcError) h m o) (λ mgr' _, running mgr') mgr.
Proof using All.
  intros (st & -> & Hwf) (Hh & Hk & Hi & Hx) Hidx [a Ha]. unfold scan_output.
  apply returns_bind, (returns_mono _ (λ mgr _, running mgr)).
  - unfold output_key_is_unique. destruct (Z.ltb_spec 255 (owned_index o)); [lia|].
    apply returns_bind. eapply returns_mono.
    { eapply (returns_request _ EKey); [done|by apply law_key_get|by apply never_key_get]. }
    intros mgr' id (st1 & -> & Hwf1 & Hv & ->).
    destruct (v_keys (view st) !! _) as [id|] eqn:E.
    + case_decide; apply returns_ret; by exists st1.
    + apply returns_bind. eapply returns_mono.
      { eapply (returns_request _ EKey); [done| |].
        - apply law_key_insert; [done|done|]. simpl in *. by split; simpl; [|lia].
        - apply never_key_insert; [done|]. by rewrite Hv. }
      intros mgr'' [] (st2 & -> & Hwf2 & _). apply returns_ret. by exists st2.
  - intros mgr' b (st1 & -> & Hwf1). destruct (negb b); [apply returns_ret; by exists st1|].
    apply returns_bind. eapply returns_mono.
    { eapply (returns_request _ EInvoice); [done|by apply law_contains|by apply never_contains]. }
    intros mgr'' [] (st2 & -> & Hwf2 & _); [|apply returns_ret; by exists st2].
    rewrite Ha. apply returns_ret. by exists st2.
Qed.

Lemma returns_scan_transactions seen ck `{!WalletReadable seen ck} txs mgr :
  running mgr → Forall seen txs →
  returns (scan_transactions (RpcError:=RpcError) txs ck) (λ mgr' _, running mgr') mgr.
Proof using All.
  intros Hrun Hseen. unfold scan_transactions.
  assert (Hl : ∃ l, owned_outputs_per_tx (RpcError:=RpcError) (EI:=EI) (EK:=EK) (EH:=EH) (EF:=EF) txs ck
      = Ok l ∧ Forall (λ p, Forall (λ o, owned_index o ≤ 255 ∧ is_Some (owned_amount o)) p.2) l).
  { induction Hseen as [|tx txs Htx _ (l & IH & Hl)]; simpl; [by exists []|].
    destruct (_ =? 0); [|by exists l]. destruct (readable tx Htx) as (outs & -> & Houts).
    rewrite IH. eexists. split; [done|]. by constructor. }
  destruct Hl as (l & Hl & Hall). pose proof (owned_outputs_typed txs ck l Hl) as Htyped. rewrite Hl.
  apply returns_bind, returns_lift.
  eapply (returns_fold_each _ (λ p, Forall (λ o, owned_index o ≤ 255 ∧ is_Some (owned_amount o)) p.2 ∧
    Forall (typed_output p.1) p.2)); [done|by apply Forall_and|].
  intros [h outs] m mgr' Hrun' [Ho Ht].
  eapply (returns_fold_each _ (λ o, (owned_index o ≤ 255 ∧ is_Some (owned_amount o)) ∧ typed_output h o));
    [done|by apply Forall_and|].
  intros o m' mgr'' Hrun'' [[??] [? _]]. by apply returns_scan_output.
Qed.

Lemma returns_on_store {A} (m : M (Manager St) ScanError A) (P : Manager St → A → Prop) (s : Scanner) :
  returns m P (s_store s) →
  returns (on_store m) (λ s' a, ∃ mgr, s' = set_s_store mgr s ∧ P mgr a) s.
Proof using Type.
  intros Hm. apply returns_zoom. eapply returns_mono; [exact Hm|]. eauto.
Qed.

(** ** The blocks and the txpool *)

Section scan.
Context (Hbuild : overflow_checks = false).
Context (seen : transaction → Prop) (ck : SubKeyChecker) `{!WalletReadable seen ck}.
(** A publisher whose subscribers keep up: publishing never blocks. *)
Context (quiet : Publisher → Prop)
  (Hquiet : ∀ p i, quiet p → returns (E:=ScanError) (Publisher_send_updates i) (λ p' _, quiet p') p).

Definition active (s : Scanner) : Prop := running (s_store s) ∧ quiet (s_publisher s).

Lemma returns_scan_blocks n (s : Scanner) :
  let c := s_block_cache s in
  active s → Forall (λ b, Forall seen (b_transactions b)) (bc_blocks c) →
  n ≤ Z.of_nat (length (bc_blocks c)) →
  returns (scan_blocks (RpcError:=RpcError) ck n) (λ s' _, active s') s.
Proof using All.
  intros c Hrun Hseen Hn. unfold scan_blocks. apply returns_bind, returns_gets, returns_bind, returns_gets.
  fold c. set (k := if s_first_scan s then _ else _).
  assert (Hk : (Z.to_nat k ≤ length (bc_blocks c))%nat) by (unfold k; destruct (s_first_scan s); lia).
  apply (returns_fold_each active (λ i, (i < length (bc_blocks c))%nat)); [done| |].
  - apply Forall_reverse, Forall_seq. intros i. lia.
  - intros i acc s' [Hrun' Hq'] Hi. destruct (lookup_lt_is_Some_2 _ _ Hi) as [b Hb]. rewrite Hb.
    apply returns_bind. eapply returns_mono.
    { apply returns_on_store, (returns_scan_transactions seen); [done..|].
      exact (Forall_lookup_1 _ _ _ _ Hseen Hb). }
    intros s'' m (mgr & -> & Hmgr). apply returns_bind, returns_u64_checked; [done|]. intros y.
    by apply returns_ret.
Qed.

Lemma returns_scan_txpool txs (s : Scanner) :
  active s → Forall seen txs →
  returns (scan_txpool (RpcError:=RpcError) ck txs) (λ s' _, active s') s.
Proof using All.
  intros [Hrun Hq] Hseen. unfold scan_txpool. apply returns_bind, returns_gets, returns_bind.
  eapply returns_mono; [by apply returns_on_store, (returns_scan_transactions seen)|].
  intros s' m (mgr & -> & Hmgr). by apply returns_bind, returns_modify, returns_ret.
Qed.

(** ** The invoices *)

Lemma returns_update_closure found top deepest i (acc : list Invoice) :
  returns (update_closure (EI:=EI) found top deepest (inl i)) (λ _ _, True) acc.
Proof using Hbuild.
  unfold update_closure. apply returns_bind.
  eapply returns_mono.
  { eapply (returns_fold_each (λ _, True) (λ _, True)); [done|by apply Forall_true|].
    intros [x t] j s _ _. unfold add_transfer. case_decide; [|by apply returns_ret].
    apply returns_bind, returns_u64_checked; [done|]. intros h. by destruct (is_gt _); apply returns_ret. }
  intros acc' j _. apply returns_bind, returns_u64_checked; [done|]. intros next.
  destruct (negb _); [|by apply returns_ret]. apply returns_bind. eapply returns_mono.
  { eapply (returns_fold_each (λ _, True) (λ _, True)); [done|by apply Forall_true|].
    intros t k s _ _. unfold count_transfer. apply returns_bind, returns_u64_checked; [done|].
    intros paid. by apply returns_ret. }
  intros acc'' k _. by apply returns_modify.
Qed.

Lemma returns_update_invoices found n (s : Scanner) :
  active s →
  returns (update_invoices (RpcError:=RpcError) found n) (λ s' _, active s') s.
Proof using All.
  intros [(st & Hst & Hwf) Hq]. unfold update_invoices. apply returns_bind, returns_gets.
  apply returns_bind, returns_u64_checked; [done|]. intros y.
  apply returns_bind, returns_u64_checked; [done|]. intros deepest.
  destruct (reliable_for_each st Hwf) as (invoices & _ & Heach).
  assert (Heachr : returns (Client_try_for_each_invoice (EK:=EK) (EH:=EH) (EF:=EF)
    (update_closure found (bc_height (s_block_cache s)) deepest) []) (λ mgr _, mgr = Running st) (Running st)).
  { unfold returns, Client_try_for_each_invoice, client_request. cbn [Manager_handle].
    unfold map_err, for_each_method. rewrite Heach.
    destruct (returns_for_each (λ _, True) (λ it, ∃ i : Invoice, it = inl i) (inl <$> invoices)
      (update_closure (EI:=EI) found (bc_height (s_block_cache s)) deepest) []) as (out & [] & -> & _).
    - done.
    - apply Forall_fmap, Forall_forall. intros i _. by exists i.
    - intros it acc _ [i ->]. apply returns_update_closure.
    - eauto. }
  eapply returns_mono; [apply returns_on_store, returns_map_err; rewrite Hst; exact Heachr|].
  intros s' out (mgr & -> & ->). split; [by exists st|done].
Qed.

Lemma returns_save_update i (s : Scanner) :
  active s → Invoice_wf i → returns (save_update (RpcError:=RpcError) i) (λ s' _, active s') s.
Proof using All.
  intros [(st & Hst & Hwf) Hq] Hi. unfold save_update. apply returns_bind. eapply returns_mono.
  { apply returns_try, returns_on_store. rewrite Hst.
    eapply (returns_request _ EInvoice); [done|by apply law_update|by apply never_update]. }
  intros s' [o|e]; [|done]. intros (mgr & -> & st' & -> & Hwf' & _). apply returns_zoom.
  eapply returns_mono; [by apply Hquiet|]. intros p [] Hp. split; [by exists st'|done].
Qed.

Lemma returns_finish h (s : Scanner) :
  active s → in_u64 h →
  returns (let! _ := on_store (store (RpcError:=RpcError) (Client_upsert_height h)) in
           on_store (store Client_flush)) (λ s' _, active s') s.
Proof using All.
  intros [(st & Hst & Hwf) Hq] Hh. apply returns_bind. eapply returns_mono.
  { apply returns_on_store. rewrite Hst.
    eapply (returns_request _ EHeight); [done|by apply law_upsert|by apply never_upsert]. }
  intros s' o (mgr & -> & st' & -> & Hwf' & _). eapply returns_mono.
  { apply returns_on_store. eapply (returns_request _ EFlush); [done|by apply law_flush|by apply never_flush]. }
  intros s'' [] (mgr & -> & st'' & -> & Hwf'' & _). split; [by exists st''|done].
Qed.
End scan.

(** ** A whole scan *)

Section chain.
Context (Hbuild : overflow_checks = false).
Context (wallet : transaction → list OwnedTxOut) (seen : transaction → Prop) (ck : SubKeyChecker)
  (covers : SubIndex → Prop) `{!WalletFinds wallet ck covers seen} `{!PoolSeen seen}
  `{!WalletReadable seen ck}.
Context (hash_of : mblock → Hash) (txs_of : mblock → list transaction).
Context `{!ClientReturns W RpcError False} `{!Genuine W RpcError hash_of txs_of}.
Context (quiet : Publisher → Prop)
  (Hquiet : ∀ p i, quiet p → returns (E:=ScanError) (Publisher_send_updates i) (λ p' _, quiet p') p).
(** The requests for the txpool do not fail either. *)
Context (Hpool_hashes : ∀ w, returns mc_txpool_hashes (λ _ _, True) w)
  (Hpool_txs : ∀ l w, returns (mc_transactions_by_hashes l) (λ _ _, True) w).
Notation active := (active quiet).
Notation is_chain := (is_chain hash_of).
Notation cached := (cached hash_of txs_of).

Lemma wp_returns {S E A} (m : M S E A) (Q : S → outcome E A → Prop) (P : S → A → Prop) s :
  wp m Q s → (∀ s' r, Q s' r → ∃ a, r = Ok a ∧ P s' a) → returns m P s.
Proof using Type.
  intros Hm HQ. unfold wp in Hm. destruct (HQ _ _ Hm) as (a & Hr & HP).
  exists (m s).1, a. rewrite <-Hr. by rewrite <-surjective_pairing.
Qed.

Lemma returns_TxpoolCache_update c :
  returns (TxpoolCache_update (RpcError:=RpcError)) (λ _ _, True) c.
Proof using Hpool_hashes Hpool_txs.
  unfold TxpoolCache_update. apply returns_bind, returns_zoom, returns_map_err.
  eapply returns_mono; [apply Hpool_hashes|]. intros w hs _.
  apply returns_bind, returns_gets, returns_bind. eapply returns_mono.
  { apply returns_try, returns_zoom, returns_map_err. eapply returns_mono; [apply Hpool_txs|].
    intros w' txs _. instantiate (1 := λ _ _, True). done. }
  intros c' [txs|e]; [intros _|done]. repeat (apply returns_bind, returns_modify || apply returns_bind).
  apply returns_lift. by apply returns_bind, returns_modify, returns_ret.
Qed.

Lemma returns_update_caches old new `{!ServesChain W RpcError hash_of new} (s : Scanner) :
  cached old (s_block_cache s) →
  returns (update_caches (RpcError:=RpcError) (EI:=EI) (EK:=EK) (EH:=EH) (EF:=EF))
    (λ s' _, s_store s' = s_store s ∧ s_publisher s' = s_publisher s) s.
Proof using All.
  intros (Hwf & Hgen & _). unfold update_caches. apply returns_bind, returns_zoom, returns_map_err.
  eapply wp_returns.
  { apply (update_follows_chain hash_of txs_of new (λ _, True) (s_block_cache s) (λ _ _ _, I) Hwf Hgen). }
  intros c' [n|e| |]; try done. intros _. exists n. split; [done|].
  apply returns_bind, returns_zoom, returns_map_err.
  eapply returns_mono; [apply returns_TxpoolCache_update|]. intros p txs _. by apply returns_ret.
Qed.

Lemma returns_scan old new `{!ServesChain W RpcError hash_of new} (s : Scanner) :
  is_chain old → (∀ h, Forall seen (txs_of (old h)) ∧ Forall seen (txs_of (new h))) →
  scanner_follows wf view wallet seen hash_of txs_of old s →
  old (bottom (s_block_cache s)) = new (bottom (s_block_cache s)) → quiet (s_publisher s) →
  returns (Scanner_scan (RpcError:=RpcError) ck) (λ s' _, quiet (s_publisher s')) s.
Proof using All.
  intros Hold Hseen ((st & Hst & Hwf & Hkeys & Hinv) & Hcached & Hbc & Hpool & Hunm & Hfirst) Hbot Hq.
  set (ts := terms_of (view st)).
  assert (Hok : scanner_ok wf view (terms_are ts) s).
  { split; [|done]. intros st1. rewrite Hst. by intros [= <-]. }
  unfold Scanner_scan. apply returns_bind. eapply returns_mono.
  { apply returns_succeeds; [by apply (returns_update_caches old new)|].
    apply succeeds_and; [apply (sustains_succeeds _ _ _ _ (keeps_update_caches wf view (terms_are ts)) Hok)|].
    by apply (succeeds_update_caches wf view wallet seen ck covers hash_of txs_of False old new Hold (λ _, True) (λ _ _ _, I)). }
  intros s1 [n txs] [[Hst1 Hp1] [[Hok1 _] (_ & _ & _ & Htxs & _ & _ & _ & [_ Hn] & _ & now & Hnow & Hc1 & _)]].
  cbn [fst snd] in *.
  assert (Hact1 : active s1) by (split; [exists st; by rewrite Hst1|by rewrite Hp1]).
  assert (Hblocks : Forall (λ b, Forall seen (b_transactions b)) (bc_blocks (s_block_cache s1))).
  { destruct Hc1 as (_ & _ & Hon & _). apply Forall_lookup. intros i b Hb.
    rewrite Hon in Hb by by eapply lookup_lt_Some. injection Hb as <-. simpl.
    destruct Hnow as [[-> _]|[-> _]]; apply Hseen. }
  apply returns_bind. eapply returns_mono.
  { apply returns_succeeds; [by apply returns_try, (returns_scan_blocks Hbuild seen ck quiet)|].
    eapply sustains_succeeds; [apply sustains_try, (sustains_scan_blocks wf view ts (terms_are ts))|exact Hok1]. }
  intros s2 [l1|e] [Hact2 [Hok2 Hl1]]; [|done].
  apply returns_bind. eapply returns_mono.
  { apply returns_succeeds; [by apply returns_try, (returns_scan_txpool Hbuild seen ck quiet)|].
    eapply sustains_succeeds; [apply sustains_try, (sustains_scan_txpool wf view ts (terms_are ts))|exact Hok2]. }
  intros s3 [l2|e] [Hact3 [Hok3 Hl2]]; [|done].
  apply returns_bind, returns_lift, returns_bind, returns_lift, returns_bind, returns_modify, returns_bind.
  eapply returns_mono.
  { apply returns_succeeds; [by apply (returns_update_invoices Hbuild seen ck quiet)|].
    eapply sustains_succeeds; [apply (sustains_update_invoices wf view ts (terms_are ts)); by apply Forall_app|].
    by destruct Hok3 as (? & ? & ?). }
  intros s4 out [Hact4 [Hok4 Hout]]. apply returns_bind. eapply returns_mono.
  { apply returns_succeeds; [apply (returns_for_each active (stored_one ts)); [done|exact Hout|]|].
    - intros i s5 Hact5 [Hi _]. by apply (returns_save_update Hbuild seen ck quiet).
    - eapply sustains_succeeds; [|exact Hok4].
      eapply sustains_for_each; [exact Hout|]. intros i Hi. by apply (keeps_save_update wf view ts). }
  intros s5 [] [Hact5 [(_ & [Hh _] & _) _]]. apply returns_bind, returns_gets.
  eapply returns_mono; [by apply (returns_finish Hbuild seen ck quiet)|]. by intros s6 [] [_ ?].
Qed.

Lemma all_covered_terms (s s' : Scanner) st :
  s_store s = Running st → wf st →
  scanner_ok wf view (terms_are (terms_of (view st))) s' →
  all_covered view covers s → all_covered view covers s'.
Proof using Type.
  intros Hst Hwf (Hm & _) Hcov st' id Hst' Hid. destruct (Hm st' Hst') as [_ Ht].
  apply (Hcov st); [done|]. apply (f_equal (lookup id)) in Ht. unfold terms_of in Ht.
  rewrite !lookup_fmap in Ht. destruct Hid as [i Hi]. rewrite Hi in Ht.
  destruct (v_invoices (view st) !! id); [eauto|done].
Qed.

(** [n] scans, one after the other. *)
Fixpoint Scanner_scans (n : nat) : M Scanner ScanError unit :=
  match n with
  | O => ret tt
  | S n => Scanner_scan ck ;;; Scanner_scans n
  end.

End chain.
End scanner.
