(* ===== verification/PaymentGateway.v ===== *)
(** The payment gateway: [library/src/payment_gateway.rs].

    The state of a gateway holds what its fields and the scanning tasks it has
    spawned share: the daemon, the store, the publisher, the two atomics and
    the command channel.  [scanner_handle] is an asynchronous mutex: locking
    it while it is locked waits forever.  Calls run to their end one after the
    other, except where a property interleaves their parts. *)
From S2P Require Import Prelude.
From S2P Require Import Invoice.
From S2P Require Import Storage.
From S2P Require Import Monerod.
From S2P Require Import BlockCache.
From S2P Require Import TxpoolCache.
From S2P Require Import SubaddressCache.
From S2P Require Import Pubsub.
From S2P Require Import Scanner.

Definition DEFAULT_BLOCK_CACHE_SIZE : nat := 10.
(** Durations in milliseconds. *)
Definition DEFAULT_SCAN_INTERVAL : Z := 1000.
Definition DEFAULT_DAEMON : string := "http://node.moneroworld.com:18089".
Definition DEFAULT_RPC_CONNECTION_TIMEOUT : Z := 5000.
Definition DEFAULT_RPC_TOTAL_TIMEOUT : Z := 10000.

Inductive MessageToScanner := Stop.

(** What the builder uses of the [monero] and [hyper] crates, and how a
    client is set up from a URL. *)
Class GatewayCrates `{Monero} (W : Type) := {
  PrivateKey : Type;
  PublicKey : Type;
  PrivateKey_from_str : string → PrivateKey + string;
  Address_public_spend : string → PublicKey + string;
  ViewPair_new : PrivateKey → PublicKey → ViewPair;
  Uri : Type;
  Uri_from_str : string → Uri + string;
  RpcClient_new : Uri → Z → Z → option string → option string → option Z → W;
  MockClient_new : W;
}.

Section gateway.
Context `{Build} `{HashOrder} `{Monero} `{RngCore}.
Context {W RpcError : Type} `{!MonerodClient W RpcError}.
Context {St EI EK EH EF : Type} `{!Storage St EI EK EH EF}.

Inductive AcceptXmrError :=
  | Rpc (e : RpcError)
  | StorageFailed (e : StorageError EI EK EH EF)
  | Parse (datatype input error : string)
  | ScannerFailed (e : ScannerError RpcError EI EK EH EF)
  | AlreadyRunning
  | StopSignal (e : string).

(** A spawned scanning task: what only it owns, and whether it is over.
    Joining a task that has panicked is a [Threading] error. *)
Inductive TaskState :=
  | TaskRunning
  | TaskFinished (r : unit + ScannerError RpcError EI EK EH EF).
Record Task := mk_Task {
  t_block_cache : BlockCache W;
  t_txpool_cache : TxpoolCache W;
  t_first_scan : bool;
  t_checker : SubKeyChecker;
  t_state : TaskState;
}.

Record Gateway := mk_Gateway {
  g_client : W;
  g_viewpair : ViewPair;
  g_scan_interval : Z;
  g_store : Manager St;
  g_subaddresses : SubaddressCache;
  g_major_index : Z;
  g_initial_height : option Z;
  g_block_cache_height : Z;
  g_cached_daemon_height : Z;
  g_handle : option nat;          (* an index of [g_tasks] *)
  g_handle_locked : bool;
  g_commands : list MessageToScanner;
  g_publisher : Publisher;
  g_tasks : list Task;
}.

(** [highest_minor_index] is shared with the subaddress cache. *)
Definition g_highest_minor_index (g : Gateway) : Z := sc_highest_minor_index (g_subaddresses g).

(** One setter for the part that calls and scans exchange with the world,
    one for the subaddresses and one for the lifecycle. *)
Definition set_g_world (w : W) (m : Manager St) (p : Publisher) (c d : Z) (g : Gateway) : Gateway :=
  mk_Gateway w (g_viewpair g) (g_scan_interval g) m (g_subaddresses g) (g_major_index g)
    (g_initial_height g) c d (g_handle g) (g_handle_locked g) (g_commands g) p (g_tasks g).
Definition set_g_client (w : W) (g : Gateway) : Gateway :=
  set_g_world w (g_store g) (g_publisher g) (g_block_cache_height g) (g_cached_daemon_height g) g.
Definition set_g_store (m : Manager St) (g : Gateway) : Gateway :=
  set_g_world (g_client g) m (g_publisher g) (g_block_cache_height g) (g_cached_daemon_height g) g.
Definition set_g_publisher (p : Publisher) (g : Gateway) : Gateway :=
  set_g_world (g_client g) (g_store g) p (g_block_cache_height g) (g_cached_daemon_height g) g.
Definition set_g_subaddresses (c : SubaddressCache) (g : Gateway) : Gateway :=
  mk_Gateway (g_client g) (g_viewpair g) (g_scan_interval g) (g_store g) c (g_major_index g)
    (g_initial_height g) (g_block_cache_height g) (g_cached_daemon_height g) (g_handle g)
    (g_handle_locked g) (g_commands g) (g_publisher g) (g_tasks g).
Definition set_g_lifecycle (h : option nat) (locked : bool) (cs : list MessageToScanner)
    (ts : list Task) (g : Gateway) : Gateway :=
  mk_Gateway (g_client g) (g_viewpair g) (g_scan_interval g) (g_store g) (g_subaddresses g)
    (g_major_index g) (g_initial_height g) (g_block_cache_height g) (g_cached_daemon_height g)
    h locked cs (g_publisher g) ts.
Definition set_g_handle (h : option nat) (g : Gateway) : Gateway :=
  set_g_lifecycle h (g_handle_locked g) (g_commands g) (g_tasks g) g.
Definition set_g_locked (b : bool) (g : Gateway) : Gateway :=
  set_g_lifecycle (g_handle g) b (g_commands g) (g_tasks g) g.
Definition set_g_commands (cs : list MessageToScanner) (g : Gateway) : Gateway :=
  set_g_lifecycle (g_handle g) (g_handle_locked g) cs (g_tasks g) g.
Definition set_g_tasks (ts : list Task) (g : Gateway) : Gateway :=
  set_g_lifecycle (g_handle g) (g_handle_locked g) (g_commands g) ts g.

(** [self.scanner_handle.lock().await], and dropping the guard. *)
Definition handle_lock : M Gateway AcceptXmrError unit :=
  let! locked := gets g_handle_locked in
  if locked : bool then hang else modify (set_g_locked true).
Definition handle_unlock : M Gateway AcceptXmrError unit := modify (set_g_locked false).

Definition is_finished (t : nat) (g : Gateway) : bool :=
  match g_tasks g !! t with
  | Some task => match t_state task with TaskRunning => false | TaskFinished _ => true end
  | None => true
  end.

(** ** The scanning task *)

Definition new_checker (g : Gateway) : SubKeyChecker :=
  SubKeyChecker_new (g_viewpair g)
    (g_major_index g, saturating_add_u32 (g_major_index g) 1)
    (0, saturating_add_u32 (g_highest_minor_index g) 1).

Definition set_t_state (r : TaskState) (t : Task) : Task :=
  mk_Task (t_block_cache t) (t_txpool_cache t) (t_first_scan t) (t_checker t) r.
Definition set_t_checker (ck : SubKeyChecker) (t : Task) : Task :=
  mk_Task (t_block_cache t) (t_txpool_cache t) (t_first_scan t) ck (t_state t).

(** The scanner of a task, and what a scan leaves behind. *)
Definition load_scanner (g : Gateway) (t : Task) : Scanner W St :=
  mk_Scanner (g_store g) (set_bc_client (g_client g) (t_block_cache t))
    (set_tc_client (g_client g) (t_txpool_cache t)) (g_publisher g) (t_first_scan t).
Definition save_scanner (s : Scanner W St) (ck : SubKeyChecker) (r : TaskState) : Task :=
  mk_Task (s_block_cache s) (s_txpool_cache s) (s_first_scan s) ck r.
Definition save_world (s : Scanner W St) (g : Gateway) : Gateway :=
  set_g_world (bc_client (s_block_cache s)) (s_store s) (s_publisher s)
    (bc_height (s_block_cache s)) (bc_daemon_height (s_block_cache s)) g.

(** One iteration of the loop of task [t].  An error of the scan is only
    logged; a panic ends the task; [false] is a scan that never returns. *)
Definition scanner_iteration (t : nat) (g : Gateway) : Gateway * bool :=
  match g_tasks g !! t with
  | Some task =>
      match t_state task with
      | TaskFinished _ => (g, true)
      | TaskRunning =>
          match g_commands g with
          | Stop :: rest =>
              (set_g_tasks (<[t := set_t_state (TaskFinished (inl tt)) task]> (g_tasks g))
                 (set_g_commands rest g), true)
          | [] =>
              let ck := if checker_table_len (t_checker task) <=? g_highest_minor_index g
                        then new_checker g else t_checker task in
              let '(s, r) := Scanner_scan ck (load_scanner g task) in
              let st := match r with
                        | Panic => TaskFinished (inr Threading)
                        | _ => TaskRunning
                        end in
              (set_g_tasks (<[t := save_scanner s ck st]> (g_tasks g)) (save_world s g),
               match r with Hang => false | _ => true end)
          end
      end
  | None => (g, true)
  end.

(** [handle.join().await]: the task runs on; with a command waiting for it,
    it is over after one iteration, else it goes on forever. *)
Definition join (t : nat) : M Gateway AcceptXmrError unit :=
  modify (λ g, (scanner_iteration t g).1) ;;;
  let! tasks := gets g_tasks in
  match tasks !! t with
  | Some task =>
      match t_state task with
      | TaskFinished (inl _) => ret tt
      | TaskFinished (inr e) => throw (ScannerFailed e)
      | TaskRunning => hang
      end
  | None => panic
  end.

(** ** Starting and stopping *)

(** The first block of [run]. *)
Definition run_check : M Gateway AcceptXmrError unit :=
  handle_lock ;;;
  let! g := gets id in
  handle_unlock ;;;
  match g_handle g with
  | Some handle => if negb (is_finished handle g) then throw AlreadyRunning else ret tt
  | None => ret tt
  end.

Definition gateway_env (g : Gateway) : ScannerEnv W St :=
  mk_ScannerEnv (g_client g) (g_store g) (g_publisher g) (g_block_cache_height g)
    (g_cached_daemon_height g).
Definition set_gateway_env (e : ScannerEnv W St) (g : Gateway) : Gateway :=
  set_g_world (env_client e) (env_store e) (env_publisher e) (env_cache_height e)
    (env_daemon_height e) g.

(** The rest of [run]: the scanner is created before the lock is taken again. *)
Definition run_start : M Gateway AcceptXmrError unit :=
  let! g := gets id in
  let! scanner := zoom gateway_env set_gateway_env (map_err ScannerFailed
    (Scanner_new DEFAULT_BLOCK_CACHE_SIZE (g_initial_height g))) in
  handle_lock ;;;
  modify (λ g, set_g_tasks (g_tasks g ++ [save_scanner scanner (new_checker g) TaskRunning])
                 (set_g_handle (Some (length (g_tasks g))) g)) ;;;
  handle_unlock.

Definition PaymentGateway_run : M Gateway AcceptXmrError unit :=
  run_check ;;; run_start.

Inductive PaymentGatewayStatus :=
  | StatusRunning
  | NotRunning
  | StatusError (e : AcceptXmrError).

(** The guard of the first line lives until the function returns. *)
Definition PaymentGateway_status : M Gateway AcceptXmrError PaymentGatewayStatus :=
  handle_lock ;;;
  let! g := gets id in
  match g_handle g with
  | None => handle_unlock ;;; ret NotRunning
  | Some handle =>
      if is_finished handle g then
        handle_lock ;;;
        let! owned_handle := gets g_handle in
        modify (set_g_handle None) ;;;
        handle_unlock ;;;
        let! r :=
          match owned_handle with
          | Some handle =>
              let! r := try_ (join handle) in
              match r with
              | inl _ => ret NotRunning
              | inr e => ret (StatusError e)
              end
          | None => ret NotRunning
          end in
        handle_unlock ;;; ret r
      else handle_unlock ;;; ret StatusRunning
  end.

(** Here too the guard lives as long as the [match]. *)
Definition PaymentGateway_stop : M Gateway AcceptXmrError unit :=
  handle_lock ;;;
  let! g := gets id in
  modify (set_g_handle None) ;;;
  match g_handle g with
  | None => handle_unlock
  | Some thread =>
      (if is_finished thread g then ret tt
       else modify (λ g, set_g_commands (g_commands g ++ [Stop]) g)) ;;;
      let! r := try_ (join thread) in
      handle_unlock ;;; result r
  end.

(** ** Invoices *)

Definition gateway_store {A} (m : M (Manager St) (StorageError EI EK EH EF) A) :
    M Gateway AcceptXmrError A :=
  zoom g_store set_g_store (map_err StorageFailed m).

Definition PaymentGateway_daemon_height : M Gateway AcceptXmrError Z :=
  zoom g_client set_g_client (map_err Rpc mc_daemon_height).

Definition PaymentGateway_new_invoice
    (piconeros confirmations_required expiration_in : Z) (description : string) :
    M Gateway AcceptXmrError InvoiceId :=
  let amount := piconeros in
  let! (sub_index, subaddress) :=
    zoom g_subaddresses set_g_subaddresses SubaddressCache_remove_random in
  let! cached_daemon_height := gets g_cached_daemon_height in
  let! creation_height :=
    (if negb (cached_daemon_height =? 0) then ret cached_daemon_height
     else PaymentGateway_daemon_height) in
  let! invoice := Invoice_new subaddress sub_index creation_height amount confirmations_required
                    expiration_in description in
  gateway_store (Client_insert_invoice invoice) ;;;
  modify (λ g, set_g_publisher (Publisher_insert_invoice (Invoice_id invoice) (g_publisher g)) g) ;;;
  ret (Invoice_id invoice).

Definition PaymentGateway_remove_invoice (invoice_id : InvoiceId) :
    M Gateway AcceptXmrError (option Invoice) :=
  let! removed := gateway_store (Client_remove_invoice invoice_id) in
  match removed with
  | Some old =>
      modify (λ g, set_g_subaddresses
        (SubaddressCache_insert (sub_index invoice_id) (inv_address old) (g_subaddresses g)) g) ;;;
      modify (λ g, set_g_publisher (Publisher_remove_invoice invoice_id (g_publisher g)) g) ;;;
      ret (Some old)
  | None => ret None
  end.

Definition PaymentGateway_subscribe (sender_id : Z) (invoice_id : InvoiceId) (g : Gateway) :
    Gateway * option nat :=
  let '(p, subscriber) := Publisher_subscribe sender_id invoice_id (g_publisher g) in
  (set_g_publisher p g, subscriber).
Definition PaymentGateway_subscribe_all (sender_id : Z) (g : Gateway) : Gateway * nat :=
  let '(p, subscriber) := Publisher_subscribe_all sender_id (g_publisher g) in
  (set_g_publisher p g, subscriber).

Definition PaymentGateway_cache_height (g : Gateway) : Z := g_block_cache_height g.
Definition PaymentGateway_get_invoice (invoice_id : InvoiceId) :
    M Gateway AcceptXmrError (option Invoice) :=
  gateway_store (Client_get_invoice invoice_id).
Definition PaymentGateway_get_invoice_ids : M Gateway AcceptXmrError (list InvoiceId) :=
  gateway_store Client_get_invoice_ids.
Definition PaymentGateway_daemon_url (g : Gateway) : string := mc_url (g_client g).

(** ** The builder *)

Section builder.
Context `{!GatewayCrates W}.

Record PaymentGatewayBuilder := mk_Builder {
  b_daemon_url : string;
  b_daemon_username : option string;
  b_daemon_password : option string;
  b_rpc_timeout : Z;
  b_rpc_connection_timeout : Z;
  b_private_view_key : string;
  b_primary_address : string;
  b_scan_interval : Z;
  b_store : St;
  b_major_index : Z;
  b_initial_height : option Z;
  b_seed : option Z;
}.

Definition PaymentGatewayBuilder_new (private_view_key primary_address : string) (store : St) :
    PaymentGatewayBuilder :=
  mk_Builder DEFAULT_DAEMON None None DEFAULT_RPC_TOTAL_TIMEOUT DEFAULT_RPC_CONNECTION_TIMEOUT
    private_view_key primary_address DEFAULT_SCAN_INTERVAL store 0 None None.

Definition Builder_daemon_url (url : string) (b : PaymentGatewayBuilder) : PaymentGatewayBuilder :=
  mk_Builder url (b_daemon_username b) (b_daemon_password b) (b_rpc_timeout b)
    (b_rpc_connection_timeout b) (b_private_view_key b) (b_primary_address b)
    (b_scan_interval b) (b_store b) (b_major_index b) (b_initial_height b) (b_seed b).
Definition Builder_daemon_login (username password : string) (b : PaymentGatewayBuilder) :
    PaymentGatewayBuilder :=
  mk_Builder (b_daemon_url b) (Some username) (Some password) (b_rpc_timeout b)
    (b_rpc_connection_timeout b) (b_private_view_key b) (b_primary_address b)
    (b_scan_interval b) (b_store b) (b_major_index b) (b_initial_height b) (b_seed b).
Definition Builder_rpc_timeout (t : Z) (b : PaymentGatewayBuilder) : PaymentGatewayBuilder :=
  mk_Builder (b_daemon_url b) (b_daemon_username b) (b_daemon_password b) t
    (b_rpc_connection_timeout b) (b_private_view_key b) (b_primary_address b)
    (b_scan_interval b) (b_store b) (b_major_index b) (b_initial_height b) (b_seed b).
Definition Builder_rpc_connection_timeout (t : Z) (b : PaymentGatewayBuilder) :
    PaymentGatewayBuilder :=
  mk_Builder (b_daemon_url b) (b_daemon_username b) (b_daemon_password b) (b_rpc_timeout b)
    t (b_private_view_key b) (b_primary_address b)
    (b_scan_interval b) (b_store b) (b_major_index b) (b_initial_height b) (b_seed b).
Definition Builder_scan_interval (t : Z) (b : PaymentGatewayBuilder) : PaymentGatewayBuilder :=
  mk_Builder (b_daemon_url b) (b_daemon_username b) (b_daemon_password b) (b_rpc_timeout b)
    (b_rpc_connection_timeout b) (b_private_view_key b) (b_primary_address b)
    t (b_store b) (b_major_index b) (b_initial_height b) (b_seed b).
Definition Builder_seed (seed : Z) (b : PaymentGatewayBuilder) : PaymentGatewayBuilder :=
  mk_Builder (b_daemon_url b) (b_daemon_username b) (b_daemon_password b) (b_rpc_timeout b)
    (b_rpc_connection_timeout b) (b_private_view_key b) (b_primary_address b)
    (b_scan_interval b) (b_store b) (b_major_index b) (b_initial_height b) (Some seed).
Definition Builder_account_index (index : Z) (b : PaymentGatewayBuilder) : PaymentGatewayBuilder :=
  mk_Builder (b_daemon_url b) (b_daemon_username b) (b_daemon_password b) (b_rpc_timeout b)
    (b_rpc_connection_timeout b) (b_private_view_key b) (b_primary_address b)
    (b_scan_interval b) (b_store b) index (b_initial_height b) (b_seed b).
Definition Builder_initial_height (height : Z) (b : PaymentGatewayBuilder) :
    PaymentGatewayBuilder :=
  mk_Builder (b_daemon_url b) (b_daemon_username b) (b_daemon_password b) (b_rpc_timeout b)
    (b_rpc_connection_timeout b) (b_private_view_key b) (b_primary_address b)
    (b_scan_interval b) (b_store b) (b_major_index b) (Some height) (b_seed b).

Definition build_inner (b : PaymentGatewayBuilder) (monerod_client : W) :
    outcome AcceptXmrError Gateway :=
  let store := Client_new (b_store b) in
  match PrivateKey_from_str (b_private_view_key b) with
  | inr e => Err (Parse "PrivateKey" "[REDACTED]" e)
  | inl view =>
      match Address_public_spend (b_primary_address b) with
      | inr e => Err (Parse "Address" (b_primary_address b) e)
      | inl spend =>
          let viewpair := ViewPair_new view spend in
          match SubaddressCache_init viewpair (b_major_index b) (b_seed b) store with
          | (store, Ok subaddresses) =>
              Ok (mk_Gateway monerod_client viewpair (b_scan_interval b) store subaddresses
                    (b_major_index b) (b_initial_height b) 0 0 None false [] Publisher_new [])
          | (_, Err e) => Err (StorageFailed e)
          | (_, Panic) => Panic
          | (_, Hang) => Hang
          end
      end
  end.

Definition build (b : PaymentGatewayBuilder) : outcome AcceptXmrError Gateway :=
  match Uri_from_str (b_daemon_url b) with
  | inr e => Err (Parse "Uri" (b_daemon_url b) e)
  | inl url =>
      build_inner b (RpcClient_new url (b_rpc_timeout b) (b_rpc_connection_timeout b)
                       (b_daemon_username b) (b_daemon_password b) (b_seed b))
  end.

Definition build_with_mock_daemon (b : PaymentGatewayBuilder) : outcome AcceptXmrError Gateway :=
  build_inner b MockClient_new.
End builder.

(** * Invoices: lemmas *)

Section invoices.
Context (wf : St → Prop) (view : St → StoreView) `{HL : !LawfulStorage St EI EK EH EF wf view}.

(** A lawful store, a well-formed subaddress cache that avoids the indices
    of the stored invoices, and these are those of one account, each with
    a subaddress of its own. *)
Definition gateway_wf (g : Gateway) (s : St) : Prop :=
  let c := g_subaddresses g in
  g_store g = Running s ∧ wf s ∧ sc_wf c ∧
  avoids c (stored_index view s) ∧
  (∀ id i, v_invoices (view s) !! id = Some i →
     major (inv_index i) = sc_major_index c ∧
     inv_address i = get_subaddress (sc_viewpair c) (inv_index i)) ∧
  (∀ id id' i i', v_invoices (view s) !! id = Some i → v_invoices (view s) !! id' = Some i' →
     inv_index i = inv_index i' → id = id').

(** A request through the gateway. *)
Lemma wp_gateway_request {E A} (message : Method EI A) (f : E → AnyError EI EK EH EF) (m : M St E A)
    (ok : A → StoreView → Prop) (Q : Gateway → outcome AcceptXmrError A → Prop) g s :
  g_store g = Running s → Manager_handle message = map_err f m →
  wp m (or_fail wf view s ok) s →
  (∀ s' a, wf s' → ok a (view s') → Q (set_g_store (Running s') g) (Ok a)) →
  (∀ s' e, wf s' → view s' = view s → Q (set_g_store (Running s') g) (Err e)) →
  wp (gateway_store (client_request message)) Q g.
Proof.
  intros Hs Hm Hwp Hok Herr. apply wp_zoom, wp_map_err. rewrite Hs.
  unfold wp, client_request in *. rewrite Hm. unfold map_err.
  destruct (m s) as [s' [a|e| |]]; destruct Hwp as [Hwf Hr]; simpl in *; auto; done.
Qed.

(** The same store contents. *)
Lemma gateway_wf_view g g' s s' :
  gateway_wf g s → g_store g' = Running s' → g_subaddresses g' = g_subaddresses g →
  wf s' → view s' = view s → gateway_wf g' s'.
Proof.
  intros (_ & _ & ? & ? & ? & ?) Hst Hsub Hwf' Hv. unfold gateway_wf, stored_index in *.
  rewrite Hsub, Hv. by split_and!.
Qed.

Lemma avoids_weaken c (used used' : SubIndex → Prop) :
  avoids c used → (∀ i, used' i → used i) → avoids c used'.
Proof. intros Hav Hsub i Hi. by apply Hav, Hsub. Qed.

(** Putting an entry back at the end of the cache. *)
Lemma insert_wf c i :
  sc_wf c → i ∉ (sc_available c).*1 → major i = sc_major_index c →
  0 ≤ minor i ≤ sc_highest_minor_index c →
  sc_wf (SubaddressCache_insert i (get_subaddress (sc_viewpair c) i) c) ∧
  sc_available (SubaddressCache_insert i (get_subaddress (sc_viewpair c) i) c) =
    sc_available c ++ [(i, get_subaddress (sc_viewpair c) i)].
Proof.
  intros (Hmj & Hh & Hnd & Hin) Hi Hm Hb. unfold SubaddressCache_insert.
  rewrite im_insert_fresh by done. split; [|done]. unfold sc_wf. simpl.
  split; [done|]. split; [done|]. split.
  - rewrite fmap_app. apply NoDup_app. simpl. split_and!; [done| |by apply NoDup_singleton].
    by intros x Hx ->%list_elem_of_singleton.
  - intros j a [?|[= -> ->]%list_elem_of_singleton]%elem_of_app; [auto|].
    split_and!; [done|lia|lia|done].
Qed.

(** The cache after index [x] has been handed out. *)
Definition taken (c c' : SubaddressCache) (x : SubIndex) : Prop :=
  sc_wf c' ∧ sc_viewpair c' = sc_viewpair c ∧ sc_major_index c' = sc_major_index c ∧
  major x = sc_major_index c ∧ in_u32 (minor x).

(** Without the invoice it was handed out for, the gateway is well formed. *)
Lemma taken_wf g s c' x g1 s1 :
  gateway_wf g s → taken (g_subaddresses g) c' x →
  avoids c' (λ y, y = x ∨ stored_index view s y) →
  g_store g1 = Running s1 → g_subaddresses g1 = c' → wf s1 → view s1 = view s → gateway_wf g1 s1.
Proof.
  intros (_ & _ & _ & _ & Hacc & Hinj) (Hsc & Hvp & Hmaj & _) Hav E1 E2 E3 E4.
  unfold gateway_wf. rewrite E2, E4, Hmaj, Hvp. split_and!; try done.
  eapply avoids_weaken; [exact Hav|]. intros i Hi. right.
  unfold stored_index in *. by rewrite E4 in Hi.
Qed.

(** With it too: it gets an index that no other stored invoice has. *)
Lemma taken_stored_wf g s c' x i g1 s1 :
  gateway_wf g s → taken (g_subaddresses g) c' x →
  avoids c' (λ y, y = x ∨ stored_index view s y) → ¬ stored_index view s x →
  inv_index i = x → inv_address i = get_subaddress (sc_viewpair (g_subaddresses g)) x →
  g_store g1 = Running s1 → g_subaddresses g1 = c' → wf s1 →
  view s1 = set_v_invoices (<[Invoice_id i := i]> (v_invoices (view s))) (view s) →
  gateway_wf g1 s1.
Proof.
  intros (_ & _ & _ & _ & Hacc & Hinj) (Hsc & Hvp & Hmaj & Hx & _) Hav Hnew <- Hai E1 E2 E3 E4.
  assert (Hother : ∀ id' i', v_invoices (view s) !! id' = Some i' → inv_index i' ≠ inv_index i).
  { intros id' i' Hi' Heq. apply Hnew. exists id', i'. by rewrite Heq. }
  unfold gateway_wf. rewrite E2, E4, Hmaj, Hvp. cbn [v_invoices set_v_invoices].
  split; [done|]. split; [done|]. split; [exact Hsc|]. split; [|split].
  - eapply avoids_weaken; [exact Hav|]. intros j (id & inv & Hj & <-). rewrite E4 in Hj.
    cbn [v_invoices set_v_invoices] in Hj. apply lookup_insert_Some in Hj as [[_ <-]|[_ Hj]].
    + by left.
    + right. by exists id, inv.
  - intros id j [[_ <-]|[_ Hj]]%lookup_insert_Some; [done|by eapply Hacc].
  - intros id id' j j' [[<- <-]|[? Hj]]%lookup_insert_Some
      [[<- <-]|[? Hj']]%lookup_insert_Some Heq; [done|..].
    + by destruct (Hother _ _ Hj').
    + by destruct (Hother _ _ Hj).
    + by eapply Hinj.
Qed.

(** What a successful [new_invoice] has done. *)
Definition created (piconeros conf exp : Z) (descr : string) (g : Gateway) (s : St)
    (g' : Gateway) (s' : St) (id : InvoiceId) : Prop :=
  ∃ i, v_invoices (view s) !! id = None ∧
    view s' = set_v_invoices (<[id := i]> (v_invoices (view s))) (view s) ∧
    Invoice_id i = id ∧ inv_amount_requested i = piconeros ∧ inv_amount_paid i = 0 ∧
    inv_transfers i = [] ∧ inv_confirmations_required i = conf ∧
    inv_expiration_height i = inv_creation_height i + exp ∧ inv_description i = descr ∧
    inv_address i = get_subaddress (sc_viewpair (g_subaddresses g)) (inv_index i) ∧
    (∀ id' i', v_invoices (view s) !! id' = Some i' → inv_index i' ≠ inv_index i) ∧
    invoice_subs (g_publisher g') !! id = Some [].

(** The part of [new_invoice] after the creation height is known. *)
Lemma wp_store_new_invoice g s c' x h piconeros conf exp descr g1 :
  gateway_wf g s → taken (g_subaddresses g) c' x →
  avoids c' (λ y, y = x ∨ stored_index view s y) → ¬ stored_index view s x →
  in_u64 piconeros → in_u64 conf → in_u64 h → in_u64 (h + exp) →
  g_store g1 = Running s → g_subaddresses g1 = c' →
  wp (let! invoice := Invoice_new (get_subaddress (sc_viewpair (g_subaddresses g)) x) x h
                        piconeros conf exp descr in
      gateway_store (Client_insert_invoice invoice) ;;;
      modify (λ g, set_g_publisher
        (Publisher_insert_invoice (Invoice_id invoice) (g_publisher g)) g) ;;;
      ret (Invoice_id invoice)) (λ g' r, ∃ s', gateway_wf g' s' ∧
    match r with
    | Ok id => created piconeros conf exp descr g s g' s' id
    | Err _ => view s' = view s
    | _ => False
    end) g1.
Proof using All.
  intros Hgwf Htk Hav Hnew Hp Hc Hh Hhe Hg1 Hg1c. pose proof Hgwf as (_ & Hwf & Hsc & _).
  unfold Invoice_new. apply wp_bind, wp_bind, wp_u64_add; [done|].
  apply wp_ret. set (i := mk_Invoice _ _ _ _ _ _ _ _ _ _ _).
  assert (Hiwf : Invoice_wf i).
  { destruct Hsc as ([? ?] & _), Htk as (_ & _ & _ & Hx & ?).
    unfold Invoice_wf, SubIndex_wf, in_u32, in_u64 in *. simpl. rewrite Hx.
    assert (0 ≤ u64_max) by done. split_and!; try lia. done. }
  apply wp_bind. eapply wp_gateway_request; [done|done|by apply law_insert|..].
  - intros s1 [] Hwf1 [Hnone Hv1]. apply wp_bind, wp_modify, wp_ret. exists s1. split.
    + by apply (taken_stored_wf g s c' x i).
    + exists i. split_and!; try done.
      * intros id' i' Hi' Heq. apply Hnew. exists id', i'. by rewrite Heq.
      * simpl. by rewrite lookup_insert_eq.
  - intros s1 e Hwf1 Hv1. exists s1. split; [|done]. by apply (taken_wf g s c' x).
Qed.

(** *** Adding and removing *)

Lemma new_invoice_run `{!LawfulRng} g s piconeros conf exp descr :
  gateway_wf g s → sc_available (g_subaddresses g) ≠ [] →
  in_u64 piconeros → in_u64 conf → 0 ≤ exp →
  in_u64 (g_cached_daemon_height g) → in_u64 (g_cached_daemon_height g + exp) →
  (∀ w, wp mc_daemon_height (λ _ r, match r with
     | Ok d => in_u64 d ∧ in_u64 (d + exp) | Err _ => True | _ => False end) w) →
  wp (PaymentGateway_new_invoice piconeros conf exp descr) (λ g' r, ∃ s', gateway_wf g' s' ∧
    match r with
    | Ok id => created piconeros conf exp descr g s g' s' id
    | Err _ => view s' = view s
    | _ => False
    end) g.
Proof using All.
  intros Hgwf Hne Hp Hc Hexp Hcd Hcde Hrpc. pose proof Hgwf as (Hst & Hwf & Hsc & Hav & _).
  unfold PaymentGateway_new_invoice. apply wp_bind, wp_zoom.
  eapply wp_mono; [by apply wp_remove_random|].
  intros c r (x & a & -> & Hxin & -> & Hsc' & Hvp & Hmaj & Hfresh & _).
  destruct (Hfresh _ Hav) as [Hnew Hav'].
  assert (Htk : taken (g_subaddresses g) c x).
  { destruct Hsc as (_ & [? ?] & _ & Hall). destruct (Hall x _ Hxin) as (? & ? & _).
    unfold taken, in_u32. by split_and!; try apply Hsc'; try lia. }
  apply wp_bind, wp_gets. cbn [g_cached_daemon_height set_g_subaddresses].
  destruct (Z.eqb_spec (g_cached_daemon_height g) 0) as [E|E]; cbn [negb].
  - apply wp_bind. unfold PaymentGateway_daemon_height. apply wp_zoom, wp_map_err.
    eapply wp_mono; [apply Hrpc|]. intros w [d|e| |]; try done.
    + intros [? ?]. by apply (wp_store_new_invoice g s c x).
    + intros _. exists s. split; [|done]. by apply (taken_wf g s c x).
  - apply wp_bind, wp_ret. by apply (wp_store_new_invoice g s c x).
Qed.

Lemma remove_invoice_run g s id :
  gateway_wf g s → InvoiceId_wf id →
  wp (PaymentGateway_remove_invoice id) (λ g' r, ∃ s', gateway_wf g' s' ∧
    match r with
    | Ok o =>
        o = v_invoices (view s) !! id ∧
        view s' = set_v_invoices (delete id (v_invoices (view s))) (view s) ∧
        (is_Some o → invoice_subs (g_publisher g') !! id = None ∧
           sub_index id ∈ (sc_available (g_subaddresses g')).*1)
    | Err _ => view s' = view s ∧ g_publisher g' = g_publisher g ∧
        g_subaddresses g' = g_subaddresses g
    | _ => False
    end) g.
Proof using All.
  intros Hgwf Hid_wf. pose proof Hgwf as (Hst & Hwf & Hsc & Hav & Hacc & Hinj).
  unfold PaymentGateway_remove_invoice. apply wp_bind.
  eapply wp_gateway_request; [done|done|by apply law_remove|..].
  2:{ intros s1 e Hwf1 Hv1. exists s1. split; [|done]. by eapply gateway_wf_view. }
  intros s1 o Hwf1 [-> Hv1]. destruct (v_invoices (view s) !! id) as [old|] eqn:Eo.
  2:{ apply wp_ret. exists s1. rewrite delete_id in Hv1 by done.
      assert (view s1 = view s) as Hv by by rewrite Hv1; destruct (view s).
      split; [by eapply gateway_wf_view|]. rewrite delete_id by done.
      split_and!; [done| |by intros [??]]. by rewrite Hv; destruct (view s). }
  apply wp_bind, wp_modify, wp_bind, wp_modify, wp_ret. exists s1.
  destruct (law_wf s Hwf id old Eo) as [Hid Hiwf]. destruct (Hacc id old Eo) as [Hmaj Haddr].
  assert (Hsub : sub_index id = inv_index old) by by rewrite <-Hid.
  assert (Hstored : stored_index view s (inv_index old)) by (by exists id, old).
  destruct (Hav _ Hstored) as [Hni Hle]. specialize (Hle Hmaj).
  destruct (insert_wf (g_subaddresses g) (inv_index old) Hsc Hni Hmaj) as [Hsc' Havail].
  { destruct Hiwf as ((_ & [? _]) & _). lia. }
  cbn [g_subaddresses set_g_store set_g_world g_publisher set_g_subaddresses set_g_publisher].
  rewrite Hsub, Haddr. split.
  - unfold gateway_wf.
    cbn [g_store g_subaddresses set_g_publisher set_g_subaddresses set_g_store set_g_world].
    rewrite Hv1. cbn [v_invoices set_v_invoices]. split; [done|]. split; [done|]. split; [exact Hsc'|]. split; [|split].
    + intros i (id' & inv & Hi & <-). rewrite Hv1 in Hi. cbn [v_invoices set_v_invoices] in Hi.
      apply lookup_delete_Some in Hi as [Hne Hi]. destruct (Hav (inv_index inv)) as [Hni' Hle'].
      { by exists id', inv. }
      split; [|done]. rewrite Havail, fmap_app, elem_of_app. simpl.
      intros [?|Heq%list_elem_of_singleton]; [done|]. by apply Hne, (Hinj id id' old inv).
    + intros id' i [_ Hi]%lookup_delete_Some. by eapply Hacc.
    + intros id1 id2 i1 i2 [_ H1']%lookup_delete_Some [_ H2']%lookup_delete_Some. by eapply Hinj.
  - split_and!; [done|done|]. intros _. split; [simpl; by rewrite lookup_delete_eq|].
    rewrite Havail, fmap_app, elem_of_app. right. simpl. by apply list_elem_of_singleton.
Qed.

(** * Properties *)

(** C12: a new invoice.  On success exactly one invoice is added to the
    store, under the returned id, with the requested amount, no transfers
    and an expiration relative to its creation height, and subscribing to
    it is possible; its subaddress belongs to its index, which no other
    stored invoice has.  On an error the stored invoices are as before.
    In both cases the gateway stays well formed: no two stored invoices
    ever share a subaddress. *)
Theorem PaymentGateway_new_invoice_spec `{!LawfulRng} g s piconeros conf exp descr :
  gateway_wf g s → sc_available (g_subaddresses g) ≠ [] →
  in_u64 piconeros → in_u64 conf → 0 ≤ exp →
  in_u64 (g_cached_daemon_height g) → in_u64 (g_cached_daemon_height g + exp) →
  (∀ w, wp mc_daemon_height (λ _ r, match r with
     | Ok d => in_u64 d ∧ in_u64 (d + exp) | Err _ => True | _ => False end) w) →
  wp (PaymentGateway_new_invoice piconeros conf exp descr) (λ g' r, ∃ s', gateway_wf g' s' ∧
    match r with
    | Ok id => created piconeros conf exp descr g s g' s' id
    | Err _ => view s' = view s
    | _ => False
    end) g.
Proof using All. intros. by apply new_invoice_run. Qed.

(** C13: removing an invoice returns it and takes it, and only it, out of
    the store; its subaddress becomes available again and its
    subscriptions end.  Without such an invoice, and on an error, nothing
    changes.  The gateway stays well formed. *)
Theorem PaymentGateway_remove_invoice_spec g s id :
  gateway_wf g s → InvoiceId_wf id →
  wp (PaymentGateway_remove_invoice id) (λ g' r, ∃ s', gateway_wf g' s' ∧
    match r with
    | Ok o =>
        o = v_invoices (view s) !! id ∧
        view s' = set_v_invoices (delete id (v_invoices (view s))) (view s) ∧
        (is_Some o → invoice_subs (g_publisher g') !! id = None ∧
           sub_index id ∈ (sc_available (g_subaddresses g')).*1)
    | Err _ => view s' = view s ∧ g_publisher g' = g_publisher g ∧
        g_subaddresses g' = g_subaddresses g
    | _ => False
    end) g.
Proof using All. intros. by apply remove_invoice_run. Qed.
End invoices.

End gateway.
Arguments AcceptXmrError {_} RpcError EI EK EH EF.
Arguments Gateway {_ _} W RpcError St EI EK EH EF.
Arguments Task {_} W RpcError EI EK EH EF.
