(* ===== verification/CustomStorage.v ===== *)
(** A storage layer of one's own: the example program
    [library/examples/custom_storage/main.rs].  Its store behaves as the
    in-memory store of the library, so it keeps the promises of the traits,
    and the program finds the invoice that it has created. *)
From S2P Require Import Prelude.
From S2P Require Import Invoice.
From S2P Require Import Storage.
From S2P Require Import InMemory.
From S2P Require Import Monerod.
From S2P Require Import SubaddressCache.
From S2P Require Import PaymentGateway.

(** ** The store *)

Inductive MyCustomStorageError := MyDuplicateInvoice | MyDuplicateOutputKey.

Record MyCustomStorage := mk_MyCustomStorage {
  my_invoices : gmap InvoiceId Invoice;
  my_output_keys : gmap OutputPubKey OutputId;
  my_height : option Z;
}.

Definition MyCustomStorage_new : MyCustomStorage := mk_MyCustomStorage ∅ ∅ None.

Definition set_my_invoices (m : gmap InvoiceId Invoice) (s : MyCustomStorage) : MyCustomStorage :=
  mk_MyCustomStorage m (my_output_keys s) (my_height s).

Notation Run A := (M MyCustomStorage MyCustomStorageError A).

Definition MyCustomStorage_insert (invoice : Invoice) : Run unit :=
  let! invoices := gets my_invoices in
  if decide (is_Some (invoices !! Invoice_id invoice)) then throw MyDuplicateInvoice
  else modify (set_my_invoices (<[Invoice_id invoice := invoice]> invoices)).

Definition MyCustomStorage_remove (invoice_id : InvoiceId) : Run (option Invoice) :=
  let! invoices := gets my_invoices in
  modify (set_my_invoices (delete invoice_id invoices)) ;;;
  ret (invoices !! invoice_id).

Definition MyCustomStorage_update (invoice : Invoice) : Run (option Invoice) :=
  let! invoices := gets my_invoices in
  match invoices !! Invoice_id invoice with
  | Some old =>
      modify (set_my_invoices (<[Invoice_id invoice := invoice]> invoices)) ;;;
      ret (Some old)
  | None => ret None
  end.

Definition MyCustomStorage_get (invoice_id : InvoiceId) : Run (option Invoice) :=
  gets (λ s, my_invoices s !! invoice_id).

Definition MyCustomStorage_get_ids : Run (list InvoiceId) :=
  gets (λ s, (btree_iter InvoiceId_cmp (my_invoices s)).*1).

Definition MyCustomStorage_contains_sub_index (sub_index : SubIndex) : Run bool :=
  gets (λ s, bool_decide (is_Some (head
          (invoices_range_from (InvoiceId_new sub_index 0) (my_invoices s))))).

Definition MyCustomStorage_try_for_each {C} (s : MyCustomStorage)
    (f : EachClosure C MyCustomStorageError) : M C MyCustomStorageError unit :=
  for_each ((λ p, inl p.2) <$> btree_iter InvoiceId_cmp (my_invoices s)) f.

Definition MyCustomStorage_is_empty : Run bool :=
  gets (λ s, bool_decide (my_invoices s = ∅)).

Definition MyCustomStorage_insert_key (key : OutputPubKey) (output_id : OutputId) : Run unit :=
  let! output_keys := gets my_output_keys in
  if decide (is_Some (output_keys !! key)) then throw MyDuplicateOutputKey
  else modify (λ s, mk_MyCustomStorage (my_invoices s) (<[key := output_id]> output_keys) (my_height s)).

Definition MyCustomStorage_get_key (key : OutputPubKey) : Run (option OutputId) :=
  gets (λ s, my_output_keys s !! key).

Definition MyCustomStorage_upsert_height (height : Z) : Run (option Z) :=
  let! old_height := gets my_height in
  modify (λ s, mk_MyCustomStorage (my_invoices s) (my_output_keys s) (Some height)) ;;;
  ret old_height.

Definition MyCustomStorage_get_height : Run (option Z) := gets my_height.

#[export] Instance MyCustomStorage_InvoiceStorage :
  InvoiceStorage MyCustomStorage MyCustomStorageError := {|
  is_insert := MyCustomStorage_insert;
  is_remove := MyCustomStorage_remove;
  is_update := MyCustomStorage_update;
  is_get := MyCustomStorage_get;
  is_get_ids := MyCustomStorage_get_ids;
  is_contains_sub_index := MyCustomStorage_contains_sub_index;
  is_try_for_each := @MyCustomStorage_try_for_each;
  is_is_empty := MyCustomStorage_is_empty;
|}.
#[export] Instance MyCustomStorage_OutputKeyStorage :
  OutputKeyStorage MyCustomStorage MyCustomStorageError := {|
  ks_insert := MyCustomStorage_insert_key;
  ks_get := MyCustomStorage_get_key;
|}.
#[export] Instance MyCustomStorage_HeightStorage :
  HeightStorage MyCustomStorage MyCustomStorageError := {|
  hs_upsert := MyCustomStorage_upsert_height;
  hs_get := MyCustomStorage_get_height;
|}.
#[export] Instance MyCustomStorage_Storage :
  Storage MyCustomStorage MyCustomStorageError MyCustomStorageError MyCustomStorageError
    MyCustomStorageError := {|
  storage_flush := default_flush;
|}.

(** ** It is the in-memory store under another name *)

Definition as_in_memory (s : MyCustomStorage) : InMemory :=
  mk_InMemory (my_invoices s) (my_output_keys s) (my_height s).
Definition as_error (e : MyCustomStorageError) : InMemoryStorageError :=
  match e with
  | MyDuplicateInvoice => DuplicateInvoice
  | MyDuplicateOutputKey => DuplicateOutputKey
  end.
Definition as_outcome {A} (r : outcome MyCustomStorageError A) : outcome InMemoryStorageError A :=
  match r with Ok a => Ok a | Err e => Err (as_error e) | Panic => Panic | Hang => Hang end.

(** The two operations have the same effect and the same outcome. *)
Definition same_run {A} (m : Run A) (m' : M InMemory InMemoryStorageError A) : Prop :=
  ∀ s, m' (as_in_memory s) = (as_in_memory (m s).1, as_outcome (m s).2).

Ltac same_run_tac :=
  intros s; unfold bind, gets, modify, ret, throw; simpl; by repeat case_match.

Lemma same_insert i : same_run (MyCustomStorage_insert i) (InMemory_insert i).
Proof. unfold MyCustomStorage_insert, InMemory_insert. same_run_tac. Qed.
Lemma same_remove id : same_run (MyCustomStorage_remove id) (InMemory_remove id).
Proof. by intros s. Qed.
Lemma same_update i : same_run (MyCustomStorage_update i) (InMemory_update i).
Proof. unfold MyCustomStorage_update, InMemory_update. same_run_tac. Qed.
Lemma same_insert_key k o : same_run (MyCustomStorage_insert_key k o) (InMemory_insert_key k o).
Proof. unfold MyCustomStorage_insert_key, InMemory_insert_key. same_run_tac. Qed.

Definition MyCustomStorage_wf (s : MyCustomStorage) : Prop := InMemory_wf (as_in_memory s).
Definition MyCustomStorage_view (s : MyCustomStorage) : StoreView := InMemory_view (as_in_memory s).

(** What is promised of one is promised of the other. *)
Lemma same_or_fail {A} (m : Run A) m' (ok : A → StoreView → Prop) s :
  same_run m m' →
  wp m' (or_fail InMemory_wf InMemory_view (as_in_memory s) ok) (as_in_memory s) →
  wp m (or_fail MyCustomStorage_wf MyCustomStorage_view s ok) s.
Proof.
  intros Hm. unfold wp, or_fail. specialize (Hm s).
  destruct (m' (as_in_memory s)) as [s1 r1], (m s) as [s' r]. injection Hm as -> ->.
  intros [Hwf Hr]. split; [exact Hwf|]. by destruct r.
Qed.

#[export] Instance MyCustomStorage_lawful :
  LawfulStorage MyCustomStorage MyCustomStorageError MyCustomStorageError MyCustomStorageError
    MyCustomStorageError MyCustomStorage_wf MyCustomStorage_view.
Proof.
  split.
  - intros s Hwf. exact Hwf.
  - intros s i Hwf Hi. exact (same_or_fail _ _ _ s (same_insert i) (law_insert (as_in_memory s) i Hwf Hi)).
  - intros s id Hwf Hid. exact (same_or_fail _ _ _ s (same_remove id) (law_remove (as_in_memory s) id Hwf Hid)).
  - intros s i Hwf Hi. exact (same_or_fail _ _ _ s (same_update i) (law_update (as_in_memory s) i Hwf Hi)).
  - intros s id Hwf Hid. exact (law_get (as_in_memory s) id Hwf Hid).
  - intros s Hwf. exact (law_get_ids (as_in_memory s) Hwf).
  - intros s x Hwf Hx. exact (law_contains (as_in_memory s) x Hwf Hx).
  - intros s Hwf. exists (inl <$> (btree_iter InvoiceId_cmp (my_invoices s)).*2),
      (btree_iter InvoiceId_cmp (my_invoices s)).*2. split_and!.
    + simpl. by rewrite btree_iter_perm.
    + apply Forall2_fmap_l, Forall_Forall2_diag, Forall_true. intros i. by left.
    + intros C f c. simpl. unfold MyCustomStorage_try_for_each. by rewrite <-list_fmap_compose.
  - intros s k o Hwf Hk Ho.
    exact (same_or_fail _ _ _ s (same_insert_key k o) (law_key_insert (as_in_memory s) k o Hwf Hk Ho)).
  - intros s k Hwf Hk. exact (law_key_get (as_in_memory s) k Hwf Hk).
  - intros s h Hwf Hh. exact (law_upsert (as_in_memory s) h Hwf Hh).
  - intros s Hwf. exact (law_height (as_in_memory s) Hwf).
  - intros s Hwf. exact (law_flush (as_in_memory s) Hwf).
Qed.
