(* ===== verification/StoreRuns.v ===== *)
(** The tests of the storage traits on the four stores: the in-memory store
    passes them because it keeps the promises of the traits, and the others
    are run, over the concrete trees and the concrete connection of
    [SledDemo] and [SqliteDemo]. *)
From S2P Require Import Prelude.
From S2P Require Import TestKit.
From S2P Require Import Invoice.
From S2P Require Import Storage.
From S2P Require Import StorageTests.
From S2P Require Import InMemory.
From S2P Require Import Text.
From S2P Require Import Bincode.
From S2P Require Import Sled.
From S2P Require Import SledDemo.
From S2P Require Import Sqlite.
From S2P Require Import SqliteDemo.
From S2P Require Import CustomStorage.

(** ** The names of tables ([storage/stores/sqlite.rs]) *)

Definition quoted (t : text) : text := [dquote] ++ t ++ [dquote].
Definition test_escape_table_name : list (text * text) :=
  [(txt "", quoted (txt ""));
   (txt "invoices", quoted (txt "invoices"));
   (quoted (txt "doublequote"), quoted ([dquote; dquote] ++ txt "doublequote" ++ [dquote; dquote]));
   ([dquote] ++ txt "onequote", quoted ([dquote; dquote] ++ txt "onequote"));
   (txt "under_score", quoted (txt "under_score"))].

(** ** Temporary directories ([testing-utils/src/lib.rs]) *)

(** The crate [tempfile]: a new directory, which is removed when its handle is
    dropped. *)
Class TempFiles (Files : Type) := {
  Path : Type;
  directory : Files → Path → Prop;                   (* is there such a directory? *)
  tempdir : string → nat → Files → Files * option Path; (* with a prefix and random bytes *)
  close : Path → Files → Files;
  to_str : Path → option string;
}.
Class LawfulTempFiles `{TempFiles Files} : Prop := {
  tempdir_fresh prefix n fs fs' p : tempdir prefix n fs = (fs', Some p) →
    ¬ directory fs p ∧ ∀ p', directory fs' p' ↔ p' = p ∨ directory fs p';
  close_removes p fs p' : directory (close p fs) p' ↔ p' ≠ p ∧ directory fs p';
}.

Section temp.
Context `{TempFiles Files}.

(** The handle is a temporary of the only statement. *)
Definition new_temp_dir : M Files Empty_set string :=
  λ fs, match tempdir "temp_db_" 16 fs with
        | (fs, None) => (fs, Panic)
        | (fs, Some path) =>
            (close path fs, match to_str path with Some s => Ok s | None => Panic end)
        end.

(** The directory that is returned does not exist any more. *)
Lemma new_temp_dir_gone `{!LawfulTempFiles} fs fs' s :
  new_temp_dir fs = (fs', Ok s) →
  (∃ p, to_str p = Some s ∧ ¬ directory fs' p) ∧ ∀ p, directory fs' p ↔ directory fs p.
Proof.
  unfold new_temp_dir. destruct (tempdir _ _ fs) as [fs1 [p|]] eqn:E; [|done].
  apply tempdir_fresh in E as [Hp Hdirs]. destruct (to_str p) as [s'|] eqn:Es; [|done]. intros [= <- <-].
  split; [exists p; split; [done|]; rewrite close_removes; tauto|].
  intros p'. rewrite close_removes, Hdirs. split; [tauto|]. intros Hp'. split; [|tauto].
  by intros ->.
Qed.
End temp.

(** ** New stores *)

#[export] Instance InMemory_tested :
  TestedStorage InMemory InMemoryStorageError InMemoryStorageError InMemoryStorageError
    InMemoryStorageError InMemory_wf InMemory_view.
Proof.
  split.
  - intros s i _ Hi e. simpl in *. unfold InMemory_insert, bind, gets. rewrite Hi.
    by rewrite decide_False by by intros [? ?].
  - done.
  - done.
  - done.
  - done.
  - intros s x _ Hs. simpl in *. unfold gets. by rewrite Hs.
  - done.
Qed.

Definition new_sled : outcome SledStorageError Sled := Sled_new "temp_db_1" "invoices" "output keys" "height".
Definition new_sqlite : outcome SqliteStorageError Sqlite :=
  Sqlite_new (txt ":memory:") (txt "invoices") (txt "output keys") (txt "height").

(** [#[test_case(store)]]: each test gets a store of its own. *)
Definition all_pass {St E} (store : outcome E St) (tests : list (Test St)) : bool :=
  match store with Ok s => forallb (λ t, passes t s) tests | _ => false end.
#[local] Instance test_build : Build := {| overflow_checks := true |}.

(** The other stores pass all tests as well, and table names are escaped as
    the tests say. *)
Theorem stores_pass_tests :
  all_pass new_sled storage_tests = true ∧
  all_pass new_sqlite storage_tests = true ∧
  all_pass (Ok (E:=Empty_set) MyCustomStorage_new) storage_tests = true ∧
  forallb (case TableName_new) test_escape_table_name = true.
Proof. split_and!; by vm_compute. Qed.

