(* ===== verification/GatewayLifecycle.v ===== *)
(** Starting and stopping the gateway: the properties of [run], [status] and
    [stop] of [library/src/payment_gateway.rs], and concrete runs. *)
From S2P Require Import Prelude.
From S2P Require Import Invoice.
From S2P Require Import Storage.
From S2P Require Import InMemory.
From S2P Require Import Monerod.
From S2P Require Import Demo.
From S2P Require Import BlockCache.
From S2P Require Import TxpoolCache.
From S2P Require Import SubaddressCache.
From S2P Require Import Pubsub.
From S2P Require Import Scanner.
From S2P Require Import ScannerDemo.
From S2P Require Import PaymentGateway.

Section lifecycle.
Context `{Build} `{HashOrder} `{Monero} `{RngCore}.
Context {W RpcError : Type} `{!MonerodClient W RpcError}.
Context {St EI EK EH EF : Type} `{!Storage St EI EK EH EF}.

Notation Gateway := (Gateway W RpcError St EI EK EH EF).

(** Ready to be started: nobody holds the lock, no command is waiting, and
    no scanner is running. *)
Definition startable (g : Gateway) : Prop :=
  g_handle_locked g = false ∧ g_commands g = [] ∧
  match g_handle g with Some t => is_finished t g = true | None => True end.

(** The lock is free, and the scanner that was started is over, although
    nobody has stopped it. *)
Definition scanner_died (g : Gateway) (t : nat) : Prop :=
  g_handle_locked g = false ∧ g_handle g = Some t ∧ is_finished t g = true.

(** [Scanner_new] works, on the environment of the gateway. *)
Definition scanner_starts (e e' : ScannerEnv W St) (h : option Z) (s : Scanner W St) : Prop :=
  Scanner_new (RpcError:=RpcError) (EI:=EI) (EK:=EK) (EH:=EH) (EF:=EF)
    DEFAULT_BLOCK_CACHE_SIZE h e = (e', Ok s).

(** The gateway after a successful [run_start]. *)
Definition started (e' : ScannerEnv W St) (s : Scanner W St) (g : Gateway) : Gateway :=
  set_g_lifecycle (Some (length (g_tasks g))) false (g_commands g)
    (g_tasks g ++ [save_scanner s (new_checker g) TaskRunning]) (set_gateway_env e' g).

Lemma run_check_passes (g : Gateway) : startable g → run_check g = (g, Ok tt).
Proof.
  intros (Hl & _ & Hh). unfold run_check, handle_lock, bind, gets. rewrite Hl. simpl.
  destruct g as [????????? h lk ???]; simpl in *. subst lk. destruct h as [t|]; [|done].
  unfold is_finished in *. simpl in *. by rewrite Hh.
Qed.

Lemma run_start_starts (g : Gateway) e' s :
  g_handle_locked g = false → scanner_starts (gateway_env g) e' (g_initial_height g) s →
  run_start g = (started e' s g, Ok tt).
Proof.
  intros Hl Hs. unfold run_start, bind, gets, zoom, map_err, id. rewrite Hs.
  unfold handle_lock, bind, gets. simpl. by rewrite Hl.
Qed.

Lemma started_running e' s (g : Gateway) :
  is_finished (length (g_tasks g)) (started e' s g) = false.
Proof. unfold is_finished, started. simpl. by rewrite list_lookup_middle. Qed.

(** Sending [Stop] to the only scanner, and joining it. *)
Lemma stop_started e' s (g : Gateway) :
  g_commands g = [] →
  PaymentGateway_stop (started e' s g) =
    (set_g_lifecycle None false []
       (g_tasks g ++ [save_scanner s (new_checker g) (TaskFinished (inl tt))])
       (set_gateway_env e' g), Ok tt).
Proof.
  intros Hc. unfold PaymentGateway_stop, handle_lock, bind, gets, modify, id.
  cbn [g_handle_locked started set_g_lifecycle].
  assert (Hf : is_finished (length (g_tasks g)) (set_g_locked true (started e' s g)) = false)
    by apply (started_running e' s g).
  cbn [g_handle started set_g_lifecycle set_g_locked].
  change (set_g_lifecycle _ true _ _ _) with (set_g_locked true (started e' s g)).
  unfold started in *. cbn in *. rewrite Hc in *. rewrite Hf. simpl.
  unfold try_, join, bind, modify, gets, scanner_iteration. simpl.
  rewrite !list_lookup_middle by done. simpl.
  rewrite list_lookup_insert_eq by (rewrite length_app; simpl; lia). simpl.
  unfold handle_unlock, modify, result, lift. simpl. do 2 f_equal.
  unfold set_g_lifecycle. simpl. f_equal.
  by rewrite insert_app_r_alt, Nat.sub_diag by lia.
Qed.

(** * Properties *)

(** C14: the lifecycle of a gateway.  From a startable state, if a scanner
    can be set up, [run] succeeds; then the status is running and a second
    [run] is refused without effect; [stop] succeeds, and ends the scanning
    task; and then the status is not running and the gateway can be started
    again. *)
Theorem PaymentGateway_lifecycle (g : Gateway) e' s :
  startable g → scanner_starts (gateway_env g) e' (g_initial_height g) s →
  ∃ g1 g2,
    PaymentGateway_run g = (g1, Ok tt) ∧
    PaymentGateway_status g1 = (g1, Ok StatusRunning) ∧
    PaymentGateway_run g1 = (g1, Err AlreadyRunning) ∧
    PaymentGateway_stop g1 = (g2, Ok tt) ∧
    is_finished (length (g_tasks g)) g2 = true ∧
    PaymentGateway_status g2 = (g2, Ok NotRunning) ∧ startable g2.
Proof.
  intros Hg Hs. pose proof Hg as (Hl & Hc & _).
  exists (started e' s g). eexists.
  assert (Hrun : PaymentGateway_run g = (started e' s g, Ok tt)).
  { unfold PaymentGateway_run, bind at 1. rewrite run_check_passes by done.
    by apply run_start_starts. }
  split; [done|]. pose proof (started_running e' s g) as Hf. split; [|split; [|split]].
  - unfold PaymentGateway_status, handle_lock, bind, gets, modify, id. simpl.
    unfold is_finished in *. simpl in *. rewrite list_lookup_middle by done. done.
  - unfold PaymentGateway_run, run_check, handle_lock, bind, gets, modify, id. simpl.
    unfold is_finished in *. simpl in *. rewrite list_lookup_middle by done. done.
  - by apply stop_started.
  - split_and!; try done. unfold is_finished. simpl. by rewrite list_lookup_middle.
Qed.

(** C15: asking for the status of a gateway whose scanner has died never
    returns.  [status] locks the handle again while its first guard is
    alive; the lock is then never released, so that [stop], [run] and every
    later [status] wait forever too. *)
Theorem PaymentGateway_status_deadlocks (g : Gateway) t :
  scanner_died g t →
  let '(g', r) := PaymentGateway_status g in
  r = Hang ∧ (PaymentGateway_status g').2 = Hang ∧
  (PaymentGateway_stop g').2 = Hang ∧ (PaymentGateway_run g').2 = Hang.
Proof.
  intros (Hl & Hh & Hf). unfold PaymentGateway_status, handle_lock, bind, gets, modify, id.
  rewrite Hl. cbn [g_handle set_g_locked set_g_lifecycle]. rewrite Hh.
  change (is_finished t (set_g_locked true g)) with (is_finished t g). by rewrite Hf.
Qed.

(** Two calls of [run] at the same time can both succeed.  If the
    second call checks before the first one has stored its handle, two
    scanners are running; [stop] ends only one of them, and after it the
    status is not running although the other one still is. *)
Theorem PaymentGateway_concurrent_runs (g : Gateway) e1 s1 e2 s2 :
  startable g →
  scanner_starts (gateway_env g) e1 (g_initial_height g) s1 →
  scanner_starts e1 e2 (g_initial_height g) s2 →
  ∃ g1 g2,
    (run_check ;;; run_check ;;; run_start ;;; run_start) g = (g1, Ok tt) ∧
    is_finished (length (g_tasks g)) g1 = false ∧
    is_finished (S (length (g_tasks g))) g1 = false ∧
    PaymentGateway_stop g1 = (g2, Ok tt) ∧
    is_finished (length (g_tasks g)) g2 = false ∧
    PaymentGateway_status g2 = (g2, Ok NotRunning).
Proof.
  intros Hg Hs1 Hs2. pose proof Hg as (Hl & Hc & _).
  exists (started e2 s2 (started e1 s1 g)). eexists.
  assert (Hlen : length (g_tasks (started e1 s1 g)) = S (length (g_tasks g))).
  { simpl. rewrite length_app. simpl. lia. }
  split; [|split; [|split; [|split]]].
  - unfold bind. rewrite !run_check_passes by done. rewrite (run_start_starts g e1 s1) by done.
    apply run_start_starts; [done|]. destruct e1. exact Hs2.
  - unfold is_finished. simpl. rewrite <-(assoc_L (++)). cbn [app]. by rewrite list_lookup_middle.
  - rewrite <-Hlen. apply started_running.
  - apply stop_started. exact Hc.
  - split; [|done]. unfold is_finished. simpl. rewrite <-(assoc_L (++)). cbn [app].
    by rewrite list_lookup_middle.
Qed.
End lifecycle.

(** * Concrete runs *)

Notation DemoGateway := (Gateway nat unit InMemory InMemoryStorageError InMemoryStorageError
  InMemoryStorageError InMemoryStorageError).

Definition demo_gateway_world : DemoWorld := mk_DemoWorld 0 (λ _, []) [] 12 None.
Notation DemoTask := (Task nat unit InMemoryStorageError InMemoryStorageError
  InMemoryStorageError InMemoryStorageError).

#[local] Instance demo_gateway_client : MonerodClient (H:=DemoMonero) nat unit :=
  DemoClient demo_gateway_world.

Definition demo_subaddresses : SubaddressCache :=
  mk_SubaddressCache 1 1
    [(SubIndex_new 1 0, "1/0"%string); (SubIndex_new 1 1, "1/1"%string)]
    (tt : ViewPair (Monero:=DemoMonero)) [0].

Definition demo_gateway (tasks : list DemoTask) (h : option nat) : DemoGateway :=
  mk_Gateway 0%nat (tt : ViewPair (Monero:=DemoMonero)) 1000 (Running (demo_store []))
    demo_subaddresses 1 None 0 11 h false [] Publisher_new tasks.

Lemma demo_starts (e : ScannerEnv nat InMemory) h :
  match Scanner_new (RpcError:=unit) DEFAULT_BLOCK_CACHE_SIZE h e with
  | (e', Ok s) => scanner_starts (RpcError:=unit) e e' h s
  | _ => True
  end.
Proof. unfold scanner_starts. destruct (Scanner_new _ _ _) as [e' [s| | |]]; done. Qed.

Lemma PaymentGateway_lifecycle_witness :
  ∃ g1, PaymentGateway_run (demo_gateway [] None) = (g1, Ok tt) ∧
        PaymentGateway_status g1 = (g1, Ok StatusRunning).
Proof.
  pose proof (demo_starts (gateway_env (demo_gateway [] None)) None) as Hs.
  assert (Hok : match (Scanner_new (RpcError:=unit) DEFAULT_BLOCK_CACHE_SIZE None
    (gateway_env (demo_gateway [] None))).2 with Ok _ => true | _ => false end = true) by by vm_compute.
  destruct (Scanner_new _ _ _) as [e' [s| | |]]; try discriminate Hok.
  destruct (PaymentGateway_lifecycle (demo_gateway [] None) e' s) as (g1 & g2 & H1 & H2 & _).
  - done.
  - exact Hs.
  - by exists g1.
Defined.

Definition demo_dead_task : DemoTask :=
  mk_Task (mk_BlockCache 11 12 [] 0%nat) (mk_TxpoolCache 0%nat ∅ ∅) false demo_checker
    (TaskFinished (inr Threading)).

Lemma PaymentGateway_status_deadlocks_witness :
  (PaymentGateway_status (demo_gateway [demo_dead_task] (Some 0%nat))).2 = Hang.
Proof.
  pose proof (PaymentGateway_status_deadlocks (demo_gateway [demo_dead_task] (Some 0%nat)) 0
    (conj eq_refl (conj eq_refl eq_refl))) as H.
  destruct (PaymentGateway_status _) as [g' r]. exact (proj1 H).
Defined.

Lemma PaymentGateway_concurrent_runs_witness :
  ∃ g1, (run_check ;;; run_check ;;; run_start ;;; run_start) (demo_gateway [] None) = (g1, Ok tt) ∧
    is_finished 0 g1 = false ∧ is_finished 1 g1 = false.
Proof.
  pose proof (demo_starts (gateway_env (demo_gateway [] None)) None) as Hs1.
  assert (Hok : match Scanner_new (RpcError:=unit) DEFAULT_BLOCK_CACHE_SIZE None
    (gateway_env (demo_gateway [] None)) with
    | (e, Ok _) => match (Scanner_new (RpcError:=unit) DEFAULT_BLOCK_CACHE_SIZE None e).2 with
                   | Ok _ => true | _ => false end
    | _ => false end = true) by by vm_compute.
  destruct (Scanner_new _ _ (gateway_env _)) as [e1 [s1| | |]]; try discriminate Hok.
  pose proof (demo_starts e1 None) as Hs2.
  destruct (Scanner_new _ _ e1) as [e2 [s2| | |]]; try discriminate Hok.
  destruct (PaymentGateway_concurrent_runs (demo_gateway [] None) e1 s1 e2 s2)
    as (g1 & g2 & H1 & H2 & H3 & _); try done.
  by exists g1.
Defined.

Lemma demo_gateway_wf : gateway_wf InMemory_wf InMemory_view (demo_gateway [] None) (demo_store []).
Proof.
  split; [done|]. split; [by apply demo_store_wf|]. split; [|split; [|split]].
  - split; [split; vm_compute; congruence|]. split; [split; vm_compute; congruence|]. split.
    + apply (bool_decide_unpack _). by vm_compute.
    + intros i a [[= -> ->]|[[= -> ->]|[]%elem_of_nil]%elem_of_cons]%elem_of_cons; simpl;
        split_and!; first [lia|by vm_compute].
  - intros i (id & inv & Hi & _). simpl in Hi. by rewrite lookup_empty in Hi.
  - intros id i Hi. simpl in Hi. by rewrite lookup_empty in Hi.
  - intros id id' i i' Hi. simpl in Hi. by rewrite lookup_empty in Hi.
Qed.

Lemma PaymentGateway_new_invoice_spec_witness :
  (PaymentGateway_new_invoice 10 1 20 "coffee" (demo_gateway [] None)).2 =
    Ok (InvoiceId_new (SubIndex_new 1 0) 11) ∧
  ∃ s', gateway_wf InMemory_wf InMemory_view
          (PaymentGateway_new_invoice 10 1 20 "coffee" (demo_gateway [] None)).1 s'.
Proof.
  split; [by vm_compute|].
  destruct (PaymentGateway_new_invoice_spec InMemory_wf InMemory_view (demo_gateway [] None)
    (demo_store []) 10 1 20 "coffee" demo_gateway_wf) as (s' & Hs & _).
  - done.
  - split; vm_compute; congruence.
  - split; vm_compute; congruence.
  - lia.
  - split; vm_compute; congruence.
  - split; vm_compute; congruence.
  - intros w. split; split; vm_compute; congruence.
  - by exists s'.
Defined.

Lemma PaymentGateway_remove_invoice_spec_witness :
  (PaymentGateway_remove_invoice (Invoice_id demo_bill) (demo_gateway [] None)).2 = Ok None.
Proof.
  destruct (PaymentGateway_remove_invoice_spec InMemory_wf InMemory_view (demo_gateway [] None)
    (demo_store []) (Invoice_id demo_bill) demo_gateway_wf) as (s' & _ & H); [decide_goal|].
  by vm_compute.
Defined.
