(* ===== verification/GatewayInvariant.v ===== *)
(** The invariant of the whole gateway: whatever calls are made on it, in
    whatever order, and however the scans in between end, it stays well
    formed; in particular no two stored invoices ever share a subaddress. *)
From S2P Require Import Prelude.
From S2P Require Import Sustains.
From S2P Require Import Invoice.
From S2P Require Import Storage.
From S2P Require Import Monerod.
From S2P Require Import BlockCache.
From S2P Require Import TxpoolCache.
From S2P Require Import SubaddressCache.
From S2P Require Import Pubsub.
From S2P Require Import Scanner.
From S2P Require Import ScannerInvariant.
From S2P Require Import PaymentGateway.

Section invariant.
Context `{Build} `{HashOrder} `{Monero} `{RngCore} `{!LawfulRng}.
Context {W RpcError : Type} `{!MonerodClient W RpcError} `{!TypedCrates W RpcError}.
Context {St EI EK EH EF : Type} `{!Storage St EI EK EH EF}.
Context (wf : St → Prop) (view : St → StoreView) `{HL : !LawfulStorage St EI EK EH EF wf view}.
Notation XmrError := (AcceptXmrError RpcError EI EK EH EF).
Notation gateway := (Gateway W RpcError St EI EK EH EF).
Notation task := (Task W RpcError EI EK EH EF).
Notation gateway_wf := (gateway_wf wf view).
Notation mgr_ok ts := (mgr_ok wf view (terms_are ts)).

(** ** The invariant *)

Definition task_ok (t : task) : Prop := bc_ok (t_block_cache t) ∧ pool_ok (t_txpool_cache t).
Definition frame_ok (g : gateway) : Prop :=
  in_u64 (g_block_cache_height g) ∧ in_u64 (g_cached_daemon_height g) ∧ Forall task_ok (g_tasks g).
Definition gateway_ok (g : gateway) : Prop :=
  (∀ s, g_store g = Running s → gateway_wf g s) ∧ frame_ok g.

(** Only the terms of the stored invoices matter. *)
Lemma gateway_wf_terms (g g' : gateway) s s' :
  gateway_wf g s → g_store g' = Running s' → g_subaddresses g' = g_subaddresses g →
  wf s' → terms_of (view s') = terms_of (view s) → gateway_wf g' s'.
Proof using Type.
  intros (_ & _ & Hsc & Hav & Hacc & Hinj) Hst Hsub Hwf' Ht.
  assert (Hold : ∀ id i', v_invoices (view s') !! id = Some i' → ∃ i,
    v_invoices (view s) !! id = Some i ∧ inv_index i = inv_index i' ∧ inv_address i = inv_address i').
  { intros id i' Hi'. pose proof (f_equal (lookup id) Ht) as E. unfold terms_of in E.
    rewrite !lookup_fmap, Hi' in E. destruct (v_invoices (view s) !! id) as [i|]; [|done].
    apply (inj Some) in E. symmetry in E. exists i. split; [done|]. by split; [apply terms_index|apply terms_address]. }
  unfold PaymentGateway.gateway_wf. rewrite Hsub. split; [done|]. split; [done|]. split; [exact Hsc|].
  split; [|split].
  - eapply avoids_weaken; [exact Hav|]. intros x (id & i' & Hi' & <-).
    destruct (Hold id i' Hi') as (i & ? & ? & _). by exists id, i.
  - intros id i' Hi'. destruct (Hold id i' Hi') as (i & Hi & <- & <-). by eapply Hacc.
  - intros id1 id2 i1' i2' H1' H2' E. destruct (Hold _ _ H1') as (i1 & ? & E1 & _).
    destruct (Hold _ _ H2') as (i2 & ? & E2 & _). eapply Hinj; [done..|]. congruence.
Qed.

(** The terms of the store, as far as it has any. *)
Definition has_terms (ts : gmap InvoiceId Invoice) (m : Manager St) : Prop :=
  ∀ s, m = Running s → terms_of (view s) = ts.

Lemma some_terms (m : Manager St) : ∃ ts, has_terms ts m.
Proof using Type. destruct m as [s|]; [exists (terms_of (view s))|exists ∅]; by intros ? [= <-]. Qed.

(** A change of the store that keeps the terms of the invoices. *)
Lemma gateway_ok_terms (g g' : gateway) :
  gateway_ok g → g_subaddresses g' = g_subaddresses g → frame_ok g' →
  (∀ ts, has_terms ts (g_store g) → mgr_ok ts (g_store g')) → gateway_ok g'.
Proof using Type.
  intros [Hg _] Hsub Hf Hm. split; [|done]. intros s' Es'.
  destruct (g_store g) as [s|] eqn:Es.
  - destruct (Hm (terms_of (view s))) with s' as [Hwf' Ht]; [by intros ? [= <-]|done|].
    by eapply gateway_wf_terms; [apply Hg|..].
  - exfalso. assert (g_store g' = Dead) as E by (apply (mgr_ok_all wf view); intros ts; by apply Hm).
    by rewrite Es' in E.
Qed.

(** A change of neither the store nor the subaddresses. *)
Lemma gateway_ok_same (g g' : gateway) :
  gateway_ok g → g_store g' = g_store g → g_subaddresses g' = g_subaddresses g → frame_ok g' →
  gateway_ok g'.
Proof using Type.
  intros [Hg Hf] Hst Hsub Hf'. split; [|done]. intros s Es. rewrite Hst in Es.
  destruct (Hg s Es) as (_ & Hrest). unfold PaymentGateway.gateway_wf. rewrite Hst, Hsub. by split.
Qed.

Lemma gateway_ok_mgr (g : gateway) ts : gateway_ok g → has_terms ts (g_store g) → mgr_ok ts (g_store g).
Proof using Type. intros [Hg _] Ht s Es. split; [by destruct (Hg s Es) as (_ & ? & _)|by apply Ht]. Qed.

Lemma keeps_gateway_store {A} (m : M (Manager St) (StorageError EI EK EH EF) A) :
  (∀ ts, keeps (mgr_ok ts) m) → keeps gateway_ok (gateway_store m).
Proof using Type.
  intros Hm g Hg. split; [|done]. unfold gateway_store, zoom, map_err.
  pose proof (λ ts Ht, proj1 (Hm ts (g_store g) (gateway_ok_mgr g ts Hg Ht))) as Hts.
  destruct Hg as [Hg Hf]. destruct (m (g_store g)) as [mgr [| | |]]; simpl in *;
    by apply (gateway_ok_terms g).
Qed.

Lemma keeps_gateway_call {E A} (call : M W E A) (f : E → XmrError) (P : A → Prop) :
  sustains (λ _, True) P call → sustains gateway_ok P (zoom g_client set_g_client (map_err f call)).
Proof using Type.
  intros Hcall. eapply (sustains_zoom _ (λ _, True)); [by apply sustains_map_err|done|].
  intros g w Hg _. by apply (gateway_ok_same g); [..|apply Hg].
Qed.

(** ** The scanning tasks *)

Lemma scanner_ok_load (g : gateway) t (tk : task) ts :
  gateway_ok g → g_tasks g !! t = Some tk → has_terms ts (g_store g) →
  scanner_ok wf view (terms_are ts) (load_scanner g tk).
Proof using Type.
  intros Hg Htk Hts. split; [by apply gateway_ok_mgr|].
  destruct Hg as (_ & _ & _ & Hall). rewrite Forall_forall in Hall.
  by apply (Hall tk), (list_elem_of_lookup_2 _ t).
Qed.

(** Replacing a task. *)
Lemma frame_ok_task (g : gateway) t (tk : task) :
  frame_ok g → task_ok tk → frame_ok (set_g_tasks (<[t := tk]> (g_tasks g)) g).
Proof using Type. intros (? & ? & ?) Ht. split; [done|]. split; [done|]. by apply Forall_insert. Qed.

Lemma iteration_ok t (g : gateway) : gateway_ok g → gateway_ok (scanner_iteration t g).1.
Proof using All.
  intros Hg. unfold scanner_iteration. destruct (g_tasks g !! t) as [tk|] eqn:Etk; [|done].
  assert (Htk : task_ok tk).
  { destruct Hg as (_ & _ & _ & Hall). rewrite Forall_forall in Hall.
    by apply (Hall tk), (list_elem_of_lookup_2 _ t). }
  destruct (t_state tk); [|done]. destruct (g_commands g) as [|[] rest].
  - set (ck := if _ <=? _ then _ else _).
    pose proof (λ ts Hts, proj1 (keeps_Scanner_scan wf view ts ck (load_scanner g tk)
      (scanner_ok_load g t tk ts Hg Etk Hts))) as Hscan.
    destruct (Scanner_scan ck (load_scanner g tk)) as [s r]. cbn [fst snd] in *.
    destruct (some_terms (g_store g)) as [ts Hts]. destruct (Hscan ts Hts) as (_ & Hbc & Hpool).
    apply (gateway_ok_terms g); [done|done| |].
    + destruct Hg as (_ & _ & _ & Hall). split; [apply Hbc|]. split; [apply Hbc|].
      by apply Forall_insert.
    + intros ts' Hts'. apply Hscan. exact Hts'.
  - apply (gateway_ok_same g); [done..|].
    exact (frame_ok_task g t (set_t_state _ tk) (proj2 Hg) Htk).
Qed.

(** ** The calls *)

Lemma keeps_lifecycle (f : gateway → gateway) :
  (∀ g, g_store (f g) = g_store g ∧ g_subaddresses (f g) = g_subaddresses g ∧
        g_tasks (f g) = g_tasks g ∧ g_block_cache_height (f g) = g_block_cache_height g ∧
        g_cached_daemon_height (f g) = g_cached_daemon_height g) →
  keeps gateway_ok (modify (E:=XmrError) f).
Proof using Type.
  intros Hf. apply sustains_modify. intros g Hg. destruct (Hf g) as (? & ? & Ht & Hb & Hd).
  apply (gateway_ok_same g); [done..|]. unfold frame_ok. rewrite Ht, Hb, Hd. apply Hg.
Qed.

Lemma keeps_lock : keeps gateway_ok handle_lock.
Proof using Type.
  unfold handle_lock. eapply sustains_bind; [by apply (sustains_gets _ (λ _, True))|].
  intros [] _; [apply sustains_hang|by apply keeps_lifecycle].
Qed.

Lemma keeps_unlock : keeps gateway_ok handle_unlock.
Proof using Type. by apply keeps_lifecycle. Qed.

Lemma keeps_id : keeps gateway_ok (gets (E:=XmrError) id).
Proof using Type. by apply sustains_gets. Qed.

Lemma keeps_join t : keeps gateway_ok (join t).
Proof using All.
  unfold join. eapply sustains_bind; [apply sustains_modify, iteration_ok|]. intros [] _.
  eapply sustains_bind; [by apply (sustains_gets _ (λ _, True))|]. intros tasks _.
  destruct (tasks !! t) as [tk|]; [|apply sustains_panic].
  destruct (t_state tk) as [|[?|?]]; [apply sustains_hang|by apply sustains_ret|apply sustains_throw].
Qed.

Lemma keeps_run_start : keeps gateway_ok run_start.
Proof using All.
  unfold run_start. eapply sustains_bind; [apply keeps_id|]. intros g0 _.
  eapply (sustains_bind _ (λ s : Scanner W St, bc_ok (s_block_cache s) ∧ pool_ok (s_txpool_cache s))).
  - intros g Hg.
    assert (Henv : ∀ ts, has_terms ts (g_store g) → env_ok wf view (terms_are ts) (gateway_env g)).
    { intros ts Hts. split; [by apply gateway_ok_mgr|]. by destruct Hg as (_ & ? & ? & _). }
    pose proof (λ ts Hts, sustains_Scanner_new wf view ts (terms_are ts) DEFAULT_BLOCK_CACHE_SIZE
      (g_initial_height g0) (gateway_env g) (Henv ts Hts)) as Hnew.
    destruct (some_terms (g_store g)) as [ts Hts]. unfold zoom, map_err.
    destruct (Scanner_new _ _ _) as [e r]. cbn [fst snd] in Hnew.
    destruct (Hnew ts Hts) as [(_ & Hc & Hd) Hr].
    assert (Hok : gateway_ok (set_gateway_env e g)).
    { apply (gateway_ok_terms g); [done|done| |].
      - split; [done|]. split; [done|]. apply Hg.
      - intros ts' Hts'. apply (Hnew ts' Hts'). }
    destruct r as [s| | |]; (split; [done|]); intros ? [= <-]. by apply Hr.
  - intros s [Hbc Hpool]. eapply sustains_bind; [apply keeps_lock|]. intros [] _.
    eapply (sustains_bind _ (λ _, True)); [|intros [] _; apply keeps_unlock]. apply sustains_modify.
    intros g Hg. apply (gateway_ok_same g); [done..|]. destruct Hg as (_ & ? & ? & Hall).
    split; [done|]. split; [done|]. apply Forall_app. split; [done|]. by apply Forall_singleton.
Qed.

Lemma keeps_run : keeps gateway_ok PaymentGateway_run.
Proof using All.
  unfold PaymentGateway_run, run_check.
  eapply (sustains_bind _ (λ _, True)); [|intros [] _; apply keeps_run_start].
  eapply sustains_bind; [apply keeps_lock|]. intros [] _.
  eapply sustains_bind; [apply keeps_id|]. intros g _.
  eapply sustains_bind; [apply keeps_unlock|]. intros [] _.
  destruct (g_handle g); [|by apply sustains_ret].
  destruct (negb _); [apply sustains_throw|by apply sustains_ret].
Qed.

Lemma keeps_status : keeps gateway_ok PaymentGateway_status.
Proof using All.
  unfold PaymentGateway_status.
  eapply sustains_bind; [apply keeps_lock|]. intros [] _.
  eapply sustains_bind; [apply keeps_id|]. intros g _.
  destruct (g_handle g) as [t|].
  2:{ eapply sustains_bind; [apply keeps_unlock|]. intros [] _. by apply sustains_ret. }
  destruct (is_finished t g).
  2:{ eapply sustains_bind; [apply keeps_unlock|]. intros [] _. by apply sustains_ret. }
  eapply sustains_bind; [apply keeps_lock|]. intros [] _.
  eapply sustains_bind; [by apply (sustains_gets _ (λ _, True))|]. intros owned _.
  eapply sustains_bind; [by apply keeps_lifecycle|]. intros [] _.
  eapply sustains_bind; [apply keeps_unlock|]. intros [] _.
  eapply (sustains_bind _ (λ _, True)).
  - destruct owned as [t'|]; [|by apply sustains_ret].
    eapply sustains_bind; [apply sustains_try, keeps_join|]. by intros [?|?] _; apply sustains_ret.
  - intros r _. eapply sustains_bind; [apply keeps_unlock|]. intros [] _. by apply sustains_ret.
Qed.

Lemma keeps_stop : keeps gateway_ok PaymentGateway_stop.
Proof using All.
  unfold PaymentGateway_stop.
  eapply sustains_bind; [apply keeps_lock|]. intros [] _.
  eapply sustains_bind; [apply keeps_id|]. intros g _.
  eapply sustains_bind; [by apply keeps_lifecycle|]. intros [] _.
  destruct (g_handle g) as [t|]; [|apply keeps_unlock].
  eapply (sustains_bind _ (λ _, True)).
  { destruct (is_finished t g); [by apply sustains_ret|by apply keeps_lifecycle]. }
  intros [] _. eapply sustains_bind; [apply sustains_try, keeps_join|]. intros r _.
  eapply sustains_bind; [apply keeps_unlock|]. intros [] _.
  apply sustains_lift. by destruct r.
Qed.

(** ** New invoices *)

(** Subaddress [a] of index [x] has been taken out of the cache. *)
Definition taking (x : SubIndex) (a : string) (g : gateway) : Prop :=
  frame_ok g ∧ ∀ s, g_store g = Running s → ∃ g0 : gateway, gateway_wf g0 s ∧
    taken (g_subaddresses g0) (g_subaddresses g) x ∧
    avoids (g_subaddresses g) (λ y, y = x ∨ stored_index view s y) ∧ ¬ stored_index view s x ∧
    a = get_subaddress (sc_viewpair (g_subaddresses g0)) x.

Lemma taking_ok x a (g : gateway) : taking x a g → gateway_ok g.
Proof using Type.
  intros [Hf Hg]. split; [|done]. intros s Es. destruct (Hg s Es) as (g0 & Hwf & Ht & Hav & _).
  eapply (taken_wf wf view g0 s); [done|done|exact Hav|done|done| |done]. by destruct Hwf as (_ & ? & _).
Qed.

Lemma taking_same x a (g g' : gateway) :
  taking x a g → g_store g' = g_store g → g_subaddresses g' = g_subaddresses g → frame_ok g' →
  taking x a g'.
Proof using Type. intros [_ Hg] Hst Hsub Hf. split; [done|]. by rewrite Hst, Hsub. Qed.

(** On an empty cache [remove_random] panics. *)
Lemma take_subaddress (g : gateway) :
  gateway_ok g →
  match zoom g_subaddresses set_g_subaddresses (SubaddressCache_remove_random (E:=XmrError)) g with
  | (g', Ok (x, a)) => taking x a g'
  | (g', _) => gateway_ok g'
  end.
Proof using All.
  intros Hg. pose proof Hg as [Hwf Hf]. unfold zoom.
  destruct (g_store g) as [s|] eqn:Es.
  2:{ destruct (SubaddressCache_remove_random _) as [c [[x a]|e| |]]; (split; [done || intros s | done || intros s]);
      simpl; rewrite ?Es; done. }
  specialize (Hwf s eq_refl). pose proof Hwf as (_ & _ & Hsc & Hav & _).
  destruct (decide (sc_available (g_subaddresses g) = [])) as [He|Hne].
  - unfold SubaddressCache_remove_random, remove_random_loop, bind, gets, id, panic, SubaddressCache_len.
    rewrite He. cbn [length Z.of_nat Z.eqb]. by destruct g.
  - pose proof (wp_remove_random (E:=XmrError) _ Hsc Hne) as Hr. unfold wp in Hr.
    destruct (SubaddressCache_remove_random _) as [c r]. cbn [fst snd] in Hr.
    destruct Hr as (x & a & -> & Hin & -> & Hsc' & Hvp & Hmaj & Hfresh & _).
    split; [done|]. simpl. rewrite Es. intros ? [= <-]. exists g.
    destruct (Hfresh _ Hav) as [Hnew Hav']. split; [done|]. split; [|done].
    destruct Hsc as (_ & [? ?] & _ & Hall). destruct (Hall x _ Hin) as (? & ? & _).
    unfold taken, in_u32. by split_and!; try apply Hsc'; try lia.
Qed.

Lemma keeps_daemon_height x a : sustains (taking x a) in_u64 PaymentGateway_daemon_height.
Proof using All.
  eapply (sustains_zoom _ (λ _, True)); [|done|].
  - apply sustains_map_err. intros w _. split; [done|]. apply typed_daemon_height.
  - intros g w Hg _. by apply (taking_same x a g); [..|apply Hg].
Qed.

(** An invoice as [new_invoice] makes it for that index. *)
Definition for_index (x : SubIndex) (a : string) (i : Invoice) : Prop :=
  inv_index i = x ∧ inv_address i = a ∧ (SubIndex_wf x → Invoice_wf i).

Lemma sustains_Invoice_new {S E} (I : S → Prop) x a h p c e d :
  in_u64 h → in_u64 p → in_u64 c →
  sustains I (for_index x a) (Invoice_new (E:=E) a x h p c e d).
Proof using Type.
  intros Hh Hp Hc. unfold Invoice_new. eapply sustains_bind; [apply sustains_u64_add|].
  intros exp Hexp. apply sustains_ret. split; [done|]. split; [done|]. intros Hx.
  unfold Invoice_wf. simpl. assert (in_u64 0) by (by split). by split_and!.
Qed.

Lemma insert_taken x a i (g : gateway) :
  taking x a g → for_index x a i → gateway_ok (gateway_store (Client_insert_invoice i) g).1.
Proof using All.
  intros Hg (Hx & Ha & Hi). pose proof Hg as [Hf Htk].
  unfold gateway_store, zoom, map_err, Client_insert_invoice, client_request.
  destruct (g_store g) as [s|] eqn:Es; [|by split].
  destruct (Htk s eq_refl) as (g0 & Hwf & Ht & Hav & Hnew & ->).
  pose proof Hwf as (_ & Hwfs & ([Hm1 Hm2] & _) & _).
  assert (Hiwf : Invoice_wf i).
  { apply Hi. destruct Ht as (_ & _ & _ & Hmaj & Hmin). split; [|exact Hmin]. rewrite Hmaj. by split. }
  pose proof (law_insert s i Hwfs Hiwf) as Hlaw. unfold wp in Hlaw. cbn [Manager_handle]. unfold map_err.
  destruct (is_insert i s) as [s' [[]|e| |]]; destruct Hlaw as [Hwf' Hv]; try done;
    (split; [|done]); cbn; intros ? [= <-].
  - destruct Hv as [_ Hv]. by apply (taken_stored_wf wf view g0 s (g_subaddresses g) x i).
  - by apply (taken_wf wf view g0 s (g_subaddresses g) x).
Qed.

(** Part of a computation turns one invariant into another. *)
Lemma bind_turns {S E A B} (I J : S → Prop) (P : A → Prop) (m : M S E A) (k : A → M S E B) s :
  (I (m s).1 ∧ ∀ a, (m s).2 = Ok a → P a) → (∀ s, I s → J s) →
  (∀ a s, P a → I s → J (k a s).1) → J (bind m k s).1.
Proof using Type. intros [Hs Ha] HIJ Hk. unfold bind. destruct (m s) as [s' [a|e| |]]; simpl in *; auto. Qed.

Lemma keeps_new_invoice p c e d :
  in_u64 p → in_u64 c → keeps gateway_ok (PaymentGateway_new_invoice p c e d).
Proof using All.
  intros Hp Hc g Hg. split; [|done]. unfold PaymentGateway_new_invoice. unfold bind at 1.
  pose proof (take_subaddress g Hg) as Htake.
  destruct (zoom _ _ _ g) as [g1 [[x a]|err| |]]; try done. clear g Hg. revert g1 Htake. intros g1 Hg1.
  pose proof (taking_ok x a) as Hok.
  eapply (bind_turns (taking x a) _ in_u64); [|exact Hok|].
  { apply sustains_gets; [|exact Hg1]. by intros g ((_ & ? & _) & _). }
  intros cached g2 Hcached Hg2. eapply (bind_turns (taking x a) _ in_u64); [|exact Hok|].
  { destruct (negb _); [by apply sustains_ret|by apply keeps_daemon_height]. }
  intros h g3 Hh Hg3. eapply (bind_turns (taking x a) _ (for_index x a)); [|exact Hok|].
  { by apply sustains_Invoice_new. }
  intros i g4 Hi Hg4. eapply (bind_turns gateway_ok _ (λ _, True)); [|done|].
  { split; [by apply (insert_taken x a)|done]. }
  intros [] g5 _ Hg5. eapply (bind_turns gateway_ok _ (λ _, True)); [|done|done].
  by apply keeps_lifecycle.
Qed.

(** ** Any sequence of calls *)

(** What can happen to a gateway: the calls of its users, what subscribers
    do, and the iterations of its scanning tasks. *)
Inductive Event :=
  | NewInvoice (piconeros confirmations_required expiration_in : Z) (description : string)
  | RemoveInvoiceCall (id : InvoiceId)
  | GetInvoiceCall (id : InvoiceId)
  | GetIdsCall
  | DaemonHeightCall
  | SubscribeCall (sender_id : Z) (id : InvoiceId)
  | SubscribeAllCall (sender_id : Z)
  | Recv (rx : nat)
  | DropSubscriber (rx : nat)
  | RunCall
  | StatusCall
  | StopCall
  | Iteration (t : nat).

Definition event_wf (e : Event) : Prop :=
  match e with
  | NewInvoice p c _ _ => in_u64 p ∧ in_u64 c
  | RemoveInvoiceCall id | GetInvoiceCall id => InvoiceId_wf id
  | _ => True
  end.

Definition happen (g : gateway) (e : Event) : gateway :=
  match e with
  | NewInvoice p c exp d => (PaymentGateway_new_invoice p c exp d g).1
  | RemoveInvoiceCall id => (PaymentGateway_remove_invoice id g).1
  | GetInvoiceCall id => (PaymentGateway_get_invoice id g).1
  | GetIdsCall => (PaymentGateway_get_invoice_ids g).1
  | DaemonHeightCall => (PaymentGateway_daemon_height g).1
  | SubscribeCall sid id => (PaymentGateway_subscribe sid id g).1
  | SubscribeAllCall sid => (PaymentGateway_subscribe_all sid g).1
  | Recv rx => set_g_publisher (Subscriber_recv (E:=Empty_set) rx (g_publisher g)).1 g
  | DropSubscriber rx => set_g_publisher (Subscriber_drop rx (g_publisher g)) g
  | RunCall => (PaymentGateway_run g).1
  | StatusCall => (PaymentGateway_status g).1
  | StopCall => (PaymentGateway_stop g).1
  | Iteration t => (scanner_iteration t g).1
  end.

Lemma remove_ok id (g : gateway) :
  gateway_ok g → InvoiceId_wf id → gateway_ok (PaymentGateway_remove_invoice id g).1.
Proof using All.
  intros [Hg Hf] Hid. split.
  - destruct (g_store g) as [s|] eqn:Es.
    + destruct (remove_invoice_run wf view g s id (Hg s eq_refl) Hid) as (s1 & Hwf1 & _).
      intros s' Es'. assert (s' = s1) as ->; [|done].
      destruct Hwf1 as (Es1 & _). rewrite Es' in Es1. by injection Es1.
    + unfold PaymentGateway_remove_invoice, bind, gateway_store, zoom, map_err, Client_remove_invoice,
        client_request. by rewrite Es.
  - unfold PaymentGateway_remove_invoice, bind, gateway_store, zoom, map_err.
    destruct (Client_remove_invoice id (g_store g)) as [mgr [[old|]| | |]]; exact Hf.
Qed.

Lemma happen_ok (g : gateway) e : gateway_ok g → event_wf e → gateway_ok (happen g e).
Proof using All.
  intros Hg He. assert (Hpub : ∀ p, gateway_ok (set_g_publisher p g)).
  { intros p. apply (gateway_ok_same g); [done..|apply Hg]. }
  destruct e; simpl in *.
  - destruct He. by apply keeps_new_invoice.
  - by apply remove_ok.
  - apply keeps_gateway_store; [|done]. intros ts. by apply (keeps_get _ _ ts _).
  - apply keeps_gateway_store; [|done]. intros ts. by apply (keeps_get_ids _ _ ts _).
  - by eapply (keeps_gateway_call _ _ (λ _, True)).
  - unfold PaymentGateway_subscribe. destruct (Publisher_subscribe _ _ (g_publisher g)). apply Hpub.
  - apply Hpub.
  - apply Hpub.
  - apply Hpub.
  - by apply keeps_run.
  - by apply keeps_status.
  - by apply keeps_stop.
  - by apply iteration_ok.
Qed.

(** ** A new gateway *)

Section build.
Context `{!GatewayCrates W}.

(** The invoices of the store of a new gateway belong to its account. *)
Definition store_fits (vp : ViewPair) (major_index : Z) (s : St) : Prop :=
  (∀ id i, v_invoices (view s) !! id = Some i →
     major (inv_index i) = major_index ∧ inv_address i = get_subaddress vp (inv_index i)) ∧
  (∀ id id' i i', v_invoices (view s) !! id = Some i → v_invoices (view s) !! id' = Some i' →
     inv_index i = inv_index i' → id = id').

Lemma init_viewpair vp mj seed (mgr mgr' : Manager St) c :
  SubaddressCache_init vp mj seed mgr = (mgr', Ok c) → sc_viewpair c = vp.
Proof using Type.
  unfold SubaddressCache_init, bind. destruct (Client_try_for_each_invoice _ _ _) as [m [used| | |]]; try done.
  unfold lift. destruct (generate_range _ _ _); [|done]. by intros [= _ <-].
Qed.

Lemma build_ok (b : PaymentGatewayBuilder (St:=St)) (w : W) (g : gateway) :
  build_inner b w = Ok g → wf (b_store b) → in_u32 (b_major_index b) →
  store_fits (g_viewpair g) (b_major_index b) (b_store b) → gateway_ok g.
Proof using All.
  intros Hb Hwf Hmj [Hacc Hinj]. unfold build_inner in Hb.
  destruct (PrivateKey_from_str _) as [vk|]; [|done].
  destruct (Address_public_spend _) as [sp|]; [|done].
  pose proof (SubaddressCache_init_spec wf view (b_store b) (ViewPair_new vk sp) (b_major_index b)
    (b_seed b) Hwf Hmj) as Hinit. unfold wp in Hinit. unfold Client_new in Hb.
  destruct (SubaddressCache_init _ _ _ _) as [mgr [c|e| |]] eqn:Einit; try done.
  apply init_viewpair in Einit. injection Hb as <-. cbn [fst snd] in Hinit.
  destruct Hinit as (-> & Hsc & Hmaj & _ & _ & Hav). split.
  2:{ assert (in_u64 0) by (by split). by split_and!. }
  intros s [= <-]. split; [done|]. split; [done|]. split; [exact Hsc|]. split; [|split; [|done]].
  - apply Hav. intros x (id & i & Hi & <-). destruct (Hacc id i Hi) as [-> _]. lia.
  - intros id i Hi. simpl. rewrite Hmaj, Einit. by apply (Hacc id i).
Qed.
End build.
End invariant.
