(* ===== verification/StartSubscriptions.v ===== *)
(** What starting the scanner does to the subscriptions there are:
    [Scanner::new] of [library/src/scanner.rs] tells the publisher about all
    stored invoices, and with that overwrites their subscribers. *)
From S2P Require Import Prelude.
From S2P Require Import Sustains.
From S2P Require Import Invoice.
From S2P Require Import Storage.
From S2P Require Import Monerod.
From S2P Require Import BlockCache.
From S2P Require Import TxpoolCache.
From S2P Require Import SubaddressCache.
From S2P Require Import Pubsub.
From S2P Require Import Scanner.
From S2P Require Import ScannerInvariant.
From S2P Require Import PaymentGateway.
From S2P Require Import GatewayInvariant.

(** The publisher after it has been told about [ids]. *)
Definition told_of (ids : list InvoiceId) (p : Publisher) : Publisher :=
  foldl (λ p id, Publisher_insert_invoice id p) p ids.

(** Subscriber [rx] never waits: it gets what is in its buffer, in order, and
    [None] once that is empty. *)
Definition cut_off (rx : nat) (p : Publisher) : Prop :=
  ∀ ch, channels p !! rx = Some ch →
  ∃ p', Subscriber_recv (E:=Empty_set) rx p = (p', Ok (head (ch_queue ch))) ∧
    channels p' !! rx = Some (mk_Channel (tail (ch_queue ch)) (ch_receiver ch)).

Lemma told_of_channels ids p : channels (told_of ids p) = channels p.
Proof. revert p. induction ids as [|id ids IH]; intros p; [done|]. simpl. by rewrite IH. Qed.

Lemma told_of_subs ids p key :
  subs_of key (told_of ids p) =
    match key with
    | Some id => if decide (id ∈ ids) then [] else subs_of key p
    | None => subs_of key p
    end.
Proof.
  revert p. induction ids as [|id0 ids IH]; intros p; [by destruct key|].
  simpl. rewrite IH. destruct key as [id|]; [|done]. simpl. rewrite lookup_insert.
  destruct (decide (id0 = id)) as [->|Hne].
  - rewrite (decide_True (P := id ∈ id :: ids)) by by left. by case_decide.
  - simpl. repeat case_decide; [done|set_solver..|done].
Qed.

Section start.
Context `{Build} `{HashOrder} `{Monero} `{RngCore}.
Context {W RpcError : Type} `{!MonerodClient W RpcError} `{!TypedCrates W RpcError}.
Context {St EI EK EH EF : Type} `{!Storage St EI EK EH EF}.
Context (wf : St → Prop) (view : St → StoreView) `{HL : !LawfulStorage St EI EK EH EF wf view}.
Notation gateway := (Gateway W RpcError St EI EK EH EF).
Notation ScanError := (ScannerError RpcError EI EK EH EF).

Notation env_is m p := (λ e : ScannerEnv W St, env_ok wf view (invoices_are m) e ∧ env_publisher e = p).

(** What uses the daemon or the store only leaves the publisher alone. *)
Lemma start_call {E A} m p (call : M W E A) (f : E → ScanError) (P : A → Prop) :
  sustains (λ _, True) P call → sustains (env_is m p) P (env_call f call).
Proof using Type.
  intros Hc. apply sustains_and; [by apply keeps_env_call|].
  eapply sustains_keeps, (sustains_zoom _ (λ _, True)); [apply sustains_map_err, Hc|done|done].
Qed.

Lemma start_store {A} m p (c : M (Manager St) ScanError A) (P : A → Prop) :
  sustains (mgr_ok wf view (invoices_are m)) P c →
  sustains (env_is m p) P (zoom env_store set_env_store c).
Proof using Type.
  intros Hc. apply sustains_and; [by apply keeps_env_store|].
  apply (sustains_keeps _ (λ _, True)), (sustains_zoom _ (λ _, True)); [by intros ? ?; split|done|done].
Qed.

Lemma start_step {S E A B} (I : S → Prop) (P : A → Prop) (c : M S E A) (k : A → M S E B) Q s :
  sustains I P c → I s → (∀ a s', P a → I s' → succeeds (k a) Q s') → succeeds (bind c k) Q s.
Proof using Type.
  intros Hc Hs Hk. apply succeeds_bind. eapply succeeds_mono; [by apply sustains_succeeds|].
  intros s' a [Hs' Ha]. by apply Hk.
Qed.

(** Setting up a scanner, on success. *)
Lemma Scanner_new_tells n h (e : ScannerEnv W St) st :
  env_store e = Running st → wf st → in_u64 (env_cache_height e) → in_u64 (env_daemon_height e) →
  succeeds (Scanner_new (RpcError:=RpcError) n h) (λ e' _, ∃ ids,
    ids ≡ₚ (map_to_list (v_invoices (view st))).*1 ∧
    env_publisher e' = told_of ids (env_publisher e)) e.
Proof using All.
  intros Hst Hwf Hc Hd. set (m := v_invoices (view st)). set (p := env_publisher e).
  assert (HI : env_is m p e).
  { split; [|done]. split; [|done]. rewrite Hst. by intros ? [= <-]. }
  unfold Scanner_new. eapply (start_step _ in_u64); [apply start_call|exact HI|].
  { intros w _. split; [done|]. apply typed_daemon_height. }
  intros d e1 Hd1 He1. eapply start_step; [|exact He1|].
  { apply start_store. apply (sustains_last_height wf view (terms <$> m) (invoices_are m)). }
  intros last e2 _ He2. eapply start_step; [apply sustains_u64_sub|exact He2|].
  intros c e3 Hc3 He3. eapply (start_step _ (λ _, True)); [|exact He3|].
  { apply sustains_modify. by intros e4 ((? & ?) & ?). }
  intros [] e4 _ He4. eapply start_step; [apply sustains_try, start_call, sustains_BlockCache_init|exact He4|].
  intros r1 e5 _ He5. eapply start_step; [apply sustains_try, start_call, sustains_TxpoolCache_init|exact He5|].
  intros r2 e6 _ [(Hm & _) Hp]. apply succeeds_bind.
  assert (Hids : succeeds (zoom env_store set_env_store (store (RpcError:=RpcError) Client_get_invoice_ids))
    (λ e7 ids, ids ≡ₚ (map_to_list m).*1 ∧ env_publisher e7 = p) e6).
  { apply succeeds_zoom, succeeds_map_err. unfold succeeds, wp, Client_get_invoice_ids, client_request.
    destruct (env_store e6) as [s6|] eqn:E6; [|done]. destruct (Hm s6 eq_refl) as [Hwf6 Hv6].
    pose proof (law_get_ids s6 Hwf6) as Hl. unfold wp in Hl. cbn [Manager_handle]. unfold map_err.
    destruct (is_get_ids s6) as [s7 [l|err| |]]; try done. destruct Hl as (_ & _ & Hl).
    simpl in *. intros ? [= <-]. by rewrite <-Hv6. }
  eapply succeeds_mono; [exact Hids|]. intros e7 ids [Hperm Hp7].
  apply succeeds_bind, succeeds_modify.
  eapply start_step with (I := λ e, env_publisher e = told_of ids p) (P := λ _, True).
  { apply sustains_result. by destruct r1. }
  { simpl. by rewrite Hp7. }
  intros c1 e8 _ H8. eapply start_step with (I := λ e, env_publisher e = told_of ids p) (P := λ _, True).
  { apply sustains_result. by destruct r2. }
  { exact H8. }
  intros c2 e9 _ H9. apply succeeds_gets. by exists ids.
Qed.

(** ** A run *)

(** Properties that the tasks and the lock do not touch. *)
Definition no_lifecycle (J : gateway → Prop) : Prop :=
  ∀ h b cs ts g, J g → J (set_g_lifecycle h b cs ts g).

Lemma lifecycle_lock J : no_lifecycle J → sustains J (λ _, True) handle_lock.
Proof using Type.
  intros HJ. eapply sustains_bind; [by apply (sustains_gets _ (λ _, True))|].
  intros [] _; [apply sustains_hang|]. apply sustains_modify. intros g. apply HJ.
Qed.
Lemma lifecycle_unlock J : no_lifecycle J → sustains J (λ _, True) handle_unlock.
Proof using Type. intros HJ. apply sustains_modify. intros g. apply HJ. Qed.

(** The publisher when [run] succeeds. *)
Lemma run_tells (g : gateway) st :
  g_store g = Running st → wf st →
  in_u64 (g_block_cache_height g) → in_u64 (g_cached_daemon_height g) →
  succeeds PaymentGateway_run (λ g' _, ∃ ids,
    ids ≡ₚ (map_to_list (v_invoices (view st))).*1 ∧
    g_publisher g' = told_of ids (g_publisher g)) g.
Proof using All.
  intros Hst Hwf Hc Hd. set (I := λ g' : gateway, gateway_env g' = gateway_env g).
  assert (HI : no_lifecycle I) by (intros h b cs ts g1 Hg1; exact Hg1).
  unfold PaymentGateway_run. eapply (start_step I (λ _, True)); [|done|].
  { unfold run_check. eapply sustains_bind; [by apply lifecycle_lock|]. intros [] _.
    eapply sustains_bind; [by apply (sustains_gets _ (λ _, True))|]. intros g1 _.
    eapply sustains_bind; [by apply lifecycle_unlock|]. intros [] _.
    destruct (g_handle g1); [|by apply sustains_ret].
    destruct (negb _); [apply sustains_throw|by apply sustains_ret]. }
  intros [] g1 _ Hg1. unfold run_start.
  eapply (start_step I (λ _, True)); [by apply sustains_gets|done|]. intros g2 g3 _ Hg3.
  apply succeeds_bind.
  set (Q := λ g' : gateway, ∃ ids, ids ≡ₚ (map_to_list (v_invoices (view st))).*1 ∧
    g_publisher g' = told_of ids (g_publisher g)).
  assert (HQ : no_lifecycle Q) by (intros h b cs ts g4 Hg4; exact Hg4).
  apply (succeeds_mono _ (λ g' _, Q g')).
  { apply succeeds_zoom, succeeds_map_err. rewrite Hg3. by eapply (Scanner_new_tells _ _ (gateway_env g)). }
  intros g4 s Hg4. eapply start_step; [by apply lifecycle_lock|exact Hg4|].
  intros [] g5 _ Hg5. eapply (start_step Q (λ _, True)); [|exact Hg5|].
  { apply sustains_modify. intros g6 Hg6. by apply HQ, HQ. }
  intros [] g6 _ Hg6. eapply succeeds_mono; [by apply sustains_succeeds; [apply lifecycle_unlock, HQ|]|].
  by intros g7 [] [Hg7 _].
Qed.

(** C17: A [run] that succeeds ends every subscription to an invoice that is
    stored by then: its subscriber gets what is in its buffer already, then
    [None], although the invoice is tracked on; the publisher has no sender
    for it any more.  Only subscriptions to all invoices last. *)
Theorem PaymentGateway_run_ends_subscriptions (g g' : gateway) st :
  PaymentGateway_run g = (g', Ok tt) → g_store g = Running st → wf st → pub_wf (g_publisher g) →
  in_u64 (g_block_cache_height g) → in_u64 (g_cached_daemon_height g) →
  subs_of None (g_publisher g') = subs_of None (g_publisher g) ∧
  channels (g_publisher g') = channels (g_publisher g) ∧
  (∀ id, is_Some (v_invoices (view st) !! id) → subs_of (Some id) (g_publisher g') = []) ∧
  ∀ id rx, is_Some (v_invoices (view st) !! id) → rx ∈ (subs_of (Some id) (g_publisher g)).*2 →
    cut_off rx (g_publisher g').
Proof using All.
  intros Hrun Hst Hwf Hpub Hc Hd. pose proof (run_tells g st Hst Hwf Hc Hd) as Htell.
  unfold succeeds, wp in Htell. rewrite Hrun in Htell. destruct (Htell tt eq_refl) as (ids & Hperm & Ep).
  cbn [fst] in Ep. rewrite Ep.
  assert (Hin : ∀ id, is_Some (v_invoices (view st) !! id) → id ∈ ids).
  { intros id [i Hi]. rewrite Hperm. apply list_elem_of_fmap. exists (id, i). split; [done|].
    by apply elem_of_map_to_list. }
  rewrite told_of_channels. split; [apply told_of_subs|]. split; [done|]. split.
  { intros id Hid. rewrite told_of_subs, decide_True; auto. }
  intros id rx Hid Hrx ch Hch. apply disconnected_recv; [|done].
  intros key. rewrite told_of_subs. destruct key as [id'|].
  - case_decide; [by intros ?%elem_of_nil|]. eapply (only_subscription _ id); [done..|].
    intros [= ->]. auto.
  - by eapply (only_subscription _ id).
Qed.
End start.
