(* ===== verification/Restarts.v ===== *)
(** Gateways that are stopped and started again on the same store, as in
    [library/examples/persistence/main.rs]: what holds of the invoices over
    all the lives of a gateway. *)
From S2P Require Import Prelude.
From S2P Require Import Sustains.
From S2P Require Import Invoice.
From S2P Require Import Storage.
From S2P Require Import Monerod.
From S2P Require Import BlockCache.
From S2P Require Import TxpoolCache.
From S2P Require Import SubaddressCache.
From S2P Require Import Pubsub.
From S2P Require Import Scanner.
From S2P Require Import ScannerInvariant.
From S2P Require Import PaymentGateway.
From S2P Require Import GatewayInvariant.

(** Goes through a computation all of whose steps keep the invariant for the
    same simple reason. *)
Ltac walk :=
  lazymatch goal with
  | |- sustains _ _ (bind _ _) =>
      eapply (sustains_bind _ (λ _, True)); [walk|intros ? _; walk]
  | |- sustains _ _ (match ?x with _ => _ end) => destruct x; walk
  | |- sustains _ _ (ret _) => by apply sustains_ret
  | |- sustains _ _ (throw _) => apply sustains_throw
  | |- sustains _ _ panic => apply sustains_panic
  | |- sustains _ _ hang => apply sustains_hang
  | |- sustains _ _ (gets _) => by apply sustains_gets
  | |- sustains _ _ (lift _) => by apply sustains_lift
  | |- sustains _ _ (u64_add _ _) => eapply sustains_keeps, sustains_u64_add
  | |- sustains _ _ (try_ _) => eapply sustains_keeps, sustains_try; walk
  | |- sustains _ _ (modify _) => try (by apply sustains_modify)
  | |- sustains _ _ (zoom _ _ _) => try (by eapply (sustains_zoom _ (λ _, True)))
  | |- _ => idtac
  end.

(** A store that keeps its contents when it is opened again: [reopened s s']
    says that a store left as [s] may be found as [s']. *)
Class DurableStorage {St : Type} (wf : St → Prop) (view : St → StoreView)
    (reopened : St → St → Prop) : Prop :=
  durable s s' : wf s → reopened s s' → wf s' ∧ view s' = view s.

Section restarts.
Context `{Build} `{HashOrder} `{Monero} `{RngCore} `{!LawfulRng}.
Context {W RpcError : Type} `{!MonerodClient W RpcError} `{!TypedCrates W RpcError}.
Context {St EI EK EH EF : Type} `{!Storage St EI EK EH EF}.
Context (wf : St → Prop) (view : St → StoreView) `{HL : !LawfulStorage St EI EK EH EF wf view}.
Notation XmrError := (AcceptXmrError RpcError EI EK EH EF).
Notation gateway := (Gateway W RpcError St EI EK EH EF).

(** ** The account of a gateway *)

(** The keys and the account index that its subaddresses are made from. *)
Definition account (g : gateway) : ViewPair * Z :=
  (sc_viewpair (g_subaddresses g), sc_major_index (g_subaddresses g)).

Lemma extend_account n c :
  let c' := (SubaddressCache_extend_by n c).1 in
  sc_viewpair c' = sc_viewpair c ∧ sc_major_index c' = sc_major_index c.
Proof using Type.
  unfold SubaddressCache_extend_by. generalize (Z.to_nat n) 0. intros k count.
  revert c count. induction k as [|k IH]; intros c count; [done|]. simpl.
  destruct (_ =? _); [done|].
  match goal with |- context [extend_loop k ?n ?c'] => exact (IH c' n) end.
Qed.

Lemma remove_random_account {E} fuel vp mj :
  keeps (λ c : SubaddressCache, sc_viewpair c = vp ∧ sc_major_index c = mj)
    (remove_random_loop (E:=E) fuel).
Proof using Type.
  induction fuel as [|fuel IH]; [apply sustains_hang|]. cbn [remove_random_loop].
  eapply (sustains_bind _ (λ _, True)); [by apply sustains_gets|]. intros c _.
  destruct (_ =? 0); [apply sustains_panic|]. destruct (gen_range _ _) as [n r].
  eapply (sustains_bind _ (λ _, True)); [by apply sustains_modify|]. intros [] _.
  destruct (im_shift_remove_index _ _) as [l [[x a]|]]; [|exact IH].
  eapply (sustains_bind _ (λ _, True)); [by apply sustains_modify|]. intros [] _.
  eapply (sustains_bind _ (λ _, True)); [|intros [] _; by apply sustains_ret].
  apply sustains_modify. intros c1 [<- <-]. destruct (_ <=? _); [|done]. apply extend_account.
Qed.

Section account.
Context (vp : ViewPair) (mj : Z).
Notation ours := (λ g : gateway, account g = (vp, mj)).

Lemma iteration_account t (g : gateway) : g_subaddresses (scanner_iteration t g).1 = g_subaddresses g.
Proof using Type.
  unfold scanner_iteration. destruct (g_tasks g !! t) as [tk|]; [|done].
  destruct (t_state tk); [|done]. destruct (g_commands g) as [|[] ?]; [|done].
  by destruct (Scanner_scan _ _).
Qed.

Lemma keeps_account_lock : keeps ours handle_lock.
Proof using Type. unfold handle_lock. walk. Qed.

Lemma keeps_account_join t : keeps ours (join t).
Proof using Type.
  unfold join. walk. apply sustains_modify. intros g Hg. unfold account. by rewrite iteration_account.
Qed.

Lemma keeps_account_run : keeps ours PaymentGateway_run.
Proof using Type.
  unfold PaymentGateway_run, run_check, run_start, handle_unlock. walk; apply keeps_account_lock.
Qed.

Lemma keeps_account_status : keeps ours PaymentGateway_status.
Proof using Type.
  unfold PaymentGateway_status, handle_unlock.
  walk; solve [apply keeps_account_lock | apply keeps_account_join].
Qed.

Lemma keeps_account_stop : keeps ours PaymentGateway_stop.
Proof using Type.
  unfold PaymentGateway_stop, handle_unlock, result.
  walk; solve [apply keeps_account_lock | apply keeps_account_join].
Qed.

Lemma keeps_account_new_invoice p c e d : keeps ours (PaymentGateway_new_invoice p c e d).
Proof using Type.
  unfold PaymentGateway_new_invoice, PaymentGateway_daemon_height, gateway_store, Invoice_new. walk.
  eapply (sustains_zoom _ (λ c, sc_viewpair c = vp ∧ sc_major_index c = mj)); [apply remove_random_account|..].
  - by intros g [= <- <-].
  - intros g c' _ [<- <-]. done.
Qed.

Lemma keeps_account_remove_invoice id : keeps ours (PaymentGateway_remove_invoice id).
Proof using Type. unfold PaymentGateway_remove_invoice, gateway_store. walk. Qed.

Lemma happen_account (g : gateway) e : account g = (vp, mj) → account (happen g e) = (vp, mj).
Proof using Type.
  intros Hg. destruct e; simpl.
  - by apply keeps_account_new_invoice.
  - by apply keeps_account_remove_invoice.
  - unfold PaymentGateway_get_invoice, gateway_store, zoom. by destruct (map_err _ _ _).
  - unfold PaymentGateway_get_invoice_ids, gateway_store, zoom. by destruct (map_err _ _ _).
  - unfold PaymentGateway_daemon_height, zoom. by destruct (map_err _ _ _).
  - unfold PaymentGateway_subscribe. by destruct (Publisher_subscribe _ _ _).
  - done.
  - done.
  - done.
  - by apply keeps_account_run.
  - by apply keeps_account_status.
  - by apply keeps_account_stop.
  - unfold account. by rewrite iteration_account.
Qed.
End account.

(** ** One life after another *)

Section lives.
Context `{!GatewayCrates W}.
Context (reopened : St → St → Prop) `{HD : !DurableStorage wf view reopened}.
Notation builder := (PaymentGatewayBuilder (St:=St)).

(** A gateway is built over the store, for the same wallet and account,
    whatever the other settings; anything happens to it; and the store it
    leaves behind is opened again. *)
Inductive life (vp : ViewPair) (mj : Z) (s s' : St) : Prop :=
  | a_life (b : builder) (w : W) (g : gateway) events s1 :
      build_inner b w = Ok g → b_store b = s → b_major_index b = mj → g_viewpair g = vp →
      Forall event_wf events → g_store (foldl happen g events) = Running s1 → reopened s1 s' →
      life vp mj s s'.

Lemma build_account (b : builder) (w : W) (g : gateway) :
  build_inner b w = Ok g → wf (b_store b) → in_u32 (b_major_index b) →
  account g = (g_viewpair g, b_major_index b) ∧ g_store g = Running (b_store b).
Proof using HL.
  intros Hb Hwf Hmj. unfold build_inner in Hb.
  destruct (PrivateKey_from_str _) as [vk|]; [|done].
  destruct (Address_public_spend _) as [sp|]; [|done].
  pose proof (SubaddressCache_init_spec wf view (b_store b) (ViewPair_new vk sp) (b_major_index b)
    (b_seed b) Hwf Hmj) as Hinit. unfold wp in Hinit. unfold Client_new in Hb.
  destruct (SubaddressCache_init _ _ _ _) as [mgr [c|e| |]] eqn:Einit; try done.
  apply init_viewpair in Einit. injection Hb as <-. cbn [fst snd] in Hinit.
  destruct Hinit as (-> & _ & Hmaj & _). unfold account. simpl. by rewrite Hmaj, Einit.
Qed.

Lemma events_ok events (g : gateway) vp mj :
  Forall event_wf events → gateway_ok wf view g → account g = (vp, mj) →
  gateway_ok wf view (foldl happen g events) ∧ account (foldl happen g events) = (vp, mj).
Proof using All.
  intros Hev. revert g. induction Hev as [|e events He Hev IH]; intros g Hg Ha; [done|].
  apply IH; [by apply happen_ok|by apply happen_account].
Qed.

(** What the invoices of the account have to be, at the end as at the start. *)
Lemma gateway_store_fits (g : gateway) s vp mj :
  gateway_wf wf view g s → account g = (vp, mj) → store_fits view vp mj s.
Proof using Type.
  intros (_ & _ & _ & _ & Hacc & Hinj) [= <- <-]. split; [exact Hacc|exact Hinj].
Qed.

Lemma life_fits vp mj s s' :
  life vp mj s s' → wf s → in_u32 mj → store_fits view vp mj s → wf s' ∧ store_fits view vp mj s'.
Proof using All.
  intros [b w g events s1 Hb <- <- <- Hev Hs1 Hre] Hwf Hmj Hfits.
  pose proof (build_ok wf view b w g Hb Hwf Hmj Hfits) as Hok.
  destruct (build_account b w g Hb Hwf Hmj) as [Hacc _].
  destruct (events_ok events g _ _ Hev Hok Hacc) as [[Hok1 _] Hacc1].
  specialize (Hok1 s1 Hs1). pose proof Hok1 as (_ & Hwf1 & _).
  destruct (durable s1 s' Hwf1 Hre) as [Hwf' Hv]. split; [exact Hwf'|].
  unfold store_fits. rewrite Hv. by eapply gateway_store_fits.
Qed.

(** C6: the invariant of the gateway, over any number of its lives.  Let
    gateways be built one after another over the same durable store, for the
    same wallet and account, and let anything happen to each of them, in any
    order: invoices created, removed and read, subscriptions, starts, stops,
    requests of the status, and iterations of the scanning tasks that end
    well, fail, panic or block.  The next gateway finds every invoice that is
    in the store.  At any moment of its life, as long as its store runs, every
    stored invoice is filed under its own id with the subaddress of its own
    index in the account, no two of them share a subaddress, and none of their
    subaddresses is on offer for a new invoice, although each gateway draws
    its subaddresses anew. *)
Theorem PaymentGateway_restarts vp mj s s' :
  wf s → in_u32 mj → store_fits view vp mj s → rtc (life vp mj) s s' →
  wf s' ∧ view_wf (view s') ∧ store_fits view vp mj s' ∧
  ∀ (b : builder) (w : W) (g : gateway),
    build_inner b w = Ok g → b_store b = s' → b_major_index b = mj → g_viewpair g = vp →
    (∀ id, InvoiceId_wf id → wp (PaymentGateway_get_invoice id) (λ _ r, match r with
      | Ok o => o = v_invoices (view s') !! id
      | Err _ => True
      | _ => False
      end) g) ∧
    ∀ events s1, Forall event_wf events → g_store (foldl happen g events) = Running s1 →
      gateway_wf wf view (foldl happen g events) s1 ∧ view_wf (view s1).
Proof using All.
  intros Hwf Hmj Hfits Hlives.
  assert (Hend : wf s' ∧ store_fits view vp mj s').
  { induction Hlives as [s|s s1 s' Hlife _ IH]; [done|].
    destruct (life_fits _ _ _ _ Hlife Hwf Hmj Hfits). auto. }
  clear Hwf Hfits Hlives. destruct Hend as [Hwf Hfits].
  split; [done|]. split; [by apply law_wf|]. split; [done|].
  intros b w g Hb <- <- <-. pose proof (build_ok wf view b w g Hb Hwf Hmj Hfits) as Hok.
  destruct (build_account b w g Hb Hwf Hmj) as [Hacc Hst]. split.
  - intros id Hid. unfold PaymentGateway_get_invoice.
    eapply (wp_gateway_request wf view); [exact Hst|done|by apply law_get|..].
    + by intros s1 o _ [_ ->].
    + done.
  - intros events s1 Hev Hs1. destruct (events_ok events g _ _ Hev Hok Hacc) as [[Hok1 _] _].
    specialize (Hok1 s1 Hs1). split; [done|]. by apply law_wf; destruct Hok1 as (_ & ? & _).
Qed.
End lives.
End restarts.
