(* ===== verification/InvariantDemo.v ===== *)
(** External code whose values have the ranges of their types, and a gateway
    over it, to which the invariants of scans and of the gateway are applied. *)
From S2P Require Import Prelude.
From S2P Require Import Invoice.
From S2P Require Import Storage.
From S2P Require Import InMemory.
From S2P Require Import Monerod.
From S2P Require Import Demo.
From S2P Require Import BlockCache.
From S2P Require Import TxpoolCache.
From S2P Require Import SubaddressCache.
From S2P Require Import Pubsub.
From S2P Require Import Scanner.
From S2P Require Import ScannerOutputs.
From S2P Require Import ScannerDemo.
From S2P Require Import ScannerInvariant.
From S2P Require Import PaymentGateway.
From S2P Require Import GatewayInvariant.
From S2P Require Import StartSubscriptions.
From S2P Require Import Restarts.

(** The fields have the values that their types allow. *)
Definition demo_typed (tx : DemoTx) (o : DemoOut) : Prop :=
  (hash_wf (dt_hash tx) ∧ hash_wf (do_key o) ∧ 0 ≤ do_index o ∧ SubIndex_wf (do_sub_index o)) ∧
  in_u64 (default 0 (do_amount o)).
#[export] Instance demo_typed_dec tx o : Decision (demo_typed tx o).
Proof. unfold demo_typed, hash_wf, SubIndex_wf. apply _. Defined.

(** The crate of [Demo], which ignores outputs that no Rust value can be. *)
Definition TypedMonero : Monero := {|
  mblock := Z;
  prev_id := Z.pred;
  tx_hashes := λ b, [b];
  transaction := DemoTx;
  transaction_hash := dt_hash;
  unlock_time := dt_unlock_time;
  SubKeyChecker := (Z * Z) * (Z * Z);
  OwnedTxOut := DemoOut;
  TxError := Empty_set;
  check_outputs_with := λ tx ck, inl (filter (demo_typed tx) (demo_owned tx ck));
  owned_index := do_index;
  owned_key := do_key;
  owned_sub_index := do_sub_index;
  owned_amount := do_amount;
  ViewPair := unit;
  get_subaddress := λ _ i, SubIndex_fmt i;
  SubKeyChecker_new := λ _ mj mn, (mj, mn);
  checker_table_len := λ ck, (ck.1.2 - ck.1.1) * (ck.2.2 - ck.2.1);
|}.

Definition TypedClient (wd : DemoWorld) : @MonerodClient TypedMonero nat unit :=
  let c := DemoClient wd in
  @Build_MonerodClient TypedMonero nat unit (@mc_block _ _ _ c) (@mc_block_transactions _ _ _ c)
    (@mc_txpool _ _ _ c) (@mc_txpool_hashes _ _ _ c) (@mc_transactions_by_hashes _ _ _ c)
    (@mc_daemon_height _ _ _ c) (@mc_url _ _ _ c).

Lemma demo_typed_crates wd :
  in_u64 (dw_height wd) → @TypedCrates TypedMonero nat unit (TypedClient wd).
Proof.
  intros Hh. split.
  - intros tx ck outs o [= <-] Ho. apply list_elem_of_filter in Ho as [[Ho Ha] _].
    split; [exact Ho|]. simpl. by intros a Ea; rewrite Ea in Ha.
  - intros w. unfold wp. simpl. case_decide; intros d Hd; by simplify_eq.
Qed.

(** ** A scan *)

(** Block 5 pays the invoice. *)
Definition typed_world : DemoWorld := demo_chain_world None.
Lemma typed_world_crates : @TypedCrates TypedMonero nat unit (TypedClient typed_world).
Proof. apply demo_typed_crates. split; vm_compute; congruence. Qed.

Definition typed_block (h : Z) : @Block TypedMonero := @mk_Block TypedMonero h h h (dw_txs typed_world h).
Definition typed_scanner : @Scanner TypedMonero nat InMemory :=
  @mk_Scanner TypedMonero nat InMemory (Running (demo_store [demo_bill]))
    (@mk_BlockCache TypedMonero nat 5 6 [typed_block 5; typed_block 4] 0%nat)
    (@mk_TxpoolCache TypedMonero nat 0%nat ∅ ∅) Publisher_new true.
Definition typed_scan : @Scanner TypedMonero nat InMemory * outcome _ unit :=
  @Scanner_scan demo_build demo_order TypedMonero nat unit (TypedClient typed_world) InMemory _ _ _ _ _
    demo_checker typed_scanner.

(** The outcome, and what is stored of the invoice: what was paid. *)
Definition typed_scan_ok : bool :=
  match typed_scan with
  | (s, Ok _) =>
      match s_store s with
      | Running st => bool_decide (inv_amount_paid <$> v_invoices (InMemory_view st) !! Invoice_id demo_bill
                                   = Some 5)
      | Dead => false
      end
  | _ => false
  end.

Lemma Scanner_scan_keeps_terms_witness :
  typed_scan_ok = true ∧ ∃ st', s_store typed_scan.1 = Running st' ∧
    terms_of (InMemory_view st') = terms_of (InMemory_view (demo_store [demo_bill])) ∧
    v_height (InMemory_view st') = Some (bc_height (s_block_cache typed_scan.1)).
Proof.
  assert (Hok : typed_scan_ok = true) by by vm_compute. split; [done|].
  destruct (@Scanner_scan_keeps_terms demo_build demo_order TypedMonero nat unit (TypedClient typed_world)
    typed_world_crates InMemory _ _ _ _ _ InMemory_wf InMemory_view _ demo_checker typed_scanner
    (demo_store [demo_bill])) as (Hterms & _ & _ & Hend).
  - done.
  - apply demo_store_wf. decide_goal.
  - split; split; simpl; unfold u64_max; lia.
  - apply map_Forall_empty.
  - unfold typed_scan_ok, typed_scan in *. destruct Hend as (_ & st' & Est & Hh).
    { by destruct (Scanner_scan _ _) as [s [[]| | |]]. }
    destruct (Hterms st' Est) as (_ & _ & Ht). exists st'. exact (conj Est (conj Ht Hh)).
Defined.

(** ** A gateway *)

Definition TypedGatewayCrates : @GatewayCrates TypedMonero nat :=
  @Build_GatewayCrates TypedMonero nat string string
    (λ s, if decide (s = "") then inr "empty"%string else inl s) (λ s, inl s) (λ _ _, tt)
    string (λ s, inl s) (λ _ total _ _ _ _, Z.to_nat (total / 1000)) 0%nat.

Definition typed_builder : PaymentGatewayBuilder (St:=InMemory) :=
  Builder_account_index 1 (PaymentGatewayBuilder_new "ad20" "4A" (demo_store [])).
Notation TypedGateway := (@Gateway TypedMonero demo_rng nat unit InMemory InMemoryStorageError
  InMemoryStorageError InMemoryStorageError InMemoryStorageError).
Notation typed_gateway :=
  (@build_inner TypedMonero demo_rng nat unit InMemory InMemoryStorageError InMemoryStorageError
    InMemoryStorageError InMemoryStorageError _ TypedGatewayCrates typed_builder 0%nat).

(** Two invoices, scans in between, and the end of one of them. *)
Definition typed_events : list Event :=
  [NewInvoice 10 1 20 "coffee"; SubscribeAllCall 7; RunCall; Iteration 0; NewInvoice 20 1 20 "tea";
   Iteration 0; RemoveInvoiceCall (InvoiceId_new (SubIndex_new 1 0) 7); Iteration 0; StatusCall;
   StopCall].
Notation typed_after g :=
  (foldl (@happen demo_build demo_order TypedMonero demo_rng nat unit (TypedClient typed_world) InMemory
    InMemoryStorageError InMemoryStorageError InMemoryStorageError InMemoryStorageError _) g typed_events).
Definition typed_left : option (list InvoiceId) :=
  match typed_gateway with
  | Ok g => match g_store (typed_after g) with
            | Running s => Some (map_to_list (v_invoices (InMemory_view s))).*1
            | Dead => None
            end
  | _ => None
  end.

Lemma typed_events_wf : Forall event_wf typed_events.
Proof.
  unfold typed_events. repeat (apply Forall_cons_2; [simpl; unfold in_u64, InvoiceId_wf, SubIndex_wf|]);
    try apply Forall_nil_2; try done; vm_compute; intuition congruence.
Qed.

Lemma empty_fits (vp : @ViewPair TypedMonero) mj :
  @store_fits TypedMonero InMemory InMemory_view vp mj (demo_store []).
Proof.
  assert (Hempty : ∀ id, v_invoices (InMemory_view (demo_store [])) !! id = None) by done.
  split; intros id; intros; by rewrite Hempty in *.
Qed.

(** The store is handed from one life to the next, without the outside world. *)
#[export] Instance handed_over : DurableStorage InMemory_wf InMemory_view (=).
Proof. by intros s s' Hwf <-. Qed.

Notation typed_builder_on s :=
  (Builder_account_index 1 (PaymentGatewayBuilder_new "ad20" "4A" s)).
Notation typed_gateway_on s :=
  (@build_inner TypedMonero demo_rng nat unit InMemory InMemoryStorageError InMemoryStorageError
    InMemoryStorageError InMemoryStorageError _ TypedGatewayCrates (typed_builder_on s) 0%nat).
Definition second_life_ok : bool :=
  match typed_gateway with
  | Ok g => match g_store (typed_after g) with
            | Running s => match typed_gateway_on s with
                           | Ok g' => match g_store (typed_after g') with Running _ => true | Dead => false end
                           | _ => false
                           end
            | Dead => false
            end
  | _ => false
  end.

(** Two lives, the first of which left an invoice behind. *)
Lemma PaymentGateway_restarts_witness :
  ∃ g1 s1 g2 s2, typed_gateway = Ok g1 ∧ g_store (typed_after g1) = Running s1 ∧
    length (map_to_list (v_invoices (InMemory_view s1))) = 1%nat ∧
    typed_gateway_on s1 = Ok g2 ∧ g_store (typed_after g2) = Running s2 ∧
    gateway_wf InMemory_wf InMemory_view (typed_after g2) s2.
Proof.
  assert (Hleft : (length <$> typed_left) = Some 1%nat) by by vm_compute.
  assert (Hsecond : second_life_ok = true) by by vm_compute.
  assert (Hmj : in_u32 1) by (split; unfold u32_max; lia).
  unfold typed_left in Hleft. unfold second_life_ok in Hsecond.
  destruct typed_gateway as [g1|e| |] eqn:Eg1; try discriminate Hleft.
  destruct (g_store (typed_after g1)) as [s1|] eqn:Es1; [|discriminate Hleft].
  destruct (typed_gateway_on s1) as [g2|e| |] eqn:Eg2; try discriminate Hsecond.
  destruct (g_store (typed_after g2)) as [s2|] eqn:Es2; [|discriminate Hsecond].
  exists g1, s1, g2, s2. split; [done|]. split; [done|].
  split; [simpl in Hleft; injection Hleft as Hleft; by rewrite length_fmap in Hleft|].
  split; [done|]. split; [done|].
  destruct (@PaymentGateway_restarts demo_build demo_order TypedMonero demo_rng demo_rng_lawful nat unit
    (TypedClient typed_world) typed_world_crates InMemory _ _ _ _ _ InMemory_wf InMemory_view _
    TypedGatewayCrates (=) _ tt 1 (demo_store []) s1) as (_ & _ & _ & Hnext).
  - by apply demo_store_wf.
  - exact Hmj.
  - apply empty_fits.
  - apply rtc_once. eapply a_life; [exact Eg1|done|done| |apply typed_events_wf|exact Es1|done].
    by destruct (g_viewpair g1).
  - destruct (Hnext (typed_builder_on s1) 0%nat g2 Eg2 eq_refl eq_refl) as [_ Hlife].
    { by destruct (g_viewpair g2). }
    exact (proj1 (Hlife typed_events s2 typed_events_wf Es2)).
Defined.

(** ** Subscribing before the start *)

Definition early_id : InvoiceId := InvoiceId_new (SubIndex_new 1 0) 7.
Definition early_events : list Event :=
  [NewInvoice 10 1 20 "coffee"; SubscribeCall 7 early_id; SubscribeAllCall 8].
Notation early_gateway g :=
  (foldl (@happen demo_build demo_order TypedMonero demo_rng nat unit (TypedClient typed_world) InMemory
    InMemoryStorageError InMemoryStorageError InMemoryStorageError InMemoryStorageError _) g early_events).
Definition early_try : option (list InvoiceId * Publisher) :=
  match typed_gateway with
  | Ok g => match g_store (early_gateway g) with
            | Running s => Some ((map_to_list (v_invoices (InMemory_view s))).*1, g_publisher (early_gateway g))
            | Dead => None
            end
  | _ => None
  end.
Definition early_publisher : Publisher :=
  (Publisher_subscribe_all 8 (Publisher_subscribe 7 early_id
     (Publisher_insert_invoice early_id Publisher_new)).1).1.
Notation early_run g :=
  (@PaymentGateway_run demo_build TypedMonero demo_rng nat unit (TypedClient typed_world) InMemory
    InMemoryStorageError InMemoryStorageError InMemoryStorageError InMemoryStorageError _ (early_gateway g)).
Definition early_ok : bool :=
  match typed_gateway with
  | Ok g => match (early_run g).2 with
            | Ok _ => true
            | _ => false
            end
  | _ => false
  end.

Lemma early_publisher_wf : pub_wf early_publisher.
Proof.
  unfold early_publisher. eapply pub_step_wf; [apply step_subscribe_all|].
  eapply pub_step_wf; [apply step_subscribe|]. apply insert_invoice_wf, Publisher_new_wf.
Qed.

Lemma early_events_wf : Forall event_wf early_events.
Proof.
  unfold early_events. repeat (apply Forall_cons_2; [simpl; unfold in_u64, InvoiceId_wf, SubIndex_wf|]);
    try apply Forall_nil_2; try done; vm_compute; intuition congruence.
Qed.

Lemma early_gateway_ok g :
  typed_gateway = Ok g → gateway_ok InMemory_wf InMemory_view (early_gateway g).
Proof.
  pose proof typed_world_crates as Htyped. intros Eg. assert (Hok : gateway_ok InMemory_wf InMemory_view g).
  { eapply (build_ok InMemory_wf InMemory_view typed_builder 0%nat g Eg).
    - by apply demo_store_wf.
    - split; unfold u32_max; simpl; lia.
    - destruct (g_viewpair g). apply empty_fits. }
  clear Eg. revert g Hok. induction early_events_wf as [|e es He Hes IH]; intros g Hg; [exact Hg|].
  apply IH. exact (happen_ok InMemory_wf InMemory_view g e Hg He).
  Unshelve. 2: exact Htyped.
Qed.

Lemma PaymentGateway_run_ends_subscriptions_witness :
  ∃ g s, typed_gateway = Ok g ∧ g_store (early_gateway g) = Running s ∧
    is_Some (v_invoices (InMemory_view s) !! early_id) ∧ (early_run g).2 = Ok tt ∧
    subs_of (Some early_id) (g_publisher (early_gateway g)) = [(7, 0%nat)] ∧
    subs_of (Some early_id) (g_publisher (early_run g).1) = [] ∧
    ∃ p', Subscriber_recv (E:=Empty_set) 0 (g_publisher (early_run g).1) = (p', Ok None).
Proof.
  assert (Htry : early_try = Some ([early_id], early_publisher)) by by vm_compute.
  assert (Hok : early_ok = true) by by vm_compute.
  unfold early_try in Htry. unfold early_ok in Hok.
  destruct typed_gateway as [g|e| |] eqn:Eg; try discriminate Htry.
  destruct (g_store (early_gateway g)) as [s|] eqn:Es; [|discriminate Htry].
  apply (inj Some) in Htry. pose proof (f_equal fst Htry : _ = [early_id]) as Hids.
  pose proof (f_equal snd Htry : _ = early_publisher) as Hpub. cbn [fst snd] in Hids, Hpub.
  destruct (early_run g) as [g' r] eqn:Erun. cbn [fst snd] in Hok |- *.
  destruct r as [[]|e| |]; try discriminate Hok.
  assert (Hid : is_Some (v_invoices (InMemory_view s) !! early_id)).
  { assert (Hin : early_id ∈ (map_to_list (v_invoices (InMemory_view s))).*1) by (rewrite Hids; by left).
    apply list_elem_of_fmap in Hin as ([id i] & -> & Hi%elem_of_map_to_list). by exists i. }
  destruct (@PaymentGateway_run_ends_subscriptions demo_build demo_order TypedMonero demo_rng nat unit
    (TypedClient typed_world) typed_world_crates InMemory _ _ _ _ _ InMemory_wf InMemory_view _
    (early_gateway g) g' s) as (_ & Hchs & Hgone & Hrecv).
  - exact Erun.
  - exact Es.
  - exact (proj1 (proj2 (proj1 (early_gateway_ok g Eg) s Es))).
  - rewrite Hpub. apply early_publisher_wf.
  - apply (early_gateway_ok g Eg).
  - apply (early_gateway_ok g Eg).
  - exists g, s. rewrite Erun. split; [done|]. split; [exact Es|]. split; [exact Hid|]. split; [done|].
    split; [rewrite Hpub; by vm_compute|]. split; [exact (Hgone early_id Hid)|].
    assert (Hcut : cut_off 0 (g_publisher g')).
    { apply (Hrecv early_id 0%nat Hid). rewrite Hpub. by left. }
    destruct (Hcut (mk_Channel [] true)) as (p' & E & _); [by rewrite Hchs, Hpub|by exists p'].
Defined.
