(* ===== verification/ScannerChainDemo.v ===== *)
(** A daemon whose chain forks, and a scan that follows it from one branch to
    the other: the payment of the old branch is replaced by that of the new. *)
From S2P Require Import Prelude.
From S2P Require Import Sustains.
From S2P Require Import Invoice.
From S2P Require Import Storage.
From S2P Require Import InMemory.
From S2P Require Import Monerod.
From S2P Require Import Demo.
From S2P Require Import BlockCache.
From S2P Require Import SubaddressCache.
From S2P Require Import TxpoolCache.
From S2P Require Import Pubsub.
From S2P Require Import Scanner.
From S2P Require Import ScannerUpdate.
From S2P Require Import ScannerOutputs.
From S2P Require Import ScannerDemo.
From S2P Require Import ScannerInvariant.
From S2P Require Import ScannerFinds.
From S2P Require Import ScannerChain.
From S2P Require Import ScannerReturns.
From S2P Require Import InvariantDemo.

(** A block is a height and the branch it is on; the branches part at
    height 5. *)
Definition ForkBlock : Type := (Z * bool)%type.
Definition fork_hash (b : ForkBlock) : Hash := 2 * b.1 + Z.b2z b.2.
Definition fork_prev (b : ForkBlock) : Hash := fork_hash (b.1 - 1, b.2 && negb (b.1 <=? 5)).
Definition fork_old (h : Z) : ForkBlock := (h, 5 <=? h).
Definition fork_new (h : Z) : ForkBlock := (h, false).

(** Block 5 pays 5 on one branch and 7 on the other. *)
Definition fork_tx (branch : bool) : DemoTx :=
  if branch then demo_tx 500 [mk_DemoOut 0 77 (SubIndex_new 1 3) (Some 5)]
  else demo_tx 501 [mk_DemoOut 0 78 (SubIndex_new 1 3) (Some 7)].
Definition fork_txs (b : ForkBlock) : list DemoTx := if b.1 =? 5 then [fork_tx b.2] else [].

Definition ForkMonero : Monero := {|
  mblock := ForkBlock;
  prev_id := fork_prev;
  tx_hashes := λ _, [];
  transaction := DemoTx;
  transaction_hash := dt_hash;
  unlock_time := dt_unlock_time;
  SubKeyChecker := (Z * Z) * (Z * Z);
  OwnedTxOut := DemoOut;
  TxError := Empty_set;
  check_outputs_with := λ tx ck, inl (filter (demo_typed tx) (demo_owned tx ck));
  owned_index := do_index;
  owned_key := do_key;
  owned_sub_index := do_sub_index;
  owned_amount := do_amount;
  ViewPair := unit;
  get_subaddress := λ _ i, SubIndex_fmt i;
  SubKeyChecker_new := λ _ mj mn, (mj, mn);
  checker_table_len := λ ck, (ck.1.2 - ck.1.1) * (ck.2.2 - ck.2.1);
|}.

(** The daemon is on the new branch, at height 8, with an empty txpool. *)
Definition fork_call {A} (a : A) : M nat unit A := λ n, (S n, Ok a).
Definition ForkClient : @MonerodClient ForkMonero nat unit :=
  @Build_MonerodClient ForkMonero nat unit
    (λ h, fork_call (fork_hash (fork_new h), fork_new h)) (λ b, fork_call (fork_txs b))
    (fork_call []) (fork_call ∅) (λ _, fork_call []) (fork_call 8)
    (λ _, "http://node:18081"%string).

Definition fork_wallet (tx : DemoTx) : list DemoOut := filter (demo_typed tx) (dt_outs tx).
Definition fork_covers (x : SubIndex) : Prop := major x = 1 ∧ 0 ≤ minor x < 100.
Definition fork_seen (tx : DemoTx) : Prop := tx = fork_tx true ∨ tx = fork_tx false.

Lemma fork_hash_inj : Inj (=) (=) fork_hash.
Proof.
  intros [h b] [h' b'] E. unfold fork_hash in E. simpl in E.
  destruct b, b'; simpl in E; solve [f_equal; lia | lia].
Qed.

Lemma fork_old_chain : @is_chain ForkMonero fork_hash fork_old.
Proof.
  intros h. unfold fork_old. cbn [prev_id ForkMonero]. unfold fork_prev. cbn [fst snd].
  replace (h + 1 - 1) with h by lia. f_equal. f_equal.
  destruct (Z.leb_spec 5 (h + 1)), (Z.leb_spec (h + 1) 5), (Z.leb_spec 5 h); simpl; lia.
Qed.

Lemma fork_returns : @ClientReturns ForkMonero nat unit ForkClient False.
Proof.
  split; intros; left; eexists; [done|done|]. split; [done|]. split; vm_compute; congruence.
Qed.

Lemma fork_genuine : @Genuine ForkMonero nat unit ForkClient fork_hash fork_txs.
Proof. split; [exact fork_hash_inj|..]; intros; unfold wp; simpl; intros; by simplify_eq. Qed.

Lemma fork_serves : @ServesChain ForkMonero nat unit ForkClient fork_hash fork_new.
Proof.
  split.
  - intros h. unfold fork_new. cbn [prev_id ForkMonero]. unfold fork_prev. cbn [fst snd].
    by replace (h + 1 - 1) with h by lia.
  - intros; unfold wp; simpl; intros; by simplify_eq.
Qed.

Lemma fork_typed_crates : @TypedCrates ForkMonero nat unit ForkClient.
Proof.
  split.
  - intros tx ck outs o [= <-] Ho. apply list_elem_of_filter in Ho as [[Ho Ha] _].
    split; [exact Ho|]. simpl. by intros a Ea; rewrite Ea in Ha.
  - intros w. unfold wp. simpl. intros d [= <-]. split; vm_compute; congruence.
Qed.

Lemma fork_pool_seen : @PoolSeen ForkMonero nat unit ForkClient fork_seen.
Proof. split. intros l w. unfold wp. simpl. intros txs [= <-]. constructor. Qed.

Lemma fork_wallet_finds : @WalletFinds ForkMonero fork_wallet demo_checker fork_covers fork_seen.
Proof.
  split.
  - intros tx outs o [= <-] Ho. unfold fork_wallet, demo_owned in *.
    rewrite !list_elem_of_filter in *. naive_solver.
  - intros tx outs x [= <-] [Hmj Hmn]. unfold fork_wallet, demo_owned. simpl.
    rewrite (filter_comm (demo_typed tx)), list_filter_filter_l; [done|].
    intros o ->. simpl. lia.
  - intros p q (tx & [-> | ->] & Hp & Hpw) (tx' & [-> | ->] & Hq & Hqw); revert Hpw Hqw;
      unfold fork_wallet; simpl; rewrite !list_elem_of_filter, !list_elem_of_singleton;
      intros [_ Ep] [_ Eq]; unfold output_key, output_id, OwnedTxOut_id; rewrite Hp, Hq; simpl;
      rewrite Ep, Eq; simpl; congruence.
Qed.

Lemma fork_seen_txs (chain : Z → ForkBlock) h : Forall fork_seen (fork_txs (chain h)).
Proof.
  unfold fork_txs. destruct (_ =? 5); [|constructor]. apply Forall_singleton.
  unfold fork_seen. destruct (chain h).2; auto.
Qed.

(** The invoice was paid 5 on the old branch. *)
Definition fork_bill : Invoice :=
  set_current_height 6 (set_paid 5 None (set_transfers [Transfer_new 5 (Some 5)] demo_bill)).
Definition fork_store : InMemory :=
  mk_InMemory {[Invoice_id fork_bill := fork_bill]} {[mk_OutputPubKey 77 := mk_OutputId 500 0]} (Some 5).
Definition fork_block (b : ForkBlock) : @Block ForkMonero :=
  @mk_Block ForkMonero (fork_hash b) b.1 b (fork_txs b).
Definition fork_cache : @BlockCache ForkMonero nat :=
  @mk_BlockCache ForkMonero nat 5 6 (fork_block <$> [fork_old 5; fork_old 4; fork_old 3]) 0%nat.
Definition fork_scanner_on (store : InMemory) (first : bool) : @Scanner ForkMonero nat InMemory :=
  @mk_Scanner ForkMonero nat InMemory (Running store) fork_cache
    (@mk_TxpoolCache ForkMonero nat 0%nat ∅ ∅) Publisher_new first.
Notation fork_scanner := (fork_scanner_on fork_store false).
Notation fork_scan_of s :=
  (@Scanner_scan demo_build demo_order ForkMonero nat unit ForkClient InMemory _ _ _ _ _
    demo_checker s).
Notation fork_scan := (fork_scan_of fork_scanner).

(** After the scan: the outcome, the height, and what is stored. *)
Definition fork_ok {E} (r : @Scanner ForkMonero nat InMemory * outcome E unit) : bool :=
  match r with
  | (s, Ok _) =>
      (bc_height (s_block_cache s) =? 6) &&
      match s_store s with
      | Running st => bool_decide ((λ i, (inv_amount_paid i, inv_transfers i)) <$>
          v_invoices (InMemory_view st) !! Invoice_id fork_bill = Some (7, [Transfer_new 7 (Some 5)]))
      | Dead => false
      end
  | _ => false
  end.

Lemma fork_ok_height {E} (r : @Scanner ForkMonero nat InMemory * outcome E unit) :
  fork_ok r = true →
  r.2 = Ok tt ∧ bc_height (s_block_cache r.1) = bc_height fork_cache + 1.
Proof.
  destruct r as [s [[]|e| |]]; try discriminate. intros Hok.
  apply andb_prop in Hok as [Hh _]. by apply Z.eqb_eq in Hh.
Qed.

Notation fork_follows := (@scanner_follows ForkMonero nat InMemory InMemory_wf InMemory_view
  fork_wallet fork_seen fork_hash fork_txs).

Lemma fork_store_only id i :
  v_invoices (InMemory_view fork_store) !! id = Some i → Invoice_id fork_bill = id ∧ i = fork_bill.
Proof. simpl. by intros [<- <-]%lookup_singleton_Some. Qed.

Lemma fork_bill_follows :
  @invoice_follows ForkMonero fork_wallet fork_txs fork_old 5 fork_bill.
Proof.
  split; [simpl; lia|]. split.
  - intros _. split; [done|]. intros l t k E Hle. exfalso. destruct l as [|a [|b l]]; simplify_eq/=.
    vm_compute in Hle. by destruct Hle.
  - exists []. split; [constructor|]. rewrite app_nil_r.
    assert (E : bool_decide (owed (@ledger ForkMonero fork_wallet fork_txs fork_old) 5 fork_bill =
      [Transfer_new 5 (Some 5)]) = true) by by vm_compute.
    apply bool_decide_eq_true in E. by rewrite E.
Qed.

Lemma fork_cached : @cached ForkMonero nat fork_hash fork_txs fork_old fork_cache.
Proof.
  split; [|split; [|split]].
  - split_and!; simpl; [lia|unfold in_u64, u64_max; lia|lia|].
    intros [|[|[|i]]] b; simpl; intros; by simplify_eq/=.
  - repeat constructor.
  - intros [|[|[|i]]] Hi; simpl in *; [done..|lia].
  - simpl. unfold u64_max. lia.
Qed.

Lemma fork_scanner_follows : fork_follows fork_old fork_scanner.
Proof.
  split.
  { exists fork_store. split; [done|]. split; [|split].
    - intros id i [<- ->]%fork_store_only. split; [done|]. by decide_goal.
    - intros p id (tx & Htx & Hp & Hw) Hid. cbn [v_keys InMemory_view fork_store im_output_keys] in Hid.
      apply lookup_singleton_Some in Hid as [Ek <-].
      unfold output_key in Ek. injection Ek as Ek. unfold output_id, OwnedTxOut_id. rewrite Hp.
      destruct Htx as [-> | ->]; revert Hw; unfold fork_wallet; simpl;
        rewrite list_elem_of_filter, list_elem_of_singleton; intros [_ E]; rewrite E in *; [done|].
      discriminate Ek.
    - intros id i [_ ->]%fork_store_only. exact fork_bill_follows. }
  split; [exact fork_cached|].
  split; [split; simpl; split; unfold u64_max; lia|].
  split; [apply map_Forall_empty|]. split; [apply map_Forall_empty|done].
Qed.


(** The same cache in the first scan of a new scanner, on a store in which
    nothing has been paid yet. *)
Notation fork_first_scanner := (fork_scanner_on (demo_store [demo_bill]) true).
Notation fork_first_scan := (fork_scan_of fork_first_scanner).

Lemma demo_store_only id i :
  v_invoices (InMemory_view (demo_store [demo_bill])) !! id = Some i →
  Invoice_id demo_bill = id ∧ i = demo_bill.
Proof.
  assert (Hm : v_invoices (InMemory_view (demo_store [demo_bill])) = {[Invoice_id demo_bill := demo_bill]})
    by (apply (bool_decide_unpack _); by vm_compute).
  rewrite Hm. by intros [<- <-]%lookup_singleton_Some.
Qed.


(** ** Catching up, in a build without overflow checks *)

Definition release_build : Build := {| overflow_checks := false |}.

Lemma fork_readable : @WalletReadable ForkMonero fork_seen demo_checker.
Proof.
  split. intros tx [-> | ->]; eexists; (split; [done|]); apply Forall_forall; intros o;
    unfold demo_owned; simpl; rewrite !list_elem_of_filter, list_elem_of_singleton;
    intros (_ & _ & ->); simpl; (split; [lia|done]).
Qed.

Lemma fork_height : @DaemonHeight ForkMonero nat unit ForkClient 8.
Proof. split. intros w. unfold wp. simpl. by intros a [= <-]. Qed.

(** Without subscribers publishing never blocks. *)
Lemma publisher_new_quiet {E} p i :
  p = Publisher_new → returns (E:=E) (Publisher_send_updates i) (λ p' _, p' = Publisher_new) p.
Proof. intros ->. by exists Publisher_new, tt. Qed.

Notation fork_scans :=
  (@Scanner_scans release_build demo_order ForkMonero nat unit ForkClient InMemory _ _ _ _ _
    demo_checker 2).

