(* ===== verification/Shops.v ===== *)
(** Two shops on top of the library: the example programs
    [library/examples/nojs/main.rs], whose pages are rendered by the server,
    and [library/examples/websockets/main.rs], which keeps its pages up to
    date over a websocket.  Sessions, templates, QR codes and the actor
    framework are external. *)
From S2P Require Import Prelude.
From S2P Require Import Sustains.
From S2P Require Import TestKit.
From S2P Require Import Invoice.
From S2P Require Import Storage.
From S2P Require Import InMemory.
From S2P Require Import Monerod.
From S2P Require Import SubaddressCache.
From S2P Require Import Pubsub.
From S2P Require Import PaymentGateway.
From S2P Require Import Text.
From S2P Require Import F64.
From S2P Require Import InvoiceText.

(** What the checkout page of [nojs] is made from. *)
Record CheckoutData := mk_CheckoutData {
  cd_instruction : string;
  cd_address : string;
  cd_qrcode : text;
  cd_paid : f64;
  cd_requested : f64;
  cd_confirmations : Z;
  cd_confirmations_required : Z;
}.

(** What [websockets] tells its pages about an invoice, as JSON. *)
Record InvoiceFields := mk_InvoiceFields {
  if_address : string;
  if_amount_paid : Z;
  if_amount_requested : Z;
  if_uri : text;
  if_confirmations : option Z;
  if_confirmations_required : Z;
  if_expiration_in : Z;
}.

(** [actix_session], [qrcode] and [handlebars]. *)
Class ShopCrates (S : Type) := {
  SessionError : Type;
  session_get_id : S → option InvoiceId + SessionError;
  session_insert_id : InvoiceId → M S SessionError unit;
  qr_svg : text → option text;
  render_checkout : CheckoutData → option text;
}.

Inductive PageBody := NoBody | Html (page : text) | Fields (fields : InvoiceFields) | Upgrade (rx : nat).
Record Page := mk_Page {
  pg_status : Z;
  pg_location : option string;
  pg_no_store : bool;
  pg_body : PageBody;
}.

Section shops.
Context `{Build} `{HashOrder} `{Monero} `{RngCore} `{NumberText}.
Context {W RpcError : Type} `{!MonerodClient W RpcError}.
Context {S : Type} `{!ShopCrates S}.
Notation gateway := (Gateway W RpcError InMemory InMemoryStorageError InMemoryStorageError
  InMemoryStorageError InMemoryStorageError).
Notation handler A := (M (S * gateway) SessionError A).

Definition on_gateway {A E} (m : M gateway E A) : M (S * gateway) E A :=
  zoom snd (λ g s, (s.1, g)) m.

(** Both shops: an invoice over 0.001 XMR, with its id in the session. *)
Definition new_order (message : string) : handler unit :=
  let! invoice_id := on_gateway (unwrap (PaymentGateway_new_invoice 1000000000 2 5 message)) in
  zoom fst (λ c s, (c, s.2)) (session_insert_id invoice_id).

(** The invoice of the session, if there is one and it can be read. *)
Definition session_invoice : handler (option Invoice) :=
  let! s := gets fst in
  match session_get_id s with
  | inl (Some invoice_id) =>
      let! r := on_gateway (try_ (PaymentGateway_get_invoice invoice_id)) in
      match r with
      | inl (Some invoice) => ret (Some invoice)
      | _ => ret None
      end
  | _ => ret None
  end.

(** ** The monitors *)

(** A round of the task that watches all updates, and when it removes an
    invoice.  Both tasks run on the asynchronous runtime. *)
Definition nojs_outdated (invoice : Invoice) : bool :=
  30 <? saturating_sub (inv_current_height invoice) (inv_creation_height invoice).
Definition websockets_outdated (invoice : Invoice) : bool :=
  (Invoice_is_confirmed invoice && (inv_creation_height invoice <? inv_current_height invoice))
  || Invoice_is_expired invoice.
Definition shop_monitor (async_context : bool) (is_outdated : Invoice → bool) (subscriber : nat) :
    M gateway Empty_set unit :=
  let! update := zoom g_publisher set_g_publisher (Subscriber_blocking_recv async_context subscriber) in
  match update with
  | None => panic
  | Some invoice =>
      if is_outdated invoice then
        let! _ := try_ (PaymentGateway_remove_invoice (Invoice_id invoice)) in ret tt
      else ret tt
  end.
Definition nojs_monitor : nat → M gateway Empty_set unit := shop_monitor true nojs_outdated.
Definition websockets_monitor : nat → M gateway Empty_set unit := shop_monitor true websockets_outdated.

(** ** [nojs] *)

Definition start_checkout (message : string) : handler Page :=
  new_order message ;;;
  ret (mk_Page 303 (Some "http://localhost:8080/checkout"%string) true NoBody).

Definition qrcode (uri : text) : handler text :=
  match qr_svg uri with Some image => ret image | None => panic end.

Definition dquoted (t : text) : text := [dquote] ++ t ++ [dquote].
Definition no_qrcode : text :=
  txt "<svg viewBox=" ++ dquoted (txt "0 0 100 100") ++ txt " id=" ++ dquoted (txt "qrcode")
  ++ txt " src=" ++ dquoted (txt "") ++ txt "></svg>".

(** The instruction, and the address and QR code that go with it. *)
Definition checkout_text (invoice : Invoice) (qrcode : text) : string * string * text :=
  if Invoice_is_confirmed invoice then ("Paid! Thank You"%string, inv_address invoice, qrcode)
  else if inv_amount_requested invoice <=? inv_amount_paid invoice
  then ("Paid! Waiting for confirmations..."%string, inv_address invoice, qrcode)
  else if Invoice_expiration_in invoice <? 3
  then ("Address Expiring Soon!"%string, "Expiring soon..."%string, no_qrcode)
  else ("Send Monero to Address Below"%string, inv_address invoice, qrcode).

Definition checkout_data (invoice : Invoice) (image : text) : CheckoutData :=
  let '(instruction, address, qrcode) := checkout_text invoice image in
  mk_CheckoutData instruction address qrcode (Invoice_xmr_paid invoice) (Invoice_xmr_requested invoice)
    (default 0 (Invoice_confirmations invoice)) (inv_confirmations_required invoice).

Definition expired_page : Page :=
  mk_Page 307 (Some "http://localhost:8080/expired.html"%string) true NoBody.

Definition checkout : handler Page :=
  let! found := session_invoice in
  match found with
  | Some invoice =>
      let! image := qrcode (Invoice_uri invoice) in
      match render_checkout (checkout_data invoice image) with
      | None => panic
      | Some body =>
          if negb (Invoice_is_expired invoice)
             || (inv_amount_requested invoice <=? inv_amount_paid invoice)
          then ret (mk_Page 200 None true (Html body))
          else ret expired_page
      end
  | None => ret expired_page
  end.

(** ** [websockets] *)

Definition fields_of (invoice : Invoice) : InvoiceFields :=
  mk_InvoiceFields (inv_address invoice) (inv_amount_paid invoice) (inv_amount_requested invoice)
    (Invoice_uri invoice) (Invoice_confirmations invoice) (inv_confirmations_required invoice)
    (Invoice_expiration_in invoice).

Definition ws_checkout (message : string) : handler Page :=
  new_order message ;;;
  ret (mk_Page 200 None true NoBody).

Definition update : handler Page :=
  let! found := session_invoice in
  match found with
  | Some invoice => ret (mk_Page 200 None true (Fields (fields_of invoice)))
  | None => ret (mk_Page 410 None true NoBody)
  end.

Definition not_found : Page := mk_Page 404 None true NoBody.
(** [sender_id] is drawn by [subscribe]. *)
Definition ws_route (sender_id : Z) : handler Page :=
  let! s := gets fst in
  match session_get_id s with
  | inl (Some invoice_id) => λ '(c, g),
      let '(g, subscriber) := PaymentGateway_subscribe sender_id invoice_id g in
      match subscriber with
      | Some subscriber => ((c, g), Ok (mk_Page 101 None false (Upgrade subscriber)))
      | None => ((c, g), Ok not_found)
      end
  | _ => ret not_found
  end.

(** *** The actor behind a websocket *)

(** Times in milliseconds. *)
Definition CLIENT_TIMEOUT : Z := 10000.
Definition HEARTBEAT_INTERVAL : Z := 1000.

Inductive Frame :=
  | FrameText (fields : InvoiceFields)
  | FramePing
  | FrameClose (reason : option string).

(** [frames] is what it has sent to the client; a stopped actor handles
    nothing any more. *)
Record WebSocketActor := mk_WebSocketActor {
  last_heartbeat : Z;
  frames : list Frame;
  stopped : bool;
}.
Definition WebSocketActor_new (now : Z) : WebSocketActor := mk_WebSocketActor now [] false.

(** The tick of [run_interval], the messages of the client, the updates of
    the subscriber, and the end of one of these two streams, on which the
    framework stops the actor. *)
Inductive ActorEvent :=
  | Heartbeat (now : Z)
  | Pong (now : Z)
  | ClientClose (reason : option string)
  | OtherMessage
  | ProtocolError
  | InvoiceChanged (invoice : Invoice)
  | StreamFinished.

Definition push (f : Frame) (a : WebSocketActor) : WebSocketActor :=
  mk_WebSocketActor (last_heartbeat a) (frames a ++ [f]) (stopped a).
Definition stop (a : WebSocketActor) : WebSocketActor :=
  mk_WebSocketActor (last_heartbeat a) (frames a) true.

Definition heartbeat (now : Z) (a : WebSocketActor) : WebSocketActor :=
  if CLIENT_TIMEOUT <? now - last_heartbeat a then stop a else push FramePing a.
Definition handle_invoice (invoice : Invoice) (a : WebSocketActor) : WebSocketActor :=
  let a := push (FrameText (fields_of invoice)) a in
  if Invoice_is_confirmed invoice then stop (push (FrameClose (Some "Invoice Complete"%string)) a)
  else if Invoice_is_expired invoice then stop (push (FrameClose (Some "Invoice Expired"%string)) a)
  else a.

Definition actor_handle (a : WebSocketActor) (e : ActorEvent) : WebSocketActor :=
  if stopped a then a else
  match e with
  | Heartbeat now => heartbeat now a
  | Pong now => mk_WebSocketActor now (frames a) (stopped a)
  | ClientClose reason => stop (push (FrameClose reason) a)
  | OtherMessage | ProtocolError => a
  | InvoiceChanged invoice => handle_invoice invoice a
  | StreamFinished => stop a
  end.

(** * What customers see *)

(** The tasks that should remove old invoices panic in their first round,
    whatever is waiting: [blocking_recv] must not be called from a task of the
    asynchronous runtime.  On a thread of its own, the same loop would do. *)
Theorem shop_monitors_panic rx (g : gateway) :
  nojs_monitor rx g = (g, Panic) ∧ websockets_monitor rx g = (g, Panic) ∧
  ∀ is_outdated p i, Subscriber_recv (E:=Empty_set) rx (g_publisher g) = (p, Ok (Some i)) →
    is_outdated i = false → shop_monitor false is_outdated rx g = (set_g_publisher p g, Ok tt).
Proof using Type.
  split; [by destruct g|]. split; [by destruct g|]. intros f p i Hr Hf.
  unfold shop_monitor, bind, zoom. cbn [Subscriber_blocking_recv]. by rewrite Hr, Hf.
Qed.

Lemma session_invoice_run c (g : gateway) st id :
  gateway_wf InMemory_wf InMemory_view g st → InvoiceId_wf id → session_get_id c = inl (Some id) →
  session_invoice (c, g) = ((c, g), Ok (v_invoices (InMemory_view st) !! id)).
Proof using Type.
  intros (Hst & _) Hid Hc. unfold session_invoice, bind, gets. cbn [fst]. rewrite Hc.
  unfold on_gateway, zoom, try_, PaymentGateway_get_invoice, gateway_store, map_err, zoom, Client_get_invoice,
    client_request. cbn [snd fst]. rewrite Hst. cbn [Manager_handle]. unfold map_err. simpl.
  assert (set_g_store (Running st) g = g) as -> by by destruct g; simpl in *; subst.
  by destruct (im_invoices st !! id).
Qed.

(** The checkout page of a stored invoice.  It is shown as long as the invoice
    is not expired or has been paid.  It asks for a payment only if something
    is due and there are three blocks left, and then with the address and the
    payment request of the invoice; an address that expires soon is not shown
    any more, and a payment that waits for confirmations is said to. *)
Theorem checkout_spec c (g : gateway) st id i image body :
  gateway_wf InMemory_wf InMemory_view g st → InvoiceId_wf id → session_get_id c = inl (Some id) →
  v_invoices (InMemory_view st) !! id = Some i →
  qr_svg (Invoice_uri i) = Some image → render_checkout (checkout_data i image) = Some body →
  let d := checkout_data i image in
  checkout (c, g) = ((c, g), Ok (if negb (Invoice_is_expired i) || Invoice_is_paid i
                                 then mk_Page 200 None true (Html body) else expired_page)) ∧
  (cd_instruction d = "Send Monero to Address Below"%string →
     Invoice_is_paid i = false ∧ 3 ≤ Invoice_expiration_in i ∧
     cd_address d = inv_address i ∧ cd_qrcode d = image) ∧
  (Invoice_is_confirmed i = false → Invoice_is_paid i = false → Invoice_expiration_in i < 3 →
     cd_address d = "Expiring soon..."%string ∧ cd_qrcode d = no_qrcode) ∧
  (Invoice_is_paid i = true → Invoice_is_confirmed i = false →
     cd_instruction d = "Paid! Waiting for confirmations..."%string).
Proof using Type.
  intros Hg Hid Hc Hi Hq Hr d. split.
  - unfold checkout, bind at 1. rewrite (session_invoice_run c g st id Hg Hid Hc), Hi.
    unfold bind, qrcode. rewrite Hq. cbn [ret]. rewrite Hr. unfold Invoice_is_paid.
    by destruct (_ || _).
  - unfold d, checkout_data, checkout_text, Invoice_is_paid.
    destruct (Invoice_is_confirmed i); [by split_and!|].
    destruct (_ <=? _); [by split_and!|]. destruct (Z.ltb_spec (Invoice_expiration_in i) 3); split_and!; simpl;
      try done; intros; lia.
Qed.

(** ** The websocket *)

Notation run := (foldl actor_handle).

Lemma stopped_stays a events : stopped a = true → run a events = a.
Proof using Type.
  intros Ha. induction events as [|e events IH]; [done|]. simpl. unfold actor_handle at 2. by rewrite Ha.
Qed.

(** A client that does not answer for longer than the timeout is dropped at
    the next tick. *)
Theorem silent_client_is_dropped a events now :
  (∀ t, Pong t ∉ events) → last_heartbeat a + CLIENT_TIMEOUT < now →
  stopped (run a (events ++ [Heartbeat now])) = true.
Proof using Type.
  intros Hp Hnow. rewrite foldl_app. simpl.
  assert (Hl : last_heartbeat (run a events) = last_heartbeat a).
  { clear Hnow. revert a. induction events as [|e events IH]; intros a; [done|]. simpl.
    rewrite IH by (intros t Ht; apply (Hp t); by right).
    unfold actor_handle. destruct (stopped a); [done|]. destruct e as [t|t|r| | |i|]; try done.
    - unfold heartbeat. by destruct (_ <? _).
    - destruct (Hp t). by left.
    - unfold handle_invoice. by repeat case_match. }
  generalize dependent (run a events). intros a1 Hl. unfold actor_handle.
  destruct (stopped a1) eqn:E; [done|]. unfold heartbeat. rewrite Hl.
  by destruct (Z.ltb_spec CLIENT_TIMEOUT (now - last_heartbeat a)); [|lia].
Qed.

(** Everything but pings. *)
Definition is_content (f : Frame) : Prop := match f with FramePing => False | _ => True end.
#[export] Instance is_content_dec f : Decision (is_content f).
Proof. destruct f; apply _. Defined.

Definition invoices_of (events : list ActorEvent) : list Invoice :=
  omap (λ e, match e with InvoiceChanged i => Some i | _ => None end) events.

Definition final (i : Invoice) : bool := Invoice_is_confirmed i || Invoice_is_expired i.

(** What is sent about the updates [us], up to the first final one. *)
Fixpoint told_about (us : list Invoice) : list Frame :=
  match us with
  | [] => []
  | i :: us =>
      FrameText (fields_of i) ::
      if Invoice_is_confirmed i then [FrameClose (Some "Invoice Complete"%string)]
      else if Invoice_is_expired i then [FrameClose (Some "Invoice Expired"%string)]
      else told_about us
  end.

(** While it runs, the actor passes on every update, in order, and nothing
    else but pings; with the first update of a confirmed or expired invoice it
    closes the connection and stops. *)
Theorem websocket_actor_session a events :
  stopped a = false →
  let a' := run a events in
  stopped a' = false →
  filter is_content (frames a') = filter is_content (frames a) ++ told_about (invoices_of events) ∧
  Forall (λ i, final i = false) (invoices_of events) ∧
  ∀ i, final i = true → stopped (actor_handle a' (InvoiceChanged i)) = true ∧
    filter is_content (frames (actor_handle a' (InvoiceChanged i))) =
    filter is_content (frames a') ++ told_about [i].
Proof using Type.
  intros Ha a' Ha'. split; [|split].
  - subst a'. revert a Ha Ha'. induction events as [|e events IH]; intros a Ha Ha'; [by rewrite app_nil_r|].
    simpl in *. destruct (stopped (actor_handle a e)) eqn:E; [by rewrite stopped_stays, E in Ha'|].
    rewrite IH by done. unfold actor_handle in *. rewrite Ha in *.
    destruct e as [t|t|r| | |i|]; try done; simpl in *.
    + unfold heartbeat in *. destruct (_ <? _); [done|]. simpl. by rewrite filter_app, app_nil_r.
    + unfold handle_invoice in *. destruct (Invoice_is_confirmed i); [done|].
      destruct (Invoice_is_expired i); [done|]. simpl. by rewrite filter_app, <-(assoc_L (++)).
  - subst a'. revert a Ha Ha'. induction events as [|e events IH]; intros a Ha Ha'; [constructor|].
    simpl in *. destruct (stopped (actor_handle a e)) eqn:E; [by rewrite stopped_stays, E in Ha'|].
    specialize (IH _ E Ha'). destruct e as [t|t|r| | |i|]; try done. simpl. constructor; [|done].
    unfold actor_handle, handle_invoice in E. rewrite Ha in E. unfold final.
    destruct (Invoice_is_confirmed i); [done|]. by destruct (Invoice_is_expired i).
  - intros i Hi. unfold actor_handle. rewrite Ha'. unfold handle_invoice, final in *. simpl.
    destruct (Invoice_is_confirmed i); [|destruct (Invoice_is_expired i); [|done]];
      (split; [done|]); simpl; by rewrite !filter_app, <-(assoc_L (++)).
Qed.
End shops.
