(* ===== verification/Exhaustion.v ===== *)
(** Running out of subaddresses: a new gateway offers as many of them as it
    starts with, minus those of the stored invoices.  It makes more of them
    when it hands one out, and so has none to hand out if all are in use when
    it is built ([library/src/caching/subaddress_cache.rs],
    [library/src/payment_gateway.rs]). *)
From S2P Require Import Prelude.
From S2P Require Import Invoice.
From S2P Require Import Storage.
From S2P Require Import InMemory.
From S2P Require Import Monerod.
From S2P Require Import Demo.
From S2P Require Import BlockCache.
From S2P Require Import SubaddressCache.
From S2P Require Import Pubsub.
From S2P Require Import Scanner.
From S2P Require Import ScannerInvariant.
From S2P Require Import ScannerDemo.
From S2P Require Import PaymentGateway.
From S2P Require Import GatewayInvariant.
From S2P Require Import Restarts.
From S2P Require Import InvariantDemo.

Section exhaustion.
Context `{Build} `{HashOrder} `{Monero} `{RngCore} `{!LawfulRng}.
Context {W RpcError : Type} `{!MonerodClient W RpcError} `{!TypedCrates W RpcError} `{!GatewayCrates W}.
Context {St EI EK EH EF : Type} `{!Storage St EI EK EH EF}.
Context (wf : St → Prop) (view : St → StoreView) `{HL : !LawfulStorage St EI EK EH EF wf view}.
Notation XmrError := (AcceptXmrError RpcError EI EK EH EF).
Notation gateway := (Gateway W RpcError St EI EK EH EF).
Notation builder := (PaymentGatewayBuilder (St:=St)).
Notation stored := (stored_index view).

(** The stored invoices of the account [mj] have the subaddresses up to some
    index, and no fewer than a gateway starts with. *)
Definition all_taken (mj : Z) (s : St) : Prop :=
  ∃ n, MIN_AVAILABLE_SUBADDRESSES - 1 ≤ n ∧ ∀ m, stored s (SubIndex_new mj m) ↔ 0 ≤ m ≤ n.

(** A new gateway over [s]. *)
Definition fresh_over (vp : ViewPair) (mj : Z) (s : St) (g : gateway) : Prop :=
  gateway_wf wf view g s ∧ g_cached_daemon_height g = 0 ∧ account g = (vp, mj) ∧
  (sc_available (g_subaddresses g) = [] ↔ all_taken mj s).

(** When nothing is left to offer. *)
Lemma nothing_offered mj s (c : SubaddressCache) :
  wf s → (∀ i, stored s i → major i = mj) →
  MIN_AVAILABLE_SUBADDRESSES - 1 ≤ sc_highest_minor_index c →
  (sc_highest_minor_index c = MIN_AVAILABLE_SUBADDRESSES - 1 ∨
   ∃ i, stored s i ∧ minor i = sc_highest_minor_index c) →
  (∀ i, i ∈ (sc_available c).*1 ↔ major i = mj ∧ 0 ≤ minor i ≤ sc_highest_minor_index c ∧ ¬ stored s i) →
  (∀ i, stored s i → minor i ≤ sc_highest_minor_index c) →
  sc_available c = [] ↔ all_taken mj s.
Proof using HL.
  intros Hwf Hmaj Hmin Hhigh Hin Hle. split.
  - intros E. exists (sc_highest_minor_index c). split; [done|]. intros m. split.
    + intros Hm. pose proof (Hle _ Hm). destruct Hm as (id & i & Hi & Ei).
      destruct (law_wf s Hwf id i Hi) as [_ ((_ & [? _]) & _)]. by rewrite Ei in *.
    + intros Hm. destruct (decide (stored s (SubIndex_new mj m))) as [?|Hn]; [done|].
      assert (SubIndex_new mj m ∈ (sc_available c).*1) as Hx by by apply Hin.
      rewrite E in Hx. by apply elem_of_nil in Hx.
  - intros (n & Hn & Hall). destruct (sc_available c) as [|[x a] l] eqn:E; [done|]. exfalso.
    destruct (proj1 (Hin x)) as (Hx & Hb & Hs); [apply list_elem_of_here|].
    apply Hs. destruct x as [mj' mn]. simpl in *. subst mj'. apply Hall.
    destruct Hhigh as [?|([mj' i] & Hi & Ei)]; [lia|]. pose proof (Hmaj _ Hi) as Hmj. simpl in *.
    subst mj' i. apply Hall in Hi. lia.
Qed.

(** What a builder makes, when its settings can be read. *)
Lemma build_inner_spec (b : builder) (w : W) vk sp :
  PrivateKey_from_str (b_private_view_key b) = inl vk → Address_public_spend (b_primary_address b) = inl sp →
  wf (b_store b) → in_u32 (b_major_index b) →
  store_fits view (ViewPair_new vk sp) (b_major_index b) (b_store b) →
  match build_inner b w with
  | Ok g => g_viewpair g = ViewPair_new vk sp ∧ fresh_over (ViewPair_new vk sp) (b_major_index b) (b_store b) g
  | Err _ => True
  | _ => False
  end.
Proof using All.
  intros Hvk Hsp Hwf Hmj Hfits.
  pose proof (SubaddressCache_init_spec wf view (b_store b) (ViewPair_new vk sp) (b_major_index b)
    (b_seed b) Hwf Hmj) as Hinit. unfold wp in Hinit.
  destruct (build_inner b w) as [g|e| |] eqn:Hb; [|done|..].
  all: pose proof Hb as Hb'; unfold build_inner, Client_new in Hb'; rewrite Hvk, Hsp in Hb'.
  all: destruct (SubaddressCache_init _ _ _ _) as [mgr [sc|e| |]]; try done; try (by destruct Hinit).
  injection Hb' as <-. cbn [fst snd] in Hinit. destruct Hinit as [-> (_ & _ & [Hmin Hhigh] & Hin & Hav)].
  split; [done|]. destruct (build_account wf view b w _ Hb Hwf Hmj) as [Hacc _].
  destruct (build_ok wf view b w _ Hb Hwf Hmj Hfits) as [Hok _].
  split; [by apply Hok|]. split; [done|]. split; [done|].
  assert (Hone : ∀ i, stored (b_store b) i → major i = b_major_index b).
  { intros i (id & inv & Hi & <-). by apply (proj1 Hfits id inv). }
  injection Hacc as _ Hm. apply nothing_offered; [done..|].
  intros i Hi. apply Hav; [|done|by rewrite (Hone i Hi)].
  intros x Hx. by rewrite (Hone x Hx).
Qed.

(** A gateway with one invoice more than the store it was built over. *)
Definition one_more (vp : ViewPair) (mj : Z) (s : St) (g : gateway) (id : InvoiceId)
    (piconeros : Z) (descr : string) : Prop :=
  ∃ s' i, gateway_wf wf view g s' ∧ account g = (vp, mj) ∧ v_invoices (view s') !! id = Some i ∧
    major (inv_index i) = mj ∧ ¬ stored s (inv_index i) ∧ inv_address i = get_subaddress vp (inv_index i) ∧
    inv_amount_requested i = piconeros ∧ inv_description i = descr.

Lemma first_invoice vp mj s g piconeros conf exp descr :
  fresh_over vp mj s g → in_u64 piconeros → in_u64 conf → in_u64 exp →
  (∀ w, wp mc_daemon_height (λ _ r, match r with
     | Ok d => in_u64 d ∧ in_u64 (d + exp) | Err _ => True | _ => False end) w) →
  wp (PaymentGateway_new_invoice piconeros conf exp descr) (λ g' r, match r with
    | Ok id => one_more vp mj s g' id piconeros descr ∧ ¬ all_taken mj s
    | Err _ => ¬ all_taken mj s
    | Panic => all_taken mj s
    | Hang => False
    end) g.
Proof using All.
  intros (Hwf & Hcached & Hg & Havail) Hp Hc He Hd.
  destruct (sc_available (g_subaddresses g)) as [|x l] eqn:E.
  - unfold PaymentGateway_new_invoice. apply wp_bind, wp_zoom. unfold wp, SubaddressCache_remove_random.
    cbn [remove_random_loop]. unfold bind, gets, id, SubaddressCache_len. rewrite E. simpl. by apply Havail.
  - assert (Hnot : ¬ all_taken mj s) by (intros Ht; by apply Havail in Ht). rewrite <-E in Havail.
    pose proof (keeps_account_new_invoice vp mj piconeros conf exp descr g Hg) as [Hacc _].
    pose proof (new_invoice_run wf view g s piconeros conf exp descr Hwf) as Hrun. unfold wp in *.
    rewrite Hcached, E in Hrun.
    destruct Hrun as (s' & Hwf' & Hr); [done|exact Hp|exact Hc|apply He|by split|exact He|exact Hd|].
    destruct (PaymentGateway_new_invoice piconeros conf exp descr g) as [g' [id|e| |]]; try done.
    split; [|done]. destruct Hr as (i & _ & Hv & Hid & Ham & _ & _ & _ & _ & Hdescr & Ha & Hfresh & _).
    cbn [fst snd] in *. exists s', i. split; [done|]. split; [done|].
    assert (Hi : v_invoices (view s') !! id = Some i) by by rewrite Hv; simpl; rewrite lookup_insert_eq.
    split; [done|]. pose proof Hwf' as (_ & _ & _ & _ & Hin & _). destruct (Hin id i Hi) as [Hm _].
    injection Hacc as Hvp' Hmj'. injection Hg as Hvp Hmj.
    split_and!; [congruence| |congruence|done|done].
    intros (id' & i' & Hi' & Heq). by apply (Hfresh id' i').
Qed.

(** C38: the first invoice of a new gateway.  Let a gateway be built over a
    store whose invoices belong to its account, with whatever settings.
    Its first call of [new_invoice] panics exactly if the stored invoices
    have all subaddresses up to some index that is at least 99: the cache of
    subaddresses is filled up to the greatest index in use, is extended only
    after one was taken out of it, and choosing from an empty cache panics.
    In all other cases the call stores an invoice with a subaddress that none
    of them has, or fails with an error. *)
Theorem PaymentGateway_first_invoice (b : builder) (w : W) (g : gateway) piconeros conf exp descr :
  build_inner b w = Ok g → wf (b_store b) → in_u32 (b_major_index b) →
  store_fits view (g_viewpair g) (b_major_index b) (b_store b) →
  in_u64 piconeros → in_u64 conf → in_u64 exp →
  (∀ w, wp mc_daemon_height (λ _ r, match r with
     | Ok d => in_u64 d ∧ in_u64 (d + exp) | Err _ => True | _ => False end) w) →
  let r := PaymentGateway_new_invoice piconeros conf exp descr g in
  (r.2 = Panic ↔ all_taken (b_major_index b) (b_store b)) ∧ r.2 ≠ Hang ∧
  ∀ id, r.2 = Ok id →
    one_more (g_viewpair g) (b_major_index b) (b_store b) r.1 id piconeros descr.
Proof using All.
  intros Hb Hwf Hmj Hfits Hp Hc He Hd r. pose proof Hb as Hb'. unfold build_inner in Hb'.
  destruct (PrivateKey_from_str _) as [vk|] eqn:Hvk; [|done].
  destruct (Address_public_spend _) as [sp|] eqn:Hsp; [|done].
  assert (Hvp : g_viewpair g = ViewPair_new vk sp).
  { destruct (SubaddressCache_init _ _ _ _) as [? [| | |]]; try done. by injection Hb' as <-. }
  rewrite Hvp in *. pose proof (build_inner_spec b w vk sp Hvk Hsp Hwf Hmj Hfits) as Hg.
  rewrite Hb in Hg. destruct Hg as [_ Hg].
  pose proof (first_invoice _ _ _ _ piconeros conf exp descr Hg Hp Hc He Hd) as Hr. unfold wp in Hr.
  fold r in Hr. destruct r as [g' [id|e| |]]; simpl in *.
  - destruct Hr as [Hr Hn]. split; [by split|]. split; [done|]. by intros id' [= <-].
  - by split; [split|].
  - by split; [split|].
  - done.
Qed.
End exhaustion.

(** * A store with nothing left *)

(** An invoice to each of the hundred subaddresses that a gateway starts with. *)
Definition taken_invoice (m : Z) : Invoice :=
  mk_Invoice (SubIndex_fmt (SubIndex_new 1 m)) (SubIndex_new 1 m) 10 1 0 None 1 10 20 [] "".
Definition taken_store (ms : list Z) : InMemory := demo_store (taken_invoice <$> ms).

(** What an entry of such a store looks like. *)
Definition taken_entry (id : InvoiceId) (i : Invoice) : Prop :=
  id = InvoiceId_new (inv_index i) 10 ∧ major (inv_index i) = 1 ∧
  inv_address i = SubIndex_fmt (inv_index i).
#[export] Instance taken_entry_dec id i : Decision (taken_entry id i).
Proof. unfold taken_entry. apply _. Defined.

Lemma taken_fits (vp : @ViewPair TypedMonero) (s : InMemory) :
  bool_decide (map_Forall taken_entry (v_invoices (InMemory_view s))) = true →
  @store_fits TypedMonero InMemory InMemory_view vp 1 s.
Proof.
  intros Hall%bool_decide_eq_true. split.
  - intros id i Hi. by destruct (Hall id i Hi) as (_ & ? & ?).
  - intros id id' i i' Hi Hi' E. destruct (Hall _ _ Hi) as [-> _], (Hall _ _ Hi') as [-> _]. by rewrite E.
Qed.

Notation first_on g := (@PaymentGateway_new_invoice demo_build TypedMonero demo_rng nat unit
  (TypedClient typed_world) InMemory InMemoryStorageError InMemoryStorageError InMemoryStorageError
  InMemoryStorageError _ 1000 2 5 "Demo invoice" g).
Definition first_result (s : InMemory) : option (option InvoiceId) :=
  match typed_gateway_on s with
  | Ok g => match (first_on g).2 with Ok id => Some (Some id) | Panic => Some None | _ => None end
  | _ => None
  end.

(** With one of the hundred left the call works, with none it panics. *)
Lemma PaymentGateway_first_invoice_witness :
  (∃ g id, typed_gateway_on (taken_store (seqZ 0 99)) = Ok g ∧ (first_on g).2 = Ok id ∧
     @one_more TypedMonero demo_rng nat unit InMemory _ _ _ _ InMemory_wf InMemory_view
       (g_viewpair g) 1 (taken_store (seqZ 0 99)) (first_on g).1 id 1000 "Demo invoice") ∧
  ∃ g, typed_gateway_on (taken_store (seqZ 0 100)) = Ok g ∧ (first_on g).2 = Panic ∧
     all_taken InMemory_view 1 (taken_store (seqZ 0 100)).
Proof.
  assert (H99 : match first_result (taken_store (seqZ 0 99)) with Some (Some _) => true | _ => false end = true)
    by by vm_compute.
  assert (H100 : match first_result (taken_store (seqZ 0 100)) with Some None => true | _ => false end = true)
    by by vm_compute.
  assert (F99 : bool_decide (map_Forall taken_entry (v_invoices (InMemory_view (taken_store (seqZ 0 99))))) = true)
    by by vm_compute.
  assert (F100 : bool_decide (map_Forall taken_entry (v_invoices (InMemory_view (taken_store (seqZ 0 100))))) = true)
    by by vm_compute.
  assert (W99 : InMemory_wf (taken_store (seqZ 0 99))) by (apply demo_store_wf; decide_goal).
  assert (W100 : InMemory_wf (taken_store (seqZ 0 100))) by (apply demo_store_wf; decide_goal).
  pose proof (λ s g Hb Hwf Hmj Hfits Hp Hc He Hd, @PaymentGateway_first_invoice demo_build demo_order
    TypedMonero demo_rng demo_rng_lawful nat unit (TypedClient typed_world) typed_world_crates
    TypedGatewayCrates InMemory _ _ _ _ _ InMemory_wf InMemory_view _ (typed_builder_on s) 0%nat g
    1000 2 5 "Demo invoice" Hb Hwf Hmj Hfits Hp Hc He Hd) as Hfirst.
  cbn [b_store b_major_index Builder_account_index PaymentGatewayBuilder_new] in Hfirst.
  assert (Hmj : in_u32 1) by (split; vm_compute; congruence).
  assert (Hu : in_u64 1000 ∧ in_u64 2 ∧ in_u64 5) by (split_and!; split; vm_compute; congruence).
  destruct Hu as (Hp & Hc & He).
  assert (Hd : ∀ w, wp (@mc_daemon_height _ _ _ (TypedClient typed_world)) (λ _ r, match r with
    | Ok d => in_u64 d ∧ in_u64 (d + 5) | Err _ => True | _ => False end) w).
  { intros w. unfold wp. simpl. split; split; vm_compute; congruence. }
  revert H99 H100 W99 W100 F99 F100. unfold first_result.
  generalize (taken_store (seqZ 0 99)) (taken_store (seqZ 0 100)). intros s99 s100.
  intros H99 H100 W99 W100 F99 F100. split.
  - destruct (typed_gateway_on s99) as [g| | |] eqn:Eg; try discriminate H99.
    destruct (Hfirst s99 g Eg W99 Hmj (taken_fits _ _ F99) Hp Hc He) as (_ & _ & Hok).
    + exact Hd.
    + destruct (first_on g).2 as [id| | |] eqn:Er; try discriminate H99.
      exists g, id. split; [done|]. split; [done|]. exact (Hok id eq_refl).
  - destruct (typed_gateway_on s100) as [g| | |] eqn:Eg; try discriminate H100.
    destruct (Hfirst s100 g Eg W100 Hmj (taken_fits _ _ F100) Hp Hc He) as (Hiff & _).
    + exact Hd.
    + destruct (first_on g).2 as [id| | |] eqn:Er; try discriminate H100.
      exists g. split; [done|]. split; [done|]. by apply Hiff.
Defined.
