(* ===== verification/Examples.v ===== *)
(** The [main] functions of the example programs [library/examples/]:
    [custom_storage] and [persistence], which make an invoice and read it
    again, the latter after a power failure, and the start of the shops
    [nojs] and [websockets].  Logging and the web framework are left out. *)
From S2P Require Import Prelude.
From S2P Require Import Invoice.
From S2P Require Import Storage.
From S2P Require Import InMemory.
From S2P Require Import Monerod.
From S2P Require Import SubaddressCache.
From S2P Require Import Pubsub.
From S2P Require Import Scanner.
From S2P Require Import ScannerInvariant.
From S2P Require Import PaymentGateway.
From S2P Require Import GatewayInvariant.
From S2P Require Import Restarts.
From S2P Require Import Demo.
From S2P Require Import InvariantDemo.
From S2P Require Import Exhaustion.
From S2P Require Import F64.
From S2P Require Import InvoiceText.
From S2P Require Import Shops.

Definition private_view_key : string :=
  "ad2093a5705b9f33e6f0f0c1bc1f5f639c756cdfc168c8f2ac6127ccbdab3a03".
Definition primary_address : string :=
  "4613YiHLM6JMH4zejMB2zJY5TwQCxL8p65ufw8kBP5yxX9itmuGLqp1dS4tkVoTxjyH3aYhYNrtGHbQzJQP5bFus3KHVdmf".

(** What a [main] panics with by itself: an error that it unwraps, of the
    gateway or of its store, or the message that it expects something with.
    The [Panic] of the outcome is a panic further down. *)
Inductive MainPanic (SE XE : Type) :=
  | NotOpened (e : SE)
  | Unwrapped (e : XE)
  | Expected (message : string).
Arguments NotOpened {SE XE} e.
Arguments Unwrapped {SE XE} e.
Arguments Expected {SE XE} message.

(** A call on a gateway that the caller owns. *)
Definition run_on {S E A} (s : S) (m : M S E A) : outcome E (S * A) :=
  match m s with
  | (s', Ok a) => Ok (s', a)
  | (_, Err e) => Err e
  | (_, Panic) => Panic
  | (_, Hang) => Hang
  end.

Lemma wp_lift {S E A} (r : outcome E A) (Q : S → outcome E A → Prop) s : Q s r → wp (lift r) Q s.
Proof. done. Qed.

Lemma wp_run_on {S T E A} (s : S) (m : M S E A) (Q : T → outcome E (S * A) → Prop) t :
  wp m (λ s' r, match r with
                | Ok a => Q t (Ok (s', a)) | Err e => Q t (Err e) | Panic => Q t Panic | Hang => Q t Hang
                end) s →
  wp (lift (run_on s m)) Q t.
Proof. unfold wp, lift, run_on. by destruct (m s) as [s' [a|e| |]]. Qed.

(** * The programs *)

Section examples.
Context `{Build} `{HashOrder} `{Monero} `{RngCore}.
Context {W RpcError : Type} `{!MonerodClient W RpcError} `{!GatewayCrates W}.

Section orders.
Context {St EI EK EH EF SE : Type} `{!Storage St EI EK EH EF}.
Notation XmrError := (AcceptXmrError RpcError EI EK EH EF).
Notation gateway := (Gateway W RpcError St EI EK EH EF).
Notation MainPanic := (MainPanic SE XmrError).

(** [.build().await.unwrap()] with the settings of the examples. *)
Definition example_gateway (url : string) (store : St) : M unit MainPanic gateway :=
  map_err Unwrapped (lift (build
    (Builder_daemon_url url (PaymentGatewayBuilder_new private_view_key primary_address store)))).

Definition demo_invoice_id : M gateway MainPanic InvoiceId :=
  map_err Unwrapped (PaymentGateway_new_invoice 1000 2 5 "Demo invoice").
Definition found_invoice (invoice_id : InvoiceId) : M gateway MainPanic Invoice :=
  let! invoice := map_err Unwrapped (PaymentGateway_get_invoice invoice_id) in
  match invoice with Some invoice => ret invoice | None => throw (Expected "invoice not found") end.

(** On the store of the example ([MyCustomStorage_new]), or any other.  The
    result is the address that is logged in the end. *)
Definition custom_storage_main (store : St) : M unit MainPanic string :=
  let! payment_gateway := example_gateway "http://node.sethforprivacy.com:18089" store in
  let! (payment_gateway, invoice_id) := lift (run_on payment_gateway demo_invoice_id) in
  let! (_, invoice) := lift (run_on payment_gateway (found_invoice invoice_id)) in
  ret (inv_address invoice).

(** What is left of a gateway when it is dropped: its store, or the manager
    task that has taken its store along. *)
Definition power_failure (payment_gateway : gateway) : Manager St := g_store payment_gateway.

(** [opened] is what the database opens with, and [reopen] is how it opens
    after the power failure.  The addresses are logged, one in each life. *)
Definition persistence_main (opened : St + SE) (reopen : Manager St → St + SE) :
    M unit MainPanic (string * string) :=
  let! store := lift (match opened with inl store => Ok store | inr e => Err (NotOpened e) end) in
  let! payment_gateway := example_gateway "http://node.sethforprivacy.com:18089" store in
  let! (payment_gateway, invoice_id) := lift (run_on payment_gateway demo_invoice_id) in
  let! (payment_gateway, invoice) := lift (run_on payment_gateway (found_invoice invoice_id)) in
  let! store := lift (match reopen (power_failure payment_gateway) with
                      | inl store => Ok store | inr e => Err (NotOpened e) end) in
  let! payment_gateway' := example_gateway "http://node.sethforprivacy.com:18089" store in
  let! (_, invoice') := lift (run_on payment_gateway' (found_invoice invoice_id)) in
  ret (inv_address invoice, inv_address invoice').

(** * Correctness *)

Context `{!LawfulRng} `{!TypedCrates W RpcError}.
Context (wf : St → Prop) (view : St → StoreView) `{HL : !LawfulStorage St EI EK EH EF wf view}.
Notation stored := (stored_index view).
Notation fits vp s := (store_fits view vp 0 s).

(** The account that the examples use. *)
Definition example_account (vp : ViewPair) : Prop :=
  ∃ vk sp, PrivateKey_from_str private_view_key = inl vk ∧
    Address_public_spend primary_address = inl sp ∧ vp = ViewPair_new vk sp.

(** What the height of the daemon may be: an invoice has to be able to expire
    five blocks later. *)
Definition reasonable_daemon : Prop :=
  ∀ w, wp mc_daemon_height (λ _ r, match r with
    | Ok d => in_u64 d ∧ in_u64 (d + 5) | Err _ => True | _ => False end) w.

Lemma example_gateway_spec vp url s :
  example_account vp → wf s → fits vp s →
  wp (example_gateway url s) (λ _ r, match r with
    | Ok g => fresh_over wf view vp 0 s g | Err (Unwrapped _) => True | _ => False end) tt.
Proof using All.
  intros (vk & sp & Hvk & Hsp & ->) Hwf Hfits. unfold example_gateway, build.
  apply wp_map_err, wp_lift. cbn [b_daemon_url Builder_daemon_url].
  destruct (Uri_from_str url) as [u|e]; [|done].
  assert (Hmj : in_u32 0) by (split; unfold u32_max; lia).
  match goal with |- context [build_inner ?b ?w] =>
    pose proof (build_inner_spec wf view b w vk sp Hvk Hsp Hwf Hmj Hfits) as Hg;
    destruct (build_inner b w) as [g|e| |] end; [by apply Hg|done..].
Qed.

Lemma demo_invoice_id_spec vp s g :
  reasonable_daemon → fresh_over wf view vp 0 s g →
  wp demo_invoice_id (λ g' r, match r with
    | Ok id => one_more wf view vp 0 s g' id 1000 "Demo invoice" ∧ ¬ all_taken view 0 s
    | Err (Unwrapped _) => ¬ all_taken view 0 s
    | Panic => all_taken view 0 s
    | _ => False
    end) g.
Proof using All.
  intros Hd Hg. apply wp_map_err. eapply wp_mono.
  - eapply (first_invoice wf view vp 0 s g 1000 2 5 "Demo invoice" Hg); [by split|by split|by split|exact Hd].
  - by intros g' [id|e| |].
Qed.

(** Looking an invoice up that is there finds it. *)
Lemma found_invoice_spec g s id i :
  gateway_wf wf view g s → v_invoices (view s) !! id = Some i →
  wp (found_invoice id) (λ g' r,
    (∃ s', g_store g' = Running s' ∧ wf s' ∧ view s' = view s) ∧
    match r with Ok i' => i' = i | Err (Unwrapped _) => True | _ => False end) g.
Proof using HL.
  intros Hwf Hi. pose proof Hwf as (Hst & Hs & _). destruct (law_wf s Hs id i Hi) as [Hid Hiwf].
  unfold found_invoice. apply wp_bind, wp_map_err. unfold PaymentGateway_get_invoice.
  eapply (wp_gateway_request wf view); [exact Hst|done|apply law_get; [done|]|..].
  - rewrite <-Hid. unfold Invoice_wf in Hiwf. by destruct Hiwf as (? & ? & _).
  - intros s' o Hwf' [Hv ->]. rewrite Hi. apply wp_ret. split; [by exists s'|done].
  - intros s' e Hwf' Hv. split; [by exists s'|done].
Qed.

(** The example [custom_storage], on any store that keeps the promises of
    the traits.  It logs the address of a new invoice, at an index that no
    stored invoice has, or panics because the gateway cannot be built or one
    of its two calls fails.  It never misses its invoice, and the library
    itself only panics if the stored invoices have taken all the subaddresses
    that a new gateway offers: then, as soon as the gateway is built, the call
    of [new_invoice] does panic. *)
Theorem custom_storage_main_spec vp s :
  reasonable_daemon → example_account vp → wf s → fits vp s →
  wp (custom_storage_main s) (λ _ r, match r with
    | Ok a => ¬ all_taken view 0 s ∧ ∃ x, major x = 0 ∧ ¬ stored s x ∧ a = get_subaddress vp x
    | Err (Unwrapped _) => True
    | Panic => all_taken view 0 s
    | _ => False
    end) tt.
Proof using All.
  intros Hd Hvp Hwf Hfits. unfold custom_storage_main. apply wp_bind.
  eapply wp_mono; [by apply (example_gateway_spec vp)|]. intros [] [g|[]| |]; try done. intros Hg.
  apply wp_bind, wp_run_on. eapply wp_mono; [by apply (demo_invoice_id_spec vp s)|].
  intros g1 [id|[]| |]; try done. intros [(s1 & i & Hwf1 & _ & Hi & Hm & Hnew & Ha & _) Hnot].
  apply wp_bind, wp_run_on. eapply wp_mono; [by apply (found_invoice_spec g1 s1 id i)|].
  intros g2 [i'|[]| |] [_ Hr]; try done. subst i'. apply wp_ret. split; [done|]. by exists (inv_index i).
Qed.

(** The example [persistence], on a database that keeps the promises of
    the traits and keeps its contents when it is opened again.  If nothing
    fails, both lives of the gateway log one and the same address, that of an
    index which no stored invoice had: the invoice is still there after the
    power failure.  The errors that end it are those of opening the database
    and of the calls; the second gateway never misses the invoice.  The
    library itself panics exactly if the stored invoices have taken all the
    subaddresses that a new gateway offers, and the gateway could be built.
    As no invoice is ever removed, this is where repeated runs of the example
    end. *)
Theorem persistence_main_spec vp s reopen :
  reasonable_daemon → example_account vp → wf s → fits vp s →
  (∀ s1 s2, wf s1 → reopen (Running s1) = inl s2 → wf s2 ∧ view s2 = view s1) →
  wp (persistence_main (inl s) reopen) (λ _ r, match r with
    | Ok (a, a') => ¬ all_taken view 0 s ∧ a' = a ∧
        ∃ x, major x = 0 ∧ ¬ stored s x ∧ a = get_subaddress vp x
    | Err (Unwrapped _) | Err (NotOpened _) => True
    | Panic => all_taken view 0 s
    | _ => False
    end) tt.
Proof using All.
  intros Hd Hvp Hwf Hfits Hopen. unfold persistence_main. apply wp_bind, wp_lift, wp_bind.
  eapply wp_mono; [by apply (example_gateway_spec vp)|]. intros [] [g|[]| |]; try done. intros Hg.
  apply wp_bind, wp_run_on. eapply wp_mono; [by apply (demo_invoice_id_spec vp s)|].
  intros g1 [id|[]| |]; try done. intros [(s1 & i & Hwf1 & Hacc & Hi & Hm & Hnew & Ha & _) Hnot].
  apply wp_bind, wp_run_on. eapply wp_mono; [by apply (found_invoice_spec g1 s1 id i)|].
  intros g2 [i'|[]| |] [(s2 & Hs2 & Hwf2 & Hv2) Hr]; try done. subst i'.
  apply wp_bind, wp_lift. unfold power_failure. rewrite Hs2.
  destruct (reopen (Running s2)) as [s3|e] eqn:Hre; [|done].
  destruct (Hopen s2 s3 Hwf2 Hre) as [Hwf3 Hv3]. apply wp_bind.
  assert (Hfits3 : fits vp s3).
  { unfold store_fits. rewrite Hv3, Hv2. by eapply gateway_store_fits. }
  eapply wp_mono; [by apply (example_gateway_spec vp)|]. intros [] [g3|[]| |]; try done.
  intros [Hwfg3 _]. apply wp_bind, wp_run_on.
  eapply wp_mono; [apply (found_invoice_spec g3 s3 id i); [done|by rewrite Hv3, Hv2]|].
  intros g4 [i'|[]| |] [_ Hr]; try done. subst i'. apply wp_ret. split; [done|]. split; [done|].
  by exists (inv_index i).
Qed.
End orders.

(** ** The shops *)

Section shop.
Context `{!NumberText} {S : Type} `{!ShopCrates S} {TE IO : Type}.
Notation XmrError := (AcceptXmrError RpcError InMemoryStorageError InMemoryStorageError
  InMemoryStorageError InMemoryStorageError).
Notation gateway := (Gateway W RpcError InMemory InMemoryStorageError InMemoryStorageError
  InMemoryStorageError InMemoryStorageError).
Notation Main := (M unit (MainPanic Empty_set XmrError)).

(** What both shops start with: a gateway that is running, and the subscriber
    of the task that they spawn, which subscribes before anything else. *)
Definition shop_gateway (sender_id : Z) : Main (gateway * nat) :=
  let! payment_gateway := map_err (λ _, Expected "failed to build payment gateway")
    (lift (build (Builder_daemon_url "http://xmr-node.cakewallet.com:18081"
       (PaymentGatewayBuilder_new private_view_key primary_address InMemory_new)))) in
  let! (payment_gateway, _) := map_err (λ _ : XmrError, Expected "failed to run payment gateway")
    (lift (run_on payment_gateway PaymentGateway_run)) in
  ret (PaymentGateway_subscribe_all sender_id payment_gateway).

(** A shop serves its pages, or its [main] returns the error of the socket. *)
Definition serve_shop (bound : unit + IO) (shop : gateway * nat) : Main (gateway * nat + IO) :=
  match bound with inl _ => ret (inl shop) | inr e => ret (inr e) end.

Definition nojs_main (sender_id : Z) (templates : unit + TE) (bound : unit + IO) : Main (gateway * nat + IO) :=
  let! shop := shop_gateway sender_id in
  match templates with
  | inr _ => throw (Expected "failed to register template directory")
  | inl _ => serve_shop bound shop
  end.
Definition websockets_main (sender_id : Z) (bound : unit + IO) : Main (gateway * nat + IO) :=
  let! shop := shop_gateway sender_id in
  serve_shop bound shop.

(** A call of [run] that succeeds leaves a scanning task behind that runs. *)
Lemma run_runs (g g' : gateway) :
  PaymentGateway_run g = (g', Ok tt) → ∃ t, g_handle g' = Some t ∧ is_finished t g' = false.
Proof using Type.
  unfold PaymentGateway_run. unfold bind at 1. destruct (run_check g) as [g1 [[]| | |]]; try done.
  unfold run_start, bind, gets, zoom, map_err, id.
  destruct (Scanner_new _ _ _) as [e [s| | |]]; try done. unfold handle_lock, bind, gets. simpl.
  destruct (g_handle_locked g1); [done|]. intros [= <-]. exists (length (g_tasks g1)).
  split; [done|]. unfold is_finished. simpl. by rewrite list_lookup_middle.
Qed.

Definition runs_without_monitor (shop : gateway * nat) : Prop :=
  (∃ t, g_handle shop.1 = Some t ∧ is_finished t shop.1 = false) ∧
  nojs_monitor shop.2 shop.1 = (shop.1, Panic) ∧ websockets_monitor shop.2 shop.1 = (shop.1, Panic).

Lemma shop_gateway_spec sender_id :
  wp (shop_gateway sender_id) (λ _ r, match r with
    | Ok shop => runs_without_monitor shop | Err (Expected _) => True | Err _ => False | _ => True end) tt.
Proof using Type.
  unfold shop_gateway. apply wp_bind, wp_map_err, wp_lift. destruct (build _) as [g|e| |]; try done.
  apply wp_bind, wp_map_err, wp_lift. unfold run_on.
  destruct (PaymentGateway_run g) as [g' [[]|e| |]] eqn:E; try done. apply wp_ret.
  destruct (run_runs g g' E) as (t & Ht & Hf). split; [by exists t|].
  split; by apply shop_monitors_panic.
Qed.

(** A shop that serves its pages has a scanner that runs, and a monitor that
    panics as soon as it is scheduled; the main function does not notice,
    since it does not wait for the task. *)
Theorem shops_serve sender_id templates bound :
  wp (nojs_main sender_id templates bound) (λ _ r, ∀ shop, r = Ok (inl shop) → runs_without_monitor shop) tt ∧
  wp (websockets_main sender_id bound) (λ _ r, ∀ shop, r = Ok (inl shop) → runs_without_monitor shop) tt.
Proof using Type.
  split; apply wp_bind; (eapply wp_mono; [apply shop_gateway_spec|]);
    (intros [] [shop|e| |] Hs; [|done..]).
  - destruct templates; [|done]. destruct bound; [|done]. by intros ? [= <-].
  - destruct bound; [|done]. by intros ? [= <-].
Qed.
End shop.
End examples.

(** * A run of [persistence] *)

(** The database is a store in memory that survives. *)
Notation persistence_run := (@persistence_main demo_build TypedMonero demo_rng nat unit (TypedClient typed_world)
  TypedGatewayCrates InMemory _ _ _ _ Empty_set _ (inl InMemory_new)
  (λ m : Manager InMemory, match m with Running s => inl s | Dead => inl InMemory_new end) tt).

Lemma persistence_main_spec_witness : ∃ a x, persistence_run.2 = Ok (a, a) ∧ a = SubIndex_fmt x.
Proof.
  assert (Hok : match persistence_run.2 with Ok _ => true | _ => false end = true) by by vm_compute.
  pose proof (@persistence_main_spec demo_build demo_order TypedMonero demo_rng nat unit
    (TypedClient typed_world) TypedGatewayCrates InMemory _ _ _ _ Empty_set _ demo_rng_lawful
    typed_world_crates InMemory_wf InMemory_view _ tt InMemory_new
    (λ m : Manager InMemory, match m with Running s => inl s | Dead => inl InMemory_new end)) as Hspec.
  unfold wp in Hspec. destruct persistence_run.2 as [[a a']| | |]; try discriminate Hok.
  destruct Hspec as (_ & -> & x & _ & _ & ->).
  - intros w. unfold wp. simpl. split; split; vm_compute; congruence.
  - by eexists _, _.
  - exact (demo_store_wf [] ltac:(by constructor)).
  - exact (empty_fits tt 0).
  - by intros s1 s2 Hs [= <-].
  - by eexists _, x.
Defined.
