(* ===== verification/DigestAuth.v ===== *)
(** Digest authentication of the RPC client
    ([library/src/monerod_client/authentication.rs]): the parser of
    WWW-AUTHENTICATE challenges, the choice between several of them, and the
    AUTHORIZATION headers with their nonce counter.  MD5, hex, the types of
    [hyper] and the random generator are parameters.

    Text is a list of bytes: [HeaderValue::to_str] only gives ASCII. *)
From Stdlib Require Import Ascii.
From S2P Require Import Prelude.
From S2P Require Import Text.

(** ** External code *)

Class AuthCrates := {
  md5_digest : text → list Byte.byte;          (* Md5::new, update, finalize *)
  hex_encode : list Byte.byte → text;
  HeaderValue : Type;
  HeaderValue_from_str : text → option HeaderValue;
  HeaderValue_to_str : HeaderValue → option text;
  Uri : Type;
  path_and_query : Uri → option text;
  uri_path : Uri → text;
  ChaCha12Rng : Type;
  ChaCha12Rng_from_entropy : ChaCha12Rng;
  ChaCha12Rng_seed_from_u64 : Z → ChaCha12Rng;
  fill16 : ChaCha12Rng → list Byte.byte * ChaCha12Rng;  (* fill of [u8; 16] *)
}.

(** [sort_unstable] leaves the order of equal elements open. *)
Class SortUnstable := {
  sort_unstable {A} : (A → A → comparison) → list A → list A;
}.
Class LawfulSort `{SortUnstable} : Prop := {
  sort_unstable_perm {A} (cmp : A → A → comparison) l : sort_unstable cmp l ≡ₚ l;
  (* a total order: see the documentation of [sort_unstable] *)
  sort_unstable_sorted {A} (cmp : A → A → comparison) l :
    (∀ x y, cmp y x = CompOpp (cmp x y)) →
    (∀ x y z, cmp x y ≠ Gt → cmp y z ≠ Gt → cmp x z ≠ Gt) →
    StronglySorted (λ x y, cmp x y ≠ Gt) (sort_unstable cmp l);
}.

(** ** Parameters of a challenge *)

Inductive Qop := Auth.
Inductive Algorithm := Md5 | Md5Sess.
#[export] Instance Algorithm_eq_dec : EqDecision Algorithm.
Proof. solve_decision. Defined.

Definition Qop_display (q : Qop) : text := match q with Auth => txt "auth" end.
Definition Algorithm_display (a : Algorithm) : text :=
  match a with Md5 => txt "MD5" | Md5Sess => txt "MD5-sess" end.
Definition is_sess (a : Algorithm) : bool :=
  match a with Md5Sess => true | Md5 => false end.

Record AuthParams := mk_AuthParams {
  realm : text;
  qop : list Qop;
  algorithm : Algorithm;
  nonce : text;
  opaque : option text;
}.

(** The derived orders. *)
Definition Qop_cmp (q r : Qop) : comparison := match q, r with Auth, Auth => Eq end.
Definition Algorithm_cmp (a b : Algorithm) : comparison :=
  match a, b with
  | Md5, Md5Sess => Lt
  | Md5Sess, Md5 => Gt
  | Md5, Md5 | Md5Sess, Md5Sess => Eq
  end.
(** [qop.iter().max()]: the last of the greatest elements. *)
Definition qop_max (l : list Qop) : option Qop :=
  foldl (λ acc q, match acc with
                  | None => Some q
                  | Some m => match Qop_cmp m q with Gt => Some m | _ => Some q end
                  end) None l.
Definition option_cmp {A} (cmp : A → A → comparison) (x y : option A) : comparison :=
  match x, y with
  | None, None => Eq
  | None, Some _ => Lt
  | Some _, None => Gt
  | Some x, Some y => cmp x y
  end.

Definition AuthParams_cmp (p q : AuthParams) : comparison :=
  match option_cmp Qop_cmp (qop_max (qop p)) (qop_max (qop q)) with
  | Eq => Algorithm_cmp (algorithm p) (algorithm q)
  | ord => ord
  end.

Inductive AuthError :=
  | Unauthorized
  | InvalidHeader (message : text)
  | HeaderConstruction
  | Unsupported.

(** ** The parser *)

(** [header_str[from..to]]. *)
Definition slice (from to : nat) (s : text) : text := take (to - from) (drop from s).
Definition clean_part (s : text) : text := trim (trim_start_matches (is_char comma) s).

(** The loop of [split_header] at index [i]; [rest] is what [char_iterator]
    still gives. *)
Fixpoint split_loop (header_str rest : text) (i : nat) (parts : list text)
    (in_single_quote in_double_quote : bool) (last_split : nat) : list text :=
  match rest with
  | [] => parts
  | c :: rest =>
      let in_single_quote' := if is_char squote c then negb in_single_quote else in_single_quote in
      let in_double_quote' := if is_char dquote c then negb in_double_quote else in_double_quote in
      let split := is_char comma c && negb in_single_quote && negb in_double_quote in
      let parts := if split then parts ++ [clean_part (slice last_split i header_str)] else parts in
      let last_split := if split then i else last_split in
      let parts := match rest with
                   | [] => parts ++ [clean_part (drop last_split header_str)]
                   | _ => parts
                   end in
      split_loop header_str rest (S i) parts in_single_quote' in_double_quote' last_split
  end.
Definition split_header (header_str : text) : list text :=
  split_loop header_str header_str 0 [] false false 0.

Fixpoint find_string_value (parts : list text) (field : text) : option text :=
  match parts with
  | [] => None
  | p :: parts =>
      if starts_with field p then
        let formatted := field ++ txt "=" in
        Some (trim_end_matches (is_char dquote)
                (trim_start_matches (is_char dquote) (remove_all 0 formatted p)))
      else find_string_value parts field
  end.

(** [collect::<Result<Vec<_>, _>>()]. *)
Fixpoint collect {A B E} (f : A → outcome E B) (l : list A) : outcome E (list B) :=
  match l with
  | [] => Ok []
  | a :: l =>
      match f a with
      | Ok b => match collect f l with Ok bs => Ok (b :: bs) | r => r end
      | Err e => Err e
      | Panic => Panic
      | Hang => Hang
      end
  end.

Definition parse_qop (s : text) : outcome AuthError Qop :=
  let q := trim s in
  if decide (q = [] ∨ q = txt "auth") then Ok Auth
  else Err (InvalidHeader (txt "unknown QoP directive: " ++ q)).
Definition parse_algorithm (s : text) : outcome AuthError Algorithm :=
  let a := trim s in
  if decide (a = [] ∨ a = txt "MD5") then Ok Md5
  else if decide (a = txt "MD5-sess") then Ok Md5Sess
  else Err (InvalidHeader (txt "unknown algorithm: " ++ a)).

Definition parse_header (header : text) : outcome AuthError AuthParams :=
  let str_params := split_header header in
  let realm := default [] (find_string_value str_params (txt "realm")) in
  match collect parse_qop
          (split_on comma (default [] (find_string_value str_params (txt "qop")))) with
  | Ok qop =>
      match parse_algorithm (default [] (find_string_value str_params (txt "algorithm"))) with
      | Ok algorithm =>
          match find_string_value str_params (txt "nonce") with
          | Some nonce =>
              let opaque := find_string_value str_params (txt "opaque") in
              Ok (mk_AuthParams realm qop algorithm nonce opaque)
          | None => Err (InvalidHeader (txt "no nonce provided"))
          end
      | Err e => Err e
      | Panic => Panic
      | Hang => Hang
      end
  | Err e => Err e
  | Panic => Panic
  | Hang => Hang
  end.

(** ** The authenticator *)

Section auth.
Context `{AuthCrates}.

Record AuthInfo := mk_AuthInfo {
  username : text;
  password : text;
  counter : Z;
  last_auth_params : option AuthParams;
  auth_rng : ChaCha12Rng;
}.
Definition set_counter (n : Z) (a : AuthInfo) : AuthInfo :=
  mk_AuthInfo (username a) (password a) n (last_auth_params a) (auth_rng a).
Definition set_last_auth_params (p : option AuthParams) (a : AuthInfo) : AuthInfo :=
  mk_AuthInfo (username a) (password a) (counter a) p (auth_rng a).
Definition set_auth_rng (r : ChaCha12Rng) (a : AuthInfo) : AuthInfo :=
  mk_AuthInfo (username a) (password a) (counter a) (last_auth_params a) r.

Definition AuthInfo_new (username password : text) (seed : option Z) : AuthInfo :=
  let rng := match seed with
             | Some s => ChaCha12Rng_seed_from_u64 s
             | None => ChaCha12Rng_from_entropy
             end in
  mk_AuthInfo username password 1 None rng.

Definition md5_str (input : text) : text := hex_encode (md5_digest input).

Definition colon : text := txt ":".
(** The header [format!] prints. *)
Definition auth_header (user : text) (p : AuthParams) (uri : text) (q : Qop)
    (nc cnonce response : text) : text :=
  txt "Digest username=" ++ [dquote] ++ user ++ [dquote]
  ++ txt ", realm=" ++ [dquote] ++ realm p ++ [dquote]
  ++ txt ", nonce=" ++ [dquote] ++ nonce p ++ [dquote]
  ++ txt ", uri=" ++ [dquote] ++ uri ++ [dquote]
  ++ txt ", qop=" ++ Qop_display q
  ++ txt ", nc=" ++ nc
  ++ txt ", cnonce=" ++ [dquote] ++ cnonce ++ [dquote]
  ++ txt ", response=" ++ [dquote] ++ response ++ [dquote]
  ++ txt ", algorithm=" ++ Algorithm_display (algorithm p)
  ++ match opaque p with
     | Some opaque_val => txt ", opaque=" ++ opaque_val
     | None => []
     end.

(** The [response] of the header. *)
Definition digest_response (user pass : text) (p : AuthParams) (method uri : text) (q : Qop)
    (nc cnonce : text) : text :=
  let ha1_input := user ++ colon ++ realm p ++ colon ++ pass in
  let ha1 := md5_str ha1_input in
  let ha1 := if is_sess (algorithm p) then md5_str (ha1 ++ colon ++ nonce p ++ colon ++ cnonce)
             else ha1 in
  let ha2_input := method ++ colon ++ uri in
  let ha2 := md5_str ha2_input in
  let response_input := ha1 ++ colon ++ nonce p ++ colon ++ nc ++ colon ++ cnonce ++ colon
                        ++ Qop_display q ++ colon ++ ha2 in
  md5_str response_input.

(** [fetch_add] of an atomic wraps around. *)
Definition wrap_u32 (x : Z) : Z := x mod 2 ^ 32.

Definition AuthInfo_authenticate (uri : Uri) (method : text) :
    M AuthInfo AuthError (option HeaderValue) :=
  let! maybe_auth_params := gets last_auth_params in
  match maybe_auth_params with
  | None => ret None
  | Some auth_params =>
      let! rng := gets auth_rng in
      let '(cnonce_bytes, rng) := fill16 rng in
      modify (set_auth_rng rng) ;;;
      let path_and_query := match path_and_query uri with Some p => p | None => uri_path uri end in
      let! self := gets id in
      let nc := fmt_08x (counter self) in
      match qop_max (qop auth_params) with
      | None => throw Unsupported
      | Some qop =>
          let cnonce := hex_encode cnonce_bytes in
          let response := digest_response (username self) (password self) auth_params method
                            path_and_query qop nc cnonce in
          let header := auth_header (username self) auth_params path_and_query qop nc cnonce
                          response in
          modify (λ self, set_counter (wrap_u32 (counter self + 1)) self) ;;;
          match HeaderValue_from_str header with
          | Some value => ret (Some value)
          | None => throw HeaderConstruction
          end
      end
  end.

(** The challenges of a response: those of its WWW-AUTHENTICATE headers that
    ask for a digest. *)
Definition header_to_str (h : HeaderValue) : outcome AuthError text :=
  match HeaderValue_to_str h with
  | Some s => Ok s
  | None => Err (InvalidHeader (txt "header could not be parsed to String"))
  end.
Definition auth_choices (headers : list HeaderValue) : outcome AuthError (list AuthParams) :=
  match collect header_to_str headers with
  | Ok authenticate_headers =>
      collect parse_header (omap (strip_prefix (txt "Digest ")) authenticate_headers)
  | Err e => Err e
  | Panic => Panic
  | Hang => Hang
  end.

Context `{SortUnstable}.

Definition AuthInfo_authenticate_with_resp (headers : list HeaderValue) (uri : Uri) (method : text) :
    M AuthInfo AuthError HeaderValue :=
  let! auth_choices := lift (auth_choices headers) in
  let auth_choices := sort_unstable AuthParams_cmp auth_choices in
  match last auth_choices with
  | None => throw Unsupported
  | Some auth_params =>
      modify (set_last_auth_params (Some auth_params)) ;;;
      modify (set_counter 1) ;;;
      let! header := AuthInfo_authenticate uri method in
      match header with
      | Some header => ret header
      | None => throw Unsupported
      end
  end.

End auth.
