(* ===== verification/DigestParser.v ===== *)
(** The parser of WWW-AUTHENTICATE challenges: what [split_header] and
    [find_string_value] compute, the challenges that [parse_header] reads back
    as they were written, and one that it cannot read. *)
From Stdlib Require Import Ascii.
From S2P Require Import Prelude.
From S2P Require Import Text.
From S2P Require Import DigestAuth.

(** * Lemmas about text *)

Lemma starts_with_spec p s : starts_with p s = true ↔ p `prefix_of` s.
Proof. unfold starts_with. apply bool_decide_eq_true. Qed.

Definition occurs (pat s : text) : Prop := ∃ a b, s = a ++ pat ++ b.

Lemma remove_all_none pat s : ¬ occurs pat s → remove_all 0 pat s = s.
Proof.
  induction s as [|c s IH]; intros Hno; [done|]. cbn [remove_all].
  destruct (starts_with pat (c :: s)) eqn:E.
  { apply starts_with_spec in E as [k Hk]. destruct Hno. by exists [], k. }
  rewrite IH; [done|]. intros (a & b & ->). destruct Hno. by exists (c :: a), b.
Qed.

Lemma remove_all_skip pat k s : remove_all (length k) pat (k ++ s) = remove_all 0 pat s.
Proof. by induction k. Qed.

Lemma remove_all_prefix pat s :
  pat ≠ [] → ¬ occurs pat s → remove_all 0 pat (pat ++ s) = s.
Proof.
  destruct pat as [|c pat]; [done|]. intros _ Hno. simpl.
  replace (starts_with (c :: pat) (c :: pat ++ s)) with true.
  2:{ symmetry. apply starts_with_spec. by exists s. }
  rewrite Nat.sub_0_r, remove_all_skip.
  by apply remove_all_none.
Qed.

Definition stops (p : ascii → bool) (s : text) : Prop :=
  match s with c :: _ => p c = false | [] => True end.

Lemma trim_start_matches_app p a s :
  Forall (λ c, p c = true) a → stops p s → trim_start_matches p (a ++ s) = s.
Proof.
  intros Ha Hs. induction Ha as [|c a Hc Ha IH]; simpl.
  - destruct s; [done|]. simpl. by rewrite Hs.
  - by rewrite Hc.
Qed.
Lemma trim_start_matches_none p s : stops p s → trim_start_matches p s = s.
Proof. intros. by apply (trim_start_matches_app p []). Qed.

Lemma trim_end_matches_app p s a :
  Forall (λ c, p c = true) a → stops p (reverse s) → trim_end_matches p (s ++ a) = s.
Proof.
  intros Ha Hs. unfold trim_end_matches.
  rewrite reverse_app, trim_start_matches_app, reverse_involutive; auto.
  by apply Forall_reverse.
Qed.
Lemma trim_end_matches_none p s : stops p (reverse s) → trim_end_matches p s = s.
Proof. intros. rewrite <-(app_nil_r s) at 1. by apply trim_end_matches_app. Qed.

Lemma trim_padded a s b :
  Forall (λ c, is_whitespace c = true) a → Forall (λ c, is_whitespace c = true) b →
  s ≠ [] → stops is_whitespace s → stops is_whitespace (reverse s) → trim (a ++ s ++ b) = s.
Proof.
  intros Ha Hb Hne Hs Hr. unfold trim. rewrite trim_start_matches_app; auto.
  - by apply trim_end_matches_app.
  - by destruct s.
Qed.

(** ** Splitting at the commas outside quotes *)

(** The parts of [split_header] before they are cleaned; [cur] is the part
    read so far. *)
Fixpoint raw_parts (s cur : text) (in_single in_double : bool) : list text :=
  match s with
  | [] => [cur]
  | c :: s =>
      let in_single' := if is_char squote c then negb in_single else in_single in
      let in_double' := if is_char dquote c then negb in_double else in_double in
      if is_char comma c && negb in_single && negb in_double
      then cur :: raw_parts s [c] in_single' in_double'
      else raw_parts s (cur ++ [c]) in_single' in_double'
  end.

Lemma split_loop_raw header rest pre cur i parts sq dq n :
  header = pre ++ cur ++ rest → length pre = n → i = (n + length cur)%nat → rest ≠ [] →
  split_loop header rest i parts sq dq n
  = parts ++ (clean_part <$> raw_parts rest cur sq dq).
Proof.
  intros Hh Hl Hi Hne. revert pre cur i parts sq dq n Hh Hl Hi.
  induction rest as [|c rest IH]; [done|]. clear Hne.
  intros pre cur i parts sq dq n Hh <- ->. subst header.
  set (header := pre ++ cur ++ c :: rest).
  assert (Hcur : slice (length pre) (length pre + length cur) header = cur).
  { unfold slice, header. rewrite drop_app_length.
    by replace (length pre + length cur - length pre)%nat with (length cur) by lia;
       rewrite take_app_length. }
  assert (Htail : drop (length pre) header = cur ++ c :: rest)
    by (unfold header; by rewrite drop_app_length).
  assert (Hsplit : drop (length pre + length cur) header = c :: rest).
  { unfold header. rewrite app_assoc, <-length_app. apply drop_app_length. }
  cbn [split_loop raw_parts].
  destruct (is_char comma c && negb sq && negb dq) eqn:Ec.
  - rewrite Hcur, Hsplit. destruct rest as [|c' rest].
    { simpl. by rewrite <-app_assoc. }
    rewrite (IH ltac:(done) (pre ++ cur) [c]); [by rewrite fmap_cons, <-app_assoc|..].
    + unfold header. by rewrite <-!app_assoc.
    + by rewrite length_app.
    + simpl. lia.
  - rewrite Htail. destruct rest as [|c' rest]; [done|].
    apply (IH ltac:(done) pre (cur ++ [c])); [|done|].
    + unfold header. by rewrite <-!app_assoc.
    + rewrite length_app. simpl. lia.
Qed.

(** A piece of text without a comma outside quotes that closes its quotes. *)
Fixpoint quotes_after (s : text) (in_single in_double : bool) : option (bool * bool) :=
  match s with
  | [] => Some (in_single, in_double)
  | c :: s =>
      if is_char comma c && negb in_single && negb in_double then None
      else quotes_after s (if is_char squote c then negb in_single else in_single)
                          (if is_char dquote c then negb in_double else in_double)
  end.
Definition closed (s : text) : Prop := quotes_after s false false = Some (false, false).

Lemma raw_parts_app p s cur sq dq sq' dq' :
  quotes_after p sq dq = Some (sq', dq') →
  raw_parts (p ++ s) cur sq dq = raw_parts s (cur ++ p) sq' dq'.
Proof.
  revert cur sq dq. induction p as [|c p IH]; intros cur sq dq; simpl.
  { intros [= -> ->]. by rewrite app_nil_r. }
  destruct (_ && _); [done|]. intros Hp. rewrite (IH _ _ _ Hp), <-app_assoc. done.
Qed.

Lemma quotes_after_app p s sq dq sq' dq' :
  quotes_after p sq dq = Some (sq', dq') →
  quotes_after (p ++ s) sq dq = quotes_after s sq' dq'.
Proof.
  revert sq dq. induction p as [|c p IH]; intros sq dq; simpl; [by intros [= -> ->]|].
  destruct (_ && _); [done|]. apply IH.
Qed.

Fixpoint join_commas (parts : list text) : text :=
  match parts with
  | [] => []
  | [p] => p
  | p :: parts => p ++ comma :: join_commas parts
  end.

(** A last part may leave a quote open. *)
Definition readable (p : text) : Prop := is_Some (quotes_after p false false).
Lemma closed_readable p : closed p → readable p.
Proof. unfold closed, readable. by intros ->. Qed.

Lemma raw_parts_join parts p cur :
  Forall closed parts → readable p →
  raw_parts (join_commas (parts ++ [p])) cur false false
  = match parts with
    | [] => [cur ++ p]
    | q :: parts => (cur ++ q) :: ((comma ::.) <$> parts ++ [p])
    end.
Proof.
  intros Hall [[sq dq] Hp]. revert cur. induction Hall as [|q parts Hq Hall IH]; intros cur.
  { simpl. rewrite <-(app_nil_r p) at 1. by erewrite raw_parts_app by done. }
  replace (join_commas ((q :: parts) ++ [p])) with (q ++ comma :: join_commas (parts ++ [p]))
    by (by destruct parts).
  erewrite raw_parts_app by done. cbn [raw_parts].
  change (is_char comma comma && negb false && negb false) with true. cbv match.
  f_equal. change (is_char squote comma) with false. change (is_char dquote comma) with false.
  cbv match. rewrite IH. by destruct parts.
Qed.

Lemma readable_clean p : readable p → clean_part p = trim p ∧ clean_part (comma :: p) = trim p.
Proof.
  intros [? Hp]. assert (stops (is_char comma) p).
  { destruct p as [|c p]; [done|]. simpl in *. by destruct (is_char comma c). }
  unfold clean_part. split; [by rewrite trim_start_matches_none|].
  change (comma :: p) with ([comma] ++ p).
  rewrite trim_start_matches_app; [done| |done]. by repeat constructor.
Qed.

(** [split_header] undoes joining by commas, also for parts with commas
    inside their quotes. *)
Lemma split_header_join parts p :
  Forall closed parts → readable p → p ≠ [] →
  split_header (join_commas (parts ++ [p])) = trim <$> parts ++ [p].
Proof.
  intros Hall Hp Hne. unfold split_header. rewrite (split_loop_raw _ _ [] []); try done.
  2:{ destruct parts as [|q [|]]; [done|..]; by destruct q. }
  simpl. rewrite raw_parts_join by done. destruct Hall as [|q parts Hc Hall]; simpl.
  { f_equal. by apply readable_clean. }
  f_equal; [by apply readable_clean, closed_readable|].
  rewrite <-list_fmap_compose. apply list_fmap_ext. intros i r Hr. simpl.
  apply readable_clean. apply list_elem_of_lookup_2 in Hr.
  apply elem_of_app in Hr as [Hr|Hr%list_elem_of_singleton]; [|by subst].
  eapply closed_readable, Forall_forall; [|exact Hr]. done.
Qed.

(** ** Fields [name="value"] *)

Definition no_quotes (v : text) : Prop := Forall (λ c, c ≠ dquote ∧ c ≠ squote) v.
Definition quoted (v : text) : text := [dquote] ++ v ++ [dquote].
Definition field (name v : text) : text := name ++ txt "=" ++ v.

Lemma quotes_after_inside v sq dq :
  no_quotes v → sq || dq = true → quotes_after v sq dq = Some (sq, dq).
Proof.
  intros Hv Hq. induction Hv as [|c v [Hd Hs] Hv IH]; [done|]. cbn [quotes_after].
  rewrite <-andb_assoc, <-negb_orb, Hq, andb_false_r. unfold is_char.
  by rewrite !bool_decide_false by congruence.
Qed.
Lemma quotes_skip v s sq dq :
  no_quotes v → sq || dq = true → quotes_after (v ++ s) sq dq = quotes_after s sq dq.
Proof. intros. by apply quotes_after_app, quotes_after_inside. Qed.

Lemma closed_quoted name v :
  quotes_after (name ++ txt "=" ++ [dquote]) false false = Some (false, true) →
  no_quotes v → closed (field name (quoted v)).
Proof.
  intros Hn Hv. unfold closed, field, quoted. rewrite !app_assoc, <-app_assoc, <-(app_assoc name).
  rewrite (quotes_after_app _ _ _ _ _ _ Hn).
  by rewrite (quotes_skip v).
Qed.

Lemma trim_quoted ws name v :
  Forall (λ c, is_whitespace c = true) ws → name ≠ [] → stops is_whitespace name →
  trim (ws ++ field name (quoted v)) = field name (quoted v).
Proof.
  intros Hws Hne Hc. rewrite <-(app_nil_r (field _ _)) at 1.
  apply trim_padded; try done; destruct name; try done.
  unfold field, quoted. by rewrite !reverse_app.
Qed.

Lemma occurs_quoted pat v :
  pat ≠ [] → dquote ∉ pat → occurs pat (quoted v) → occurs pat v.
Proof.
  intros Hne Hd (a & b & E). destruct a as [|x a].
  { destruct pat as [|y pat]; [done|]. injection E as <- _. destruct Hd. by left. }
  injection E as _ E. destruct b as [|y b _] using rev_ind.
  - destruct pat as [|z pat _] using rev_ind; [done|].
    rewrite app_nil_r, app_assoc in E. apply app_inj_tail in E as [_ <-].
    destruct Hd. apply elem_of_app. right. by left.
  - rewrite !app_assoc in E. apply app_inj_tail in E as [-> _].
    exists a, b. by rewrite app_assoc.
Qed.

Lemma unquote v :
  no_quotes v →
  trim_end_matches (is_char dquote) (trim_start_matches (is_char dquote) (quoted v)) = v.
Proof.
  intros Hv. assert (Hs : ∀ w, no_quotes w → stops (is_char dquote) w).
  { intros w [|c w' [Hd _] _]; [done|]. unfold stops, is_char. by rewrite bool_decide_false. }
  destruct v as [|c v].
  { done. }
  unfold quoted. rewrite trim_start_matches_app.
  - apply trim_end_matches_app; [by repeat constructor|]. apply Hs.
    unfold no_quotes. by apply Forall_reverse.
  - by repeat constructor.
  - by apply (Hs (c :: v)).
Qed.

Lemma find_quoted name v parts :
  ¬ occurs (name ++ txt "=") v → dquote ∉ name → no_quotes v →
  find_string_value (field name (quoted v) :: parts) name = Some v.
Proof.
  intros Ho Hd Hv. cbn [find_string_value].
  replace (starts_with name _) with true.
  2:{ symmetry. apply starts_with_spec. by eexists. }
  unfold field. rewrite app_assoc, remove_all_prefix; [by rewrite unquote| |].
  - by destruct name.
  - intros H. apply Ho. apply occurs_quoted; [by destruct name| |done].
    rewrite elem_of_app. intros [?|Hx]; [done|]. apply list_elem_of_singleton in Hx. done.
Qed.

Lemma find_other name p parts :
  starts_with name p = false → find_string_value (p :: parts) name = find_string_value parts name.
Proof. intros H. cbn [find_string_value]. by rewrite H. Qed.

(** ** The challenge a daemon sends *)

Definition stale : text := txt "stale=false".
(** [ws] is what the daemon puts after its commas. *)
Definition challenge_parts (ws : text) (al : Algorithm) (r n : text) (o : option text) :
    list text :=
  [field (txt "qop") (quoted (txt "auth"));
   ws ++ field (txt "algorithm") (Algorithm_display al);
   ws ++ field (txt "realm") (quoted r);
   ws ++ field (txt "nonce") (quoted n);
   ws ++ stale]
  ++ match o with Some o => [ws ++ field (txt "opaque") (quoted o)] | None => [] end.
Definition challenge (ws : text) (al : Algorithm) (r n : text) (o : option text) : text :=
  join_commas (challenge_parts ws al r n o).

(** A value that the parser can find again under its name. *)
Definition clean_value (name v : text) : Prop := no_quotes v ∧ ¬ occurs (name ++ txt "=") v.
Definition whitespace (ws : text) : Prop := Forall (λ c, is_whitespace c = true) ws.

Lemma closed_ws ws p : whitespace ws → closed p → closed (ws ++ p).
Proof.
  intros Hws Hp. unfold closed in *. rewrite (quotes_after_app _ _ _ _ false false); [done|].
  induction Hws as [|c ws Hc Hws IH]; [done|]. cbn [quotes_after].
  unfold is_char. rewrite !bool_decide_false; [exact IH|..]; intros ->; done.
Qed.
Lemma whitespace_no_quotes ws : whitespace ws → no_quotes ws.
Proof. intros H. eapply Forall_impl; [exact H|]. intros c Hc. split; intros ->; done. Qed.

Lemma trim_ws ws s :
  whitespace ws → s ≠ [] → stops is_whitespace s → stops is_whitespace (reverse s) →
  trim (ws ++ s) = s.
Proof. intros. rewrite <-(app_nil_r s) at 1. by apply trim_padded. Qed.

Lemma closed_challenge ws al r n o :
  whitespace ws → no_quotes r → no_quotes n → (∀ v, o = Some v → no_quotes v) →
  Forall closed (challenge_parts ws al r n o).
Proof.
  intros Hws Hr Hn Ho. unfold challenge_parts. rewrite Forall_app. split.
  - repeat constructor; try (apply closed_ws; [done|]); try (by apply closed_quoted); try done.
    by destruct al.
  - destruct o as [v|]; [|done]. repeat constructor. apply closed_ws; [done|].
    apply closed_quoted; [done|]. by apply Ho.
Qed.

Lemma split_challenge ws al r n o :
  whitespace ws → no_quotes r → no_quotes n → (∀ v, o = Some v → no_quotes v) →
  split_header (challenge ws al r n o) = challenge_parts [] al r n o.
Proof.
  intros Hws Hr Hn Ho. pose proof (closed_challenge ws al r n o Hws Hr Hn Ho) as Hall.
  unfold challenge. assert (∃ parts p, challenge_parts ws al r n o = parts ++ [p] ∧ p ≠ [])
    as (parts & p & E & Hp).
  { unfold challenge_parts. destruct o; [eexists _, _; split; [reflexivity|by destruct ws]|].
    eexists [_; _; _; _], _. split; [reflexivity|by destruct ws]. }
  rewrite E in *. apply Forall_app in Hall as [Hall [Hlast _]%Forall_cons].
  rewrite split_header_join; [|done|by apply closed_readable|done]. rewrite <-E. clear Hall Hlast E Hp.
  unfold challenge_parts. rewrite fmap_app. f_equal.
  - cbn [fmap list_fmap]. rewrite !(trim_quoted ws) by done.
    rewrite !(trim_ws ws) by (done || by destruct al). done.
  - destruct o; [|done]. cbn [fmap list_fmap]. by rewrite (trim_quoted ws).
Qed.

Lemma find_in_challenge al r n o :
  clean_value (txt "realm") r → clean_value (txt "nonce") n →
  (∀ v, o = Some v → clean_value (txt "opaque") v) →
  let parts := challenge_parts [] al r n o in
  find_string_value parts (txt "qop") = Some (txt "auth") ∧
  find_string_value parts (txt "algorithm") = Some (Algorithm_display al) ∧
  find_string_value parts (txt "realm") = Some r ∧
  find_string_value parts (txt "nonce") = Some n ∧
  find_string_value parts (txt "opaque") = o.
Proof.
  intros [Hr Hr'] [Hn Hn'] Ho. cbv zeta. unfold challenge_parts. cbn [app].
  split; [done|]. split; [by destruct al|].
  assert (∀ s, bool_decide (dquote ∉ txt s) = true → dquote ∉ txt s) as Hd
    by (by intros s ?%bool_decide_eq_true).
  split; [|split].
  - rewrite !find_other by (by destruct al). apply find_quoted; auto.
  - rewrite !find_other by (by destruct al). apply find_quoted; auto.
  - rewrite !find_other by (by destruct al). destruct o as [v|]; [|done].
    destruct (Ho v eq_refl). apply find_quoted; auto.
Qed.

(** C23: the parser understands what a daemon sends: for every realm, nonce
    and opaque value without quotes (commas and spaces are fine), both
    algorithms, and any white space after the commas, [parse_header] gives the
    parameters of the challenge. *)
Theorem parse_header_challenge ws al r n o :
  whitespace ws → clean_value (txt "realm") r → clean_value (txt "nonce") n →
  (∀ v, o = Some v → clean_value (txt "opaque") v) →
  parse_header (challenge ws al r n o) = Ok (mk_AuthParams r [Auth] al n o).
Proof.
  intros Hws Hr Hn Ho. unfold parse_header.
  rewrite split_challenge; [|done|apply Hr|apply Hn|apply Ho].
  destruct (find_in_challenge al r n o) as (-> & -> & -> & -> & ->); [done..|].
  by destruct al.
Qed.

Lemma not_occurs pat s :
  bool_decide (Exists (λ k, pat `prefix_of` k) ((λ i, drop i s) <$> seq 0 (S (length s)))) = false →
  ¬ occurs pat s.
Proof.
  intros H%bool_decide_eq_false (a & b & ->). apply H, Exists_exists.
  exists (pat ++ b). split; [|by exists b]. apply list_elem_of_fmap.
  exists (length a). rewrite drop_app_length. split; [done|].
  apply elem_of_seq. rewrite !length_app. lia.
Qed.

Definition demo_nonce : text := txt "kVmRYw+lSQ80tTK3zj6/aA==".
Lemma parse_header_challenge_witness :
  parse_header (challenge (txt " ") Md5Sess (txt "monero, rpc") demo_nonce None)
  = Ok (mk_AuthParams (txt "monero, rpc") [Auth] Md5Sess demo_nonce None).
Proof.
  apply parse_header_challenge; try done.
  - by repeat constructor.
  - split; [|by apply not_occurs]. by repeat constructor.
  - split; [|by apply not_occurs]. by repeat constructor.
Defined.

(** ** What the parser refuses *)

(** An apostrophe inside a quoted realm opens a quote of its own. *)
Lemma split_apostrophe ws al a b n :
  whitespace ws → no_quotes a → no_quotes b → no_quotes n →
  ∃ rest,
    split_header (challenge ws al (a ++ squote :: b) n None)
    = [field (txt "qop") (quoted (txt "auth")); field (txt "algorithm") (Algorithm_display al);
       txt "realm" ++ rest].
Proof.
  intros Hws Ha Hb Hn. pose proof (whitespace_no_quotes ws Hws) as Hws'.
  set (last := txt "realm=" ++ [dquote] ++ a ++ [squote] ++ b ++ [dquote]
         ++ ([comma] ++ ws ++ txt "nonce=") ++ [dquote] ++ n ++ [dquote]
         ++ [comma] ++ ws ++ stale).
  assert (Hlast : quotes_after last false false = Some (true, false)).
  { unfold last. change (quotes_after (a ++ [squote] ++ b ++ [dquote]
      ++ ([comma] ++ ws ++ txt "nonce=") ++ [dquote] ++ n ++ [dquote]
      ++ [comma] ++ ws ++ stale) false true = Some (true, false)).
    rewrite (quotes_skip a) by done. simpl. rewrite (quotes_skip b) by done. simpl.
    rewrite <-app_assoc, (quotes_skip ws) by done. simpl.
    rewrite (quotes_skip n) by done. simpl. by rewrite (quotes_skip ws). }
  exists (drop 5 last). change (txt "realm" ++ drop 5 last) with last.
  replace (challenge ws al (a ++ squote :: b) n None) with (join_commas
    ([field (txt "qop") (quoted (txt "auth")); ws ++ field (txt "algorithm") (Algorithm_display al)]
     ++ [ws ++ last])).
  2:{ unfold challenge, challenge_parts, last, field, quoted. cbn [app join_commas].
      repeat (rewrite <-!app_assoc; simpl). done. }
  rewrite split_header_join.
  - change (trim (field (txt "qop") (quoted (txt "auth"))) :: trim (ws ++ field (txt "algorithm") (Algorithm_display al))
      :: [trim (ws ++ last)] =
      [field (txt "qop") (quoted (txt "auth")); field (txt "algorithm") (Algorithm_display al); last]).
    rewrite !(trim_ws ws); try done; try (by destruct al).
    unfold last. by rewrite !reverse_app.
  - repeat constructor. apply closed_ws; [done|]. by destruct al.
  - exists (true, false). rewrite (quotes_after_app _ _ _ _ false false); [done|].
    rewrite <-(app_nil_r ws). by apply closed_ws.
  - by destruct ws.
Qed.

(** A realm with an apostrophe makes a daemon's challenge unreadable: the
    parser takes the apostrophe for an opening quote although it is inside
    double quotes, does not split the rest, and reports a missing nonce. *)
Theorem parse_header_apostrophe ws al a b n :
  whitespace ws → no_quotes a → no_quotes b → no_quotes n →
  parse_header (challenge ws al (a ++ squote :: b) n None)
  = Err (InvalidHeader (txt "no nonce provided")).
Proof.
  intros Hws Ha Hb Hn. unfold parse_header.
  destruct (split_apostrophe ws al a b n) as [rest ->]; try done. by destruct al.
Qed.

Lemma parse_header_apostrophe_witness :
  parse_header (challenge [] Md5 (txt "Bob" ++ squote :: txt "s node") demo_nonce None)
  = Err (InvalidHeader (txt "no nonce provided")).
Proof. apply parse_header_apostrophe; by repeat constructor. Defined.
