(* ===== verification/DigestSession.v ===== *)
(** The authenticator: the choice between several challenges, the headers of
    RFC 2617, the nonce counts of a session, and a concrete instance of the
    external code. *)
From Stdlib Require Import Ascii.
From S2P Require Import Prelude.
From S2P Require Import Text.
From S2P Require Import DigestAuth.
From S2P Require Import DigestParser.

(** * Choosing a challenge *)

Lemma collect_ok {A B E} (f : A → outcome E B) l bs :
  collect f l = Ok bs ↔ Forall2 (λ a b, f a = Ok b) l bs.
Proof.
  revert bs. induction l as [|a l IH]; intros bs; simpl.
  { split; [intros [= <-]; constructor|by intros ->%Forall2_nil_inv_l]. }
  split.
  - destruct (f a) as [b|?| |] eqn:Eb; try done.
    destruct (collect f l) as [bs'|?| |] eqn:Ec; try done. intros [= <-].
    constructor; [done|]. by apply IH.
  - intros (b & bs' & Hb & Hbs & ->)%Forall2_cons_inv_l. rewrite Hb.
    apply IH in Hbs. by rewrite Hbs.
Qed.

Lemma collect_err {A B E} (f : A → outcome E B) l a :
  (∀ a, (∃ b, f a = Ok b) ∨ ∃ e, f a = Err e) → a ∈ l → (∃ e, f a = Err e) →
  ∃ e, collect f l = Err e.
Proof.
  intros Hf Ha [e He]. induction l as [|a' l IH]; [by apply not_elem_of_nil in Ha|]. simpl.
  destruct (Hf a') as [[b Hb]|[e' He']]; [rewrite Hb|rewrite He'; eauto].
  apply elem_of_cons in Ha as [->|Ha]; [congruence|].
  destruct (IH Ha) as [e' ->]. eauto.
Qed.

Lemma parse_header_returns s : (∃ p, parse_header s = Ok p) ∨ ∃ e, parse_header s = Err e.
Proof.
  assert (∀ l, (∃ b, collect parse_qop l = Ok b) ∨ ∃ e, collect parse_qop l = Err e) as Hq.
  { induction l as [|a l IH]; simpl; [eauto|]. unfold parse_qop at 1 3.
    case_decide; [|eauto]. destruct IH as [[? ->]|[? ->]]; eauto. }
  unfold parse_header. destruct (Hq (split_on comma (default []
    (find_string_value (split_header s) (txt "qop"))))) as [[? ->]|[? ->]]; [|eauto].
  unfold parse_algorithm. repeat case_decide; eauto;
    destruct (find_string_value (split_header s) (txt "nonce")); eauto.
Qed.

Lemma split_on_cons sep s : split_on sep s ≠ [].
Proof. destruct s; simpl; [done|]. destruct (is_char _ _); [done|]. by destruct (split_on sep s). Qed.

Lemma qop_max_some l : l ≠ [] → qop_max l = Some Auth.
Proof.
  destruct l as [|[] l]; [done|]. intros _. unfold qop_max. simpl.
  by induction l as [|[] l IH].
Qed.

(** Every challenge that is understood can be answered. *)
Lemma parse_header_qop s p : parse_header s = Ok p → qop_max (qop p) = Some Auth.
Proof.
  unfold parse_header. destruct (collect _ _) as [l| | |] eqn:E; try done.
  apply collect_ok in E. assert (l ≠ []) as Hl.
  { intros ->. apply Forall2_nil_inv_r in E. by apply split_on_cons in E. }
  destruct (parse_algorithm _); try done. destruct (find_string_value _ (txt "nonce")); [|done].
  intros [= <-]. by apply qop_max_some.
Qed.

Lemma AuthParams_cmp_algorithm p q :
  qop_max (qop p) = Some Auth → qop_max (qop q) = Some Auth →
  AuthParams_cmp p q = Algorithm_cmp (algorithm p) (algorithm q).
Proof. unfold AuthParams_cmp. by intros -> ->. Qed.

Lemma AuthParams_cmp_total :
  (∀ x y, AuthParams_cmp y x = CompOpp (AuthParams_cmp x y)) ∧
  (∀ x y z, AuthParams_cmp x y ≠ Gt → AuthParams_cmp y z ≠ Gt → AuthParams_cmp x z ≠ Gt).
Proof.
  unfold AuthParams_cmp. split.
  - intros x y. destruct (qop_max (qop x)) as [[]|], (qop_max (qop y)) as [[]|];
      destruct (algorithm x), (algorithm y); done.
  - intros x y z. destruct (qop_max (qop x)) as [[]|], (qop_max (qop y)) as [[]|],
      (qop_max (qop z)) as [[]|]; destruct (algorithm x), (algorithm y), (algorithm z);
      simpl; congruence.
Qed.

Lemma StronglySorted_last {A} (R : A → A → Prop) l x :
  StronglySorted R l → last l = Some x → ∀ y, y ∈ l → y = x ∨ R y x.
Proof.
  induction 1 as [|a l Hs IH Ha]; [done|]. intros Hlast y Hy.
  destruct l as [|b l]; [simpl in Hlast; set_solver|].
  rewrite last_cons_cons in Hlast. apply elem_of_cons in Hy as [->|Hy]; [|by apply IH].
  right. eapply Forall_forall; [exact Ha|]. by apply last_Some_elem_of.
Qed.

Section auth_lemmas.
Context `{AuthCrates} `{SortUnstable} `{!LawfulSort}.

Definition digest_headers (headers : list HeaderValue) (texts : list text) : Prop :=
  Forall2 (λ h s, HeaderValue_to_str h = Some s) headers texts.

Lemma digest_headers_choices headers texts :
  digest_headers headers texts →
  auth_choices headers = collect parse_header (omap (strip_prefix (txt "Digest ")) texts).
Proof.
  intros Hh. unfold auth_choices.
  replace (collect header_to_str headers) with (Ok (E:=AuthError) texts); [done|].
  symmetry. apply collect_ok. eapply Forall2_impl; [exact Hh|].
  intros h s Hs. unfold header_to_str. by rewrite Hs.
Qed.

(** The greatest challenge after sorting. *)
Definition best_of (l : list AuthParams) (p : AuthParams) : Prop :=
  p ∈ l ∧ (Md5Sess ∈ algorithm <$> l → algorithm p = Md5Sess).

Lemma last_sorted_best l p :
  Forall (λ q, qop_max (qop q) = Some Auth) l →
  last (sort_unstable AuthParams_cmp l) = Some p → best_of l p.
Proof using Type*.
  intros Hq Hlast. pose proof (sort_unstable_perm AuthParams_cmp l) as Hp.
  assert (p ∈ l) as Hin by (rewrite <-Hp; by apply last_Some_elem_of). split; [done|].
  intros (q & Hal & Hin')%list_elem_of_fmap.
  destruct (StronglySorted_last _ _ _ (sort_unstable_sorted AuthParams_cmp l
    (proj1 AuthParams_cmp_total) (proj2 AuthParams_cmp_total)) Hlast q) as [->|Hle];
    [by rewrite Hp|done|].
  rewrite Forall_forall in Hq. rewrite AuthParams_cmp_algorithm, <-Hal in Hle by auto.
  by destruct (algorithm p).
Qed.

(** ** RFC 2617, section 3.2.2, for [qop=auth] *)

Definition rfc_KD (secret data : text) : text := md5_str (secret ++ txt ":" ++ data).
Definition rfc_A1 (user pass : text) (p : AuthParams) (cnonce : text) : text :=
  match algorithm p with
  | Md5 => user ++ txt ":" ++ realm p ++ txt ":" ++ pass
  | Md5Sess => md5_str (user ++ txt ":" ++ realm p ++ txt ":" ++ pass)
               ++ txt ":" ++ nonce p ++ txt ":" ++ cnonce
  end.
Definition rfc_response (user pass : text) (p : AuthParams) (method uri nc cnonce : text) : text :=
  rfc_KD (md5_str (rfc_A1 user pass p cnonce))
    (nonce p ++ txt ":" ++ nc ++ txt ":" ++ cnonce ++ txt ":" ++ txt "auth" ++ txt ":"
     ++ md5_str (method ++ txt ":" ++ uri)).

Lemma digest_response_rfc user pass p method uri nc cnonce :
  digest_response user pass p method uri Auth nc cnonce
  = rfc_response user pass p method uri nc cnonce.
Proof using Type.
  unfold digest_response, rfc_response, rfc_KD, rfc_A1, colon. by destruct (algorithm p).
Qed.

Definition request_uri (uri : Uri) : text :=
  match path_and_query uri with Some p => p | None => uri_path uri end.
(** The header for the next request, and the authenticator after it. *)
Definition rfc_header (a : AuthInfo) (p : AuthParams) (uri : Uri) (method : text) : text :=
  let cnonce := hex_encode (fill16 (auth_rng a)).1 in
  let nc := fmt_08x (counter a) in
  auth_header (username a) p (request_uri uri) Auth nc cnonce
    (rfc_response (username a) (password a) p method (request_uri uri) nc cnonce).
Definition counted (a : AuthInfo) : AuthInfo :=
  set_counter (wrap_u32 (counter a + 1)) (set_auth_rng (fill16 (auth_rng a)).2 a).
Definition header_value (s : text) : outcome AuthError HeaderValue :=
  match HeaderValue_from_str s with Some v => Ok v | None => Err HeaderConstruction end.
Definition some_value (r : outcome AuthError HeaderValue) : outcome AuthError (option HeaderValue) :=
  match r with Ok v => Ok (Some v) | Err e => Err e | Panic => Panic | Hang => Hang end.

Lemma authenticate_run a p uri method :
  last_auth_params a = Some p → qop_max (qop p) = Some Auth →
  AuthInfo_authenticate uri method a
  = (counted a, some_value (header_value (rfc_header a p uri method))).
Proof using Type.
  intros Hp Hq. unfold AuthInfo_authenticate, bind, gets, modify. rewrite Hp.
  unfold counted, rfc_header, header_value, request_uri.
  destruct (fill16 (auth_rng a)) as [bytes rng]. rewrite Hq, digest_response_rfc.
  cbn [set_auth_rng set_counter username password counter last_auth_params auth_rng fst snd id].
  by destruct (HeaderValue_from_str _).
Qed.

(** The challenges of a response, all of them understood. *)
Definition understood (texts : list text) (l : list AuthParams) : Prop :=
  Forall2 (λ c p, parse_header c = Ok p) (omap (strip_prefix (txt "Digest ")) texts) l.

Lemma authenticate_with_resp_run a headers texts l uri method :
  digest_headers headers texts → understood texts l → l ≠ [] →
  ∃ p, best_of l p ∧ qop_max (qop p) = Some Auth ∧
    let a' := set_counter 1 (set_last_auth_params (Some p) a) in
    AuthInfo_authenticate_with_resp headers uri method a
    = (counted a', header_value (rfc_header a' p uri method)).
Proof using Type*.
  intros Hh Hl Hne. unfold AuthInfo_authenticate_with_resp.
  rewrite (digest_headers_choices _ _ Hh), (proj2 (collect_ok _ _ _) Hl).
  assert (Forall (λ q, qop_max (qop q) = Some Auth) l) as Hq.
  { clear -Hl. unfold understood in Hl. induction Hl; constructor; eauto using parse_header_qop. }
  destruct (last (sort_unstable AuthParams_cmp l)) as [p|] eqn:El.
  - pose proof (last_sorted_best l p Hq El) as Hb. rewrite Forall_forall in Hq.
    assert (qop_max (qop p) = Some Auth) as Hqp by apply Hq, Hb.
    exists p. split; [done|]. split; [done|]. cbv zeta. unfold bind, lift, modify.
    rewrite El. cbv beta iota. rewrite (authenticate_run _ p) by done.
    unfold header_value. destruct (HeaderValue_from_str _); reflexivity.
  - apply last_None in El. pose proof (sort_unstable_perm AuthParams_cmp l) as Hp.
    rewrite El in Hp. apply Permutation_nil_l in Hp. by subst l.
Qed.


(** ** A session *)

(** The requests [reqs], one after the other, with the last challenge. *)
Fixpoint authenticate_all (reqs : list (Uri * text)) (a : AuthInfo) :
    AuthInfo * list (outcome AuthError (option HeaderValue)) :=
  match reqs with
  | [] => (a, [])
  | (uri, method) :: reqs =>
      let '(a, r) := AuthInfo_authenticate uri method a in
      let '(a, rs) := authenticate_all reqs a in (a, r :: rs)
  end.

End auth_lemmas.

(** ** Nonce counts *)

Definition hex_value (c : ascii) : Z :=
  match list_find (λ d, d = c) (txt "0123456789abcdef") with
  | Some (i, _) => Z.of_nat i
  | None => 0
  end.
(** What a server reads. *)
Definition read_hex (s : text) : Z := foldl (λ acc c, acc * 16 + hex_value c) 0 s.

Lemma hex_value_digit n : 0 ≤ n < 16 → hex_value (hex_digit n) = n.
Proof.
  intros Hn. assert (n ∈ (Z.of_nat <$> seq 0 16)) as Hin.
  { apply list_elem_of_fmap. exists (Z.to_nat n). rewrite elem_of_seq. lia. }
  clear Hn. revert n Hin. apply Forall_forall. by repeat constructor.
Qed.

Lemma read_hex_digits k n : 0 ≤ n < 16 ^ Z.of_nat k → read_hex (hex_digits k n) = n.
Proof.
  revert n. induction k as [|k IH]; intros n Hn.
  { simpl in *. unfold read_hex. simpl. lia. }
  cbn [hex_digits]. unfold read_hex. rewrite foldl_app. simpl. fold (read_hex (hex_digits k (n / 16))).
  rewrite Nat2Z.inj_succ, Z.pow_succ_r in Hn by lia. rewrite IH.
  - rewrite hex_value_digit by (apply Z.mod_pos_bound; lia). pose proof (Z.div_mod n 16). lia.
  - split; [apply Z.div_pos; lia|apply Z.div_lt_upper_bound; lia].
Qed.

Lemma read_fmt_08x n : in_u32 n → read_hex (fmt_08x n) = n.
Proof. intros [? Hn]. apply read_hex_digits. unfold u32_max in Hn. simpl. lia. Qed.

Section session.
Context `{AuthCrates}.

Lemma counted_counter i a :
  0 ≤ counter a ≤ u32_max →
  counter (Nat.iter i counted a) = wrap_u32 (counter a + Z.of_nat i).
Proof.
  intros Hc. unfold wrap_u32, u32_max in *. induction i as [|i IH].
  { simpl. rewrite Z.mod_small; lia. }
  rewrite Nat.iter_succ. unfold counted at 1. cbn [set_counter counter]. rewrite IH.
  unfold wrap_u32. rewrite Zplus_mod_idemp_l. f_equal. lia.
Qed.

(** After a challenge, the requests of a session carry the headers of
    RFC 2617 with the nonce counts that follow: a server that reads them sees
    [counter a], [counter a + 1] and so on, each only once, for the first
    2^32 - [counter a] requests; then the count starts again at 0 with the same
    nonce. *)
Theorem authenticate_session a p reqs i uri method :
  last_auth_params a = Some p → qop_max (qop p) = Some Auth → in_u32 (counter a) →
  reqs !! i = Some (uri, method) →
  let ai := Nat.iter i counted a in
  (authenticate_all reqs a).2 !! i = Some (some_value (header_value (rfc_header ai p uri method))) ∧
  read_hex (fmt_08x (counter ai)) = counter ai ∧
  (counter a + Z.of_nat i < 2 ^ 32 → counter ai = counter a + Z.of_nat i) ∧
  (counter a + Z.of_nat i = 2 ^ 32 → counter ai = 0).
Proof.
  intros Hp Hq Hc Hi ai.
  assert (Hai : counter ai = wrap_u32 (counter a + Z.of_nat i)) by by apply counted_counter.
  split; [|split].
  - subst ai. clear Hc Hai. revert a reqs Hp Hi.
    induction i as [|i IH]; intros a [|[u m] reqs] Hp Hi; try done; cbn [authenticate_all].
    + injection Hi as -> ->. rewrite (authenticate_run _ p) by done.
      by destruct (authenticate_all reqs (counted a)).
    + rewrite (authenticate_run _ p) by done.
      specialize (IH (counted a) reqs Hp Hi). rewrite Nat.iter_succ_r.
      by destruct (authenticate_all reqs (counted a)).
  - apply read_fmt_08x. rewrite Hai. unfold in_u32, u32_max, wrap_u32.
    pose proof (Z.mod_pos_bound (counter a + Z.of_nat i) (2 ^ 32)). lia.
  - rewrite Hai. unfold wrap_u32. destruct Hc. split; intros Hlt.
    + apply Z.mod_small. lia.
    + by rewrite Hlt, Z.mod_same.
Qed.

End session.

(** ** A concrete instance *)

#[export] Instance demo_auth_crates : AuthCrates := {|
  md5_digest := λ s, String.list_byte_of_string (String.string_of_list_ascii s);
  hex_encode := λ l, mjoin ((λ b,
    let n := Z.of_N (Byte.to_N b) in [hex_digit (n / 16); hex_digit (n mod 16)]) <$> l);
  HeaderValue := text;
  HeaderValue_from_str := Some;
  HeaderValue_to_str := Some;
  Uri := text;
  path_and_query := λ _, None;
  uri_path := id;
  ChaCha12Rng := N;
  ChaCha12Rng_from_entropy := 0%N;
  ChaCha12Rng_seed_from_u64 := Z.to_N;
  fill16 := λ n, ([default Byte.x00 (Byte.of_N (n mod 256))], (n + 1)%N);
|}.

Definition not_gt {A} (cmp : A → A → comparison) (x y : A) : Prop := cmp x y ≠ Gt.
#[export] Instance not_gt_dec {A} (cmp : A → A → comparison) : RelDecision (not_gt cmp).
Proof. intros x y. unfold not_gt. destruct (cmp x y) eqn:E; [left|left|right]; congruence. Defined.
#[export] Instance demo_sort : SortUnstable := {|
  sort_unstable := λ A cmp, merge_sort (not_gt cmp);
|}.
#[export] Instance demo_lawful_sort : LawfulSort.
Proof.
  split; intros A cmp l.
  - apply merge_sort_Permutation.
  - intros Hopp Htrans.
    assert (Transitive (not_gt cmp)) by (intros x y z; apply Htrans).
    assert (Total (not_gt cmp)).
    { intros x y. unfold not_gt. rewrite (Hopp x y). by destruct (cmp x y); [left|left|right]. }
    apply (StronglySorted_merge_sort (not_gt cmp)).
Qed.

Definition demo_auth_info : AuthInfo := AuthInfo_new (txt "user") (txt "pass") (Some 1).
Definition demo_challenge (al : Algorithm) : text :=
  txt "Digest " ++ challenge [] al (txt "monero-rpc") demo_nonce None.
Definition demo_params (al : Algorithm) : AuthParams :=
  mk_AuthParams (txt "monero-rpc") [Auth] al demo_nonce None.
Definition demo_session : AuthInfo := set_last_auth_params (Some (demo_params Md5)) demo_auth_info.

Lemma authenticate_session_witness :
  counter (Nat.iter 2 counted demo_session) = 3 ∧
  (authenticate_all (replicate 4 (txt "/json_rpc", txt "POST")) demo_session).2 !! 2%nat
  = Some (some_value (header_value
      (rfc_header (Nat.iter 2 counted demo_session) (demo_params Md5) (txt "/json_rpc") (txt "POST")))).
Proof.
  assert (in_u32 (counter demo_session)) as Hc by done.
  destruct (authenticate_session demo_session (demo_params Md5)
    (replicate 4 (txt "/json_rpc", txt "POST")) 2 (txt "/json_rpc") (txt "POST")
    eq_refl eq_refl Hc eq_refl) as (Hh & _ & Hn & _).
  split; [by apply Hn|exact Hh].
Defined.

(** A challenge with an algorithm that the client does not know. *)
Definition demo_sha256 : text :=
  txt "Digest " ++ join_commas [field (txt "algorithm") (txt "SHA-256");
    field (txt "nonce") (quoted demo_nonce)].

