(* ===== verification/Crates.v ===== *)
(** The crates [md5], [hex] and [rand_chacha] on concrete inputs: the digest of
    RFC 1321, and the ChaCha12 generator with the seeding and the ranges of
    [rand].  With them the tests of the repository run on the values that
    they expect. *)
From Stdlib Require Import Ascii.
From S2P Require Import Prelude.
From S2P Require Import Text.
From S2P Require Import DigestAuth.
From S2P Require Import SubaddressCache.

(** ** Words of 32 bits *)

Definition w32 (x : Z) : Z := x mod 2 ^ 32.
Definition rotate_left (x n : Z) : Z := w32 (Z.lor (Z.shiftl x n) (Z.shiftr x (32 - n))).
Definition not32 (x : Z) : Z := u32_max - x.

(** Little-endian words of a list of bytes. *)
Fixpoint le_words (fuel : nat) (bs : list Z) : list Z :=
  match fuel, bs with
  | S fuel, b0 :: b1 :: b2 :: b3 :: bs => b0 + 256 * b1 + 65536 * b2 + 16777216 * b3 :: le_words fuel bs
  | _, _ => []
  end.

(** ** MD5 *)

Definition md5_k : list Z :=
  [0xd76aa478; 0xe8c7b756; 0x242070db; 0xc1bdceee; 0xf57c0faf; 0x4787c62a;
   0xa8304613; 0xfd469501; 0x698098d8; 0x8b44f7af; 0xffff5bb1; 0x895cd7be;
   0x6b901122; 0xfd987193; 0xa679438e; 0x49b40821; 0xf61e2562; 0xc040b340;
   0x265e5a51; 0xe9b6c7aa; 0xd62f105d; 0x02441453; 0xd8a1e681; 0xe7d3fbc8;
   0x21e1cde6; 0xc33707d6; 0xf4d50d87; 0x455a14ed; 0xa9e3e905; 0xfcefa3f8;
   0x676f02d9; 0x8d2a4c8a; 0xfffa3942; 0x8771f681; 0x6d9d6122; 0xfde5380c;
   0xa4beea44; 0x4bdecfa9; 0xf6bb4b60; 0xbebfbc70; 0x289b7ec6; 0xeaa127fa;
   0xd4ef3085; 0x04881d05; 0xd9d4d039; 0xe6db99e5; 0x1fa27cf8; 0xc4ac5665;
   0xf4292244; 0x432aff97; 0xab9423a7; 0xfc93a039; 0x655b59c3; 0x8f0ccc92;
   0xffeff47d; 0x85845dd1; 0x6fa87e4f; 0xfe2ce6e0; 0xa3014314; 0x4e0811a1;
   0xf7537e82; 0xbd3af235; 0x2ad7d2bb; 0xeb86d391].
Definition md5_shifts : list Z :=
  mjoin (replicate 4 [7; 12; 17; 22]) ++ mjoin (replicate 4 [5; 9; 14; 20])
  ++ mjoin (replicate 4 [4; 11; 16; 23]) ++ mjoin (replicate 4 [6; 10; 15; 21]).

Notation md5_state := (Z * Z * Z * Z)%type.
Definition md5_step (block : list Z) (st : md5_state) (i : nat) : md5_state :=
  let '(a, b, c, d) := st in
  let '(f, g) :=
    (match i / 16 with
     | 0 => (Z.lor (Z.land b c) (Z.land (not32 b) d), i)
     | 1 => (Z.lor (Z.land d b) (Z.land (not32 d) c), (5 * i + 1) mod 16)
     | 2 => (Z.lxor b (Z.lxor c d), (3 * i + 5) mod 16)
     | _ => (Z.lxor c (Z.lor b (not32 d)), (7 * i) mod 16)
     end)%nat in
  let f := w32 (f + a + default 0 (md5_k !! i) + default 0 (block !! g)) in
  (d, w32 (b + rotate_left f (default 0 (md5_shifts !! i))), b, c).
Definition md5_block (st : md5_state) (block : list Z) : md5_state :=
  let '(a, b, c, d) := st in
  let '(a', b', c', d') := foldl (md5_step block) st (seq 0 64) in
  (w32 (a + a'), w32 (b + b'), w32 (c + c'), w32 (d + d')).

Fixpoint md5_blocks (fuel : nat) (words : list Z) (st : md5_state) : md5_state :=
  match fuel, words with
  | O, _ | _, [] => st
  | S fuel, _ => md5_blocks fuel (drop 16 words) (md5_block st (take 16 words))
  end.
(** The message, a one bit, zeros up to 56 bytes modulo 64, and its length. *)
Definition md5_padded (bs : list Z) : list Z :=
  let n := length bs in
  bs ++ [128] ++ replicate ((119 - n mod 64) mod 64) 0 ++ le_bytes 8 (8 * Z.of_nat n).
Definition md5_bytes (bs : list Z) : list Z :=
  let words := le_words (length bs + 128) (md5_padded bs) in
  let '(a, b, c, d) := md5_blocks (length words) words (0x67452301, 0xefcdab89, 0x98badcfe, 0x10325476) in
  mjoin (le_bytes 4 <$> [a; b; c; d]).

Definition byte_of_Z (z : Z) : Byte.byte := default Byte.x00 (Byte.of_N (Z.to_N z)).
Definition md5 (t : text) : list Byte.byte :=
  byte_of_Z <$> md5_bytes ((λ c, Z.of_nat (nat_of_ascii c)) <$> t).
Definition hex (l : list Byte.byte) : text :=
  mjoin ((λ b, let n := Z.of_N (Byte.to_N b) in [hex_digit (n / 16); hex_digit (n mod 16)]) <$> l).

(** The test suite of RFC 1321, in parts. *)
Example md5_empty : hex (md5 []) = txt "d41d8cd98f00b204e9800998ecf8427e".
Proof. by vm_compute. Qed.
Example md5_alphabet :
  hex (md5 (txt "abcdefghijklmnopqrstuvwxyz")) = txt "c3fcd3d76192e4007dfb496cca67e13b".
Proof. by vm_compute. Qed.
Example md5_two_blocks :
  hex (md5 (txt "12345678901234567890123456789012345678901234567890123456789012345678901234567890"))
  = txt "57edf4a22be3c955ac49da2e2107b67a".
Proof. by vm_compute. Qed.

(** ** ChaCha12 *)

Notation words := (list Z).
Definition word (s : words) (i : nat) : Z := default 0 (s !! i).
Definition quarter_round (s : words) (r : nat * nat * nat * nat) : words :=
  let '(a, b, c, d) := r in
  let half (n : Z) (x y z : nat) (s : words) : words :=
    let s := <[x := w32 (word s x + word s y)]> s in
    <[z := rotate_left (Z.lxor (word s z) (word s x)) n]> s in
  half 7 c d b (half 8 a b d (half 12 c d b (half 16 a b d s))).
Definition double_round (s : words) : words :=
  foldl quarter_round s
    [(0, 4, 8, 12); (1, 5, 9, 13); (2, 6, 10, 14); (3, 7, 11, 15);
     (0, 5, 10, 15); (1, 6, 11, 12); (2, 7, 8, 13); (3, 4, 9, 14)]%nat.
Definition chacha12_block (key : words) (counter : Z) : words :=
  let init := [0x61707865; 0x3320646e; 0x79622d32; 0x6b206574] ++ key
              ++ [counter mod 2 ^ 32; counter / 2 ^ 32; 0; 0] in
  zip_with (λ x y, w32 (x + y)) (Nat.iter 6 double_round init) init.

(** [SeedableRng::seed_from_u64]: a PCG32 generator gives the key. *)
Fixpoint seed_words (n : nat) (state : Z) : words :=
  match n with
  | O => []
  | S n =>
      let state := wrap_u64 (state * 6364136223846793005 + 11634580027462260723) in
      let xorshifted := w32 (Z.shiftr (Z.lxor (Z.shiftr state 18) state) 27) in
      rotate_left xorshifted ((32 - Z.shiftr state 59) mod 32) :: seed_words n state
  end.

(** The key and the number of words that have been taken. *)
Record ChaCha12 := mk_ChaCha12 { cc_key : words; cc_index : nat }.
Definition chacha12_seeded (seed : Z) : ChaCha12 := mk_ChaCha12 (seed_words 8 seed) 0.
Definition next_u32 (r : ChaCha12) : Z * ChaCha12 :=
  (word (chacha12_block (cc_key r) (Z.of_nat (cc_index r / 16))) (cc_index r mod 16),
   mk_ChaCha12 (cc_key r) (S (cc_index r))).
Definition next_u64 (r : ChaCha12) : Z * ChaCha12 :=
  let '(lo, r) := next_u32 r in let '(hi, r) := next_u32 r in (lo + 2 ^ 32 * hi, r).
Fixpoint next_words (n : nat) (r : ChaCha12) : words * ChaCha12 :=
  match n with
  | O => ([], r)
  | S n => let '(w, r) := next_u32 r in let '(ws, r) := next_words n r in (w :: ws, r)
  end.

(** [gen_range(0..n)] of a [usize]: widening multiplication, with rejection of
    the values that would not be uniform. *)
Fixpoint sample_below (fuel : nat) (n : Z) (r : ChaCha12) : Z * ChaCha12 :=
  let zone := Z.shiftl n (63 - Z.log2 n) - 1 in
  let '(v, r) := next_u64 r in
  match fuel with
  | O => (0, r)
  | S fuel =>
      if (v * n) mod 2 ^ 64 <=? zone then ((v * n) / 2 ^ 64, r) else sample_below fuel n r
  end.

(** ** As the crates of the library *)

Lemma w32_bound x : 0 ≤ w32 x < 2 ^ 32.
Proof. apply Z.mod_pos_bound. lia. Qed.

Lemma word_bound key counter i : 0 ≤ word (chacha12_block key counter) i < 2 ^ 32.
Proof.
  unfold word, chacha12_block. generalize (Nat.iter 6 double_round). intros f.
  destruct (zip_with _ _ _ !! i) as [x|] eqn:Ex; [|cbn [default]; lia]. cbn [default].
  apply lookup_zip_with_Some in Ex as (y & z & -> & _). apply w32_bound.
Qed.

Lemma next_u64_bound r : 0 ≤ (next_u64 r).1 < 2 ^ 64.
Proof.
  unfold next_u64, next_u32. cbn [fst snd cc_key cc_index].
  pose proof (word_bound (cc_key r) (Z.of_nat (cc_index r / 16)) (cc_index r mod 16)) as Hlo.
  pose proof (word_bound (cc_key r) (Z.of_nat (S (cc_index r) / 16)) (S (cc_index r) mod 16)) as Hhi.
  revert Hlo Hhi. generalize (word (chacha12_block (cc_key r) (Z.of_nat (cc_index r / 16))) (cc_index r mod 16)).
  generalize (word (chacha12_block (cc_key r) (Z.of_nat (S (cc_index r) / 16))) (S (cc_index r) mod 16)).
  intros hi lo. lia.
Qed.

Lemma sample_below_bound fuel n r : 0 < n → 0 ≤ (sample_below fuel n r).1 < n.
Proof.
  intros Hn. revert r. induction fuel as [|fuel IH]; intros r; cbn [sample_below];
    pose proof (next_u64_bound r) as Hv; destruct (next_u64 r) as [v r1]; cbn [fst] in *; [lia|].
  case_match; [|apply IH]. cbn [fst]. split; [apply Z.div_pos; nia|apply Z.div_lt_upper_bound; nia].
Qed.

#[export] Instance ChachaRng : RngCore := {|
  Rng := ChaCha12;
  from_entropy := chacha12_seeded 0;
  seed_from_u64 := chacha12_seeded;
  gen_range := sample_below 64;
|}.
#[export] Instance ChachaRng_lawful : LawfulRng.
Proof. split. intros n r. apply sample_below_bound. Qed.

(** A URI is its text; path and query begin at the first slash behind the
    authority. *)
Fixpoint after_authority (fuel : nat) (t : text) : option text :=
  match fuel, t with
  | O, _ | _, [] => None
  | S fuel, c :: rest => if is_char "/"%char c then Some t else after_authority fuel rest
  end.
Fixpoint after_scheme (t : text) : text :=
  match strip_prefix (txt "://") t with
  | Some rest => rest
  | None => match t with [] => [] | _ :: t => after_scheme t end
  end.
Definition uri_path_and_query (uri : text) : option text :=
  let rest := after_scheme uri in after_authority (length rest) rest.

Definition StdAuthCrates : AuthCrates := {|
  md5_digest := md5;
  hex_encode := hex;
  HeaderValue := text;
  HeaderValue_from_str := Some;
  HeaderValue_to_str := Some;
  Uri := text;
  path_and_query := uri_path_and_query;
  uri_path := λ _, txt "/";
  ChaCha12Rng := ChaCha12;
  ChaCha12Rng_from_entropy := chacha12_seeded 0;
  ChaCha12Rng_seed_from_u64 := chacha12_seeded;
  fill16 := λ r, let '(ws, r) := next_words 4 r in (byte_of_Z <$> mjoin (le_bytes 4 <$> ws), r);
|}.

(** The first index that a gateway with the seed zero draws out of a hundred,
    and the first client nonce of an authenticator with the seed one. *)
Example first_index : (sample_below 64 100 (chacha12_seeded 0)).1 = 73.
Proof. by vm_compute. Qed.
Example first_cnonce :
  hex (fill16 (AuthCrates:=StdAuthCrates) (chacha12_seeded 1)).1 = txt "611830d3641a68f94a690dcc25d1f4b0".
Proof. by vm_compute. Qed.
