(* ===== verification/AuthTests.v ===== *)
(** The unit tests of [library/src/monerod_client/authentication.rs], with the
    digests, the client nonces and the headers that they expect. *)
From Stdlib Require Import Ascii.
From S2P Require Import Prelude.
From S2P Require Import TestKit.
From S2P Require Import Text.
From S2P Require Import DigestAuth.
From S2P Require Import DigestSession.
From S2P Require Import Crates.

#[export] Instance Qop_eq_dec : EqDecision Qop.
Proof. solve_decision. Defined.
#[export] Instance AuthParams_eq_dec : EqDecision AuthParams.
Proof. solve_decision. Defined.

(** A parameter with its value in quotes. *)
Definition dq (t : string) : text := [dquote] ++ txt t ++ [dquote].

Section tests.
Context `{AuthCrates} `{SortUnstable}.

Definition test_parse_header : Test unit :=
  let header := txt "Digest qop=" ++ dq "auth" ++ txt ",algorithm=MD5-sess,realm=" ++ dq "monero-rpc"
    ++ txt ", nonce=" ++ dq "kVmRYw+lSQ80tTK3zj6/aA==" ++ txt ", stale=false" in
  let! auth_params := unwrap (lift (parse_header header)) in
  assert_eq same auth_params
    (mk_AuthParams (txt "monero-rpc") [Auth] Md5Sess (txt "kVmRYw+lSQ80tTK3zj6/aA==") None).

(** The challenge of the other tests. *)
Definition test_challenge (algorithm rest : string) : text :=
  txt "Digest qop=" ++ dq "auth" ++ txt ",algorithm=" ++ txt algorithm ++ txt ",realm=" ++ dq "monero-rpc"
  ++ txt ",nonce=" ++ dq "JmNFnqfRJdOr/vFZ2CpDQg==" ++ txt ",stale=false" ++ txt rest.
Definition expected_header (response algorithm rest : string) : text :=
  txt "Digest username=" ++ dq "test user" ++ txt ", realm=" ++ dq "monero-rpc"
  ++ txt ", nonce=" ++ dq "JmNFnqfRJdOr/vFZ2CpDQg==" ++ txt ", uri=" ++ dq "/json_rpc"
  ++ txt ", qop=auth, nc=00000001, cnonce=" ++ dq "611830d3641a68f94a690dcc25d1f4b0"
  ++ txt ", response=" ++ dq response ++ txt ", algorithm=" ++ txt algorithm ++ txt rest.

(** [authenticate_with_resp] on a response with these challenges. *)
Definition answer (challenges : list HeaderValue) (uri : Uri) : outcome AuthError HeaderValue :=
  (AuthInfo_authenticate_with_resp challenges uri (txt "POST")
     (AuthInfo_new (txt "test user") (txt "test password") (Some 1))).2.
End tests.

(** The tests that compare headers, with the header values of [Crates]. *)
Section headers.
#[local] Existing Instance StdAuthCrates.
Definition test_uri : text := txt "https://busyboredom.com:18089/json_rpc".

Definition test_md5_auth : Test unit :=
  let! authorization_header := unwrap (lift (answer [test_challenge "MD5" ""] test_uri)) in
  assert_eq (same (A:=text)) authorization_header
    (expected_header "af7810760defeed31054108ed35d400d" "MD5" "").

Definition test_md5_sess_auth : Test unit :=
  let! authorization_header :=
    unwrap (lift (answer [test_challenge "MD5" ""; test_challenge "MD5-sess" ""] test_uri)) in
  assert_eq (same (A:=text)) authorization_header
    (expected_header "b0a351e720384a0160042ff2898ab24a" "MD5-sess" "").

Definition test_auth_with_opaque : Test unit :=
  let! authorization_header :=
    unwrap (lift (answer [test_challenge "MD5" "";
                          test_challenge "MD5-sess" ",opaque=5PCCDS2k5PCCDS2k"] test_uri)) in
  assert_eq (same (A:=text)) authorization_header
    (expected_header "b0a351e720384a0160042ff2898ab24a" "MD5-sess" ", opaque=5PCCDS2k5PCCDS2k").

(** The tests pass: the header that the client makes of a challenge is, to
    the byte, the one that the tests expect, with the digests of RFC 1321 and
    the nonces of the seeded generator. *)
Theorem auth_tests_pass :
  passes test_parse_header tt = true ∧ passes test_md5_auth tt = true ∧
  passes test_md5_sess_auth tt = true ∧ passes test_auth_with_opaque tt = true.
Proof. split_and!; by vm_compute. Qed.
End headers.
