(* ===== verification/Rpc.v ===== *)
(** The RPC client of [library/src/monerod_client/mod.rs]: one HTTP request
    with digest authentication, the six calls of the trait [Client] on top of
    it, and the mock client.  HTTP, JSON, hex and the decoding of blocks and
    transactions are parameters. *)
From S2P Require Import Prelude.
From S2P Require Import Invoice.
From S2P Require Import Storage.
From S2P Require Import Monerod.
From S2P Require Import Text.
From S2P Require Import DigestAuth.

(** Maximum number of transactions to request at once. *)
Definition MAX_REQUESTED_TRANSACTIONS : nat := 100.

Notation bytes := (list Byte.byte).

Record HttpRequest `{AuthCrates} := mk_HttpRequest {
  rq_uri : Uri;
  rq_authorization : option HeaderValue;
  rq_body : text;
}.
Record HttpResponse `{AuthCrates} (Body : Type) := mk_HttpResponse {
  rs_status : Z;
  rs_www_authenticate : list HeaderValue;
  rs_body : Body;
}.
Arguments mk_HttpRequest {_}.
Arguments rq_uri {_}.
Arguments rq_authorization {_}.
Arguments rq_body {_}.
Arguments mk_HttpResponse {_ _}.
Arguments rs_status {_ _}.
Arguments rs_www_authenticate {_ _}.
Arguments rs_body {_ _}.

(** [timeout(duration, client.request(req))] fails if the time elapses or if
    the request does. *)
Inductive SendError := Elapsed | RequestFailed.

(** What the client uses of [hyper], [serde_json], [hex] and [monero]; [Net]
    is the network. *)
Class RpcCrates `{Monero} `{AuthCrates} (Net : Type) := {
  Uri_to_string : Uri → text;
  Uri_from_string : text → option Uri;         (* what [builder().uri(..)] accepts *)
  Incoming : Type;                             (* a body that is still to be read *)
  http_send : Z → HttpRequest → M Net SendError (HttpResponse Incoming);
  collect_body : Incoming → M Net unit bytes;  (* body.collect().await *)
  json : Type;
  from_slice : bytes → option json;
  json_index : json → text → json;             (* json[key], Null if there is none *)
  json_as_str : json → option text;
  json_as_array : json → option (list json);
  json_as_u64 : json → option Z;
  json_strings : list text → text;             (* json!(strings).to_string() *)
  hex_decode : text → option bytes;
  Hash_from_slice : bytes → option Hash;       (* panics unless there are 32 bytes *)
  Hash_as_bytes : Hash → bytes;
  deserialize_block : bytes → option mblock;
  deserialize_transaction : bytes → option transaction;
  deserialize_hash : bytes → option Hash;
}.

Definition UNAUTHORIZED : Z := 401.
Definition POST : text := txt "POST".

Section rpc.
Context `{!Monero} `{!AuthCrates} {Net : Type} `{!RpcCrates Net} `{!SortUnstable}.

Inductive RpcError :=
  | Request
  | InvalidRequest
  | Timeout
  | HexDecode
  | Serialization
  | MissingData (what : text)
  | DataType (found : json) (expected : text)
  | InvalidJson
  | RpcAuth (e : AuthError).

Record RpcClient := mk_RpcClient {
  rc_url : Uri;
  rc_timeout : Z;
  rc_auth_info : option AuthInfo;   (* shared by the clones of a client *)
}.
(** The client and the network. *)
Record Rpc := mk_Rpc { rpc_client : RpcClient; rpc_net : Net }.
Definition set_auth_info (a : option AuthInfo) (r : Rpc) : Rpc :=
  mk_Rpc (mk_RpcClient (rc_url (rpc_client r)) (rc_timeout (rpc_client r)) a) (rpc_net r).
Definition set_net (n : Net) (r : Rpc) : Rpc := mk_Rpc (rpc_client r) n.

Definition RpcClient_new (url : Uri) (total_timeout : Z) (username password : option text)
    (seed : option Z) : RpcClient :=
  let auth_info :=
    if bool_decide (is_Some username) || bool_decide (is_Some password)
    then Some (AuthInfo_new (default [] username) (default [] password) seed)
    else None in
  mk_RpcClient url total_timeout auth_info.

(** Use the authenticator, if there is one. *)
Definition with_auth {A} (f : M AuthInfo AuthError A) (a : AuthInfo) : M Rpc RpcError A :=
  zoom (λ _, a) (λ a, set_auth_info (Some a)) (map_err RpcAuth f).

Definition build_uri (url : Uri) (endpoint : text) : M Rpc RpcError Uri :=
  match Uri_from_string (Uri_to_string url ++ endpoint) with
  | Some uri => ret uri
  | None => throw InvalidRequest
  end.

Definition send_error (e : SendError) : RpcError :=
  match e with Elapsed => Timeout | RequestFailed => Request end.
Definition send_request (req : HttpRequest) : M Rpc RpcError (HttpResponse Incoming) :=
  let! client := gets rpc_client in
  zoom rpc_net set_net (map_err send_error (http_send (rc_timeout client) req)).

Definition is_challenge (response : HttpResponse Incoming) : bool :=
  (rs_status response =? UNAUTHORIZED) && negb (bool_decide (rs_www_authenticate response = [])).

(** The body of the loop on 401 responses; the pause at its end only takes
    time. *)
Definition authenticate_round (body endpoint : text) (uri : Uri)
    (response : HttpResponse Incoming) : M Rpc RpcError (HttpResponse Incoming) :=
  let! client := gets rpc_client in
  let! auth_header :=
    (match rc_auth_info client with
     | None => throw (RpcAuth Unauthorized)
     | Some auth_info => with_auth
         (AuthInfo_authenticate_with_resp (rs_www_authenticate response) uri POST) auth_info
     end) in
  let! uri' := build_uri (rc_url client) endpoint in
  send_request (mk_HttpRequest uri' (Some auth_header) body).

Fixpoint authenticate_loop (fuel : nat) (body endpoint : text) (uri : Uri)
    (response : HttpResponse Incoming) : M Rpc RpcError (HttpResponse Incoming) :=
  if is_challenge response then
    match fuel with
    | O => hang
    | S fuel =>
        let! response := authenticate_round body endpoint uri response in
        authenticate_loop fuel body endpoint uri response
    end
  else ret response.

(** The header for the most recent challenge, if the client has a login. *)
Definition recent_auth_header (client : RpcClient) (uri : Uri) :
    M Rpc RpcError (option HeaderValue) :=
  match rc_auth_info client with
  | Some auth_info => with_auth (AuthInfo_authenticate uri POST) auth_info
  | None => ret None
  end.

Definition RpcClient_request (fuel : nat) (body endpoint : text) : M Rpc RpcError json :=
  let! client := gets rpc_client in
  let! uri := build_uri (rc_url client) endpoint in
  let! auth_header := recent_auth_header client uri in
  let! response := send_request (mk_HttpRequest uri auth_header body) in
  let! response := authenticate_loop fuel body endpoint uri response in
  let! body := zoom rpc_net set_net (map_err (λ _, Request) (collect_body (rs_body response))) in
  match from_slice body with
  | Some value => ret value
  | None => throw InvalidJson
  end.

End rpc.
Arguments RpcError {_ _} Net {_}.
Arguments Rpc {_} Net : rename.

(** ** The calls, given a way to make requests *)

Section calls.
Context `{!Monero} `{!AuthCrates} {Net : Type} `{!RpcCrates Net}.
Context {W : Type} (request : text → text → M W (RpcError Net) json).
Notation "'call' A" := (M W (RpcError Net) A) (at level 10).

(** [ok_or(e)?] and the [?] of a decoder. *)
Definition or_throw {A} (e : RpcError Net) (o : option A) : call A :=
  match o with Some a => ret a | None => throw e end.

Definition quote_mark : text := [dquote].
Definition q (s : string) : text := quote_mark ++ txt s ++ quote_mark.

Definition hash_missing : text :=
  txt "{{ result: {{ block_header: {{ hash: " ++ q "..." ++ txt "}} }} }}".
Definition blob_missing : text := txt "{{ result: {{ blob: " ++ q "..." ++ txt " }} }}".

(** The hash and the block of a [get_block] answer. *)
Definition read_block (res : json) : call (Hash * mblock) :=
  let! block_hash_str := or_throw (MissingData hash_missing) (json_as_str
    (json_index (json_index (json_index res (txt "result")) (txt "block_header")) (txt "hash"))) in
  let! block_hash_hex := or_throw HexDecode (hex_decode block_hash_str) in
  let! block_hash := (match Hash_from_slice block_hash_hex with
                      | Some h => ret h
                      | None => panic
                      end) in
  let! block_str := or_throw (MissingData blob_missing)
    (json_as_str (json_index (json_index res (txt "result")) (txt "blob"))) in
  let! block_hex := or_throw HexDecode (hex_decode block_str) in
  let! block := or_throw Serialization (deserialize_block block_hex) in
  ret (block_hash, block).

Definition get_block_body (height : Z) : text :=
  txt "{" ++ q "jsonrpc" ++ txt ":" ++ q "2.0" ++ txt "," ++ q "id" ++ txt ":" ++ q "0" ++ txt ","
  ++ q "method" ++ txt ":" ++ q "get_block" ++ txt "," ++ q "params" ++ txt ":{" ++ q "height"
  ++ txt ":" ++ txt (pretty height) ++ txt "}}".

Definition RpcClient_block (height : Z) : call (Hash * mblock) :=
  let! res := request (get_block_body height) (txt "json_rpc") in
  read_block res.

(** A transaction in hex. *)
Definition decode_transaction (tx_str : text) : call transaction :=
  let! tx_hex := or_throw HexDecode (hex_decode tx_str) in
  or_throw Serialization (deserialize_transaction tx_hex).

Definition txpool_missing : text :=
  txt "{{ transactions: [ {{ tx_blob: " ++ q "..." ++ txt " }} ] }}".

Definition RpcClient_txpool : call (list transaction) :=
  let! res := request [] (txt "get_transaction_pool") in
  match json_as_array (json_index res (txt "transactions")) with
  | None => ret []
  | Some blobs =>
      fold_each blobs [] (λ transactions blob,
        let! tx_str := or_throw (MissingData txpool_missing)
                         (json_as_str (json_index blob (txt "tx_blob"))) in
        let! tx := decode_transaction tx_str in
        ret (transactions ++ [tx]))
  end.

Definition RpcClient_txpool_hashes : call (gset Hash) :=
  let! res := request [] (txt "get_transaction_pool_hashes") in
  match json_as_array (json_index res (txt "tx_hashes")) with
  | None => ret ∅
  | Some blobs =>
      fold_each blobs ∅ (λ transactions blob,
        let! tx_hash_str := or_throw (DataType blob (txt "&str")) (json_as_str blob) in
        let! tx_hash_hex := or_throw HexDecode (hex_decode tx_hash_str) in
        let! tx_hash := or_throw Serialization (deserialize_hash tx_hash_hex) in
        ret ({[tx_hash]} ∪ transactions))
  end.

Definition get_transactions_body (hashes : list Hash) : text :=
  txt "{" ++ q "txs_hashes" ++ txt ":"
  ++ json_strings ((λ x, hex_encode (Hash_as_bytes x)) <$> hashes) ++ txt "}".

(** The request for one part of the hashes. *)
Definition request_transactions (hashes : list Hash) (transactions : list transaction) :
    call (list transaction) :=
  let! res := request (get_transactions_body hashes) (txt "get_transactions") in
  let! hexes := or_throw (MissingData (txt "{{ txs_as_hex: [...] }}"))
                  (json_as_array (json_index res (txt "txs_as_hex"))) in
  fold_each hexes transactions (λ transactions tx_json,
    let! tx_str := or_throw (DataType tx_json (txt "&str")) (json_as_str tx_json) in
    let! tx := decode_transaction tx_str in
    ret (transactions ++ [tx])).

(** The loop over the range of part numbers, with its early return. *)
Fixpoint transactions_loop (range : list nat) (hashes : list Hash)
    (transactions : list transaction) : call (list transaction) :=
  match range with
  | [] => ret transactions
  | i :: range =>
      let starting_index := (i * MAX_REQUESTED_TRANSACTIONS)%nat in
      let ending_index := Nat.min (MAX_REQUESTED_TRANSACTIONS * (i + 1)) (length hashes) in
      if decide (ending_index = starting_index) then ret transactions
      else if decide (starting_index ≤ ending_index ≤ length hashes)%nat then
        let! transactions :=
          request_transactions (take (ending_index - starting_index) (drop starting_index hashes))
            transactions in
        transactions_loop range hashes transactions
      else panic (* slice index out of range *)
  end.
Definition RpcClient_transactions_by_hashes (hashes : list Hash) : call (list transaction) :=
  transactions_loop (seq 0 (S (length hashes / MAX_REQUESTED_TRANSACTIONS))) hashes [].

Definition RpcClient_block_transactions (block : mblock) : call (list transaction) :=
  RpcClient_transactions_by_hashes (tx_hashes block).

Definition get_block_count_body : text :=
  txt "{" ++ q "jsonrpc" ++ txt ":" ++ q "2.0" ++ txt "," ++ q "id" ++ txt ":" ++ q "0" ++ txt ","
  ++ q "method" ++ txt ":" ++ q "get_block_count" ++ txt "}".

Definition RpcClient_daemon_height : call Z :=
  let! res := request get_block_count_body (txt "json_rpc") in
  or_throw (MissingData (txt "{{ result: {{ count: " ++ q "..." ++ txt " }}"))
    (json_as_u64 (json_index (json_index res (txt "result")) (txt "count"))).

End calls.

(** [impl Client for RpcClient]; [fuel] bounds the rounds of authentication
    of one request. *)
Definition RpcClient_Client `{!Monero} `{!AuthCrates} {Net} `{!RpcCrates Net} `{!SortUnstable}
    (fuel : nat) : MonerodClient (Rpc Net) (RpcError Net) := {|
  mc_block := RpcClient_block (RpcClient_request fuel);
  mc_block_transactions := RpcClient_block_transactions (RpcClient_request fuel);
  mc_txpool := RpcClient_txpool (RpcClient_request fuel);
  mc_txpool_hashes := RpcClient_txpool_hashes (RpcClient_request fuel);
  mc_transactions_by_hashes := RpcClient_transactions_by_hashes (RpcClient_request fuel);
  mc_daemon_height := RpcClient_daemon_height (RpcClient_request fuel);
  mc_url := λ r, String.string_of_list_ascii (Uri_to_string (rc_url (rpc_client r)));
|}.

(** [impl Client for MockClient]: [block_file] reads the canned block of a
    height. *)
Definition MockClient_Client `{!Monero} `{!AuthCrates} {Net} `{!RpcCrates Net}
    (block_file : Z → bytes + text) : MonerodClient unit (RpcError Net) := {|
  mc_block := λ height,
    let! block_file := (match block_file height with
                        | inl file => ret file
                        | inr e => throw (MissingData e)
                        end) in
    let! res := or_throw InvalidJson (from_slice block_file) in
    read_block res;
  mc_block_transactions := λ _, ret [];
  mc_txpool := ret [];
  mc_txpool_hashes := ret ∅;
  mc_transactions_by_hashes := λ _, ret [];
  mc_daemon_height := ret 2477657;
  mc_url := λ _, "http://node.example.com"%string;
|}.
