(* ===== verification/RpcRequest.v ===== *)
(** Requests of the RPC client: how [transactions_by_hashes] cuts its list,
    and when the loop of authentication ends. *)
From S2P Require Import Prelude.
From S2P Require Import Invoice.
From S2P Require Import Storage.
From S2P Require Import Monerod.
From S2P Require Import Text.
From S2P Require Import DigestAuth.
From S2P Require Import DigestSession.
From S2P Require Import Rpc.

(** * Transactions are requested in parts *)

(** The hashes in parts of [MAX_REQUESTED_TRANSACTIONS], the last one shorter;
    [n] bounds the number of parts. *)
Fixpoint parts (n : nat) {A} (l : list A) : list (list A) :=
  match n, l with
  | O, _ | _, [] => []
  | S n, _ => take MAX_REQUESTED_TRANSACTIONS l :: parts n (drop MAX_REQUESTED_TRANSACTIONS l)
  end.

Lemma parts_join {A} n (l : list A) :
  (length l ≤ n * MAX_REQUESTED_TRANSACTIONS)%nat → mjoin (parts n l) = l.
Proof.
  revert l. induction n as [|n IH]; intros l Hl; [by destruct l; simpl in *; [|lia]|].
  destruct l as [|a l]; [done|]. cbn [parts]. set (k := MAX_REQUESTED_TRANSACTIONS) in *.
  change (take k (a :: l) ++ mjoin (parts n (drop k (a :: l))) = a :: l).
  rewrite IH, take_drop; [done|]. rewrite length_drop. lia.
Qed.

Lemma parts_length {A} n (l : list A) :
  Forall (λ p, 0 < length p ≤ MAX_REQUESTED_TRANSACTIONS)%nat (parts n l).
Proof.
  revert l. induction n as [|n IH]; intros [|a l]; constructor; auto.
  rewrite length_take. cbn [length]. assert (MAX_REQUESTED_TRANSACTIONS = 100%nat) by done. lia.
Qed.

Section calls_lemmas.
Context `{!Monero} `{!AuthCrates} {Net : Type} `{!RpcCrates Net}.
Context {W : Type} (request : text → text → M W (RpcError Net) json).

Lemma transactions_loop_parts n i hashes transactions w :
  (i * MAX_REQUESTED_TRANSACTIONS ≤ length hashes)%nat →
  (i + n = S (length hashes / MAX_REQUESTED_TRANSACTIONS))%nat →
  transactions_loop request (seq i n) hashes transactions w
  = fold_each (parts n (drop (i * MAX_REQUESTED_TRANSACTIONS) hashes)) transactions
      (λ acc p, request_transactions request p acc) w.
Proof using Type.
  set (k := MAX_REQUESTED_TRANSACTIONS). assert (k = 100%nat) as Hk by done.
  revert i transactions w. induction n as [|n IH]; intros i transactions w Hi Hn; [done|].
  cbn [seq transactions_loop]. fold k.
  pose proof (length_drop hashes (i * k)) as Hd.
  destruct (drop (i * k) hashes) as [|h rest] eqn:E.
  { simpl in Hd. by rewrite decide_True by lia. }
  simpl in Hd. rewrite decide_False by lia. rewrite decide_True by lia.
  rewrite <-E. replace (parts (S n) (drop (i * k) hashes))
    with (take k (drop (i * k) hashes) :: parts n (drop k (drop (i * k) hashes))) by (by rewrite E).
  rewrite drop_drop. replace (i * k + k)%nat with (S i * k)%nat by lia.
  assert (take (Nat.min (k * (i + 1)) (length hashes) - i * k) (drop (i * k) hashes)
          = take k (drop (i * k) hashes)) as ->.
  { destruct (decide (k * (i + 1) ≤ length hashes)%nat).
    - f_equal. lia.
    - rewrite !take_ge; [done|..]; rewrite length_drop; lia. }
  cbn [fold_each]. unfold bind. destruct (request_transactions _ _ _ _) as [w' [acc|?| |]]; try done.
  (* the range ends with the part that is not full *)
  destruct (decide (S i * k ≤ length hashes)%nat) as [|Hlast]; [apply IH; lia|].
  pose proof (Nat.Div0.div_lt_upper_bound (length hashes) k (S i) ltac:(lia)).
  assert (n = 0%nat) as -> by (fold k in Hn; lia). by rewrite drop_ge by lia.
Qed.

Definition hash_parts (hashes : list Hash) : list (list Hash) :=
  parts (S (length hashes / MAX_REQUESTED_TRANSACTIONS)) hashes.

Lemma hash_parts_join hashes : mjoin (hash_parts hashes) = hashes.
Proof using Type.
  pose proof (Nat.div_mod_eq (length hashes) MAX_REQUESTED_TRANSACTIONS).
  pose proof (Nat.mod_upper_bound (length hashes) MAX_REQUESTED_TRANSACTIONS ltac:(done)).
  apply parts_join. lia.
Qed.

Lemma transactions_by_hashes_run hashes w :
  RpcClient_transactions_by_hashes request hashes w
  = fold_each (hash_parts hashes) [] (λ acc p, request_transactions request p acc) w.
Proof using Type.
  unfold RpcClient_transactions_by_hashes. rewrite transactions_loop_parts by (simpl; lia).
  by rewrite Nat.mul_0_l, drop_0.
Qed.

(** [transactions_by_hashes] asks for the hashes in parts: the parts are
    the list of hashes cut in pieces, none of them empty, none longer than the
    daemon's limit, and the result is what the answers to them give, in
    order.  The arithmetic of its indices is never out of range. *)
Theorem transactions_by_hashes_parts hashes w :
  RpcClient_transactions_by_hashes request hashes w
  = fold_each (hash_parts hashes) [] (λ acc p, request_transactions request p acc) w ∧
  mjoin (hash_parts hashes) = hashes ∧
  Forall (λ p, 0 < length p ≤ MAX_REQUESTED_TRANSACTIONS)%nat (hash_parts hashes).
Proof using Type.
  split; [apply transactions_by_hashes_run|].
  split; [apply hash_parts_join|apply parts_length].
Qed.

End calls_lemmas.

(** * Rounds of authentication *)

Section request_lemmas.
Context `{!Monero} `{!AuthCrates} {Net : Type} `{!RpcCrates Net} `{!SortUnstable}.

Lemma authenticate_loop_step fuel body endpoint uri response :
  authenticate_loop fuel body endpoint uri response
  = if is_challenge response then
      match fuel with
      | O => hang
      | S fuel =>
          let! response := authenticate_round body endpoint uri response in
          authenticate_loop fuel body endpoint uri response
      end
    else ret response.
Proof using Type. by destruct fuel. Qed.

(** More fuel than needed changes nothing. *)
Lemma authenticate_loop_fuel n m body endpoint uri response r :
  (n ≤ m)%nat → (authenticate_loop n body endpoint uri response r).2 ≠ Hang →
  authenticate_loop m body endpoint uri response r
  = authenticate_loop n body endpoint uri response r.
Proof using Type.
  revert m response r. induction n as [|n IH]; intros m response r Hm;
    rewrite !authenticate_loop_step; destruct (is_challenge response); try done.
  destruct m as [|m]; [lia|]. unfold bind.
  destruct (authenticate_round _ _ _ _ r) as [r' [response'|?| |]]; try done. apply IH. lia.
Qed.

(** A network that asks for authentication at most [k] more times. *)
Definition returns_within (P : nat → Net → Prop) : Prop :=
  (∀ k t req net, P k net →
     wp (http_send t req) (λ net' r, r ≠ Hang ∧ ∀ response, r = Ok response →
       (is_challenge response = true → ∃ k', k = S k' ∧ P k' net') ∧
       (∀ net, (collect_body (rs_body response) net).2 ≠ Hang)) net).

Lemma build_uri_returns url endpoint (r : Rpc Net) :
  (∃ uri, build_uri url endpoint r = (r, Ok uri)) ∨
  build_uri url endpoint r = (r, Err InvalidRequest).
Proof using Type. unfold build_uri. destruct (Uri_from_string _); [left; by eexists|by right]. Qed.

Lemma send_request_run req (r : Rpc Net) :
  send_request req r = (set_net (http_send (rc_timeout (rpc_client r)) req (rpc_net r)).1 r,
    match (http_send (rc_timeout (rpc_client r)) req (rpc_net r)).2 with
    | Ok a => Ok a | Err e => Err (send_error e) | Panic => Panic | Hang => Hang
    end).
Proof using Type.
  unfold send_request, bind, gets, zoom, map_err.
  by destruct (http_send _ _ _) as [net [?|?| |]].
Qed.

Lemma with_auth_net {A} (f : M AuthInfo AuthError A) a (r : Rpc Net) :
  rpc_net (with_auth f a r).1 = rpc_net r ∧
  rc_url (rpc_client (with_auth f a r).1) = rc_url (rpc_client r).
Proof using Type. unfold with_auth, zoom. by destruct (map_err _ _ _). Qed.

Lemma authenticate_returns uri method a :
  (AuthInfo_authenticate uri method a).2 ≠ Hang.
Proof using Type.
  unfold AuthInfo_authenticate, bind, gets, modify. destruct (last_auth_params a); [|done].
  destruct (fill16 _). destruct (qop_max _); [|done]. by destruct (HeaderValue_from_str _).
Qed.

Lemma collect_returns {A B E} (f : A → outcome E B) l :
  (∀ a, (∃ b, f a = Ok b) ∨ ∃ e, f a = Err e) →
  (∃ b, collect f l = Ok b) ∨ ∃ e, collect f l = Err e.
Proof using Type.
  intros Hf. induction l as [|a l IH]; simpl; [eauto|].
  destruct (Hf a) as [[? ->]|[? ->]]; [|eauto]. destruct IH as [[? ->]|[? ->]]; eauto.
Qed.

Lemma authenticate_with_resp_returns headers uri method a :
  (AuthInfo_authenticate_with_resp headers uri method a).2 ≠ Hang.
Proof using Type.
  unfold AuthInfo_authenticate_with_resp, auth_choices.
  assert (∀ h, (∃ b, header_to_str h = Ok b) ∨ ∃ e, header_to_str h = Err e) as Hs.
  { intros h. unfold header_to_str. destruct (HeaderValue_to_str h); eauto. }
  destruct (collect_returns header_to_str headers Hs) as [[texts ->]|[e ->]]; [|done].
  destruct (collect_returns parse_header (omap (strip_prefix (txt "Digest ")) texts)
    parse_header_returns) as [[l ->]|[e ->]]; [|done].
  unfold bind, lift, modify. destruct (last _) as [p|]; [|done].
  pose proof (authenticate_returns uri method
    (set_counter 1 (set_last_auth_params (Some p) a))) as Hr.
  by destruct (AuthInfo_authenticate _ _ _) as [? [[]|?| |]].
Qed.

Lemma map_err_hang {S E E' A} (f : E → E') (m : M S E A) s :
  (m s).2 ≠ Hang → (map_err f m s).2 ≠ Hang.
Proof using Type. unfold map_err. by destruct (m s) as [? [?|?| |]]. Qed.
Lemma with_auth_returns {A} (f : M AuthInfo AuthError A) a (r : Rpc Net) :
  (f a).2 ≠ Hang → (with_auth f a r).2 ≠ Hang.
Proof using Type.
  intros Hf. unfold with_auth, zoom. pose proof (map_err_hang (RpcAuth (Net:=Net)) f a Hf).
  by destruct (map_err _ _ _).
Qed.
Definition body_returns (response : HttpResponse Incoming) : Prop :=
  ∀ net, (collect_body (rs_body response) net).2 ≠ Hang.

Lemma send_request_returns P k req r :
  returns_within P → P k (rpc_net r) →
  wp (send_request req) (λ r' o, o ≠ Hang ∧ ∀ response, o = Ok response →
    body_returns response ∧
    (is_challenge response = true → ∃ k', k = S k' ∧ P k' (rpc_net r'))) r.
Proof using Type.
  intros HP Hk. unfold wp. rewrite send_request_run. simpl.
  destruct (HP k (rc_timeout (rpc_client r)) req _ Hk) as [Hh Hok].
  destruct (http_send _ _ _) as [net' [response|?| |]]; simpl in *; try done.
  split; [done|]. intros ? [= <-]. destruct (Hok response eq_refl). done.
Qed.

Lemma authenticate_round_returns P k body endpoint uri response r :
  returns_within P → P k (rpc_net r) →
  wp (authenticate_round body endpoint uri response) (λ r' o, o ≠ Hang ∧
    ∀ response', o = Ok response' → body_returns response' ∧
      (is_challenge response' = true → ∃ k', k = S k' ∧ P k' (rpc_net r'))) r.
Proof using Type.
  intros HP Hk. unfold authenticate_round. apply wp_bind, wp_gets, wp_bind.
  destruct (rc_auth_info (rpc_client r)) as [a|]; [|by apply wp_throw].
  unfold wp at 1. destruct (with_auth_net
    (AuthInfo_authenticate_with_resp (rs_www_authenticate response) uri POST) a r) as [Hn _].
  pose proof (with_auth_returns _ a r
    (authenticate_with_resp_returns (rs_www_authenticate response) uri POST a)) as Hr.
  destruct (with_auth _ a r) as [r1 [hd|?| |]]; try done. simpl in *. rewrite <-Hn in Hk.
  apply wp_bind. unfold wp at 1.
  destruct (build_uri_returns (rc_url (rpc_client r)) endpoint r1) as [[uri' ->]| ->]; [|done].
  by apply send_request_returns.
Qed.

Lemma authenticate_loop_returns P k body endpoint uri response r :
  returns_within P → body_returns response →
  (is_challenge response = true → ∃ k', k = S k' ∧ P k' (rpc_net r)) →
  wp (authenticate_loop k body endpoint uri response)
    (λ _ o, o ≠ Hang ∧ ∀ response', o = Ok response' → body_returns response') r.
Proof using Type.
  intros HP. revert response r. induction k as [|k IH]; intros response r Hb Hc;
    rewrite authenticate_loop_step; destruct (is_challenge response) eqn:E.
  - by destruct (Hc eq_refl) as (k' & ? & _).
  - apply wp_ret. split; [done|]. by intros ? [= <-].
  - destruct (Hc eq_refl) as (k' & [= <-] & Hk).
    apply wp_bind. eapply wp_mono; [by apply (authenticate_round_returns P k)|].
    intros r' o [Ho Hok]. destruct o as [response'|?| |]; try done.
    destruct (Hok _ eq_refl) as [Hb' Hc']. by apply IH.
  - apply wp_ret. split; [done|]. by intros ? [= <-].
Qed.


(** ** A daemon that never accepts the client *)

Definition challenging (response : HttpResponse Incoming) : Prop :=
  ∃ texts l, rs_status response = UNAUTHORIZED ∧
    digest_headers (rs_www_authenticate response) texts ∧ understood texts l ∧ l ≠ [].
Definition always_challenges : Prop :=
  ∀ t req net, ∃ net' response, http_send t req net = (net', Ok response) ∧ challenging response.

Definition client_ready (endpoint : text) (r : Rpc Net) : Prop :=
  (∃ uri, Uri_from_string (Uri_to_string (rc_url (rpc_client r)) ++ endpoint) = Some uri) ∧
  ∃ a, rc_auth_info (rpc_client r) = Some a ∧
       ∀ p, last_auth_params a = Some p → qop_max (qop p) = Some Auth.

Lemma challenging_is_challenge response : challenging response → is_challenge response = true.
Proof using Type.
  intros (texts & l & Hs & Hh & Hl & Hne). unfold is_challenge. rewrite Hs. simpl.
  apply negb_true_iff, bool_decide_eq_false. intros E. rewrite E in Hh.
  apply Forall2_nil_inv_l in Hh as ->. unfold understood in Hl. simpl in Hl.
  by apply Forall2_nil_inv_l in Hl.
Qed.

Context `{Hsort : !LawfulSort} (header_printable : ∀ s, is_Some (HeaderValue_from_str s)).

Lemma header_value_ok s : ∃ v, header_value s = Ok v.
Proof using header_printable. unfold header_value. destruct (header_printable s) as [v ->]. eauto. Qed.

Lemma send_request_challenged req r endpoint :
  always_challenges → client_ready endpoint r →
  ∃ r' response, send_request req r = (r', Ok response) ∧ challenging response ∧
    client_ready endpoint r'.
Proof using Type.
  intros Hc Hr. destruct (Hc (rc_timeout (rpc_client r)) req (rpc_net r))
    as (net' & response & E & Hresp).
  exists (set_net net' r), response. rewrite send_request_run, E. done.
Qed.

Lemma authenticate_round_challenged body endpoint uri response r :
  always_challenges → challenging response → client_ready endpoint r →
  ∃ r' response', authenticate_round body endpoint uri response r = (r', Ok response') ∧
    challenging response' ∧ client_ready endpoint r'.
Proof using Hsort header_printable.
  intros Hc (texts & l & _ & Hh & Hl & Hne) [[uri' Hu] (a & Ha & _)].
  destruct (authenticate_with_resp_run a _ texts l uri POST Hh Hl Hne) as (p & _ & Hq & Hrun).
  cbv zeta in Hrun. set (a' := set_counter 1 (set_last_auth_params (Some p) a)) in Hrun.
  destruct (header_value_ok (rfc_header a' p uri POST)) as [v Hv]. rewrite Hv in Hrun.
  unfold authenticate_round, bind, gets. rewrite Ha.
  unfold with_auth, zoom, map_err. rewrite Hrun. unfold build_uri. rewrite Hu. unfold ret.
  apply send_request_challenged; [done|]. split; [by exists uri'|].
  exists (counted a'). split; [done|]. intros ? [= <-]. done.
Qed.

(** Against a daemon that answers every request with a challenge the
    client understands (as it does when the password is wrong), a request never
    returns, however many rounds are allowed: the timeout only limits each
    attempt. *)
Theorem RpcClient_request_never_returns fuel body endpoint r :
  always_challenges → client_ready endpoint r →
  (RpcClient_request fuel body endpoint r).2 = Hang.
Proof using Hsort header_printable.
  intros Hc Hr. assert (Hloop : ∀ fuel uri response r, challenging response →
    client_ready endpoint r → (authenticate_loop fuel body endpoint uri response r).2 = Hang).
  { clear fuel r Hr. induction fuel as [|fuel IH]; intros uri response r Hresp Hr;
      rewrite authenticate_loop_step, challenging_is_challenge by done; [done|].
    destruct (authenticate_round_challenged body endpoint uri response r Hc Hresp Hr)
      as (r' & response' & E & Hresp' & Hr').
    unfold bind. rewrite E. by apply IH. }
  destruct (Hr) as [[uri Hu] (a & Ha & Hq)].
  unfold RpcClient_request, bind, gets, build_uri, recent_auth_header. rewrite Hu, Ha.
  unfold ret.
  assert (∃ r1 o, with_auth (AuthInfo_authenticate uri POST) a r = (r1, Ok o) ∧
    client_ready endpoint r1) as (r1 & o & -> & Hr1).
  { unfold with_auth, zoom, map_err. destruct (last_auth_params a) as [p|] eqn:Ep.
    - rewrite (authenticate_run a p) by auto.
      destruct (header_value_ok (rfc_header a p uri POST)) as [v ->].
      eexists _, _. split; [done|]. split; [by exists uri|]. exists (counted a).
      split; [done|]. intros p'. simpl. rewrite Ep. intros [= <-]. by apply Hq.
    - unfold AuthInfo_authenticate, bind, gets. rewrite Ep. eexists _, _. split; [done|].
      split; [by exists uri|]. exists a. split; [done|]. by rewrite Ep. }
  destruct (send_request_challenged (mk_HttpRequest uri o body) r1 endpoint Hc Hr1)
    as (r2 & response & -> & Hresp & Hr2).
  pose proof (Hloop fuel uri response r2 Hresp Hr2) as Hh.
  by destruct (authenticate_loop _ _ _ _ _ r2) as [? [?|?| |]].
Qed.
End request_lemmas.
