(* ===== verification/RpcAnswers.v ===== *)
(** What the RPC client makes of the daemon's answers: every outcome of
    [block], and the laws of the daemon client that the caches rely on, over a
    daemon that tells the truth. *)
From S2P Require Import Prelude.
From S2P Require Import Invoice.
From S2P Require Import Storage.
From S2P Require Import Monerod.
From S2P Require Import Text.
From S2P Require Import DigestAuth.
From S2P Require Import DigestSession.
From S2P Require Import Rpc.
From S2P Require Import RpcRequest.

(** * What the answers give *)

Section answers.
Context `{!Monero} `{!AuthCrates} {Net : Type} `{!RpcCrates Net}.

Definition block_hash_field (res : json) : option text := json_as_str
  (json_index (json_index (json_index res (txt "result")) (txt "block_header")) (txt "hash")).
Definition block_blob_field (res : json) : option text :=
  json_as_str (json_index (json_index res (txt "result")) (txt "blob")).
Definition has_block_hash (res : json) (id : Hash) : Prop :=
  ∃ s bs, block_hash_field res = Some s ∧ hex_decode s = Some bs ∧ Hash_from_slice bs = Some id.
Definition has_block (res : json) (b : mblock) : Prop :=
  ∃ s bs, block_blob_field res = Some s ∧ hex_decode s = Some bs ∧ deserialize_block bs = Some b.
(** The hash of the answer is hexadecimal but has the wrong length. *)
Definition bad_block_hash (res : json) : Prop :=
  ∃ s bs, block_hash_field res = Some s ∧ hex_decode s = Some bs ∧ Hash_from_slice bs = None.
Definition is_tx (tx_json : json) (tx : transaction) : Prop :=
  ∃ s bs, json_as_str tx_json = Some s ∧ hex_decode s = Some bs ∧
          deserialize_transaction bs = Some tx.

Definition block_outcomes {S E} (res : json) (s : S) (r : S * outcome E (Hash * mblock)) : Prop :=
  r.1 = s ∧ (∀ id b, r.2 = Ok (id, b) ↔ has_block_hash res id ∧ has_block res b) ∧
  (r.2 = Panic ↔ bad_block_hash res) ∧ r.2 ≠ Hang.

Lemma read_block_outcomes {W} res (w : W) : block_outcomes res w (read_block (Net:=Net) res w).
Proof using Type.
  unfold block_outcomes, has_block_hash, has_block, bad_block_hash, read_block.
  fold (block_hash_field res). fold (block_blob_field res). unfold or_throw, bind.
  destruct (block_hash_field res) as [s|]; simpl; [|naive_solver].
  destruct (hex_decode s) as [bs|] eqn:Ebs; simpl; [|naive_solver].
  destruct (Hash_from_slice bs) as [id|] eqn:Eid; simpl; [|naive_solver].
  destruct (block_blob_field res) as [s'|]; simpl; [|naive_solver].
  destruct (hex_decode s') as [bs'|] eqn:Ebs'; simpl; [|naive_solver].
  destruct (deserialize_block bs') as [b|] eqn:Eb; simpl; naive_solver.
Qed.

Lemma read_block_ok {W} res (w : W) id b :
  (read_block (Net:=Net) res w).2 = Ok (id, b) → has_block_hash res id ∧ has_block res b.
Proof using Type. apply (read_block_outcomes res w). Qed.

(** What [block] makes of the daemon's answer: it gives the hash and the
    block the answer holds, an error if something is missing or does not
    decode, and it panics exactly when the hash is hexadecimal text of a wrong
    length, before looking at the block. *)
Theorem RpcClient_block_spec {W} (request : text → text → M W (RpcError Net) json) h w w' res :
  request (get_block_body h) (txt "json_rpc") w = (w', Ok res) →
  block_outcomes res w' (RpcClient_block request h w).
Proof using Type.
  intros Hreq. unfold RpcClient_block, bind. rewrite Hreq. apply read_block_outcomes.
Qed.

Lemma decode_transactions (hexes : list json) (acc : list transaction) {W} (w : W) :
  wp (fold_each hexes acc (λ transactions tx_json,
    let! tx_str := or_throw (Net:=Net) (DataType tx_json (txt "&str")) (json_as_str tx_json) in
    let! tx := decode_transaction tx_str in
    ret (transactions ++ [tx])))
  (λ w' r, w' = w ∧ ∀ txs, r = Ok txs → ∃ new, Forall2 is_tx hexes new ∧ txs = acc ++ new) w.
Proof using Type.
  revert acc. induction hexes as [|j hexes IH]; intros acc.
  { apply wp_ret. split; [done|]. intros txs [= <-]. exists []. by rewrite app_nil_r. }
  cbn [fold_each]. unfold decode_transaction, or_throw.
  apply wp_bind. apply wp_bind. destruct (json_as_str j) as [s|] eqn:Es; [|by apply wp_throw].
  apply wp_ret, wp_bind. apply wp_bind.
  destruct (hex_decode s) as [bs|] eqn:Eb; [|by apply wp_throw]. apply wp_ret.
  destruct (deserialize_transaction bs) as [tx|] eqn:Et; [|by apply wp_throw].
  apply wp_ret, wp_ret. eapply wp_mono; [apply IH|]. intros w' r [-> Hr]. split; [done|].
  intros txs ->. destruct (Hr txs eq_refl) as (new & Hnew & ->). exists (tx :: new).
  rewrite <-app_assoc. split; [|done]. constructor; [|done]. by exists s, bs.
Qed.

(** ** A daemon that tells the truth *)

(** [answer uri body] is the JSON a daemon answers with; requests may fail. *)
Record honest_daemon (answer : Uri → text → json) (hash_of : mblock → Hash)
    (chain : Z → mblock) (tx_of : Hash → transaction) (d : Z) : Prop := {
  hd_send t req net :
    wp (http_send t req) (λ _ r, ∀ response, r = Ok response →
      is_challenge response = false → ∀ net,
      wp (collect_body (rs_body response)) (λ _ r, ∀ bs, r = Ok bs →
        from_slice bs = Some (answer (rq_uri req) (rq_body req))) net) net;
  hd_block url uri h : Uri_from_string (Uri_to_string url ++ txt "json_rpc") = Some uri →
    (∀ id, has_block_hash (answer uri (get_block_body h)) id → id = hash_of (chain h)) ∧
    (∀ b, has_block (answer uri (get_block_body h)) b → b = chain h);
  hd_height url uri n : Uri_from_string (Uri_to_string url ++ txt "json_rpc") = Some uri →
    json_as_u64 (json_index (json_index (answer uri get_block_count_body) (txt "result"))
      (txt "count")) = Some n → n = d;
  hd_transactions url uri hashes hexes txs :
    Uri_from_string (Uri_to_string url ++ txt "get_transactions") = Some uri →
    json_as_array (json_index (answer uri (get_transactions_body hashes)) (txt "txs_as_hex"))
      = Some hexes →
    Forall2 is_tx hexes txs → txs = tx_of <$> hashes;
  hd_hash_of : Inj (=) (=) hash_of;
  hd_linked h : prev_id (chain (h + 1)) = hash_of (chain h);
}.
End answers.

Section honest.
Context `{!Monero} `{!AuthCrates} {Net : Type} `{!RpcCrates Net} `{!SortUnstable}.
Context (answer : Uri → text → json) (hash_of : mblock → Hash) (chain : Z → mblock)
  (tx_of : Hash → transaction) (d : Z) (Hd : honest_daemon answer hash_of chain tx_of d).

(** A response to a request for [endpoint]: unless it is a challenge, its body
    is the answer. *)
Definition answers (body endpoint : text) (response : HttpResponse Incoming) : Prop :=
  ∃ url uri, Uri_from_string (Uri_to_string url ++ endpoint) = Some uri ∧
    (is_challenge response = false → ∀ net,
     wp (collect_body (rs_body response)) (λ _ r, ∀ bs, r = Ok bs →
       from_slice bs = Some (answer uri body)) net).

Lemma send_request_answers url uri hd body endpoint (r : Rpc Net) :
  Uri_from_string (Uri_to_string url ++ endpoint) = Some uri →
  wp (send_request (mk_HttpRequest uri hd body))
    (λ _ o, ∀ response, o = Ok response → answers body endpoint response) r.
Proof using Hd.
  intros Hu. unfold wp. rewrite send_request_run.
  pose proof (hd_send _ _ _ _ _ Hd (rc_timeout (rpc_client r)) (mk_HttpRequest uri hd body)
    (rpc_net r)) as Hs.
  unfold wp in Hs. destruct (http_send _ _ _) as [net [response|?| |]]; try done. simpl in *.
  intros ? [= <-]. exists url, uri. split; [done|]. exact (Hs response eq_refl).
Qed.

Lemma build_uri_answers url endpoint (r : Rpc Net) {A} (k : Uri → M (Rpc Net) (RpcError Net) A) Q :
  (∀ uri, Uri_from_string (Uri_to_string url ++ endpoint) = Some uri → wp (k uri) Q r) →
  (∀ e, Q r (Err e)) → wp (bind (build_uri url endpoint) k) Q r.
Proof using Type.
  intros Hk He. unfold build_uri. apply wp_bind.
  destruct (Uri_from_string _) as [uri|]; [apply wp_ret; auto|apply wp_throw; auto].
Qed.

Lemma authenticate_loop_answers fuel body endpoint uri response (r : Rpc Net) :
  answers body endpoint response →
  wp (authenticate_loop fuel body endpoint uri response) (λ _ o, ∀ response', o = Ok response' →
    is_challenge response' = false ∧ answers body endpoint response') r.
Proof using Hd.
  revert response r. induction fuel as [|fuel IH]; intros response r Ha;
    rewrite authenticate_loop_step; destruct (is_challenge response) eqn:E; try done;
    try (apply wp_ret; by intros ? [= <-]).
  apply wp_bind. unfold authenticate_round. apply wp_bind, wp_gets, wp_bind.
  destruct (rc_auth_info (rpc_client r)) as [a|]; [|by apply wp_throw].
  unfold wp at 1. destruct (with_auth _ a r) as [r1 [hd|?| |]]; try done.
  apply build_uri_answers; [|done]. intros uri' Hu.
  eapply wp_mono; [exact (send_request_answers _ _ _ body endpoint _ Hu)|].
  intros r2 o Ho. destruct o as [response'|?| |]; try done. by apply IH, Ho.
Qed.

Lemma honest_request fuel body endpoint (r : Rpc Net) :
  wp (RpcClient_request fuel body endpoint) (λ _ o, ∀ v, o = Ok v →
    ∃ url uri, Uri_from_string (Uri_to_string url ++ endpoint) = Some uri ∧ v = answer uri body) r.
Proof using Hd.
  unfold RpcClient_request. apply wp_bind, wp_gets. apply build_uri_answers; [|done].
  intros uri Hu. apply wp_bind.
  unfold wp at 1. destruct (recent_auth_header _ uri r) as [r1 [hd|?| |]]; try done.
  apply wp_bind. eapply wp_mono; [exact (send_request_answers _ _ _ body endpoint _ Hu)|].
  intros r2 o Ho. destruct o as [response|?| |]; try done. apply wp_bind.
  eapply wp_mono; [by apply authenticate_loop_answers, Ho|].
  intros r3 o' Ho'. destruct o' as [response'|?| |]; try done.
  destruct (Ho' response' eq_refl) as [Hc (url & uri' & Hu' & Hb)].
  apply wp_bind, wp_zoom, wp_map_err.
  eapply (wp_mono _ (λ _ r, ∀ bs, r = Ok bs → from_slice bs = Some (answer uri' body)));
    [exact (Hb Hc _)|].
  intros net o'' Ho''. destruct o'' as [bs|?| |]; try done. rewrite (Ho'' bs eq_refl).
  apply wp_ret. intros v [= <-]. eauto.
Qed.

Lemma honest_transactions fuel hashes (r : Rpc Net) :
  wp (RpcClient_transactions_by_hashes (RpcClient_request fuel) hashes)
    (λ _ o, ∀ txs, o = Ok txs → txs = tx_of <$> hashes) r.
Proof using Hd.
  unfold wp. rewrite transactions_by_hashes_run. pose proof (hash_parts_join hashes) as Hps.
  set (ps := hash_parts hashes) in *. clearbody ps.
  assert (wp (fold_each ps [] (λ acc p, request_transactions (RpcClient_request fuel) p acc))
    (λ _ o, ∀ txs, o = Ok txs → txs = [] ++ (tx_of <$> mjoin ps)) r) as Hwp.
  2:{ rewrite Hps in Hwp. exact Hwp. }
  clear Hps. generalize (@nil transaction) as acc. revert r. induction ps as [|p ps IH]; intros r acc.
  { apply wp_ret. intros txs [= <-]. by rewrite app_nil_r. }
  cbn [fold_each]. apply wp_bind. unfold request_transactions at 1. apply wp_bind.
  eapply wp_mono; [apply honest_request|]. intros r1 o1 Ho1. destruct o1 as [v|?| |]; try done.
  destruct (Ho1 v eq_refl) as (url & uri & Hu & ->). apply wp_bind. unfold or_throw.
  destruct (json_as_array _) as [hexes|] eqn:Eh; [|by apply wp_throw]. apply wp_ret.
  eapply wp_mono; [apply decode_transactions|]. intros r2 o2 [-> Ho2].
  destruct o2 as [txs|?| |]; try done. destruct (Ho2 txs eq_refl) as (new & Hnew & ->).
  rewrite (hd_transactions _ _ _ _ _ Hd url uri p hexes new Hu Eh Hnew).
  eapply wp_mono; [apply IH|]. intros r3 o3 Ho3 txs' ->.
  rewrite (Ho3 txs' eq_refl). simpl. by rewrite fmap_app, <-app_assoc.
Qed.

Lemma honest_block fuel h (r : Rpc Net) :
  wp (RpcClient_block (RpcClient_request fuel) h)
    (λ _ o, ∀ id b, o = Ok (id, b) → id = hash_of (chain h) ∧ b = chain h) r.
Proof using Hd.
  unfold RpcClient_block. apply wp_bind. eapply wp_mono; [apply honest_request|].
  intros r1 o1 Ho1. destruct o1 as [v|?| |]; try done.
  destruct (Ho1 v eq_refl) as (url & uri & Hu & ->).
  destruct (hd_block _ _ _ _ _ Hd url uri h Hu) as [Hid Hb].
  unfold wp. intros id b E. apply read_block_ok in E as [Hi Hbl]. auto.
Qed.

Lemma honest_height fuel (r : Rpc Net) :
  wp (RpcClient_daemon_height (RpcClient_request fuel)) (λ _ o, ∀ n, o = Ok n → n = d) r.
Proof using Hd.
  unfold RpcClient_daemon_height. apply wp_bind. eapply wp_mono; [apply honest_request|].
  intros r1 o1 Ho1. destruct o1 as [v|?| |]; try done.
  destruct (Ho1 v eq_refl) as (url & uri & Hu & ->). unfold or_throw.
  destruct (json_as_u64 _) as [n|] eqn:En; [|by apply wp_throw].
  apply wp_ret. intros ? [= <-]. by apply (hd_height _ _ _ _ _ Hd url uri).
Qed.

End honest.

(** C20: the RPC client is a client as the caches expect it: over a daemon
    that tells the truth about its chain, blocks come with their hashes and
    transactions, they are those of the main chain, and the height is the
    daemon's. *)
Theorem RpcClient_honest `{!Monero} `{!AuthCrates} {Net} `{!RpcCrates Net} `{!SortUnstable}
    answer hash_of chain tx_of d fuel :
  honest_daemon answer hash_of chain tx_of d →
  let client : MonerodClient (Rpc Net) (RpcError Net) := RpcClient_Client fuel in
  Genuine (Rpc Net) (RpcError Net) hash_of (λ b, tx_of <$> tx_hashes b) ∧
  ServesChain (Rpc Net) (RpcError Net) hash_of chain ∧
  DaemonHeight (Rpc Net) (RpcError Net) d.
Proof.
  intros Hd client. split; [|split].
  - split; [apply (hd_hash_of _ _ _ _ _ Hd)| |].
    + intros h w. eapply wp_mono; [apply (honest_block _ _ _ _ _ Hd fuel)|].
      intros w' o Ho id b ->. by destruct (Ho id b eq_refl) as [-> ->].
    + intros b w. eapply wp_mono; [apply (honest_transactions _ _ _ _ _ Hd fuel)|]. auto.
  - split; [apply (hd_linked _ _ _ _ _ Hd)|].
    intros h w. eapply wp_mono; [apply (honest_block _ _ _ _ _ Hd fuel)|].
    intros w' o Ho id b ->. by destruct (Ho id b eq_refl).
  - split. intros w. eapply wp_mono; [apply (honest_height _ _ _ _ _ Hd fuel)|]. auto.
Qed.
