(* ===== verification/RpcDemo.v ===== *)
(** A concrete network for the RPC client: JSON values and bytes are the same
    thing, hashes and blocks are single bytes, and the daemon either answers
    truthfully or asks for authentication a number of times first.  The
    properties of the RPC client are applied to it. *)
From Stdlib Require Import Ascii.
From S2P Require Import Prelude.
From S2P Require Import Invoice.
From S2P Require Import Storage.
From S2P Require Import Monerod.
From S2P Require Import Demo.
From S2P Require Import Text.
From S2P Require Import DigestAuth.
From S2P Require Import DigestParser.
From S2P Require Import DigestSession.
From S2P Require Import Rpc.
From S2P Require Import RpcRequest.
From S2P Require Import RpcAnswers.

Definition byte_of (z : Z) : Byte.byte := default Byte.x00 (Byte.of_N (Z.to_N z)).
Definition of_byte (b : Byte.byte) : Z := Z.of_N (Byte.to_N b).
Definition single {A} (f : Z → A) (bs : bytes) : option A :=
  match bs with [b] => Some (f (of_byte b)) | _ => None end.

(** How often the daemon still asks for authentication; [None] is always. *)
Notation DemoNet := (option nat).

Fixpoint hex_pairs (s : text) : bytes :=
  match s with
  | c :: d :: s => byte_of (hex_value c * 16 + hex_value d) :: hex_pairs s
  | _ => []
  end.

Definition get_transactions_prefix : text := txt "{" ++ q "txs_hashes" ++ txt ":".
Definition demo_heights : list Z := Z.of_nat <$> seq 0 256.
Definition demo_daemon_height : Z := 7.

(** What the daemon answers. *)
Definition demo_answer (uri body : text) : bytes :=
  if starts_with (reverse (txt "get_transactions")) (reverse uri) then
    hex_pairs (take (length body - length get_transactions_prefix - 1)
                 (drop (length get_transactions_prefix) body))
  else if decide (body = get_block_count_body) then [byte_of demo_daemon_height]
  else match list_find (λ h, body = get_block_body h) demo_heights with
       | Some (_, h) => [byte_of h]
       | None => []
       end.

Definition demo_401 : HttpResponse bytes :=
  mk_HttpResponse UNAUTHORIZED [demo_challenge Md5] [].
Definition demo_http_send (t : Z) (req : HttpRequest) : M DemoNet SendError (HttpResponse bytes) :=
  λ net, match net with
         | None => (None, Ok demo_401)
         | Some (S k) => (Some k, Ok demo_401)
         | Some O => (Some O, Ok (mk_HttpResponse 200 [] (demo_answer (rq_uri req) (rq_body req))))
         end.

#[export] Instance DemoRpcCrates : RpcCrates DemoNet := {|
  Uri_to_string := λ u, u;
  Uri_from_string := Some;
  Incoming := bytes;
  http_send := demo_http_send;
  collect_body := ret;
  json := bytes;
  from_slice := Some;
  json_index := λ v _, v;
  json_as_str := λ v, Some (ascii_of_byte <$> v);
  json_as_array := λ v, Some ((λ b, [b]) <$> v);
  json_as_u64 := single id;
  json_strings := mjoin;
  hex_decode := λ s, Some (byte_of_ascii <$> s);
  Hash_from_slice := single id;
  Hash_as_bytes := λ h, [byte_of (h mod 256)];
  deserialize_block := single (id : Z → mblock (Monero:=DemoMonero));
  deserialize_transaction := single (λ h, (mk_DemoTx h 0 [] : transaction (Monero:=DemoMonero)));
  deserialize_hash := single id;
|}.

Lemma of_byte_of z : 0 ≤ z < 256 → of_byte (byte_of z) = z.
Proof.
  intros Hz. assert (z ∈ demo_heights) as Hin.
  { apply list_elem_of_fmap. exists (Z.to_nat z). rewrite elem_of_seq. lia. }
  assert (forallb (λ z, of_byte (byte_of z) =? z) demo_heights = true) as Hall by done.
  apply Z.eqb_eq. rewrite forallb_forall in Hall. by apply Hall, list_elem_of_In.
Qed.

Lemma bytes_roundtrip (bs : bytes) : byte_of_ascii <$> (ascii_of_byte <$> bs) = bs.
Proof.
  rewrite <-list_fmap_compose. rewrite <-(list_fmap_id bs) at 2.
  apply list_fmap_ext. intros i b _. apply byte_of_ascii_of_byte.
Qed.

Lemma txt_inj s s' : txt s = txt s' → s = s'.
Proof.
  intros H%(f_equal String.string_of_list_ascii). unfold txt in H.
  by rewrite !String.string_of_list_ascii_of_string in H.
Qed.

Lemma get_block_body_inj h h' : get_block_body h = get_block_body h' → h = h'.
Proof.
  unfold get_block_body. intros E. repeat apply app_inv_head in E.
  apply app_inv_tail, txt_inj in E. by apply (inj pretty).
Qed.

Lemma json_rpc_uri (url uri : text) :
  Some (url ++ txt "json_rpc") = Some uri →
  starts_with (reverse (txt "get_transactions")) (reverse uri) = false.
Proof. intros [= <-]. by rewrite reverse_app. Qed.

Lemma answer_block url uri h :
  Some (url ++ txt "json_rpc") = Some uri →
  demo_answer uri (get_block_body h) = [] ∨
  0 ≤ h < 256 ∧ demo_answer uri (get_block_body h) = [byte_of h].
Proof.
  intros Hu. unfold demo_answer. rewrite (json_rpc_uri _ _ Hu).
  destruct (list_find _ demo_heights) as [[i h']|] eqn:E.
  - apply list_find_Some in E as (Hi & Eb%get_block_body_inj & _). subst h'.
    apply list_elem_of_lookup_2, list_elem_of_fmap in Hi as (n & -> & Hn%elem_of_seq).
    right. split; [lia|]. by destruct (decide _).
  - by left; destruct (decide _).
Qed.

Lemma answer_count url uri :
  Some (url ++ txt "json_rpc") = Some uri → demo_answer uri get_block_count_body = [byte_of 7].
Proof. intros Hu. unfold demo_answer. by rewrite (json_rpc_uri _ _ Hu). Qed.

Lemma hex_pairs_encode hashes suffix n :
  n = length (mjoin ((λ x, hex_encode (Hash_as_bytes (Net:=DemoNet) x)) <$> hashes)) →
  hex_pairs (take n (mjoin ((λ x, hex_encode (Hash_as_bytes (Net:=DemoNet) x)) <$> hashes)
                       ++ suffix))
  = (λ x, byte_of (x mod 256)) <$> hashes.
Proof.
  intros ->. rewrite take_app_length. induction hashes as [|h hashes IH]; [done|].
  cbn [fmap list_fmap hex_pairs]. simpl mjoin. cbn [hex_pairs app]. f_equal; [|exact IH].
  fold (of_byte (byte_of (h mod 256))). rewrite of_byte_of by (apply Z.mod_pos_bound; lia).
  pose proof (Z.mod_pos_bound h 256 ltac:(lia)).
  rewrite !hex_value_digit.
  - f_equal. pose proof (Z.div_mod (h mod 256) 16). lia.
  - apply Z.mod_pos_bound. lia.
  - split; [apply Z.div_pos; lia|apply Z.div_lt_upper_bound; lia].
Qed.

Definition demo_tx_of (h : Hash) : transaction (Monero:=DemoMonero) := mk_DemoTx (h mod 256) 0 [].

Lemma answer_transactions url uri hashes :
  Some (url ++ txt "get_transactions") = Some uri →
  demo_answer uri (get_transactions_body hashes) = (λ x, byte_of (x mod 256)) <$> hashes.
Proof.
  intros [= <-]. unfold demo_answer. rewrite reverse_app.
  replace (starts_with _ _) with true by (symmetry; apply starts_with_spec; by eexists).
  unfold get_transactions_body. rewrite !app_assoc.
  change (((txt "{" ++ q "txs_hashes") ++ txt ":")) with get_transactions_prefix.
  rewrite <-(app_assoc get_transactions_prefix), drop_app_length.
  apply hex_pairs_encode. rewrite !length_app. simpl. lia.
Qed.

Lemma is_tx_single (b : Byte.byte) tx :
  is_tx (Net:=DemoNet) [b] tx → tx = (mk_DemoTx (of_byte b) 0 [] : DemoTx).
Proof.
  intros (s & bs & [= <-] & E & Ht). simpl in E. rewrite byte_of_ascii_of_byte in E.
  injection E as <-. by injection Ht.
Qed.

Lemma demo_honest :
  honest_daemon (Net:=DemoNet) demo_answer demo_hash (λ h, h) demo_tx_of demo_daemon_height.
Proof.
  split.
  - intros t req [[|k]|] response [= <-] Hc; try done. intros net bs [= <-]. done.
  - intros url uri h Hu. destruct (answer_block url uri h Hu) as [->|[Hh ->]].
    { split; intros x (s & bs & [= <-] & [= <-] & Hx); done. }
    split; intros x (s & bs & [= <-] & E & Hx); simpl in E;
      rewrite byte_of_ascii_of_byte in E; injection E as <-; injection Hx as <-;
      by apply of_byte_of.
  - intros url uri n Hu. rewrite (answer_count url uri Hu). by intros [= <-].
  - intros url uri hashes hexes txs Hu. rewrite (answer_transactions url uri hashes Hu).
    intros [= <-] Htxs. rewrite <-list_fmap_compose in Htxs. revert txs Htxs.
    induction hashes as [|h hashes IH]; intros txs Htxs; [by apply Forall2_nil_inv_l in Htxs|].
    apply Forall2_cons_inv_l in Htxs as (tx & txs' & Htx & Htxs & ->). cbn [fmap list_fmap].
    f_equal; [|by apply IH]. apply is_tx_single in Htx as ->. simpl. unfold demo_tx_of.
    by rewrite of_byte_of by (apply Z.mod_pos_bound; lia).
  - by intros ??.
  - intros h. unfold demo_hash. simpl. lia.
Qed.

(** ** The properties applied *)

Definition demo_rpc_client : RpcClient :=
  RpcClient_new (txt "http://node:18081/") 10000 (Some (txt "user")) (Some (txt "pass")) (Some 1).
Definition demo_rpc (challenges : DemoNet) : Rpc DemoNet := mk_Rpc demo_rpc_client challenges.

Lemma demo_returns_within : returns_within (λ k (net : DemoNet), net = Some k).
Proof.
  intros k t req net ->. destruct k as [|k]; unfold wp; simpl.
  - split; [done|]. intros response [= <-]. by split.
  - split; [done|]. intros response [= <-]. split; [|done]. intros _. by exists k.
Qed.


(** A daemon that asks for authentication for ever. *)
Notation DemoWall := unit.
#[local] Instance DemoWallCrates : RpcCrates DemoWall := {|
  Uri_to_string := λ u, u;
  Uri_from_string := Some;
  Incoming := bytes;
  http_send := λ _ _, ret demo_401;
  collect_body := ret;
  json := bytes;
  from_slice := Some;
  json_index := λ v _, v;
  json_as_str := λ v, Some (ascii_of_byte <$> v);
  json_as_array := λ v, Some ((λ b, [b]) <$> v);
  json_as_u64 := single id;
  json_strings := mjoin;
  hex_decode := λ s, Some (byte_of_ascii <$> s);
  Hash_from_slice := single id;
  Hash_as_bytes := λ h, [byte_of (h mod 256)];
  deserialize_block := single (id : Z → mblock (Monero:=DemoMonero));
  deserialize_transaction := single (λ h, (mk_DemoTx h 0 [] : transaction (Monero:=DemoMonero)));
  deserialize_hash := single id;
|}.

Lemma demo_challenging (response : HttpResponse bytes) :
  response = demo_401 → challenging (RpcCrates0:=DemoWallCrates) response.
Proof.
  intros ->. exists [demo_challenge Md5], [demo_params Md5]. split; [done|].
  split; [by repeat constructor|]. by split; [repeat constructor|].
Qed.

Lemma RpcClient_request_never_returns_witness :
  (RpcClient_request (Net:=DemoWall) 1000 get_block_count_body (txt "json_rpc")
     (mk_Rpc demo_rpc_client tt)).2 = Hang.
Proof.
  apply RpcClient_request_never_returns.
  - intros s. by eexists.
  - intros t req []. eexists _, _. split; [reflexivity|]. by apply demo_challenging.
  - split; [by eexists|]. eexists. split; [reflexivity|]. by intros p [= <-].
Defined.

(** The block at height 5, and a hash without any bytes at height 300. *)
Definition demo_block (h : Z) : Rpc DemoNet * outcome (RpcError DemoNet) (Hash * Z) :=
  RpcClient_block (RpcClient_request 3) h (demo_rpc (Some 1%nat)).

Definition demo_answered (h : Z) : Rpc DemoNet * outcome (RpcError DemoNet) bytes :=
  RpcClient_request 3 (get_block_body h) (txt "json_rpc") (demo_rpc (Some 1%nat)).

#[local] Instance byte_eq_dec : EqDecision Byte.byte := Byte.byte_eq_dec.
(** The answer as a boolean, which is quick to evaluate. *)
Definition is_answer (bs : bytes) (o : outcome (RpcError DemoNet) bytes) : bool :=
  match o with Ok bs' => bool_decide (bs' = bs) | _ => false end.
Lemma demo_answered_at h bs :
  is_answer bs (demo_answered h).2 = true → demo_answered h = ((demo_answered h).1, Ok bs).
Proof.
  destruct (demo_answered h) as [r [bs'|?| |]]; try done. simpl.
  by intros ->%bool_decide_eq_true.
Qed.
Lemma demo_answered_5 : is_answer [byte_of 5] (demo_answered 5).2 = true.
Proof. vm_compute. reflexivity. Qed.
Lemma demo_answered_300 : is_answer [] (demo_answered 300).2 = true.
Proof. vm_compute. reflexivity. Qed.

Lemma RpcClient_block_spec_witness :
  (demo_block 5).2 = Ok (5, 5) ∧ (demo_block 300).2 = Panic.
Proof.
  split.
  - destruct (RpcClient_block_spec (RpcCrates0:=DemoRpcCrates) (RpcClient_request 3) 5 _ _ _
      (demo_answered_at 5 _ demo_answered_5)) as (_ & Hok & _).
    apply Hok. split; (exists (ascii_of_byte <$> [byte_of 5]), [byte_of 5]; done).
  - destruct (RpcClient_block_spec (RpcCrates0:=DemoRpcCrates) (RpcClient_request 3) 300 _ _ _
      (demo_answered_at 300 _ demo_answered_300)) as (_ & _ & Hp & _).
    apply Hp. by exists [], [].
Defined.

Lemma RpcClient_honest_witness :
  @DaemonHeight DemoMonero (Rpc DemoNet) (RpcError DemoNet) (RpcClient_Client 3) 7.
Proof. apply (RpcClient_honest (Net:=DemoNet) _ _ _ _ _ 3 demo_honest). Defined.
