(* ===== verification/MockDaemon.v ===== *)
(** The daemon of the integration tests ([testing-utils/src/daemon.rs]): a
    mock HTTP server with canned answers, which the tests replace to let the
    chain advance.  The server is the [httpmock] crate, a parameter; the
    mutexes around the ids are never contended and are left out. *)
From S2P Require Import Prelude.
From S2P Require Import Sustains.
From S2P Require Import TestKit.
From S2P Require Import Monerod.
From S2P Require Import Text.
From S2P Require Import DigestAuth.
From S2P Require Import DigestSession.
From S2P Require Import Rpc.
From S2P Require Import Demo.
From S2P Require Import RpcDemo.

(** ** The mock server *)

(** What a mock waits for, and what it answers with status 200. *)
Record When := mk_When {
  when_path : text;
  when_body : option text;            (* the body is this *)
  when_contains : list text;          (* the body contains these *)
}.
Inductive Then :=
  | JsonCount (height : Z)            (* the JSON of a block count *)
  | BodyFromFile (path : string).
#[export] Instance When_eq_dec : EqDecision When.
Proof. solve_decision. Defined.

(** Mocks have ids; a mock is made and deleted through its id. *)
Class HttpMock (Srv : Type) := {
  MockServer_start : Srv;
  server_mock : When → Then → Srv → Srv * nat;
  Mock_delete : nat → Srv → Srv;
}.
Class LawfulHttpMock `{HttpMock Srv} (mocks : Srv → gmap nat (When * Then)) : Prop := {
  start_empty : mocks MockServer_start = ∅;
  mock_new w t s :
    mocks s !! (server_mock w t s).2 = None ∧
    mocks (server_mock w t s).1 = <[(server_mock w t s).2 := (w, t)]> (mocks s);
  mock_deleted id s : is_Some (mocks s !! id) → mocks (Mock_delete id s) = delete id (mocks s);
}.

(** ** The daemon *)

Section daemon.
Context {Srv : Type} `{!HttpMock Srv} `{!Monero} `{!AuthCrates} {Net : Type} `{!RpcCrates Net}.
(** The contents of the files of the tests. *)
Context (read_file : string → option bytes).

Record MockDaemon := mk_MockDaemon {
  md_server : Srv;
  daemon_height_id : option nat;
  block_ids : gmap Z nat;
  txpool_id : option nat;
  txpool_hashes_id : option nat;
  txpool_transactions_id : option nat;
}.
Notation mocking A := (M MockDaemon Empty_set A).

Definition set_server (s : Srv) (d : MockDaemon) : MockDaemon :=
  mk_MockDaemon s (daemon_height_id d) (block_ids d) (txpool_id d) (txpool_hashes_id d)
    (txpool_transactions_id d).
Definition delete_old (id : MockDaemon → option nat) : mocking unit :=
  λ d, match id d with
       | Some id => (set_server (Mock_delete id (md_server d)) d, Ok tt)
       | None => (d, Ok tt)
       end.
Definition new_mock (w : When) (t : Then) : mocking nat :=
  λ d, let '(s, id) := server_mock w t (md_server d) in (set_server s d, Ok id).

(** A raw string of the source, with its quotes. *)
Definition raw (s : string) : text :=
  (λ c : Ascii.ascii, if decide (Ascii.nat_of_ascii c = 39%nat) then dquote else c) <$> txt s.

Definition height_when : When :=
  mk_When (txt "/json_rpc") (Some (raw "{'jsonrpc':'2.0','id':'0','method':'get_block_count'}")) [].
Definition block_when (height : Z) : When :=
  mk_When (txt "/json_rpc")
    (Some (raw "{'jsonrpc':'2.0','id':'0','method':'get_block','params':{'height':" ++ txt (pretty height)
           ++ txt "}}")) [].
Definition txpool_when : When := mk_When (txt "/get_transaction_pool") (Some []) [].
Definition txpool_hashes_when : When := mk_When (txt "/get_transaction_pool_hashes") (Some []) [].
Definition transactions_when (hashes : list text) : When :=
  mk_When (txt "/get_transactions") None hashes.

Definition mock_daemon_height (height : Z) : mocking nat :=
  delete_old daemon_height_id ;;;
  let! id := new_mock height_when (JsonCount height) in
  modify (λ d, mk_MockDaemon (md_server d) (Some id) (block_ids d) (txpool_id d) (txpool_hashes_id d)
                 (txpool_transactions_id d)) ;;;
  ret id.

Definition mock_txpool (path : string) : mocking nat :=
  delete_old txpool_id ;;;
  let! id := new_mock txpool_when (BodyFromFile path) in
  modify (λ d, mk_MockDaemon (md_server d) (daemon_height_id d) (block_ids d) (Some id) (txpool_hashes_id d)
                 (txpool_transactions_id d)) ;;;
  ret id.

Definition mock_txpool_hashes (response_path : string) : mocking nat :=
  delete_old txpool_hashes_id ;;;
  let! id := new_mock txpool_hashes_when (BodyFromFile response_path) in
  modify (λ d, mk_MockDaemon (md_server d) (daemon_height_id d) (block_ids d) (txpool_id d) (Some id)
                 (txpool_transactions_id d)) ;;;
  ret id.

Definition mock_block (height : Z) (response_path : string) : mocking unit :=
  delete_old (λ d, block_ids d !! height) ;;;
  let! id := new_mock (block_when height) (BodyFromFile response_path) in
  modify (λ d, mk_MockDaemon (md_server d) (daemon_height_id d) (<[height := id]> (block_ids d)) (txpool_id d)
                 (txpool_hashes_id d) (txpool_transactions_id d)).

(** The hashes of a request file; [expect] panics. *)
Definition expected_hashes (request_path : string) : mocking (list text) :=
  match read_file request_path with
  | None => panic
  | Some contents =>
      match from_slice contents with
      | None => panic
      | Some when_body =>
          match mapM json_as_str (default [] (json_as_array (json_index when_body (txt "txs_hashes")))) with
          | None => panic
          | Some hashes => ret hashes
          end
      end
  end.
Definition mock_transactions (request_path response_path : string) : mocking nat :=
  let! when_txs := expected_hashes request_path in
  new_mock (transactions_when when_txs) (BodyFromFile response_path).

Definition mock_txpool_transactions (request_path response_path : string) : mocking nat :=
  delete_old txpool_transactions_id ;;;
  let! id := mock_transactions request_path response_path in
  modify (λ d, mk_MockDaemon (md_server d) (daemon_height_id d) (block_ids d) (txpool_id d) (txpool_hashes_id d)
                 (Some id)) ;;;
  ret id.

Definition block_file (block file : string) : string :=
  "../testing-utils/rpc_resources/blocks/" +:+ block +:+ "/" +:+ file.

Definition mock_alt_2477657 : mocking unit :=
  mock_block 2477657 (block_file "2477657_alt" "block.json") ;;;
  let! _ := mock_transactions (block_file "2477657_alt" "txs_hashes_0.json")
              (block_file "2477657_alt" "transactions_0.json") in
  ret tt.
Definition mock_alt_2477658 : mocking unit :=
  mock_block 2477658 (block_file "2477658_alt" "block.json") ;;;
  let! _ := mock_transactions (block_file "2477658_alt" "txs_hashes_0.json")
              (block_file "2477658_alt" "transactions_0.json") in
  ret tt.

Definition mock_canned_block (i : Z) : mocking unit :=
  mock_block i (block_file (pretty i) "block.json") ;;;
  if decide (i = 2477661) then ret tt
  else
    let! _ := mock_transactions (block_file (pretty i) "txs_hashes_0.json")
                (block_file (pretty i) "transactions_0.json") in
    ret tt.
Definition new_mock_daemon : outcome Empty_set MockDaemon :=
  let mock_daemon := mk_MockDaemon MockServer_start None ∅ None None None in
  let set_up : mocking unit :=
    let! _ := mock_daemon_height 2477657 in
    let! _ := mock_txpool "../testing-utils/rpc_resources/txpools/txpool.json" in
    let! _ := mock_txpool_hashes "../testing-utils/rpc_resources/txpools/hashes.json" in
    for_each (seqZ 2477647 19) mock_canned_block in
  match set_up mock_daemon with
  | (d, Ok _) => Ok d
  | (_, Err e) => Err e | (_, Panic) => Panic | (_, Hang) => Hang
  end.
(** ** What the mock server answers *)

(** The requests that are answered by one mock at a time. *)
Inductive Canned := CHeight | CTxpool | CTxpoolHashes | CBlock (height : Z).
#[export] Instance Canned_eq_dec : EqDecision Canned.
Proof. solve_decision. Defined.
Definition canned_when (k : Canned) : When :=
  match k with
  | CHeight => height_when | CTxpool => txpool_when | CTxpoolHashes => txpool_hashes_when
  | CBlock h => block_when h
  end.
Definition canned_id (k : Canned) (d : MockDaemon) : option nat :=
  match k with
  | CHeight => daemon_height_id d | CTxpool => txpool_id d | CTxpoolHashes => txpool_hashes_id d
  | CBlock h => block_ids d !! h
  end.

(** The calls of a test, and how they change the answers. *)
Inductive MockOp :=
  | OpHeight (height : Z)
  | OpTxpool (path : string)
  | OpTxpoolHashes (path : string)
  | OpBlock (height : Z) (path : string)
  | OpTransactions (request response : string)
  | OpTxpoolTransactions (request response : string).
Definition drop_id (m : mocking nat) : mocking unit := let! _ := m in ret tt.
Definition op_run (op : MockOp) : mocking unit :=
  match op with
  | OpHeight h => drop_id (mock_daemon_height h)
  | OpTxpool p => drop_id (mock_txpool p)
  | OpTxpoolHashes p => drop_id (mock_txpool_hashes p)
  | OpBlock h p => mock_block h p
  | OpTransactions q p => drop_id (mock_transactions q p)
  | OpTxpoolTransactions q p => drop_id (mock_txpool_transactions q p)
  end.

Notation answers := (Canned → option Then).
Definition answer_with (k : Canned) (t : Then) (m : answers) : answers :=
  λ k', if decide (k' = k) then Some t else m k'.
Definition op_answers (m : answers) (op : MockOp) : answers :=
  match op with
  | OpHeight h => answer_with CHeight (JsonCount h) m
  | OpTxpool p => answer_with CTxpool (BodyFromFile p) m
  | OpTxpoolHashes p => answer_with CTxpoolHashes (BodyFromFile p) m
  | OpBlock h p => answer_with (CBlock h) (BodyFromFile p) m
  | OpTransactions _ _ | OpTxpoolTransactions _ _ => m
  end.

(** What is set up at the start. *)
Definition initial_answers : answers := λ k,
  match k with
  | CHeight => Some (JsonCount 2477657)
  | CTxpool => Some (BodyFromFile "../testing-utils/rpc_resources/txpools/txpool.json")
  | CTxpoolHashes => Some (BodyFromFile "../testing-utils/rpc_resources/txpools/hashes.json")
  | CBlock h =>
      if decide (2477647 ≤ h < 2477647 + 19) then Some (BodyFromFile (block_file (pretty h) "block.json"))
      else None
  end.

Context (mocks : Srv → gmap nat (When * Then)) `{!LawfulHttpMock mocks}.

(** Each canned request has the one mock whose id is recorded, or none. *)
Record canned_ok (m : answers) (d : MockDaemon) : Prop := {
  serves_canned k id t :
    mocks (md_server d) !! id = Some (canned_when k, t) ↔ canned_id k d = Some id ∧ m k = Some t;
  serves_recorded k id : canned_id k d = Some id → is_Some (m k);
}.
(** The recorded mock of the transactions of the txpool is none of them. *)
Definition is_transactions (id : nat) (d : MockDaemon) : Prop :=
  ∃ hs t, mocks (md_server d) !! id = Some (transactions_when hs, t).
Definition serves (m : answers) (d : MockDaemon) : Prop :=
  canned_ok m d ∧ ∀ id, txpool_transactions_id d = Some id → is_transactions id d.

(** ** Replacing a mock *)

Definition record_id (k : Canned) (id : nat) (d : MockDaemon) : MockDaemon :=
  match k with
  | CHeight => mk_MockDaemon (md_server d) (Some id) (block_ids d) (txpool_id d) (txpool_hashes_id d)
                 (txpool_transactions_id d)
  | CTxpool => mk_MockDaemon (md_server d) (daemon_height_id d) (block_ids d) (Some id) (txpool_hashes_id d)
                 (txpool_transactions_id d)
  | CTxpoolHashes => mk_MockDaemon (md_server d) (daemon_height_id d) (block_ids d) (txpool_id d) (Some id)
                       (txpool_transactions_id d)
  | CBlock h => mk_MockDaemon (md_server d) (daemon_height_id d) (<[h := id]> (block_ids d)) (txpool_id d)
                  (txpool_hashes_id d) (txpool_transactions_id d)
  end.
Definition replace_mock (k : Canned) (t : Then) : mocking nat :=
  delete_old (canned_id k) ;;;
  let! id := new_mock (canned_when k) t in
  modify (record_id k id) ;;;
  ret id.

Lemma record_id_server k id d : md_server (record_id k id d) = md_server d.
Proof using Type. by destruct k. Qed.
Lemma record_id_transactions k id d :
  txpool_transactions_id (record_id k id d) = txpool_transactions_id d.
Proof using Type. by destruct k. Qed.
Lemma canned_id_record k id k' d :
  canned_id k' (record_id k id d) = if decide (k' = k) then Some id else canned_id k' d.
Proof using Type.
  destruct k, k'; simpl; try done; try (by rewrite decide_False by congruence).
  case_decide as E; simplify_eq; [by rewrite lookup_insert_eq|].
  rewrite lookup_insert_ne by congruence. done.
Qed.
Lemma canned_id_server k s d : canned_id k (set_server s d) = canned_id k d.
Proof using Type. by destruct k. Qed.

Lemma block_when_inj h h' : block_when h = block_when h' → h = h'.
Proof using Type.
  intros E%(f_equal when_body). cbn [when_body block_when] in E.
  apply (inj Some), app_inv_head, app_inv_tail in E.
  apply (f_equal String.string_of_list_ascii) in E. unfold txt in E.
  rewrite !String.string_of_list_ascii_of_string in E. by apply (inj pretty).
Qed.
Lemma canned_when_inj k k' : canned_when k = canned_when k' → k = k'.
Proof using Type.
  destruct k as [| | |h], k' as [| | |h']; cbn [canned_when]; intros E; try done;
    try (apply (f_equal when_path) in E; by vm_compute in E).
  f_equal. by apply block_when_inj.
Qed.
Lemma canned_when_transactions k hs : canned_when k ≠ transactions_when hs.
Proof using Type. by destruct k. Qed.

(** Between the deletion and the new mock nothing answers [k]. *)
Lemma deleted_serves m k d :
  serves m d →
  ∃ s, delete_old (canned_id k) d = (set_server s d, Ok tt) ∧
    (∀ k' id t, mocks s !! id = Some (canned_when k', t) ↔ k' ≠ k ∧ canned_id k' d = Some id ∧ m k' = Some t) ∧
    (∀ id hs t, mocks (md_server d) !! id = Some (transactions_when hs, t) →
       mocks s !! id = Some (transactions_when hs, t)).
Proof using All.
  intros [[Hcanned Hrec] _]. unfold delete_old. destruct (canned_id k d) as [id0|] eqn:E.
  - destruct (Hrec k id0 E) as [t0 Ht0].
    assert (mocks (md_server d) !! id0 = Some (canned_when k, t0)) as Hid0 by by apply Hcanned.
    eexists. split; [done|]. rewrite mock_deleted by by eexists. split.
    + intros k' id t. rewrite lookup_delete_Some, Hcanned. split; [|intros (Hk & Hid & Ht)].
      * intros (Hne & Hid & Ht). split_and!; [intros ->; congruence|done..].
      * split; [|done]. intros <-. apply Hk, canned_when_inj.
        assert (mocks (md_server d) !! id0 = Some (canned_when k', t)) by by apply Hcanned. congruence.
    + intros id hs t Hid. rewrite lookup_delete_ne; [done|]. intros <-. rewrite Hid0 in Hid.
      injection Hid as Hw _. by destruct (canned_when_transactions k hs).
  - exists (md_server d). split; [by destruct d|]. split; [|done].
    intros k' id t. rewrite Hcanned. split; [|tauto].
    intros [Hid Ht]. split; [intros ->; congruence|done].
Qed.

Lemma replace_mock_serves m k t d :
  serves m d → wp (replace_mock k t) (λ d' r, (∃ id, r = Ok id) ∧ serves (answer_with k t m) d') d.
Proof using All.
  intros Hd. destruct (deleted_serves m k d Hd) as (s & Hdel & Hs & Htx).
  destruct (mock_new (canned_when k) t s) as [Hfresh Hnew].
  unfold replace_mock, new_mock, wp, bind. rewrite Hdel. cbn [md_server set_server].
  destruct (server_mock (canned_when k) t s) as [s' id0] eqn:E. cbn [fst snd] in *.
  unfold modify, ret. cbn [fst snd]. split; [by eexists|].
  split; [split|]; unfold is_transactions; rewrite ?record_id_server, ?record_id_transactions;
    cbn [md_server set_server].
  - intros k' id t'. rewrite Hnew, canned_id_record, !canned_id_server, lookup_insert. unfold answer_with.
    destruct (decide (k' = k)) as [->|Hk], (decide (id0 = id)) as [->|Hid]; rewrite ?Hs.
    + split; [by intros [= ->]|by intros [_ [= ->]]].
    + split; [by intros [? _]|by intros [[= ?] _]].
    + pose proof (Hs k' id t') as Hid'. rewrite Hfresh in Hid'. split; [|by intros ?%(conj Hk)%Hid'].
      intros [= Hw _]. by apply canned_when_inj in Hw.
    + tauto.
  - intros k' id. rewrite canned_id_record, !canned_id_server. unfold answer_with.
    case_decide; [by eexists|apply (proj1 Hd)].
  - intros id Hid. destruct (proj2 Hd id Hid) as (hs & t' & Ht). exists hs, t'.
    apply Htx in Ht. rewrite Hnew, lookup_insert_ne; [done|]. intros <-. congruence.
Qed.

(** ** Transactions *)

Definition unreadable (request_path : string) : Prop :=
  ∀ d, expected_hashes request_path d = (d, Panic).
Lemma expected_hashes_read p :
  unreadable p ∨ ∃ hs, ∀ d, expected_hashes p d = (d, Ok hs).
Proof using Type.
  unfold unreadable, expected_hashes. destruct (read_file p) as [c|]; [|by left].
  destruct (from_slice c) as [j|]; [|by left]. destruct (mapM _ _); [|by left]. right. by eexists.
Qed.

(** What a call leaves behind: the answers [m'], or a panic on a request file
    that cannot be read. *)
Definition leaves {A} (m' : answers) (d' : MockDaemon) (r : outcome Empty_set A) : Prop :=
  match r with
  | Ok _ => serves m' d'
  | Panic => ∃ p, unreadable p
  | _ => False
  end.

Lemma mock_transactions_ok m q p d :
  canned_ok m d →
  wp (mock_transactions q p) (λ d' r,
    match r with
    | Ok id => canned_ok m d' ∧ is_transactions id d' ∧
        txpool_transactions_id d' = txpool_transactions_id d ∧
        ∀ id', is_transactions id' d → is_transactions id' d'
    | Panic => ∃ p, unreadable p
    | _ => False
    end) d.
Proof using All.
  intros Hd. unfold mock_transactions, wp, bind.
  destruct (expected_hashes_read q) as [Hq|[hs Hq]]; rewrite Hq; cbn [fst snd]; [by exists q|].
  unfold new_mock. destruct (mock_new (transactions_when hs) (BodyFromFile p) (md_server d)) as [Hfresh Hnew].
  destruct (server_mock _ _ _) as [s' id0]. unfold is_transactions. cbn [fst snd md_server set_server] in *.
  split_and!; [split; cbn [md_server set_server]|..|done|].
  - intros k id t. rewrite Hnew, canned_id_server, lookup_insert, <-(serves_canned _ _ Hd).
    case_decide as E; [subst id0|done]. rewrite Hfresh. split; [|done]. intros [= Hw _].
    by destruct (canned_when_transactions k hs).
  - intros k id. rewrite canned_id_server. apply Hd.
  - exists hs, (BodyFromFile p). by rewrite Hnew, lookup_insert_eq.
  - intros id (hs' & t' & Ht). exists hs', t'. rewrite Hnew, lookup_insert_ne; [done|congruence].
Qed.

(** ** Any sequence of calls *)

Lemma leaves_weaken {A B} m (d : MockDaemon) (r : outcome Empty_set A) (r' : outcome Empty_set B) :
  leaves m d r → match r, r' with Ok _, Ok _ | Panic, Panic => True | _, _ => False end → leaves m d r'.
Proof using Type. by destruct r, r'. Qed.
Lemma wp_leaves_bind {A B} m m' (f : mocking A) (g : A → mocking B) d :
  wp f (leaves m) d → (∀ a d', serves m d' → wp (g a) (leaves m') d') → wp (bind f g) (leaves m') d.
Proof using Type.
  unfold wp, bind. destruct (f d) as [d' [a|e| |]]; simpl; intros Hf Hg; [by apply Hg|done..].
Qed.
Lemma wp_replace m k t d : serves m d → wp (replace_mock k t) (leaves (answer_with k t m)) d.
Proof using All. intros Hd. pose proof (replace_mock_serves m k t d Hd) as [[id E] Hs]. unfold wp, leaves. by rewrite E. Qed.
Lemma wp_transactions m q p d : serves m d → wp (mock_transactions q p) (leaves m) d.
Proof using All.
  intros [Hok Htx]. eapply wp_mono; [by apply mock_transactions_ok|].
  intros d' [id|e| |]; simpl; [|done..]. intros (? & _ & E & Hkeep). split; [done|].
  intros id'. rewrite E. intros ?. by apply Hkeep, Htx.
Qed.
Lemma wp_leaves_ret {A} m (a : A) d : serves m d → wp (ret a) (leaves m) d.
Proof using Type. done. Qed.

(** Nothing that answers a canned request is deleted with the old mock of the
    transactions of the txpool. *)
Lemma delete_transactions_ok m d :
  serves m d → ∃ s, delete_old txpool_transactions_id d = (set_server s d, Ok tt) ∧ canned_ok m (set_server s d).
Proof using All.
  intros [[Hc Hr] Htx]. unfold delete_old. destruct (txpool_transactions_id d) as [id0|] eqn:E.
  2:{ exists (md_server d). destruct d. by split; [|split]. }
  eexists. split; [done|]. destruct (Htx id0 eq_refl) as (hs & t0 & H1).
  split; cbn [md_server set_server]; intros k id; rewrite canned_id_server; [|apply Hr].
  intros t. rewrite mock_deleted by by eexists. rewrite lookup_delete_Some, Hc. split; [tauto|].
  intros Hid. split; [|done]. intros <-. apply Hc in Hid. rewrite H1 in Hid. injection Hid as Hw _.
  by destruct (canned_when_transactions k hs).
Qed.
Lemma wp_txpool_transactions m q p d : serves m d → wp (mock_txpool_transactions q p) (leaves m) d.
Proof using All.
  intros Hd. destruct (delete_transactions_ok m d Hd) as (s & Hdel & Hok).
  pose proof (mock_transactions_ok m q p _ Hok) as H1.
  unfold mock_txpool_transactions, wp, bind in *. rewrite Hdel.
  destruct (mock_transactions q p (set_server s d)) as [d' [id|e| |]]; cbn [fst snd] in *; [|done..].
  destruct H1 as ([Hc Hr] & Hid & _ & _). split; [split|].
  - intros k id' t. apply (Hc k id' t).
  - intros k id'. apply (Hr k id').
  - cbn. by intros id' [= <-].
Qed.

Lemma mock_block_run h p d : mock_block h p d = drop_id (replace_mock (CBlock h) (BodyFromFile p)) d.
Proof using Type.
  unfold mock_block, drop_id, replace_mock, new_mock, delete_old, bind, modify, ret. cbn [canned_id].
  destruct (block_ids d !! h) as [id|]; by destruct (server_mock _ _ _).
Qed.
Lemma wp_mock_block m h p d :
  serves m d → wp (mock_block h p) (leaves (answer_with (CBlock h) (BodyFromFile p) m)) d.
Proof using All.
  intros Hd. unfold wp. rewrite mock_block_run.
  apply (wp_leaves_bind (answer_with (CBlock h) (BodyFromFile p) m)); [by apply wp_replace|].
  intros; by apply wp_leaves_ret.
Qed.

Lemma op_serves m op d : serves m d → wp (op_run op) (leaves (op_answers m op)) d.
Proof using All.
  intros Hd. destruct op; cbn [op_run op_answers]; unfold drop_id; [..|by apply wp_mock_block| |].
  all: eapply wp_leaves_bind; [|intros; by apply wp_leaves_ret].
  - by apply (wp_replace m CHeight).
  - by apply (wp_replace m CTxpool).
  - by apply (wp_replace m CTxpoolHashes).
  - by apply wp_transactions.
  - by apply wp_txpool_transactions.
Qed.
Lemma ops_serve m ops d : serves m d → wp (for_each ops op_run) (leaves (foldl op_answers m ops)) d.
Proof using All.
  revert m d. induction ops as [|op ops IH]; intros m d Hd; [done|].
  cbn [for_each foldl]. eapply wp_leaves_bind; [by apply op_serves|]. intros _ d' Hd'. by apply IH.
Qed.

Lemma serves_ext m m' d : (∀ k, m k = m' k) → serves m d → serves m' d.
Proof using Type.
  intros Hm [[Hc Hr] Htx]. split; [split|done].
  - intros k id t. by rewrite <-Hm.
  - intros k id. rewrite <-Hm. apply Hr.
Qed.

Definition with_blocks (a n : Z) (m : answers) : answers := λ k,
  match k with
  | CBlock h => if decide (a ≤ h < a + n) then Some (BodyFromFile (block_file (pretty h) "block.json")) else m k
  | _ => m k
  end.
Lemma wp_canned_block m i d :
  serves m d → wp (mock_canned_block i) (leaves (with_blocks i 1 m)) d.
Proof using All.
  intros Hd. unfold mock_canned_block.
  eapply (wp_leaves_bind (with_blocks i 1 m)).
  - eapply wp_mono; [by apply wp_mock_block|]. intros d' [[]|e| |]; simpl; [|done..].
    apply serves_ext. intros [| | |h]; unfold answer_with, with_blocks; try done.
    case_decide as E; simplify_eq; [by rewrite decide_True by lia|]. rewrite decide_False; [done|].
    intros ?. apply E. f_equal. lia.
  - intros _ d' Hd'. case_decide; [by apply wp_leaves_ret|].
    eapply wp_leaves_bind; [by apply wp_transactions|]. intros; by apply wp_leaves_ret.
Qed.
Lemma wp_canned_blocks m a (n : nat) d :
  serves m d → wp (for_each (seqZ a (Z.of_nat n)) mock_canned_block) (leaves (with_blocks a (Z.of_nat n) m)) d.
Proof using All.
  revert m a d. induction n as [|n IH]; intros m a d Hd.
  - eapply wp_leaves_ret, serves_ext; [|done]. intros [| | |h]; simpl; try done. by rewrite decide_False by lia.
  - rewrite seqZ_cons by lia. cbn [for_each].
    eapply wp_leaves_bind; [by apply wp_canned_block|]. intros _ d' Hd'.
    replace (Z.pred (Z.of_nat (S n))) with (Z.of_nat n) by lia.
    eapply wp_mono; [by apply IH|]. intros d'' [[]|e| |]; simpl; [|done..].
    apply serves_ext. intros [| | |h]; simpl; try done.
    repeat case_decide; try done; lia.
Qed.

(** C39: once it is set up, and after any calls of a test, the mock daemon has
    for the block count, the txpool, its hashes and each block exactly one
    answer, the last that was set; nothing fails but the reading of a request
    file. *)
Theorem mock_daemon_serves (ops : list MockOp) :
  match new_mock_daemon with
  | Ok d => serves initial_answers d ∧
      match for_each ops op_run d with
      | (d', Ok _) => serves (foldl op_answers initial_answers ops) d'
      | (_, Panic) => ∃ p, unreadable p
      | _ => False
      end
  | Panic => ∃ p, unreadable p
  | _ => False
  end.
Proof using All.
  assert (wp (let! _ := mock_daemon_height 2477657 in
              let! _ := mock_txpool "../testing-utils/rpc_resources/txpools/txpool.json" in
              let! _ := mock_txpool_hashes "../testing-utils/rpc_resources/txpools/hashes.json" in
              for_each (seqZ 2477647 19) mock_canned_block) (leaves initial_answers)
            (mk_MockDaemon MockServer_start None ∅ None None None)) as H1.
  { eapply wp_leaves_bind; [apply (wp_replace (λ _, None) CHeight); split; [split|done]|intros _ d1 Hd1].
    { intros k id t. cbn. rewrite start_empty, lookup_empty. by split; [|intros [_ ?]]. }
    { by intros []. }
    eapply wp_leaves_bind; [exact (wp_replace _ CTxpool _ d1 Hd1)|intros _ d2 Hd2].
    eapply wp_leaves_bind; [exact (wp_replace _ CTxpoolHashes _ d2 Hd2)|intros _ d3 Hd3].
    eapply wp_mono; [exact (wp_canned_blocks _ 2477647 19 d3 Hd3)|].
    intros d' [[]|e| |]; simpl; [|done..]. apply serves_ext. by intros [| | |h]. }
  unfold wp in H1. unfold new_mock_daemon.
  destruct (bind (mock_daemon_height 2477657) _ _) as [d [[]|e| |]]; cbn [leaves fst snd] in *; [|done..].
  split; [done|]. pose proof (ops_serve initial_answers ops d H1) as H2. unfold wp in H2.
  by destruct (for_each ops op_run d) as [d' [[]|e| |]].
Qed.

(** What the daemon is asked for is what the mocks wait for. *)
Theorem mock_bodies_match (height : Z) :
  when_body height_when = Some get_block_count_body ∧ when_body (block_when height) = Some (get_block_body height).
Proof using Type.
  split; [by vm_compute|]. cbn [when_body block_when]. unfold get_block_body.
  replace (raw _) with (txt "{" ++ q "jsonrpc" ++ txt ":" ++ q "2.0" ++ txt "," ++ q "id" ++ txt ":" ++ q "0" ++ txt ","
    ++ q "method" ++ txt ":" ++ q "get_block" ++ txt "," ++ q "params" ++ txt ":{" ++ q "height" ++ txt ":")
    by (by vm_compute).
  by rewrite <-!app_assoc.
Qed.
End daemon.

(** ** The property applied *)

#[local] Instance map_mock : HttpMock (gmap nat (When * Then)) := {|
  MockServer_start := ∅;
  server_mock := λ w t s, let id := fresh (dom s) in (<[id := (w, t)]> s, id);
  Mock_delete := λ id s, delete id s;
|}.
#[local] Instance map_mock_lawful : LawfulHttpMock (Srv:=gmap nat (When * Then)) id.
Proof. split; [done|..|done]. intros w t s. split; [|done]. apply not_elem_of_dom, is_fresh. Qed.

Notation demo_daemon := (new_mock_daemon (Srv:=gmap nat (When * Then)) (Net:=DemoNet) (λ _, Some [])).
Notation advanced d :=
  (for_each [OpHeight 2477658; OpTxpoolTransactions "txs_hashes.json" "txs.json"]
     (op_run (Srv:=gmap nat (When * Then)) (Net:=DemoNet) (λ _, Some [])) d).
Definition is_ok_outcome {E A} (r : outcome E A) : bool := match r with Ok _ => true | _ => false end.

(** A test lets the chain advance by a block: only the new count is answered. *)
Lemma mock_daemon_serves_witness :
  ∃ d, demo_daemon = Ok d ∧ (advanced d).2 = Ok tt ∧
    ∀ id t, md_server (advanced d).1 !! id = Some (height_when, t) → t = JsonCount 2477658.
Proof.
  pose proof (mock_daemon_serves (Srv:=gmap nat (When * Then)) (Net:=DemoNet) (λ _, Some []) id
    [OpHeight 2477658; OpTxpoolTransactions "txs_hashes.json" "txs.json"]) as Hserves.
  assert (match demo_daemon with Ok d => is_ok_outcome (advanced d).2 | _ => false end = true) as Hok
    by by vm_compute.
  destruct demo_daemon as [d|e| |]; [|done..]. exists d. split; [done|]. destruct Hserves as [_ Hserves].
  destruct (advanced d) as [d' [[]|e| |]]; [|done..]. split; [done|].
  intros i t Hi. apply (serves_canned _ _ _ (proj1 Hserves) CHeight) in Hi as [_ Ht].
  cbn in Ht. by injection Ht as <-.
Defined.
