(* ===== verification/Server.v ===== *)
(** The server around the gateway: the handlers of its two APIs
    ([server/src/server/api/]), the bearer token ([server/src/server/auth.rs])
    and the task that watches all invoice updates ([server/src/lib.rs]).

    Routing, extraction of the parameters of a request and the transport are
    the web framework's: a request is its route with the extracted
    parameters, and its authorization header. *)
From S2P Require Import Prelude.
From S2P Require Import Invoice.
From S2P Require Import Storage.
From S2P Require Import Monerod.
From S2P Require Import SubaddressCache.
From S2P Require Import Pubsub.
From S2P Require Import PaymentGateway.
From S2P Require Import Text.
From S2P Require Import InvoiceText.
From S2P Require Import InvoiceIdApi.
From S2P Require Import Callbacks.

(** ** The bearer token *)

(** [MaybeBearer::validate]: the status of the refusal, if there is one. *)
Definition UNAUTHORIZED : Z := 401.
Definition MaybeBearer_validate (token authorization : option text) : unit + Z :=
  match token with
  | Some token =>
      match authorization with
      | Some actual => if decide (actual = txt "Bearer " ++ token) then inl tt else inr UNAUTHORIZED
      | None => inr UNAUTHORIZED
      end
  | None => inl tt
  end.

(** ** Requests and responses *)

Record NewInvoiceParams := mk_NewInvoiceParams {
  p_piconeros_due : Z;
  p_confirmations_required : Z;
  p_expiration_in : Z;
  p_order : string;
  p_callback : option string;
}.

Inductive Body :=
  | BodyEmpty
  | BodyText (t : string)
  | BodyId (payload : InvoiceIdPayload)
  | BodyIds (ids : list Base64InvoiceId)
  | BodyUpdate (update : InvoiceUpdate)
  | BodyHtml (page : text)
  | BodyUpgrade (subscriber : nat).   (* the websocket of a subscriber *)
Record HttpResponse := mk_HttpResponse {
  r_status : Z;
  r_no_store : bool;                  (* the header [Cache-Control: no-store] *)
  r_body : Body;
}.

(** The routes of the two routers, and what is merged around them. *)
Inductive Route :=
  | PostInvoice (payload : NewInvoiceParams)
  | DeleteInvoice (query : InvoiceIdQuery)
  | GetInvoiceIds
  | GetInvoice (query : InvoiceIdQuery)
  | GetWebsocket (query : InvoiceIdQuery) (sender_id : Z)
  | GetPay (query : InvoiceIdQuery)
  | GetStatic (path : string)
  | GetSwagger.

Inductive Api := ExternalApi | InternalApi.

(** The templates of [tera], the files of [ServeDir], and what the framework
    answers to requests that a router has no handler for. *)
Class WebCrates (E : Type) := {
  TeraError : Type;
  IoError : Type;
  Templates : Type;
  Tera_new : option Templates;        (* [None]: the templates cannot be read *)
  render_pay : Templates → InvoiceUpdate → text + TeraError;
  render_missing_invoice : Templates → InvoiceIdPayload → text + TeraError;
  render_error : Templates → E → text + TeraError;
  serve_dir : string → HttpResponse;
  unrouted : Api → Route → HttpResponse;
  swagger_ui : HttpResponse;
}.

Section server.
Context `{Build} `{HashOrder} `{Monero} `{RngCore}.
Context {W RpcError : Type} `{!MonerodClient W RpcError}.
Context {St EI EK EH EF : Type} `{!Storage St EI EK EH EF}.
Context {CW : Type} `{!ServerCrates CW} `{Base64Crate} `{NumberText}.
Notation XmrError := (AcceptXmrError RpcError EI EK EH EF).
Notation gateway := (Gateway W RpcError St EI EK EH EF).
Context `{!WebCrates XmrError}.

Inductive ApiError :=
  | AcceptXmr (e : XmrError)
  | DescriptionSerialization (e : JsonError)
  | ApiInvalidCallback (e : InvalidUri)
  | InvalidResponse (e : HttpError)
  | InvoiceNotFound (id : InvoiceId)
  | InvalidInvoiceId (e : InvoiceIdParseError)
  | MissingResource (e : IoError)
  | TemplatingError (e : TeraError).

Definition ApiError_status_code (self : ApiError) : Z :=
  match self with
  | AcceptXmr _ | InvalidResponse _ | TemplatingError _ => 500
  | InvalidInvoiceId _ | DescriptionSerialization _ | ApiInvalidCallback _ => 400
  | MissingResource _ | InvoiceNotFound _ => 404
  end.
Definition ApiError_message (self : ApiError) : string :=
  match self with
  | AcceptXmr _ => "Internal payment gateway error"
  | DescriptionSerialization _ => "Failed to serialize invoice description"
  | ApiInvalidCallback _ => "Callback is not a valid URI"
  | InvalidResponse _ => "Failed to build HTTP response"
  | InvoiceNotFound _ => "Invoice not found"
  | InvalidInvoiceId _ => "Invalid invoice ID"
  | MissingResource _ => "Missing static resource"
  | TemplatingError _ => "Failed to render template"
  end.
Definition ApiError_into_response (self : ApiError) : HttpResponse :=
  mk_HttpResponse (ApiError_status_code self) false (BodyText (ApiError_message self)).

Notation api A := (M gateway ApiError A).
Definition parse_id (id : InvoiceIdQuery) : api InvoiceId :=
  map_err InvalidInvoiceId (lift (InvoiceId_try_from_query id)).
Definition json (b : Body) : HttpResponse := mk_HttpResponse 200 true b.

(** ** The internal API *)

Definition new_invoice (payload : NewInvoiceParams) : api HttpResponse :=
  (match p_callback payload with
   | Some callback =>
       match callback_uri_from_str callback with
       | inl _ => ret tt
       | inr e => throw (ApiInvalidCallback e)
       end
   | None => ret tt
   end) ;;;
  match description_to_json (mk_InvoiceDescription (p_order payload) (p_callback payload)) with
  | inr e => throw (DescriptionSerialization e)
  | inl description =>
      let! invoice_id := map_err AcceptXmr
        (PaymentGateway_new_invoice (p_piconeros_due payload) (p_confirmations_required payload)
           (p_expiration_in payload) description) in
      ret (json (BodyId (InvoiceIdPayload_from invoice_id)))
  end.

Definition delete_invoice (invoice_id : InvoiceIdQuery) : api HttpResponse :=
  let! invoice_id := parse_id invoice_id in
  let! removed := map_err AcceptXmr (PaymentGateway_remove_invoice invoice_id) in
  let status := match removed with Some _ => 200 | None => 404 end in
  ret (mk_HttpResponse status true BodyEmpty).

Definition invoice_ids : api HttpResponse :=
  let! ids := map_err AcceptXmr PaymentGateway_get_invoice_ids in
  ret (json (BodyIds (Base64InvoiceId_from <$> ids))).

(** ** The external API *)

Definition get_invoice_status (query : InvoiceIdQuery) : api HttpResponse :=
  let! invoice_id := parse_id query in
  let! found := map_err AcceptXmr (PaymentGateway_get_invoice invoice_id) in
  match found with
  | Some invoice => ret (json (BodyUpdate (InvoiceUpdate_from invoice)))
  | None => throw (InvoiceNotFound invoice_id)
  end.

Definition websocket (query : InvoiceIdQuery) (sender_id : Z) : api HttpResponse :=
  let! invoice_id := parse_id query in
  λ g, match PaymentGateway_subscribe sender_id invoice_id g with
       | (g, Some subscriber) => (g, Ok (mk_HttpResponse 101 false (BodyUpgrade subscriber)))
       | (g, None) => (g, Ok (mk_HttpResponse 404 false BodyEmpty))
       end.

Definition render (page : text + TeraError) (status : Z) : api HttpResponse :=
  match page with
  | inl page => ret (mk_HttpResponse status true (BodyHtml page))
  | inr e => throw (TemplatingError e)
  end.
Definition pay (query : InvoiceIdQuery) : api HttpResponse :=
  let! invoice_id := parse_id query in
  match Tera_new with
  | None => panic
  | Some templates =>
      let! found := try_ (PaymentGateway_get_invoice invoice_id) in
      match found with
      | inl (Some invoice) => render (render_pay templates (InvoiceUpdate_from invoice)) 200
      | inl None => render (render_missing_invoice templates (InvoiceIdPayload_from invoice_id)) 404
      | inr e => render (render_error templates e) 500
      end
  end.

(** ** The servers *)

(** The routers of [external] and [internal]; other paths are files. *)
Definition route (a : Api) (r : Route) : api HttpResponse :=
  match a, r with
  | InternalApi, PostInvoice payload => new_invoice payload
  | InternalApi, DeleteInvoice query => delete_invoice query
  | InternalApi, GetInvoiceIds => invoice_ids
  | ExternalApi, GetWebsocket query sender_id => websocket query sender_id
  | ExternalApi, GetInvoice query => get_invoice_status query
  | ExternalApi, GetPay query => pay query
  | _, GetStatic path => ret (serve_dir path)
  | _, GetSwagger => ret swagger_ui
  | _, _ => ret (unrouted a r)
  end.

(** A request to [new_server]: the token is required of every route but those
    merged after the layer that validates it. *)
Definition serve (a : Api) (token authorization : option text) (r : Route) :
    gateway → gateway * outcome Empty_set HttpResponse :=
  λ g,
    let answer :=
      match route a r g with
      | (g, Ok response) => (g, Ok response)
      | (g, Err e) => (g, Ok (ApiError_into_response e))
      | (g, Panic) => (g, Panic)
      | (g, Hang) => (g, Hang)
      end in
    match r with
    | GetSwagger => answer
    | _ => match MaybeBearer_validate token authorization with
           | inl _ => answer
           | inr status => (g, Ok (mk_HttpResponse status false BodyEmpty))
           end
    end.

(** ** The monitor *)

(** One round of the task of [spawn_gateway]: [update] is what the subscriber
    to all invoices received. *)
Definition outdated (invoice : Invoice) : bool :=
  Invoice_is_expired invoice && (Invoice_is_confirmed invoice || negb (Invoice_is_paid invoice)).
Definition monitor (delete_expired : bool) (update : option Invoice) :
    M (gateway * CallbackQueue (W:=CW)) Empty_set unit :=
  match update with
  | None => panic
  | Some invoice => λ '(g, q),
      if cq_receiving q then
        match queue_send (Call invoice 0 0) q with
        | None => ((g, q), Hang)     (* until there is room *)
        | Some q =>
            if outdated invoice && delete_expired then
              match PaymentGateway_remove_invoice (Invoice_id invoice) g with
              | (g, Ok _) | (g, Err _) => ((g, q), Ok tt)
              | (g, Panic) => ((g, q), Panic)
              | (g, Hang) => ((g, q), Hang)
              end
            else ((g, q), Ok tt)
        end
      else ((g, q), Panic)
  end.

End server.
