(* ===== verification/ApiTests.v ===== *)
(** The unit tests of the API of the server
    ([server/src/server/api/types/invoice_id.rs], [internal.rs] and
    [external.rs]) and of the builder of the gateway ([payment_gateway.rs]).
    A gateway is built with the seed and the mock client of the tests, and
    requests go to the routers; what a response holds is compared before it is
    written as JSON. *)
From S2P Require Import Prelude.
From S2P Require Import TestKit.
From S2P Require Import Invoice.
From S2P Require Import Storage.
From S2P Require Import InMemory.
From S2P Require Import Text.
From S2P Require Import InvoiceText.
From S2P Require Import Monerod.
From S2P Require Import SubaddressCache.
From S2P Require Import PaymentGateway.
From S2P Require Import InvoiceIdApi.
From S2P Require Import Callbacks.
From S2P Require Import Server.

(** ** [api/types/invoice_id.rs] *)

Section ids.
Context `{Base64Crate}.

(** The text, [None] if the test panics. *)
Definition test_base64_invoice_roundtrip (invoice_id : InvoiceId) : option text :=
  let base64_invoice_id := Base64InvoiceId_from invoice_id in
  match InvoiceId_try_from_base64 base64_invoice_id with
  | Ok id => if decide (id = invoice_id) then Some base64_invoice_id else None
  | _ => None
  end.
Definition base64_invoice_roundtrip_cases : list (InvoiceId * option text) :=
  let id mj mn h := InvoiceId_new (SubIndex_new mj mn) h in
  [(id 0 0 0, Some (txt "AAAAAAAAAAAAAAAAAAAAAA")); (id u32_max 0 0, Some (txt "_____wAAAAAAAAAAAAAAAA"));
   (id 0 u32_max 0, Some (txt "AAAAAP____8AAAAAAAAAAA")); (id 0 0 u64_max, Some (txt "AAAAAAAAAAD__________w"));
   (id u32_max u32_max u64_max, Some (txt "_____________________w"))].

Definition test_invoice_id_try_from_base64 (base64_invoice_id : text) : outcome unit InvoiceId :=
  let forget {A E} (r : outcome E A) : outcome unit A :=
    match r with Ok a => Ok a | Err _ => Err tt | Panic => Panic | Hang => Hang end in
  match forget (Base64InvoiceId_try_from base64_invoice_id) with
  | Ok id => forget (InvoiceId_try_from_base64 id)
  | Err e => Err e | Panic => Panic | Hang => Hang
  end.
Definition invoice_id_try_from_base64_cases : list (text * outcome unit InvoiceId) :=
  [(txt "AAAAAAAAAAAAAAAAAAAAAA", Ok (InvoiceId_new (SubIndex_new 0 0) 0));
   (txt "I am an invalid base64 invoice ID", Err tt); (txt "Invalid", Err tt); (txt "", Err tt)].
End ids.

(** ** The gateway of the tests *)

Definition PRIVATE_VIEW_KEY : string := "ad2093a5705b9f33e6f0f0c1bc1f5f639c756cdfc168c8f2ac6127ccbdab3a03".
Definition PRIMARY_ADDRESS : string :=
  "4613YiHLM6JMH4zejMB2zJY5TwQCxL8p65ufw8kBP5yxX9itmuGLqp1dS4tkVoTxjyH3aYhYNrtGHbQzJQP5bFus3KHVdmf".

Section api.
Context `{Build} `{HashOrder} `{Monero} `{RngCore}.
Context {W RpcError : Type} `{!MonerodClient W RpcError} `{!GatewayCrates W}.
Context {CW : Type} `{!ServerCrates CW} `{Base64Crate} `{NumberText}.
Notation gateway := (Gateway W RpcError InMemory InMemoryStorageError InMemoryStorageError
  InMemoryStorageError InMemoryStorageError).
Notation XmrError := (AcceptXmrError RpcError InMemoryStorageError InMemoryStorageError
  InMemoryStorageError InMemoryStorageError).
Context `{!WebCrates XmrError}.

Definition test_builder : PaymentGatewayBuilder (St:=InMemory) :=
  PaymentGatewayBuilder_new PRIVATE_VIEW_KEY PRIMARY_ADDRESS InMemory_new.

(** [payment_gateway.rs]. *)
Definition test_daemon_url : Test unit :=
  match build (Builder_daemon_url "http://example.com:18081" test_builder) : outcome XmrError gateway with
  | Ok payment_gateway =>
      assert_eq String.eqb (PaymentGateway_daemon_url payment_gateway) "http://example.com:18081/"
  | _ => panic
  end.

(** A test starts with the gateway of [.seed(0).build_with_mock_daemon()]. *)
Definition on_test_gateway (t : Test gateway) : bool :=
  match build_with_mock_daemon (Builder_seed 0 test_builder) with
  | Ok payment_gateway => passes t payment_gateway
  | _ => false
  end.

(** A request to a router, without the layer that validates the token. *)
Definition call (a : Api) (r : Route) : M gateway Empty_set HttpResponse := serve a None None r.

Definition large_pizza : NewInvoiceParams :=
  mk_NewInvoiceParams 1000000 2 10 "large pizza" (Some "https://example.com/success?=largepizza"%string).
Definition first_id : InvoiceIdPayload := mk_InvoiceIdPayload (txt "AAAAAAAAAEkAAAAAACXOWQ").
Definition id_of (b : Body) : option Base64InvoiceId :=
  match b with BodyId payload => Some (payload_invoice_id payload) | _ => None end.

(** [internal.rs]. *)
Definition test_new_invoice : Test gateway :=
  let! response := call InternalApi (PostInvoice large_pizza) in
  assert_eq Z.eqb (r_status response) 200 ;;;
  assert_eq same (id_of (r_body response)) (Some (payload_invoice_id first_id)).

Definition test_delete_invoice : Test gateway :=
  let! creation_response := call InternalApi (PostInvoice large_pizza) in
  assert_eq Z.eqb (r_status creation_response) 200 ;;;
  assert_eq same (id_of (r_body creation_response)) (Some (payload_invoice_id first_id)) ;;;
  match id_of (r_body creation_response) with
  | Some invoice_id =>
      let! deletion_response := call InternalApi (DeleteInvoice (mk_InvoiceIdQuery invoice_id)) in
      assert_eq Z.eqb (r_status deletion_response) 200 ;;;
      let! get_response := call InternalApi (DeleteInvoice (mk_InvoiceIdQuery invoice_id)) in
      assert_eq Z.eqb (r_status get_response) 404
  | None => panic
  end.

Definition test_invoice_ids : Test gateway :=
  for_each (seq 0 5) (λ _,
    let! creation_response := call InternalApi (PostInvoice large_pizza) in
    assert_eq Z.eqb (r_status creation_response) 200) ;;;
  let! response := call InternalApi GetInvoiceIds in
  assert_eq Z.eqb (r_status response) 200 ;;;
  match r_body response with
  | BodyIds invoice_ids => assert_eq Nat.eqb (length invoice_ids) 5%nat
  | _ => panic
  end.

(** [external.rs]. *)
Definition first_address : string :=
  "84Gv7pf9wJhUS1pK7Kn7Fw2UScnKjdVnxRQfQMC3tsuZbMZkVKiUBrrJ8UPsztJQUXiFdEb1kcsD33bJy98gUB2g4pvirxc".
Definition expected_update : InvoiceUpdate :=
  mk_InvoiceUpdate (txt "AAAAAAAAAEkAAAAAACXOWQ") first_address
    (txt "monero:" ++ txt first_address ++ txt "?tx_amount=0.000001")
    1000000 0 2 None 10 0 "large pizza" (Some "https://example.com/success?=largepizza"%string).
#[export] Instance InvoiceUpdate_eq_dec : EqDecision InvoiceUpdate.
Proof. solve_decision. Defined.

Definition test_get_invoice_status : Test gateway :=
  let! response := call InternalApi (PostInvoice large_pizza) in
  assert_eq same (id_of (r_body response)) (Some (payload_invoice_id first_id)) ;;;
  let! response := call ExternalApi (GetInvoice (mk_InvoiceIdQuery (txt "AAAAAAAAAEkAAAAAACXOWQ"))) in
  assert_eq Z.eqb (r_status response) 200 ;;;
  match r_body response with
  | BodyUpdate update => assert_eq same update expected_update
  | _ => panic
  end.
End api.
