(* ===== verification/Websocket.v ===== *)
(** The websocket of an invoice: the task that [handle_websocket] of
    [server/src/server/api/external.rs] spawns to pass the updates of a
    subscriber on to a client.

    The task that reads what the client sends only logs it, and is left out.
    The connection is a parameter: sending and closing succeed or fail, and
    the code only logs which. *)
From S2P Require Import Prelude.
From S2P Require Import Sustains.
From S2P Require Import Invoice.
From S2P Require Import Pubsub.
From S2P Require Import InvoiceText.
From S2P Require Import InvoiceIdApi.
From S2P Require Import Callbacks.

Inductive WsMessage :=
  | WsText (update : InvoiceUpdate)
  | WsClose (reason : string).       (* with the code for a normal closure *)

(** The sending half of the [WebSocket] of [axum]; [true] is [Ok]. *)
Class WebSocketCrate (Sock : Type) := {
  ws_send : WsMessage → Sock → Sock * bool;
  ws_close : Sock → Sock * bool;
}.

(** [sent] is what the client receives.  Nothing is sent once the closing
    handshake has begun or the connection is lost. *)
Class LawfulWebSocket `{WebSocketCrate Sock} (sent : Sock → list WsMessage) (is_open : Sock → bool) :
    Prop := {
  law_ws_send m k :
    if (ws_send m k).2 then
      is_open k = true ∧ sent (ws_send m k).1 = sent k ++ [m] ∧
      is_open (ws_send m k).1 = match m with WsText _ => true | WsClose _ => false end
    else sent (ws_send m k).1 = sent k ∧ (is_open k = false → is_open (ws_send m k).1 = false);
  law_ws_close k : sent (ws_close k).1 = sent k ∧ is_open (ws_close k).1 = false;
}.

Section websocket.
Context {CW : Type} `{!ServerCrates CW} `{Base64Crate} `{NumberText} {Sock : Type} `{!WebSocketCrate Sock}.

(** The publisher that the task shares, and its connection. *)
Record Session := mk_Session {
  ss_publisher : Publisher;
  ss_socket : Sock;
}.
Definition set_ss_publisher (p : Publisher) (s : Session) : Session := mk_Session p (ss_socket s).
Definition set_ss_socket (k : Sock) (s : Session) : Session := mk_Session (ss_publisher s) k.

Definition to_client (m : WsMessage) : M Session Empty_set unit :=
  modify (λ s, set_ss_socket (ws_send m (ss_socket s)).1 s).
Definition finish (reason : string) : M Session Empty_set unit :=
  to_client (WsClose reason) ;;;
  modify (λ s, set_ss_socket (ws_close (ss_socket s)).1 s).

(** One round of the loop; [false] ends it. *)
Definition websocket_round (subscriber : nat) : M Session Empty_set bool :=
  let! received := zoom ss_publisher set_ss_publisher (Subscriber_recv subscriber) in
  match received with
  | Some invoice =>
      to_client (WsText (InvoiceUpdate_from invoice)) ;;;
      (if Invoice_is_confirmed invoice then finish "Invoice Complete"
       else if Invoice_is_expired invoice then finish "Invoice Expired"
       else ret tt) ;;;
      ret true
  | None => ret false
  end.
Fixpoint websocket_loop (fuel : nat) (subscriber : nat) : M Session Empty_set unit :=
  match fuel with
  | O => hang
  | S fuel =>
      let! more := websocket_round subscriber in
      if more : bool then websocket_loop fuel subscriber else ret tt
  end.
(** The task drops the subscriber when its loop is over. *)
Definition handle_websocket (fuel : nat) (subscriber : nat) : M Session Empty_set unit :=
  websocket_loop fuel subscriber ;;;
  modify (λ s, set_ss_publisher (Subscriber_drop subscriber (ss_publisher s)) s).

(** * What the client sees *)

(** How the websocket is closed after an update, if it is. *)
Definition closing (invoice : Invoice) : option string :=
  if Invoice_is_confirmed invoice then Some "Invoice Complete"
  else if Invoice_is_expired invoice then Some "Invoice Expired" else None.

(** The updates up to the first that completes the invoice. *)
Fixpoint session (updates : list Invoice) : list WsMessage :=
  match updates with
  | [] => []
  | i :: updates =>
      WsText (InvoiceUpdate_from i) ::
      match closing i with
      | Some reason => [WsClose reason]
      | None => session updates
      end
  end.

Section lawful.
Context (sent : Sock → list WsMessage) (is_open : Sock → bool) `{!LawfulWebSocket sent is_open}.

(** No message is lost as long as the connection is open. *)
Definition reliable : Prop := ∀ m k, is_open k = true → (ws_send m k).2 = true.

(** From [k] to [k'] some of [l] is sent, and all of it over an open, reliable
    connection. *)
Definition sends (k k' : Sock) (l : list WsMessage) : Prop :=
  ∃ l', sent k' = sent k ++ l' ∧ l' `sublist_of` l ∧
    (is_open k = false → l' = [] ∧ is_open k' = false) ∧
    (reliable → is_open k = true → l' = l).

(** The connection is open afterwards, if it is reliable and was before. *)
Definition stays_open (k k' : Sock) : Prop := reliable → is_open k = true → is_open k' = true.

Lemma send_sends m k :
  sends k (ws_send m k).1 [m] ∧ match m with WsText _ => stays_open k (ws_send m k).1 | _ => True end.
Proof using All.
  pose proof (law_ws_send m k) as H1. unfold stays_open.
  destruct (ws_send m k) as [k' b] eqn:E. cbn [fst snd] in *. destruct b.
  - destruct H1 as (Ho & Hs & Ho'). split; [|by destruct m].
    exists [m]. split; [done|]. split; [done|]. split; [congruence|done].
  - destruct H1 as [Hs Ho]. assert (Hlost : reliable → is_open k ≠ true).
    { intros Hr Hk. specialize (Hr m k Hk). by rewrite E in Hr. }
    split; [|destruct m; [intros Hr Hk; by destruct (Hlost Hr)|done]].
    exists []. rewrite app_nil_r. split; [done|]. split; [apply sublist_nil_l|]. split; [auto|].
    intros Hr Hk. by destruct (Hlost Hr).
Qed.

Lemma sends_app k k1 k2 l1 l2 :
  sends k k1 l1 → sends k1 k2 l2 → stays_open k k1 → sends k k2 (l1 ++ l2).
Proof using Type.
  intros (l1' & E1 & Hs1 & Hc1 & Ho1) (l2' & E2 & Hs2 & Hc2 & Ho2) Hst. exists (l1' ++ l2').
  rewrite E2, E1, (assoc_L (++)). split; [done|]. split; [by apply sublist_app|]. split.
  - intros Hk. destruct (Hc1 Hk) as [-> Hk1]. by destruct (Hc2 Hk1) as [-> ?].
  - intros Hr Hk. rewrite Ho1, Ho2; auto.
Qed.

(** What is sent on a closed connection. *)
Lemma sends_closed k k' l : sends k k' l → is_open k = false → sends k k' [].
Proof using Type.
  intros (l' & E & _ & Hc & _) Hk. destruct (Hc Hk) as [-> ?]. exists [].
  split_and!; [done|done|done|congruence].
Qed.

Lemma finish_sends reason k :
  let k' := (ws_close (ws_send (WsClose reason) k).1).1 in
  sends k k' [WsClose reason] ∧ is_open k' = false.
Proof using All.
  intros k'. destruct (law_ws_close (ws_send (WsClose reason) k).1) as [Hs Hc].
  destruct (send_sends (WsClose reason) k) as [(l & E & Hl & Hcl & Hop) _].
  split; [|done]. exists l. split; [by unfold k'; rewrite Hs|]. split; [done|]. split; [|done].
  intros Hk. by destruct (Hcl Hk).
Qed.

(** One update. *)
Lemma round_sends rx p k i q r :
  channels p !! rx = Some (mk_Channel (i :: q) r) →
  ∃ k', websocket_round rx (mk_Session p k) =
      (mk_Session (set_channels (<[rx := mk_Channel q r]> (channels p)) p) k', Ok true) ∧
    match closing i with
    | Some reason => sends k k' [WsText (InvoiceUpdate_from i); WsClose reason] ∧ is_open k' = false
    | None => sends k k' [WsText (InvoiceUpdate_from i)] ∧ stays_open k k'
    end.
Proof using All.
  intros Hch. set (k1 := (ws_send (WsText (InvoiceUpdate_from i)) k).1).
  destruct (send_sends (WsText (InvoiceUpdate_from i)) k) as [Hsend Hst]. fold k1 in Hsend, Hst.
  assert (Hround : websocket_round rx (mk_Session p k) =
    (mk_Session (set_channels (<[rx := mk_Channel q r]> (channels p)) p)
       match closing i with
       | Some reason => (ws_close (ws_send (WsClose reason) k1).1).1
       | None => k1
       end, Ok true)).
  { unfold websocket_round, bind, zoom, Subscriber_recv, gets, modify, to_client, finish, closing.
    cbn [ss_publisher]. unfold id, bind. rewrite Hch. cbn.
    destruct (Invoice_is_confirmed i); [done|]. by destruct (Invoice_is_expired i). }
  rewrite Hround. eexists. split; [done|]. destruct (closing i) as [reason|]; [|done].
  destruct (finish_sends reason k1) as [Hf Hc]. split; [|done].
  by apply (sends_app k k1 _ [_] [_]).
Qed.

(** What a client of a websocket sees.  Suppose [q] is what is waiting for
    the subscriber of the websocket.  The client receives, in order, updates
    from [q] up to the first one that completes or expires the invoice, then
    the frame that closes the websocket, and nothing after it; over a
    connection that does not fail it receives all of these.  The task itself
    does not stop there: it goes on until it has consumed all of [q], and then
    waits for more as long as the publisher still has its sender. *)
Theorem websocket_session rx p k q r fuel :
  channels p !! rx = Some (mk_Channel q r) → (length q < fuel)%nat →
  ∃ k', websocket_loop fuel rx (mk_Session p k) =
      (mk_Session (set_channels (<[rx := mk_Channel [] r]> (channels p)) p) k',
       if has_sender rx p then Hang else Ok tt) ∧
    sends k k' (session q).
Proof using All.
  revert p k fuel. induction q as [|i q IH]; intros p k [|fuel] Hch Hlen; try (simpl in Hlen; lia).
  - exists k. split.
    + cbn [websocket_loop]. unfold websocket_round, bind, zoom, Subscriber_recv, gets.
      cbn [ss_publisher]. unfold id, bind. rewrite Hch. rewrite (list_insert_id _ _ _ Hch).
      cbn [ch_queue]. by destruct (has_sender rx p); destruct p.
    + exists []. rewrite app_nil_r. by split_and!.
  - destruct (round_sends rx p k i q r Hch) as (k1 & Hround & Hk1).
    set (p1 := set_channels (<[rx := mk_Channel q r]> (channels p)) p) in *.
    destruct (IH p1 k1 fuel) as (k2 & Hloop & Hk2).
    { simpl. apply list_lookup_insert_eq. by eapply lookup_lt_Some. }
    { simpl in Hlen. lia. }
    exists k2. split.
    + cbn [websocket_loop]. unfold bind at 1. rewrite Hround, Hloop.
      by unfold p1; simpl; rewrite list_insert_insert_eq.
    + cbn [session]. destruct (closing i) as [reason|].
      * destruct Hk1 as [Hk1 Hc]. apply (sends_closed k1) in Hk2; [|done].
        destruct Hk1 as (l & E & Hl & Hcl & Hop), Hk2 as (l2 & E2 & Hl2 & Hcl2 & _).
        destruct (Hcl2 Hc) as [-> Hc2]. exists l. rewrite E2, app_nil_r. split_and!; [done..| |done].
        intros Hk. by destruct (Hcl Hk).
      * destruct Hk1 as [Hk1 Hst]. by apply (sends_app k k1 k2 [_]).
Qed.
End lawful.
End websocket.
