(* ===== verification/ServerSpec.v ===== *)
(** What the APIs of the server and its monitor do to the gateway: creating
    an invoice whose callback can be called, showing it, refusing requests
    without the token, and removing outdated invoices only. *)
From S2P Require Import Prelude.
From S2P Require Import Invoice.
From S2P Require Import Storage.
From S2P Require Import Monerod.
From S2P Require Import SubaddressCache.
From S2P Require Import Pubsub.
From S2P Require Import PaymentGateway.
From S2P Require Import Text.
From S2P Require Import InvoiceText.
From S2P Require Import InvoiceIdApi.
From S2P Require Import Callbacks.
From S2P Require Import Server.

(** [serde_json] reads back the descriptions that it writes. *)
Class LawfulDescriptions {CW} `{!ServerCrates CW} : Prop := {
  description_roundtrip d text : description_to_json d = inl text → description_from_json text = inl d;
}.

Section spec.
Context `{Build} `{HashOrder} `{Monero} `{RngCore} `{!LawfulRng}.
Context {W RpcError : Type} `{!MonerodClient W RpcError}.
Context {St EI EK EH EF : Type} `{!Storage St EI EK EH EF}.
Context (wf : St → Prop) (view : St → StoreView) `{HL : !LawfulStorage St EI EK EH EF wf view}.
Context {CW : Type} `{!ServerCrates CW} `{!LawfulDescriptions} `{Base64Crate} `{!LawfulBase64}
  `{NumberText}.
Notation XmrError := (AcceptXmrError RpcError EI EK EH EF).
Notation gateway := (Gateway W RpcError St EI EK EH EF).
Context `{!WebCrates XmrError}.

Lemma Invoice_id_of_wf i : Invoice_wf i → InvoiceId_wf (Invoice_id i).
Proof using Type. by intros (? & ? & _). Qed.

(** ** Creating invoices *)

(** An invoice whose callback, if it has one, can be called. *)
Definition callable (i : Invoice) (order : string) (callback : option string) : Prop :=
  description_from_json (inv_description i) = inl (mk_InvoiceDescription order callback) ∧
  ∀ c, callback = Some c → ∃ uri, callback_uri_from_str c = inl uri.

(** The errors of a callback that cannot be due to its recipient. *)
Lemma callable_errors i order callback (w : CW) :
  callable i order callback →
  match (CallbackClient_callback i w).2 with
  | Err (InvalidDescription _) | Err (InvalidCallback _) => False
  | Ok called => called = match callback with Some _ => true | None => false end
  | _ => True
  end.
Proof using Type.
  intros [E Hcb]. unfold CallbackClient_callback, CallbackClient_request, bind. rewrite E.
  destruct callback as [c|]; [|done]. cbn [d_callback]. destruct (Hcb c eq_refl) as [uri ->].
  destruct (post_json uri _); [|done].
  destruct (http_call _ w) as [w' [status|e|]]; simpl; try done.
  by destruct (is_server_error status || is_client_error status).
Qed.

(** C28: creating an invoice over the internal API.  A request with a callback
    that is no URI changes nothing.  Else, on success, exactly one invoice is
    stored, under the id of the answer, with what was asked for; its
    description is read back as the order and the callback that were given,
    and that callback can be called.  On an error the stored invoices are as
    before; the handler never panics. *)
Theorem api_new_invoice_spec g s payload :
  gateway_wf wf view g s → sc_available (g_subaddresses g) ≠ [] →
  in_u64 (p_piconeros_due payload) → in_u64 (p_confirmations_required payload) →
  0 ≤ p_expiration_in payload →
  in_u64 (g_cached_daemon_height g) → in_u64 (g_cached_daemon_height g + p_expiration_in payload) →
  (∀ w, wp mc_daemon_height (λ _ r, match r with
     | Ok d => in_u64 d ∧ in_u64 (d + p_expiration_in payload) | Err _ => True | _ => False end) w) →
  wp (new_invoice payload) (λ g' r, ∃ s', gateway_wf wf view g' s' ∧
    match r with
    | Ok response => ∃ id i,
        response = json (BodyId (InvoiceIdPayload_from id)) ∧
        v_invoices (view s) !! id = None ∧
        view s' = set_v_invoices (<[id := i]> (v_invoices (view s))) (view s) ∧
        inv_amount_requested i = p_piconeros_due payload ∧ inv_amount_paid i = 0 ∧
        inv_confirmations_required i = p_confirmations_required payload ∧
        inv_expiration_height i = inv_creation_height i + p_expiration_in payload ∧
        callable i (p_order payload) (p_callback payload)
    | Err (ApiInvalidCallback e) => g' = g ∧ ∃ c, p_callback payload = Some c ∧
        callback_uri_from_str c = inr e
    | Err _ => view s' = view s
    | _ => False
    end) g.
Proof using All.
  intros Hgwf Hne Hp Hc Hexp Hcd Hcde Hrpc. unfold new_invoice. apply wp_bind.
  assert (Hsame : ∃ s', gateway_wf wf view g s' ∧ view s' = view s) by by exists s.
  destruct (p_callback payload) as [c|] eqn:Ec; [destruct (callback_uri_from_str c) as [uri|e] eqn:Euri|].
  2:{ apply wp_throw. exists s. split; [done|]. split; [done|]. by exists c. }
  all: apply wp_ret.
  all: destruct (description_to_json _) as [description|e] eqn:Ej; [|by apply wp_throw].
  all: apply description_roundtrip in Ej.
  all: apply wp_bind, wp_map_err; eapply wp_mono; [by apply (new_invoice_run wf view)|].
  all: intros g' [id|e| |] (s' & Hgwf' & Hr); [|by exists s'|by exists s'|by exists s'].
  all: destruct Hr as (i & Hnone & Hv & Hid & Hreq & Hpaid & _ & Hconf & Hexpi & Hdescr & _).
  all: apply wp_ret; exists s'; split; [done|]; exists id, i; subst description.
  all: split_and!; try done; unfold callable; naive_solver.
Qed.

(** ** The monitor *)

(** Expired, and not paid without being confirmed. *)
Definition done_with (i : Invoice) : Prop :=
  Invoice_is_expired i = true ∧ (Invoice_is_paid i = true → Invoice_is_confirmed i = true).

(** One round of the monitor.  The callback of the updated invoice is
    queued; an invoice is only ever removed if its update says that it is
    expired, and either unpaid or confirmed, and if expired invoices are to
    be deleted.  No other invoice is touched. *)
Lemma monitor_run delete_expired i g q s :
  gateway_wf wf view g s → Invoice_wf i →
  cq_receiving q = true → (length (cq_channel q) < cq_size q)%nat →
  wp (monitor delete_expired (Some i)) (λ (gq : gateway * CallbackQueue (W:=CW)) r, r = Ok tt ∧
    queue_send (Call i 0 0) q = Some gq.2 ∧
    ∃ s', gateway_wf wf view gq.1 s' ∧
      (view s' = view s ∨
       delete_expired = true ∧ done_with i ∧
       view s' = set_v_invoices (delete (Invoice_id i) (v_invoices (view s))) (view s))) (g, q).
Proof using All.
  intros Hgwf Hi Hrec Hroom. unfold wp, monitor, queue_send. rewrite Hrec.
  apply Nat.ltb_lt in Hroom as ->. cbn [andb].
  destruct (outdated i && delete_expired) eqn:E.
  2:{ split_and!; [done..|]. exists s. auto. }
  apply andb_true_iff in E as [Hout Hdel]. unfold outdated in Hout.
  apply andb_true_iff in Hout as [Hexp Hcu]. apply orb_true_iff in Hcu.
  pose proof (remove_invoice_run wf view g s (Invoice_id i) Hgwf (Invoice_id_of_wf i Hi)) as Hrm.
  unfold wp in Hrm.
  destruct (PaymentGateway_remove_invoice (Invoice_id i) g) as [g' [o|e| |]];
    destruct Hrm as (s' & Hgwf' & Hr); try done; (split_and!; [done..|]); exists s'.
  - split; [done|]. destruct Hr as (_ & Hv & _). right.
    split; [done|]. split; [|done]. split; [done|].
    intros Hpaid. destruct Hcu as [?|Hn]; [done|]. by rewrite Hpaid in Hn.
  - split; [done|]. left. by destruct Hr as (? & _).
Qed.

(** ** Reading *)

(** What the external API shows.  For every text that is given as an id,
    the answer is an update made from the stored invoice of that id, an error
    that the text is no id, that there is no such invoice, or that the store
    failed; the stored invoices stay as they are. *)
Theorem api_get_invoice_spec g s query :
  gateway_wf wf view g s →
  wp (get_invoice_status query) (λ (g' : gateway) r, ∃ s', gateway_wf wf view g' s' ∧ view s' = view s ∧
    match r with
    | Ok response => ∃ id i, InvoiceId_try_from_query query = Ok id ∧
        v_invoices (view s) !! id = Some i ∧ response = json (BodyUpdate (InvoiceUpdate_from i))
    | Err (InvoiceNotFound id) => InvoiceId_try_from_query query = Ok id ∧
        v_invoices (view s) !! id = None
    | Err (InvalidInvoiceId e) => InvoiceId_try_from_query query = Err e
    | Err (AcceptXmr _) => True
    | _ => False
    end) g.
Proof using All.
  intros Hgwf. unfold get_invoice_status, parse_id. apply wp_bind, wp_map_err.
  pose proof (query_id_wf query) as Hid. unfold wp at 1, lift. cbn [fst snd].
  destruct (InvoiceId_try_from_query query) as [id|e| |] eqn:Eq; try done; [|by exists s].
  apply wp_bind, wp_map_err. unfold PaymentGateway_get_invoice, Client_get_invoice.
  pose proof Hgwf as (Hst & Hwf & _).
  eapply (wp_gateway_request wf view _ EInvoice); [done|done|by apply law_get|..].
  - intros s1 o Hwf1 [Hv ->]. destruct (v_invoices (view s) !! id) as [i|] eqn:Ei.
    + apply wp_ret. exists s1. split; [by eapply gateway_wf_view|]. split; [done|]. by exists id, i.
    + apply wp_throw. exists s1. split; [by eapply gateway_wf_view|]. done.
  - intros s1 e Hwf1 Hv. exists s1. split; [by eapply gateway_wf_view|]. done.
Qed.
End spec.
