(* ===== verification/Monitor.v ===== *)
(** From a scan to the callbacks: the task that watches all invoice updates
    ([spawn_gateway] in [server/src/lib.rs]) behind the scanning task of the
    gateway. *)
From S2P Require Import Prelude.
From S2P Require Import Sustains.
From S2P Require Import Invoice.
From S2P Require Import Storage.
From S2P Require Import Monerod.
From S2P Require Import SubaddressCache.
From S2P Require Import Pubsub.
From S2P Require Import Scanner.
From S2P Require Import ScannerInvariant.
From S2P Require Import ScannerDelivers.
From S2P Require Import PaymentGateway.
From S2P Require Import GatewayInvariant.
From S2P Require Import Text.
From S2P Require Import InvoiceText.
From S2P Require Import InvoiceIdApi.
From S2P Require Import Callbacks.
From S2P Require Import Server.
From S2P Require Import ServerSpec.

Section told.
Context `{Build} `{HashOrder} `{Monero} `{RngCore} `{!LawfulRng}.
Context {W RpcError : Type} `{!MonerodClient W RpcError} `{!TypedCrates W RpcError}.
Context {St EI EK EH EF : Type} `{!Storage St EI EK EH EF}.
Context (wf : St → Prop) (view : St → StoreView) `{HL : !LawfulStorage St EI EK EH EF wf view}.
Notation gateway := (Gateway W RpcError St EI EK EH EF).

(** An iteration of the scanning task, as subscribers hear of it. *)
Lemma iteration_told t (g g1 : gateway) s :
  gateway_ok wf view g → pub_wf (g_publisher g) → scanner_iteration t g = (g1, true) →
  g_store g = Running s →
  ∃ us, (∀ s1, g_store g1 = Running s1 → v_invoices (view s1) = replay us (v_invoices (view s))) ∧
    heard (g_publisher g) us (g_publisher g1) ∧ pub_wf (g_publisher g1) ∧ Forall Invoice_wf us.
Proof using All.
  intros Hg Hp E Est. assert (Hsame : g_store g1 = g_store g → g_publisher g1 = g_publisher g → ∃ us,
    (∀ s1, g_store g1 = Running s1 → v_invoices (view s1) = replay us (v_invoices (view s))) ∧
    heard (g_publisher g) us (g_publisher g1) ∧ pub_wf (g_publisher g1) ∧ Forall Invoice_wf us).
  { intros Hst ->. exists []. rewrite Hst, Est. split_and!; [by intros ? [= <-]|apply heard_nothing|done|constructor]. }
  unfold scanner_iteration in E. destruct (g_tasks g !! t) as [tk|] eqn:Etk; [|simplify_eq; by apply Hsame].
  destruct (t_state tk); [|simplify_eq; by apply Hsame].
  destruct (g_commands g) as [|[] rest]; [|simplify_eq; by apply Hsame]. clear Hsame.
  set (ck := if _ <=? _ then _ else _) in E.
  pose proof (Scanner_scan_told wf view (v_invoices (view s)) (g_publisher g) ck Hp (load_scanner g tk)) as Hscan.
  destruct (Scanner_scan ck (load_scanner g tk)) as [sc r]. injection E as <- Hr. cbn [fst snd] in Hscan.
  destruct Hscan as (us & (Hm & _) & Hp' & Hh & Hus); [|by intros ->|].
  { split; [|done]. destruct (scanner_ok_load wf view g t tk (terms_of (view s)) Hg Etk) as (Hok & Hbc & Hpool).
    { rewrite Est. by intros ? [= <-]. }
    split; [|done]. intros s1 E1. destruct (Hok s1 E1) as [Hwf _]. split; [done|].
    simpl in E1. rewrite Est in E1. by injection E1 as <-. }
  exists us. split_and!; [|done|done|].
  - intros s1 E1. by destruct (Hm s1 E1).
  - eapply Forall_impl; [exact Hus|]. by intros i [? _].
Qed.
End told.

Section monitor.
Context `{Build} `{HashOrder} `{Monero} `{RngCore} `{!LawfulRng}.
Context {W RpcError : Type} `{!MonerodClient W RpcError} `{!TypedCrates W RpcError}.
Context {St EI EK EH EF : Type} `{!Storage St EI EK EH EF}.
Context (wf : St → Prop) (view : St → StoreView) `{HL : !LawfulStorage St EI EK EH EF wf view}.
Context {CW : Type} `{!ServerCrates CW} `{!LawfulDescriptions} `{Base64Crate} `{!LawfulBase64}
  `{NumberText}.
Notation XmrError := (AcceptXmrError RpcError EI EK EH EF).
Notation gateway := (Gateway W RpcError St EI EK EH EF).
Context `{!WebCrates XmrError}.
Notation queue := (CallbackQueue (W:=CW)).

(** One round of the loop, and [n] rounds: wait for an update, and deal with
    it. *)
Definition watch (delete_expired : bool) (subscriber : nat) : M (gateway * queue) Empty_set unit :=
  let! update := zoom (λ gq, g_publisher gq.1) (λ p gq, (set_g_publisher p gq.1, gq.2))
    (Subscriber_recv subscriber) in
  monitor delete_expired update.
Definition watch_rounds (delete_expired : bool) (subscriber n : nat) : M (gateway * queue) Empty_set unit :=
  for_each (replicate n tt) (λ _, watch delete_expired subscriber).

(** The updates that wait in the channel of a receiver. *)
Definition waiting (p : Publisher) (rx : nat) (l : list Invoice) : Prop :=
  ∃ ch, channels p !! rx = Some ch ∧ ch_queue ch = l.

(** The subscriber to all invoices, with what waits for it. *)
Definition subscribed (rx : nat) (l : list Invoice) (p : Publisher) : Prop :=
  pub_wf p ∧ listens p None rx ∧ waiting p rx l.
Definition watching (g : gateway) (rx : nat) (l : list Invoice) : Prop :=
  gateway_ok wf view g ∧ subscribed rx l (g_publisher g).

Lemma live_prefix_same cs cs' l :
  (∀ s, alive cs' s = alive cs s) → live_prefix cs' l = live_prefix cs l.
Proof using Type. intros Hs. induction l as [|s l IH]; [done|]. simpl. by rewrite Hs, IH. Qed.

Lemma recv_subscribed p rx i l :
  subscribed rx (i :: l) p →
  ∃ p', Subscriber_recv (E:=Empty_set) rx p = (p', Ok (Some i)) ∧ subscribed rx l p'.
Proof using Type.
  intros (Hp & Hl & ch & Hch & Hq).
  pose proof (pub_step_wf _ _ (step_recv p rx) Hp) as Hp'. revert Hp'.
  unfold Subscriber_recv, bind, gets, id. rewrite Hch, Hq. intros Hp'.
  eexists. split; [done|]. split; [exact Hp'|]. simpl. split.
  - unfold listens. cbn [channels set_channels pop subs_of global_subs].
    rewrite (live_prefix_same (channels p)); [done|].
    intros s. unfold alive. destruct (decide (s = rx)) as [->|Hne].
    + rewrite list_lookup_insert_eq by (by eapply lookup_lt_Some). by rewrite Hch.
    + by rewrite list_lookup_insert_ne.
  - exists (mk_Channel l (ch_receiver ch)). split; [|done].
    apply list_lookup_insert_eq. by eapply lookup_lt_Some.
Qed.

(** Removing invoices does not concern it. *)
Lemma keeps_subscribed rx l id :
  keeps (λ g : gateway, subscribed rx l (g_publisher g)) (PaymentGateway_remove_invoice id).
Proof using Type.
  unfold PaymentGateway_remove_invoice.
  eapply (sustains_bind _ (λ _, True)); [by eapply (sustains_zoom _ (λ _, True))|].
  intros [old|] _; [|by apply sustains_ret].
  eapply sustains_bind; [by apply sustains_modify|intros [] _].
  eapply sustains_bind; [|intros [] _; by apply sustains_ret].
  apply sustains_modify. intros g (Hp & Hl & Hw). split; [|done].
  by apply (pub_step_wf _ _ (step_remove_invoice _ id)).
Qed.

Lemma monitor_keeps (I : gateway → Prop) d i (g : gateway) (q : queue) :
  keeps I (PaymentGateway_remove_invoice (Invoice_id i)) → I g → I (monitor d (Some i) (g, q)).1.1.
Proof using Type.
  intros Hrm Hg. unfold monitor. destruct (cq_receiving q); [|done].
  destruct (queue_send _ q); [|done]. destruct (_ && _); [|done].
  destruct (Hrm g Hg) as [Hg' _].
  by destruct (PaymentGateway_remove_invoice (Invoice_id i) g) as [g' [| | |]].
Qed.

(** Invoices that the monitor may have removed after the updates [us]. *)
Definition dropped (delete_expired : bool) (us : list Invoice) (s s' : St) : Prop :=
  ∀ id, v_invoices (view s') !! id = v_invoices (view s) !! id ∨
    delete_expired = true ∧ v_invoices (view s') !! id = None ∧
    ∃ i, i ∈ us ∧ Invoice_id i = id ∧ done_with i.

Lemma dropped_trans d us us' s1 s2 s3 :
  dropped d us s1 s2 → dropped d us' s2 s3 → dropped d (us ++ us') s1 s3.
Proof using Type.
  intros H12 H23 id. destruct (H23 id) as [->|(Hd & Hn & i & Hi & E)].
  - destruct (H12 id) as [|(? & ? & i & Hi & E)]; [by left|]. right. split_and!; [done..|].
    exists i. split; [|done]. apply elem_of_app. by left.
  - right. split_and!; [done..|]. exists i. split; [|done]. apply elem_of_app. by right.
Qed.

Lemma watch_one d rx i l (g : gateway) (q : queue) s :
  watching g rx (i :: l) → g_store g = Running s → Invoice_wf i →
  cq_receiving q = true → (length (cq_channel q) < cq_size q)%nat →
  ∃ g' q' s', watch d rx (g, q) = ((g', q'), Ok tt) ∧
    queue_send (Call i 0 0) q = Some q' ∧ watching g' rx l ∧
    g_store g' = Running s' ∧ dropped d [i] s s'.
Proof using All.
  intros [Hg Hsub] Est Hi Hrec Hroom. destruct (recv_subscribed _ _ _ _ Hsub) as (p & Hp & Hsub').
  unfold watch, bind, zoom. cbn [fst snd]. rewrite Hp.
  assert (Hg1 : gateway_ok wf view (set_g_publisher p g : gateway)).
  { apply (gateway_ok_same wf view g); [done..|apply Hg]. }
  pose proof (monitor_run wf view d i (set_g_publisher p g) q s (proj1 Hg s Est) Hi Hrec Hroom) as Hm.
  pose proof (monitor_keeps _ d i (set_g_publisher p g) q (keeps_subscribed rx l _) Hsub') as Hsub1.
  assert (Hrm : keeps (gateway_ok wf view : gateway → Prop) (PaymentGateway_remove_invoice (Invoice_id i))).
  { intros g0 Hg0. split; [|done]. by apply remove_ok, Invoice_id_of_wf. }
  pose proof (monitor_keeps _ d i (set_g_publisher p g) q Hrm Hg1) as Hg2. unfold wp in Hm.
  destruct (monitor d (Some i) (set_g_publisher p g, q)) as [[g' q'] r]. cbn [fst snd] in *.
  destruct Hm as (-> & Hq & s' & Hgwf' & Hv). exists g', q', s'. split_and!; try done.
  - apply Hgwf'.
  - intros id. destruct Hv as [->|(Hd & Hdone & ->)]; [by left|]. simpl.
    rewrite lookup_delete. case_decide as E; [|by left].
    right. split_and!; [done..|]. exists i. by split; [left|].
Qed.

(** All that waits, one after the other. *)
Lemma watch_all d rx l (g : gateway) (q : queue) s :
  watching g rx l → g_store g = Running s → Forall Invoice_wf l →
  cq_receiving q = true → (length (cq_channel q) + length l ≤ cq_size q)%nat →
  ∃ g' q' s', watch_rounds d rx (length l) (g, q) = ((g', q'), Ok tt) ∧
    cq_channel q' = cq_channel q ++ ((λ i, Call i 0 0) <$> l) ∧ watching g' rx [] ∧
    g_store g' = Running s' ∧ dropped d l s s'.
Proof using All.
  revert g q s. induction l as [|i l IH]; intros g q s Hg Est Hl Hrec Hroom.
  { exists g, q, s. split_and!; [done|by rewrite app_nil_r|done..|]. intros id. by left. }
  apply Forall_cons in Hl as [Hi Hl]. simpl in Hroom.
  destruct (watch_one d rx i l g q s) as (g1 & q1 & s1 & E1 & Hq1 & Hg1 & Est1 & Hd1); [done..|lia|].
  unfold queue_send in Hq1. destruct (_ && _); [|done]. injection Hq1 as <-.
  set (q1 := mk_CallbackQueue _ _ _ _ _) in *.
  destruct (IH g1 q1 s1) as (g' & q' & s' & E & Hq & Hg' & Est' & Hd); [done..| |].
  { simpl. rewrite length_app. simpl. lia. }
  exists g', q', s'. unfold watch_rounds. cbn [length replicate for_each]. unfold bind. rewrite E1.
  split_and!; [exact E| |done|done|by apply (dropped_trans d [i] l s s1)].
  rewrite Hq. simpl. by rewrite <-(assoc_L (++)).
Qed.

(** C4: every change reaches its callback.  After an iteration of the
    scanning task, however the scan ended unless it is blocked, the stored
    invoices are the old ones with certain updates; and if the monitor had
    dealt with everything before, then after as many rounds of it as there
    are updates it has queued the callback of each of them, in their order,
    and is waiting again, as long as the queue has room.  It still listens.
    What it removes meanwhile are invoices that are expired, and unpaid or
    confirmed, and only if it is configured to: a payment that waits for its
    confirmations is never dropped. *)
Theorem updates_reach_callbacks d t rx (g g1 : gateway) (q : queue) s s1 :
  watching g rx [] → scanner_iteration t g = (g1, true) →
  g_store g = Running s → g_store g1 = Running s1 → cq_receiving q = true →
  ∃ us, v_invoices (view s1) = replay us (v_invoices (view s)) ∧ waiting (g_publisher g1) rx us ∧
    ((length (cq_channel q) + length us ≤ cq_size q)%nat →
     ∃ g' q' s', watch_rounds d rx (length us) (g1, q) = ((g', q'), Ok tt) ∧
       cq_channel q' = cq_channel q ++ ((λ i, Call i 0 0) <$> us) ∧
       watching g' rx [] ∧ g_store g' = Running s' ∧ dropped d us s1 s').
Proof using All.
  intros (Hg & Hp & Hl & ch & Hch & Hq) E Est Est1 Hrec.
  destruct (iteration_told wf view t g g1 s Hg Hp E Est) as (us & Hv & Hh & Hp1 & Hus).
  destruct (Hh None rx Hl) as (Hl1 & ch0 & ch1 & Hch0 & Hch1 & _ & Hq1).
  rewrite Hch in Hch0. injection Hch0 as <-. rewrite Hq, filter_wanted_all in Hq1.
  assert (Hw1 : waiting (g_publisher g1) rx us) by by exists ch1.
  exists us. split; [by apply Hv|]. split; [exact Hw1|]. intros Hroom.
  apply (watch_all d rx us g1 q s1); try done. split; [|by split_and!].
  pose proof (iteration_ok wf view t g Hg) as Hg1. by rewrite E in Hg1.
Qed.
End monitor.

(** ** The task is spawned *)

Section spawn.
Context `{Build} `{HashOrder} `{Monero} `{RngCore} `{!LawfulRng}.
Context {W RpcError : Type} `{!MonerodClient W RpcError} `{!TypedCrates W RpcError}.
Context {St EI EK EH EF : Type} `{!Storage St EI EK EH EF}.
Context (wf : St → Prop) (view : St → StoreView) `{HL : !LawfulStorage St EI EK EH EF wf view}.
Context {CW : Type} `{!ServerCrates CW}.
Notation gateway := (Gateway W RpcError St EI EK EH EF).

(** The task of [spawn_gateway] up to its loop: the subscriber, drawn with the
    id [sender_id], and the queue. *)
Definition spawn_monitor (sender_id : Z) (callback_world : CW) (callback_queue_size : nat) (g : gateway) :
    gateway * nat * CallbackQueue (W:=CW) :=
  let '(g, subscriber) := PaymentGateway_subscribe_all sender_id g in
  (g, subscriber, CallbackQueue_init callback_world callback_queue_size).

(** It is watching, when it is the first to watch all invoices. *)
Lemma spawn_monitor_watches sid cw n (g : gateway) :
  gateway_ok wf view g → pub_wf (g_publisher g) → global_subs (g_publisher g) = [] →
  let '(g', rx, q) := spawn_monitor sid cw n g in
  watching wf view g' rx [] ∧ g_store g' = g_store g ∧ q = CallbackQueue_init cw n.
Proof using All.
  intros Hg Hp Hno. unfold spawn_monitor, PaymentGateway_subscribe_all, Publisher_subscribe_all, new_channel.
  split_and!; try done. split; [|split; [|split]].
  - apply (gateway_ok_same wf view g); [done..|apply Hg].
  - by apply (pub_step_wf _ _ (step_subscribe_all _ sid)).
  - unfold listens. cbn [g_publisher set_g_publisher subs_of channels set_channels set_global_subs global_subs].
    rewrite Hno. cbn. unfold alive. rewrite list_lookup_middle by done. by apply list_elem_of_singleton.
  - exists (mk_Channel [] true). split; [|done]. simpl. by apply list_lookup_middle.
Qed.
End spawn.
