(* ===== verification/ServerAccess.v ===== *)
(** Who can change what through the APIs of the server: the requests that
    are refused, and what is left of the stored invoices by those that are
    not. *)
From S2P Require Import Prelude.
From S2P Require Import Invoice.
From S2P Require Import Storage.
From S2P Require Import Monerod.
From S2P Require Import SubaddressCache.
From S2P Require Import Pubsub.
From S2P Require Import PaymentGateway.
From S2P Require Import Text.
From S2P Require Import InvoiceText.
From S2P Require Import InvoiceIdApi.
From S2P Require Import Callbacks.
From S2P Require Import Server.
From S2P Require Import ServerSpec.

Section access.
Context `{Build} `{HashOrder} `{Monero} `{RngCore} `{!LawfulRng}.
Context {W RpcError : Type} `{!MonerodClient W RpcError}.
Context {St EI EK EH EF : Type} `{!Storage St EI EK EH EF}.
Context (wf : St → Prop) (view : St → StoreView) `{HL : !LawfulStorage St EI EK EH EF wf view}.
Context {CW : Type} `{!ServerCrates CW} `{Base64Crate} `{!LawfulBase64} `{NumberText}.
Notation XmrError := (AcceptXmrError RpcError EI EK EH EF).
Notation gateway := (Gateway W RpcError St EI EK EH EF).
Context `{!WebCrates XmrError}.

(** A request carries the token that the configuration asks for. *)
Definition authorized (token authorization : option text) : Prop :=
  ∀ t, token = Some t → authorization = Some (txt "Bearer " ++ t).

Lemma validate_authorized token authorization :
  MaybeBearer_validate token authorization = inl tt ∧ authorized token authorization ∨
  MaybeBearer_validate token authorization = inr UNAUTHORIZED ∧ ¬ authorized token authorization.
Proof using Type.
  unfold MaybeBearer_validate, authorized. destruct token as [t|]; [|by left].
  destruct authorization as [a|]; [case_decide as E|].
  - left. split; [done|]. by intros ? [= <-]; subst.
  - right. split; [done|]. intros Ha. by apply E, (inj Some), Ha.
  - right. split; [done|]. intros Ha. by specialize (Ha t eq_refl).
Qed.

(** A request to create an invoice has values of its types, and the gateway
    can serve it. *)
Definition route_wf (g : gateway) (r : Route) : Prop :=
  match r with
  | PostInvoice p =>
      sc_available (g_subaddresses g) ≠ [] ∧ in_u64 (p_piconeros_due p) ∧
      in_u64 (p_confirmations_required p) ∧ 0 ≤ p_expiration_in p ∧
      in_u64 (g_cached_daemon_height g) ∧ in_u64 (g_cached_daemon_height g + p_expiration_in p) ∧
      ∀ w, wp mc_daemon_height (λ _ r, match r with
        | Ok d => in_u64 d ∧ in_u64 (d + p_expiration_in p) | Err _ => True | _ => False end) w
  | _ => True
  end.

(** What a request may do to the stored invoices. *)
Definition allowed (a : Api) (r : Route) (v v' : StoreView) : Prop :=
  v' = v ∨
  match a, r with
  | InternalApi, PostInvoice p => ∃ id i, v_invoices v !! id = None ∧ Invoice_id i = id ∧
      inv_amount_requested i = p_piconeros_due p ∧ inv_amount_paid i = 0 ∧
      v' = set_v_invoices (<[id := i]> (v_invoices v)) v
  | InternalApi, DeleteInvoice query => ∃ id, InvoiceId_try_from_query query = Ok id ∧
      v' = set_v_invoices (delete id (v_invoices v)) v
  | _, _ => False
  end.

(** A handler answers, unless the templates of a page cannot be read. *)
Definition answers (r : Route) {A} (o : outcome (ApiError (RpcError:=RpcError) (EI:=EI) (EK:=EK)
    (EH:=EH) (EF:=EF)) A) : Prop :=
  match o with
  | Ok _ | Err _ => True
  | Panic => Tera_new = None ∧ ∃ query, r = GetPay query
  | Hang => False
  end.

Definition done_by (a : Api) (r : Route) (s : St) (g' : gateway)
    (o : outcome (ApiError (RpcError:=RpcError) (EI:=EI) (EK:=EK) (EH:=EH) (EF:=EF)) HttpResponse) : Prop :=
  answers r o ∧ ∃ s', gateway_wf wf view g' s' ∧ allowed a r (view s) (view s').

Lemma wp_parse_id {A} (query : InvoiceIdQuery) (k : InvoiceId → M gateway ApiError A)
    (Q : gateway → outcome ApiError A → Prop) g :
  (∀ id, InvoiceId_try_from_query query = Ok id → InvoiceId_wf id → wp (k id) Q g) →
  (∀ e, Q g (Err (InvalidInvoiceId e))) →
  wp (let! id := parse_id query in k id) Q g.
Proof using All.
  intros Hk He. unfold parse_id. apply wp_bind, wp_map_err.
  pose proof (query_id_wf query) as Hid. unfold wp at 1, lift. cbn [fst snd].
  destruct (InvoiceId_try_from_query query) as [id|e| |]; auto; done.
Qed.

(** A request that reads the store. *)
Lemma wp_reads {E A} (message : Method EI A) (f : E → AnyError EI EK EH EF) (m : M St E A)
    (ok : A → Prop) (g : gateway) s :
  gateway_wf wf view g s → Manager_handle message = map_err f m →
  wp m (or_fail wf view s (λ a v', v' = view s ∧ ok a)) s →
  wp (gateway_store (client_request message)) (λ g' o,
    (∃ s', gateway_wf wf view g' s' ∧ view s' = view s) ∧
    match o with Ok _ | Err _ => True | _ => False end) g.
Proof using All.
  intros Hg Hm Hwp. pose proof Hg as (Hst & _).
  eapply (wp_gateway_request wf view _ f); [done|exact Hm|exact Hwp|..].
  - intros s1 a Hwf1 [Hv _]. split; [|done]. exists s1. split; [by eapply gateway_wf_view|done].
  - intros s1 e Hwf1 Hv. split; [|done]. exists s1. split; [by eapply gateway_wf_view|done].
Qed.

Lemma wp_get (g : gateway) s id :
  gateway_wf wf view g s → InvoiceId_wf id →
  wp (PaymentGateway_get_invoice id) (λ g' o,
    (∃ s', gateway_wf wf view g' s' ∧ view s' = view s) ∧
    match o with Ok _ | Err _ => True | _ => False end) g.
Proof using All.
  intros Hg Hid. eapply (wp_reads _ EInvoice); [done|done|]. apply law_get; [by destruct Hg as (_ & ? & _)|done].
Qed.

(** Nothing happened. *)
Lemma done_nothing a r s (g' : gateway) o :
  answers r o → (∃ s', gateway_wf wf view g' s' ∧ view s' = view s) → done_by a r s g' o.
Proof using Type. intros Ho (s' & ? & ?). split; [done|]. exists s'. split; [done|]. by left. Qed.

Lemma wp_new_invoice (g : gateway) s p :
  gateway_wf wf view g s → route_wf g (PostInvoice p) →
  wp (new_invoice p) (done_by InternalApi (PostInvoice p) s) g.
Proof using All.
  intros Hg (Hne & Hp & Hc & Hexp & Hcd & Hcde & Hrpc). unfold new_invoice. apply wp_bind.
  assert (Hsame : ∃ s', gateway_wf wf view g s' ∧ view s' = view s) by by exists s.
  destruct (p_callback p) as [c|]; [destruct (callback_uri_from_str c)|].
  2: by apply wp_throw, done_nothing.
  all: apply wp_ret; destruct (description_to_json _) as [d|e]; [|by apply wp_throw, done_nothing].
  all: apply wp_bind, wp_map_err; eapply wp_mono; [by apply (new_invoice_run wf view)|].
  all: intros g' [id|e| |] (s' & Hg' & Hr); try done; [|by apply done_nothing; [|exists s']].
  all: destruct Hr as (i & Hnone & Hv & Hid & Hreq & Hpaid & _).
  all: apply wp_ret; split; [done|]; exists s'; split; [done|]; right; by exists id, i.
Qed.

Lemma wp_delete_invoice (g : gateway) s query :
  gateway_wf wf view g s → wp (delete_invoice query) (done_by InternalApi (DeleteInvoice query) s) g.
Proof using All.
  intros Hg. unfold delete_invoice. apply wp_parse_id.
  2:{ intros e. apply done_nothing; [done|by exists s]. }
  intros id Eid Hid. apply wp_bind, wp_map_err.
  eapply wp_mono; [by apply (remove_invoice_run wf view)|].
  intros g' [o|e| |] (s' & Hg' & Hr); try done.
  - apply wp_ret. split; [done|]. exists s'. split; [done|]. right. exists id. by destruct Hr as (_ & ? & _).
  - apply done_nothing; [done|]. exists s'. by destruct Hr.
Qed.

Lemma wp_invoice_ids (g : gateway) s :
  gateway_wf wf view g s → wp invoice_ids (done_by InternalApi GetInvoiceIds s) g.
Proof using All.
  intros Hg. unfold invoice_ids. apply wp_bind, wp_map_err.
  eapply wp_mono.
  { eapply (wp_reads _ EInvoice); [done|done|]. apply law_get_ids. by destruct Hg as (_ & ? & _). }
  intros g' [l|e| |] [Hg' Ho]; try done; [apply wp_ret|]; by apply done_nothing.
Qed.

Lemma wp_get_invoice_status (g : gateway) s query :
  gateway_wf wf view g s → wp (get_invoice_status query) (done_by ExternalApi (GetInvoice query) s) g.
Proof using All.
  intros Hg. unfold get_invoice_status. apply wp_parse_id.
  2:{ intros e. apply done_nothing; [done|by exists s]. }
  intros id _ Hid. apply wp_bind, wp_map_err. eapply wp_mono; [by apply wp_get|].
  intros g' [[i|]|e| |] [Hg' Ho]; try done; [apply wp_ret|apply wp_throw|]; by apply done_nothing.
Qed.

Lemma wp_websocket (g : gateway) s query sender_id :
  gateway_wf wf view g s →
  wp (websocket query sender_id) (done_by ExternalApi (GetWebsocket query sender_id) s) g.
Proof using All.
  intros Hg. unfold websocket. apply wp_parse_id.
  2:{ intros e. apply done_nothing; [done|by exists s]. }
  intros id _ Hid. unfold wp, PaymentGateway_subscribe.
  pose proof Hg as (Hst & Hwf & _).
  destruct (Publisher_subscribe sender_id id (g_publisher g)) as [p [rx|]];
    (apply done_nothing; [done|]); exists s; (split; [|done]); by eapply gateway_wf_view.
Qed.

Lemma wp_pay (g : gateway) s query :
  gateway_wf wf view g s → wp (pay query) (done_by ExternalApi (GetPay query) s) g.
Proof using All.
  intros Hg. unfold pay. apply wp_parse_id.
  2:{ intros e. apply done_nothing; [done|by exists s]. }
  intros id _ Hid. destruct Tera_new as [templates|] eqn:Et.
  2:{ apply done_nothing; [|by exists s]. split; [done|by exists query]. }
  apply wp_bind, wp_try. eapply wp_mono; [by apply wp_get|]. unfold render.
  intros g' [[i|]|e| |] [Hg' Ho]; try done;
    (lazymatch goal with |- wp (match ?page with _ => _ end) _ _ => destruct page end;
     [apply wp_ret|apply wp_throw]; by apply done_nothing).
Qed.

Lemma wp_route a r (g : gateway) s :
  gateway_wf wf view g s → route_wf g r → wp (route a r) (done_by a r s) g.
Proof using All.
  intros Hg Hr. assert (Hpage : ∀ page, wp (ret page) (done_by a r s) g).
  { intros page. apply wp_ret, done_nothing; [done|by exists s]. }
  destruct a, r; simpl; auto using wp_new_invoice, wp_delete_invoice, wp_invoice_ids,
    wp_get_invoice_status, wp_websocket, wp_pay.
Qed.

(** * Properties *)

(** C29: who can change the invoices.  Whatever is requested of either API,
    a request without the configured token changes nothing and is answered
    with 401, the API documentation excepted, which is open.  A request that
    is let in is answered, and a stored invoice only ever appears by a POST
    to the internal API, with the amount asked for and nothing paid, and only
    ever disappears by a DELETE of its id there; nothing that is asked of the
    external API changes the invoices.  The one thing that panics is a
    payment page whose templates cannot be read. *)
Theorem serve_access a token authorization r (g : gateway) s :
  gateway_wf wf view g s → route_wf g r →
  let '(g', o) := serve a token authorization r g in
  (∃ s', gateway_wf wf view g' s' ∧ allowed a r (view s) (view s')) ∧
  (r ≠ GetSwagger → ¬ authorized token authorization →
     g' = g ∧ o = Ok (mk_HttpResponse UNAUTHORIZED false BodyEmpty)) ∧
  match o with
  | Ok _ => True
  | Panic => Tera_new = None ∧ ∃ query, r = GetPay query
  | _ => False
  end.
Proof using All.
  intros Hg Hr. pose proof (wp_route a r g s Hg Hr) as Hroute. unfold wp in Hroute.
  assert (Hrefused : (∃ s', gateway_wf wf view g s' ∧ allowed a r (view s) (view s'))).
  { exists s. split; [done|by left]. }
  unfold serve. destruct (validate_authorized token authorization) as [[-> Hauth]|[-> Hauth]].
  - destruct (route a r g) as [g' o]. destruct Hroute as [Ho Hs']. cbn [fst snd] in *.
    destruct r; destruct o; try done; split_and!; try done; auto.
  - destruct r; try (by split_and!; auto).
    destruct (route a GetSwagger g) as [g' o]. destruct Hroute as [Ho Hs']. cbn [fst snd] in *.
    destruct o; try done; by split_and!.
Qed.
End access.
