(* ===== verification/ServerDemo.v ===== *)
(** Concrete base64, descriptions and HTTP, to which the properties of the
    server are applied. *)
From Stdlib Require Import Ascii.
From S2P Require Import Prelude.
From S2P Require Import Invoice.
From S2P Require Import Storage.
From S2P Require Import InMemory.
From S2P Require Import Text.
From S2P Require Import Bincode.
From S2P Require Import SledDemo.
From S2P Require Import Monerod.
From S2P Require Import Demo.
From S2P Require Import SubaddressCache.
From S2P Require Import Pubsub.
From S2P Require Import Scanner.
From S2P Require Import ScannerDemo.
From S2P Require Import PaymentGateway.
From S2P Require Import GatewayLifecycle.
From S2P Require Import F64.
From S2P Require Import InvoiceText.
From S2P Require Import InvoiceIdApi.
From S2P Require Import Callbacks.
From S2P Require Import CallbackRetries.
From S2P Require Import Server.
From S2P Require Import ServerSpec.
From S2P Require Import ServerAccess.
From S2P Require Import Websocket.

(** ** Base64, URL-safe and without padding *)

Definition alphabet : text := txt "ABCDEFGHIJKLMNOPQRSTUVWXYZabcdefghijklmnopqrstuvwxyz0123456789-_".
Definition sextet (n : Z) : ascii := default "?"%char (alphabet !! Z.to_nat n).
Definition sextet_value (c : ascii) : option Z :=
  Z.of_nat <$> (fst <$> list_find (λ d, d = c) alphabet).

Fixpoint demo_base64_encode (bs : bytes) : text :=
  match bs with
  | [] => []
  | [a] => [sextet (a / 4); sextet (a mod 4 * 16)]
  | [a; b] => [sextet (a / 4); sextet (a mod 4 * 16 + b / 16); sextet (b mod 16 * 4)]
  | a :: b :: c :: bs =>
      sextet (a / 4) :: sextet (a mod 4 * 16 + b / 16) :: sextet (b mod 16 * 4 + c / 64)
      :: sextet (c mod 64) :: demo_base64_encode bs
  end.

(** The bits that are left over must be zero. *)
Fixpoint demo_base64_decode (t : text) : option bytes :=
  match t with
  | [] => Some []
  | [_] => None
  | [p; q] =>
      p ← sextet_value p; q ← sextet_value q;
      if decide (q mod 16 = 0) then Some [p * 4 + q / 16] else None
  | [p; q; r] =>
      p ← sextet_value p; q ← sextet_value q; r ← sextet_value r;
      if decide (r mod 4 = 0) then Some [p * 4 + q / 16; q mod 16 * 16 + r / 4] else None
  | p :: q :: r :: s :: t =>
      p ← sextet_value p; q ← sextet_value q; r ← sextet_value r; s ← sextet_value s;
      bs ← demo_base64_decode t;
      Some (p * 4 + q / 16 :: q mod 16 * 16 + r / 4 :: r mod 4 * 64 + s :: bs)
  end.

#[export] Instance DemoBase64 : Base64Crate := {|
  Base64DecodeError := unit;
  base64_encode := demo_base64_encode;
  base64_decode := λ t, match demo_base64_decode t with Some bs => inl bs | None => inr tt end;
|}.

Lemma sextet_inv n : 0 ≤ n < 64 → sextet_value (sextet n) = Some n.
Proof.
  intros Hn. assert (Forall (λ k, sextet_value (sextet (Z.of_nat k)) = Some (Z.of_nat k)) (seq 0 64)) as Hall.
  { apply (bool_decide_unpack _). by vm_compute. }
  rewrite Forall_forall in Hall. specialize (Hall (Z.to_nat n)).
  rewrite Z2Nat.id in Hall by lia. apply Hall. apply elem_of_seq. lia.
Qed.
Lemma sextet_value_bound c n : sextet_value c = Some n → 0 ≤ n < 64.
Proof.
  unfold sextet_value. destruct (list_find _ alphabet) as [[k d]|] eqn:E; [|done].
  intros [= <-]. apply list_find_Some in E as (Hk & _). apply lookup_lt_Some in Hk.
  change (length alphabet) with 64%nat in Hk. simpl. lia.
Qed.

(** Induction by groups of three and of four. *)
Lemma group_ind {A} (k : nat) (P : list A → Prop) :
  (0 < k)%nat → (∀ l, (length l < k)%nat → P l) →
  (∀ l r, length l = k → P r → P (l ++ r)) → ∀ l, P l.
Proof.
  intros Hk Hshort Hgroup l. remember (length l) as n eqn:Hn. revert l Hn.
  induction (lt_wf n) as [n _ IH]. intros l ->.
  destruct (decide (length l < k)%nat) as [|Hl]; [by apply Hshort|].
  rewrite <-(take_drop k l). apply Hgroup; [rewrite length_take; lia|].
  apply (IH (length (drop k l))); [rewrite length_drop; lia|done].
Qed.

Ltac Zify_bytes := unfold is_byte in *; Z.to_euclidean_division_equations; lia.

Lemma demo_base64_roundtrip bs :
  Forall is_byte bs → demo_base64_decode (demo_base64_encode bs) = Some bs.
Proof.
  revert bs. apply (group_ind 3 (λ bs, Forall is_byte bs → demo_base64_decode (demo_base64_encode bs) = Some bs));
    [lia|intros bs Hl Hbs|intros l bs Hl IH Hbs].
  - destruct bs as [|a [|b [|? ?]]]; [done|..|simpl in Hl; lia];
      repeat (apply Forall_cons in Hbs as [? Hbs]); simpl.
    + rewrite !sextet_inv by Zify_bytes. simpl. rewrite decide_True by Zify_bytes.
      do 2 f_equal. Zify_bytes.
    + rewrite !sextet_inv by Zify_bytes. simpl. rewrite decide_True by Zify_bytes.
      do 2 f_equal; [|f_equal]; Zify_bytes.
  - destruct l as [|a [|b [|c [|? ?]]]]; try discriminate. simpl in Hbs.
    repeat (apply Forall_cons in Hbs as [? Hbs]). simpl.
    rewrite !sextet_inv by Zify_bytes. simpl. rewrite (IH Hbs). simpl.
    do 2 f_equal; [|f_equal; [|f_equal]]; Zify_bytes.
Qed.

Lemma demo_base64_bytes t bs : demo_base64_decode t = Some bs → Forall is_byte bs.
Proof.
  revert t bs. apply (group_ind 4 (λ t, ∀ bs, demo_base64_decode t = Some bs → Forall is_byte bs));
    [lia|intros t Hl bs E|intros l t Hl IH bs E].
  - destruct t as [|p [|q [|r [|? ?]]]]; [by simplify_eq/=|done|..|simpl in Hl; lia]; simpl in E.
    + destruct (sextet_value p) as [x|] eqn:Ep; [|done]. destruct (sextet_value q) as [y|] eqn:Eq; [|done].
      apply sextet_value_bound in Ep, Eq. simpl in E. case_decide; simplify_eq.
      repeat constructor; Zify_bytes.
    + destruct (sextet_value p) as [x|] eqn:Ep; [|done]. destruct (sextet_value q) as [y|] eqn:Eq; [|done].
      destruct (sextet_value r) as [z|] eqn:Er; [|done].
      apply sextet_value_bound in Ep, Eq, Er. simpl in E. case_decide; simplify_eq.
      repeat constructor; Zify_bytes.
  - destruct l as [|p [|q [|r [|u [|? ?]]]]]; try discriminate. simpl in E.
    destruct (sextet_value p) as [x|] eqn:Ep; [|done]. destruct (sextet_value q) as [y|] eqn:Eq; [|done].
    destruct (sextet_value r) as [z|] eqn:Er; [|done]. destruct (sextet_value u) as [v|] eqn:Eu; [|done].
    apply sextet_value_bound in Ep, Eq, Er, Eu. simpl in E.
    destruct (demo_base64_decode t) as [bs'|] eqn:Et; [|done]. simplify_eq/=.
    repeat (constructor; [Zify_bytes|]). by apply IH.
Qed.

#[export] Instance demo_base64_lawful : LawfulBase64.
Proof.
  split.
  - intros bs Hbs. simpl. by rewrite demo_base64_roundtrip.
  - intros t bs. simpl. destruct (demo_base64_decode t) eqn:E; [|done]. intros [= <-].
    by apply demo_base64_bytes in E.
Qed.

(** Two of the texts in the tests of the source. *)
Lemma base64_examples :
  Base64InvoiceId_from (InvoiceId_new (SubIndex_new 0 73) 2477657) = txt "AAAAAAAAAEkAAAAAACXOWQ" ∧
  Base64InvoiceId_from (InvoiceId_new (SubIndex_new u32_max 0) 0) = txt "_____wAAAAAAAAAAAAAAAA".
Proof. by vm_compute. Qed.

Lemma Base64InvoiceId_roundtrip_witness :
  InvoiceId_try_from_base64 (Base64InvoiceId_from (InvoiceId_new (SubIndex_new 0 73) 2477657))
  = Ok (InvoiceId_new (SubIndex_new 0 73) 2477657).
Proof. apply Base64InvoiceId_roundtrip. repeat split; vm_compute; congruence. Defined.

(** ** Descriptions and HTTP *)

(** A description is written in the encoding of the stores, as text. *)
Definition text_of_bytes (bs : bytes) : string :=
  String.string_of_list_ascii ((λ b, ascii_of_nat (Z.to_nat b)) <$> bs).
Definition bytes_of_text (s : string) : bytes :=
  (λ c, Z.of_nat (nat_of_ascii c)) <$> String.list_ascii_of_string s.

Lemma bytes_of_text_inv bs : Forall is_byte bs → bytes_of_text (text_of_bytes bs) = bs.
Proof.
  intros Hbs. unfold bytes_of_text, text_of_bytes. rewrite String.list_ascii_of_string_of_list_ascii.
  rewrite <-list_fmap_compose. induction Hbs as [|b bs Hb _ IH]; [done|]. cbn [fmap list_fmap].
  rewrite IH. f_equal. unfold compose, is_byte in *. rewrite nat_ascii_embedding by lia. lia.
Qed.
Lemma pos_bits_bytes p : Forall is_byte (pos_bits p).
Proof. induction p; simpl; repeat constructor; done. Qed.

(** The world says whether the recipient of callbacks answers. *)
#[export] Instance DemoServerCrates : ServerCrates bool := {|
  JsonError := unit; InvalidUri := unit; HttpError := unit; RequestError := unit;
  CallbackUri := string;
  HttpRequest := string * InvoiceUpdate;
  description_to_json := λ d, inl (text_of_bytes (write (d_order d, d_callback d)));
  description_from_json := λ s,
    match read (bytes_of_text s) with
    | Some ((order, callback), _) => inl (mk_InvoiceDescription order callback)
    | None => inr tt
    end;
  callback_uri_from_str := λ s, if decide (s = "") then inr tt else inl s;
  post_json := λ uri u, inl (uri, u);
  http_call := λ _ up, (up, if up : bool then Responded 200 else TimedOut);
|}.
#[export] Instance demo_descriptions : LawfulDescriptions.
Proof.
  split. intros [o c] t [= <-]. unfold description_from_json. simpl.
  rewrite bytes_of_text_inv by apply pos_bits_bytes.
  rewrite <-(app_nil_r (write _)), read_write. done.
Qed.

(** ** The properties applied *)

(** A description that no callback can be read from: every try fails. *)
Definition plain_invoice : Invoice :=
  mk_Invoice "4A" (SubIndex_new 0 5) 100 20 0 None 10 0 150 [] "a coffee".
Lemma plain_fails (w : bool) : ∃ w' e, CallbackClient_callback plain_invoice w = (w', Err e).
Proof. by eexists _, _. Qed.

Lemma CallbackQueue_retries_without_limit_witness :
  ∃ ls w', queue_steps (Some 50)
    (mk_CallbackQueue true 1000 [Call plain_invoice 0 0] true []) ls
    (mk_CallbackQueue w' 1000 [Call plain_invoice (Z.min u64_max (Z.of_nat 60)) (retry_delay 60)] true []).
Proof. apply CallbackQueue_retries_without_limit; [lia|apply plain_fails]. Defined.

Lemma CallbackQueue_keeps_calls_witness :
  let q := CallbackQueue_init true 10 in
  let q' := mk_CallbackQueue true 10 [Call plain_invoice 0 0] true [] in
  queue_wf q' ∧ pending q' ++ delivered [Sent (Call plain_invoice 0 0)]
    ≡ₚ pending q ++ sent [Sent (Call plain_invoice 0 0)].
Proof.
  intros q q'. apply (CallbackQueue_keeps_calls (Some 50) q [Sent (Call plain_invoice 0 0)] q').
  - repeat split; constructor.
  - eapply steps_more; [by apply step_send|constructor].
  - intros c [= ->]%list_elem_of_singleton. by exists 0%nat.
Defined.

#[local] Existing Instance demo_gateway_client.
Notation DemoError := (AcceptXmrError unit InMemoryStorageError InMemoryStorageError
  InMemoryStorageError InMemoryStorageError).

Definition demo_web E : WebCrates E := {|
  TeraError := unit; IoError := unit; Templates := unit; Tera_new := Some tt;
  render_pay := λ _ u, inl (u_uri u);
  render_missing_invoice := λ _ p, inl (payload_invoice_id p);
  render_error := λ _ _, inr tt;
  serve_dir := λ path, mk_HttpResponse 200 false (BodyText path);
  unrouted := λ _ _, mk_HttpResponse 405 false BodyEmpty;
  swagger_ui := mk_HttpResponse 200 false BodyEmpty;
|}.
#[export] Instance DemoWeb : WebCrates DemoError := demo_web DemoError.

Definition pizza : NewInvoiceParams :=
  mk_NewInvoiceParams 1000000 2 10 "large pizza" (Some "https://example.com/paid").
Notation post_pizza := (new_invoice pizza (demo_gateway [] None)).

(** The answer is 200, with the id of the new invoice. *)
Definition pizza_answered : bool :=
  match post_pizza.2 with
  | Ok (mk_HttpResponse 200 true (BodyId p)) =>
      bool_decide (payload_invoice_id p = Base64InvoiceId_from (InvoiceId_new (SubIndex_new 1 0) 11))
  | _ => false
  end.
Lemma api_new_invoice_spec_witness :
  pizza_answered = true ∧ ∃ s', gateway_wf InMemory_wf InMemory_view post_pizza.1 s'.
Proof.
  split; [by vm_compute|].
  destruct (api_new_invoice_spec (CW:=bool) InMemory_wf InMemory_view (demo_gateway [] None)
    (demo_store []) pizza demo_gateway_wf) as (s' & Hs & _).
  - done.
  - split; vm_compute; congruence.
  - split; vm_compute; congruence.
  - simpl. lia.
  - split; vm_compute; congruence.
  - split; vm_compute; congruence.
  - intros w. split; split; vm_compute; congruence.
  - by exists s'.
Defined.

(** An expired invoice that was never paid. *)
Definition expired_invoice : Invoice :=
  mk_Invoice "1/0" (SubIndex_new 1 0) 5 20 0 None 10 30 15 [] "a coffee".
Lemma api_get_invoice_spec_witness :
  let id := InvoiceId_new (SubIndex_new 1 0) 11 in
  ∃ s', gateway_wf InMemory_wf InMemory_view
    (get_invoice_status (mk_InvoiceIdQuery (Base64InvoiceId_from id)) (demo_gateway [] None)).1 s'.
Proof.
  intros id. destruct (api_get_invoice_spec (CW:=bool) InMemory_wf InMemory_view (demo_gateway [] None)
    (demo_store []) (mk_InvoiceIdQuery (Base64InvoiceId_from id)) demo_gateway_wf) as (s' & Hs & _).
  by exists s'.
Defined.

(** ** Access *)

(** A request to create an invoice with the wrong token. *)
Notation stolen_pizza :=
  (serve (CW:=bool) InternalApi (Some (txt "secret")) (Some (txt "Bearer guess")) (PostInvoice pizza)
     (demo_gateway [] None)).

Lemma serve_access_witness :
  stolen_pizza = (demo_gateway [] None, Ok (mk_HttpResponse 401 false BodyEmpty)).
Proof.
  pose proof (serve_access (CW:=bool) InMemory_wf InMemory_view InternalApi (Some (txt "secret"))
    (Some (txt "Bearer guess")) (PostInvoice pizza) (demo_gateway [] None) (demo_store [])
    demo_gateway_wf) as Haccess.
  destruct stolen_pizza as [g' o]. destruct Haccess as (_ & Hrefused & _).
  - split; [done|]. do 2 (split; [split; vm_compute; congruence|]). split; [simpl; lia|].
    do 2 (split; [split; vm_compute; congruence|]). intros w. split; split; vm_compute; congruence.
  - destruct Hrefused as [-> ->]; [done| |done]. intros Ha. specialize (Ha _ eq_refl). by vm_compute in Ha.
Defined.

(** ** A websocket *)

(** What was sent, and whether the connection is still open. *)
Notation DemoSocket := (list WsMessage * bool)%type.
#[export] Instance DemoWebSocket : WebSocketCrate DemoSocket := {|
  ws_send := λ m (k : DemoSocket),
    if k.2 then ((k.1 ++ [m], match m with WsText _ => true | WsClose _ => false end), true)
    else (k, false);
  ws_close := λ k : DemoSocket, ((k.1, false), true);
|}.
#[export] Instance demo_websocket_lawful : LawfulWebSocket fst snd.
Proof. split; [|done]. intros m [l []]; simpl; [by destruct m|done]. Qed.

(** An update, the expiration of the invoice, and another update. *)
Definition ws_updates : list Invoice :=
  [set_current_height 12 expired_invoice; expired_invoice; set_current_height 31 expired_invoice].
Definition ws_publisher : Publisher := mk_Publisher ∅ [] [mk_Channel ws_updates true].

Lemma websocket_session_witness :
  (websocket_loop 5 0 (mk_Session ws_publisher ([], true))).2 = Ok tt ∧
  sends fst snd ([], true) (ss_socket (websocket_loop 5 0 (mk_Session ws_publisher ([], true))).1)
    [WsText (InvoiceUpdate_from (set_current_height 12 expired_invoice));
     WsText (InvoiceUpdate_from expired_invoice); WsClose "Invoice Expired"].
Proof.
  destruct (websocket_session fst snd 0 ws_publisher ([], true) ws_updates true 5) as (k' & E & Hs).
  - done.
  - simpl. lia.
  - rewrite E. by split.
Defined.
