(* ===== verification/ApiRuns.v ===== *)
(** The tests of the API, run: a wallet with the address of the tests, the mock
    client and the RPC client, the generator of [rand_chacha] and the printing
    of floating point numbers. *)
From S2P Require Import Prelude.
From S2P Require Import TestKit.
From S2P Require Import Invoice.
From S2P Require Import InMemory.
From S2P Require Import Text.
From S2P Require Import F64.
From S2P Require Import InvoiceText.
From S2P Require Import F64Text.
From S2P Require Import Monerod.
From S2P Require Import Demo.
From S2P Require Import SubaddressCache.
From S2P Require Import DigestAuth.
From S2P Require Import DigestSession.
From S2P Require Import Crates.
From S2P Require Import PaymentGateway.
From S2P Require Import Rpc.
From S2P Require Import RpcDemo.
From S2P Require Import InvoiceIdApi.
From S2P Require Import Callbacks.
From S2P Require Import Server.
From S2P Require Import ServerDemo.
From S2P Require Import ApiTests.

(** ** The wallet *)

(** One subaddress is known; the others are written as their index. *)
Definition TestMonero : Monero := {|
  mblock := mblock (Monero:=DemoMonero);
  prev_id := prev_id (Monero:=DemoMonero);
  tx_hashes := tx_hashes (Monero:=DemoMonero);
  transaction := transaction (Monero:=DemoMonero);
  transaction_hash := transaction_hash (Monero:=DemoMonero);
  unlock_time := unlock_time (Monero:=DemoMonero);
  SubKeyChecker := SubKeyChecker (Monero:=DemoMonero);
  OwnedTxOut := OwnedTxOut (Monero:=DemoMonero);
  TxError := TxError (Monero:=DemoMonero);
  check_outputs_with := check_outputs_with (Monero:=DemoMonero);
  owned_index := owned_index (Monero:=DemoMonero);
  owned_key := owned_key (Monero:=DemoMonero);
  owned_sub_index := owned_sub_index (Monero:=DemoMonero);
  owned_amount := owned_amount (Monero:=DemoMonero);
  ViewPair := ViewPair (Monero:=DemoMonero);
  get_subaddress := λ _ i, if decide (i = SubIndex_new 0 73) then first_address else SubIndex_fmt i;
  SubKeyChecker_new := SubKeyChecker_new (Monero:=DemoMonero);
  checker_table_len := checker_table_len (Monero:=DemoMonero);
|}.
#[local] Existing Instance TestMonero.
#[local] Existing Instance StdAuthCrates.
#[local] Existing Instance ChachaRng.
#[local] Existing Instance DemoBase64.
#[local] Existing Instance DemoServerCrates.
#[local] Instance test_numbers : NumberText := StdNumbers xmr.

(** ** Clients *)

(** A URI is printed with the path [/] if it has none.  No network answers. *)
Definition uri_display (uri : text) : text :=
  match uri_path_and_query uri with Some _ => uri | None => uri ++ txt "/" end.
#[local] Instance TestRpcCrates : RpcCrates unit := {|
  Uri_to_string := uri_display;
  Uri_from_string := Some;
  Incoming := bytes;
  http_send := λ _ _, throw Elapsed;
  collect_body := ret;
  Rpc.json := text;
  from_slice := λ _, None;
  json_index := λ v _, v;
  json_as_str := Some;
  json_as_array := λ _, None;
  json_as_u64 := λ _, None;
  json_strings := mjoin;
  hex_decode := λ _, None;
  Hash_from_slice := λ _, None;
  Hash_as_bytes := λ _, [];
  deserialize_block := λ _, None;
  deserialize_transaction := λ _, None;
  deserialize_hash := λ _, None;
|}.
#[local] Instance no_sort : SortUnstable := {| sort_unstable := λ _ _ l, l |}.

(** The crates around a client, for a way to make one. *)
Definition test_crates (W : Type) (mock : W) (rpc : text → Z → option text → option text → option Z → W) :
    GatewayCrates W := {|
  PrivateKey := string;
  PublicKey := string;
  PrivateKey_from_str := λ s, if decide (s = PRIVATE_VIEW_KEY) then inl s else inr "key"%string;
  Address_public_spend := λ s, if decide (s = PRIMARY_ADDRESS) then inl s else inr "address"%string;
  ViewPair_new := λ _ _, tt;
  Uri := text;
  Uri_from_str := λ s, inl (txt s);
  PaymentGateway.RpcClient_new := λ uri total _ user pass seed, rpc uri total (txt <$> user) (txt <$> pass) seed;
  MockClient_new := mock;
|}.

(** With the mock client: *)
#[local] Instance mock_client : MonerodClient unit (RpcError unit) := MockClient_Client (λ _, inr []).
Notation MockError := (AcceptXmrError (RpcError unit) InMemoryStorageError InMemoryStorageError
  InMemoryStorageError InMemoryStorageError).
#[local] Instance mock_crates : GatewayCrates unit := test_crates unit tt (λ _ _ _ _ _, tt).
#[local] Instance mock_web : WebCrates MockError := demo_web MockError.
Definition passes_on_mock : Test (Gateway unit (RpcError unit) InMemory InMemoryStorageError InMemoryStorageError
  InMemoryStorageError InMemoryStorageError) → bool := on_test_gateway.

(** With the RPC client: *)
#[local] Instance rpc_client : MonerodClient (Rpc unit) (RpcError unit) := RpcClient_Client 10.
#[local] Instance rpc_crates : GatewayCrates (Rpc unit) :=
  let new uri total user pass seed := mk_Rpc (Rpc.RpcClient_new uri total user pass seed) () in
  test_crates (Rpc.Rpc unit) (new [] 0 None None None) new.

