(* ===== verification/MonitorDemo.v ===== *)
(** A subscriber to all invoices during the scan of [ScannerChainDemo], and
    the monitor behind it. *)
From S2P Require Import Prelude.
From S2P Require Import Invoice.
From S2P Require Import Storage.
From S2P Require Import InMemory.
From S2P Require Import Monerod.
From S2P Require Import Demo.
From S2P Require Import BlockCache.
From S2P Require Import SubaddressCache.
From S2P Require Import TxpoolCache.
From S2P Require Import Pubsub.
From S2P Require Import Scanner.
From S2P Require Import ScannerOutputs.
From S2P Require Import ScannerDemo.
From S2P Require Import ScannerInvariant.
From S2P Require Import ScannerDelivers.
From S2P Require Import PaymentGateway.
From S2P Require Import GatewayLifecycle.
From S2P Require Import GatewayInvariant.
From S2P Require Import InvariantDemo.
From S2P Require Import ScannerChainDemo.
From S2P Require Import InvoiceText.
From S2P Require Import InvoiceIdApi.
From S2P Require Import Callbacks.
From S2P Require Import Server.
From S2P Require Import ServerSpec.
From S2P Require Import ServerDemo.
From S2P Require Import Monitor.

(** One subscriber to all invoices, and one to the invoice that is paid. *)
Definition fork_publisher : Publisher :=
  (Publisher_subscribe 9 (Invoice_id fork_bill)
    (Publisher_subscribe_all 7 (Publisher_insert_invoice (Invoice_id fork_bill) Publisher_new)).1).1.
Lemma fork_publisher_wf : pub_wf fork_publisher.
Proof.
  unfold fork_publisher. apply (pub_step_wf _ _ (step_subscribe _ 9 _)).
  apply (pub_step_wf _ _ (step_subscribe_all _ 7)), insert_invoice_wf, Publisher_new_wf.
Qed.

(** What has been sent to a receiver: paid amounts. *)
Definition amounts_sent (p : Publisher) (rx : nat) : option (list Z) :=
  (λ ch, inv_amount_paid <$> ch_queue ch) <$> channels p !! rx.

Notation fork_listened := (set_s_publisher fork_publisher fork_scanner).
Notation fork_scan_heard := (fork_scan_of fork_listened).
Definition fork_heard {E} (r : @Scanner ForkMonero nat InMemory * outcome E unit) : bool :=
  fork_ok r && bool_decide (amounts_sent (s_publisher r.1) 0 = Some [7] ∧
                            amounts_sent (s_publisher r.1) 1 = Some [7]).

Lemma fork_heard_ok {E} (r : @Scanner ForkMonero nat InMemory * outcome E unit) :
  fork_heard r = true → r.2 ≠ Hang.
Proof.
  intros [Hok _]%andb_prop. apply fork_ok_height in Hok as [Hr _]. by rewrite Hr.
Qed.

Lemma fork_store_wf : InMemory_wf fork_store.
Proof. intros id i [<- ->]%fork_store_only. split; [done|]. by decide_goal. Qed.

Lemma Scanner_scan_delivers_witness :
  fork_heard fork_scan_heard = true ∧
  ∃ us, heard fork_publisher us (s_publisher fork_scan_heard.1) ∧ pub_wf (s_publisher fork_scan_heard.1).
Proof.
  assert (Hok : fork_heard fork_scan_heard = true) by by vm_compute. split; [done|].
  pose proof (@Scanner_scan_delivers demo_build demo_order ForkMonero nat unit ForkClient
    fork_typed_crates InMemory _ _ _ _ _ InMemory_wf InMemory_view _ demo_checker fork_listened
    fork_store eq_refl fork_store_wf) as Hscan.
  destruct (λ H1 H2, Hscan H1 H2 fork_publisher_wf (fork_heard_ok _ Hok)) as (us & _ & Hh & Hp).
  - split; simpl; split; unfold u64_max; lia.
  - apply map_Forall_empty.
  - exists us. exact (conj Hh Hp).
Defined.

(** ** The gateway and the monitor *)

Notation ForkGateway := (@Gateway ForkMonero demo_rng nat unit InMemory InMemoryStorageError
  InMemoryStorageError InMemoryStorageError InMemoryStorageError).
Notation ForkError := (@AcceptXmrError ForkMonero unit InMemoryStorageError InMemoryStorageError
  InMemoryStorageError InMemoryStorageError).
Definition fork_web : WebCrates ForkError := demo_web ForkError.

Definition fork_task : @Task ForkMonero nat unit InMemoryStorageError InMemoryStorageError
    InMemoryStorageError InMemoryStorageError :=
  mk_Task fork_cache (@mk_TxpoolCache ForkMonero nat 0%nat ∅ ∅) false demo_checker TaskRunning.
Definition fork_subaddresses : @SubaddressCache ForkMonero demo_rng :=
  @mk_SubaddressCache ForkMonero demo_rng 1 3
    [(SubIndex_new 1 0, "1/0"%string); (SubIndex_new 1 1, "1/1"%string)]
    (tt : @ViewPair ForkMonero) [0].
Definition fork_gateway : ForkGateway :=
  mk_Gateway 0%nat (tt : @ViewPair ForkMonero) 1000 (Running fork_store)
    fork_subaddresses 1 None 5 6 (Some 0%nat) false [] fork_publisher [fork_task].

Lemma sent_amounts p rx us l : amounts_sent p rx = Some l → waiting p rx us → inv_amount_paid <$> us = l.
Proof. unfold amounts_sent. intros Ha (ch & Hch & <-). rewrite Hch in Ha. by injection Ha. Qed.

Notation fork_iteration :=
  (@scanner_iteration demo_build demo_order ForkMonero demo_rng nat unit ForkClient InMemory _ _ _ _ _
    0 fork_gateway).

Definition fork_iteration_ok (r : ForkGateway * bool) : bool :=
  r.2 && match g_store r.1 with Running _ => true | Dead => false end &&
  bool_decide (amounts_sent (g_publisher r.1) 0 = Some [7]).

Lemma fork_iteration_run (r : ForkGateway * bool) :
  fork_iteration_ok r = true →
  r = (r.1, true) ∧ (∃ s1, g_store r.1 = Running s1) ∧ amounts_sent (g_publisher r.1) 0 = Some [7].
Proof.
  intros [[Hr Hst]%andb_prop Ha%bool_decide_eq_true]%andb_prop. destruct r as [g1 b]. cbn [fst snd] in *.
  subst b. split; [done|]. split; [|done]. destruct (g_store g1) as [s1|]; [by exists s1|done].
Qed.

Lemma fork_gateway_ok : gateway_ok InMemory_wf InMemory_view fork_gateway.
Proof.
  split.
  - intros s [= <-]. split; [done|]. split; [apply fork_store_wf|]. split; [|split; [|split]].
    + split; [split; vm_compute; congruence|]. split; [split; vm_compute; congruence|]. split.
      * apply (bool_decide_unpack _). by vm_compute.
      * intros i a [[= -> ->]|[[= -> ->]|[]%elem_of_nil]%elem_of_cons]%elem_of_cons; simpl;
          split_and!; first [lia|by vm_compute].
    + intros i (id & inv & [_ ->]%fork_store_only & <-). split; [|simpl; lia].
      apply (bool_decide_unpack _). by vm_compute.
    + intros id i [_ ->]%fork_store_only. by split.
    + by intros id id' i i' [<- _]%fork_store_only [<- _]%fork_store_only _.
  - split; [split; vm_compute; congruence|]. split; [split; vm_compute; congruence|].
    apply Forall_singleton. split; [split; simpl; split; unfold u64_max; lia|apply map_Forall_empty].
Qed.

Lemma fork_watching : watching InMemory_wf InMemory_view fork_gateway 0 [].
Proof.
  split; [apply fork_gateway_ok|]. split; [apply fork_publisher_wf|]. split.
  - unfold listens. apply (bool_decide_unpack _). by vm_compute.
  - by exists (mk_Channel [] true).
Qed.

Lemma updates_reach_callbacks_witness :
  fork_iteration_ok fork_iteration = true ∧
  ∃ us g' q', inv_amount_paid <$> us = [7] ∧ watch_rounds true 0 (length us) (fork_iteration.1, CallbackQueue_init true 10) =
      ((g', q'), Ok tt) ∧
    cq_channel q' = (λ i, Call i 0 0) <$> us.
Proof.
  assert (Hok : fork_iteration_ok fork_iteration = true) by by vm_compute. split; [done|].
  destruct (fork_iteration_run _ Hok) as (Hrun & (s1 & Hs1) & Ha).
  destruct (@updates_reach_callbacks demo_build demo_order ForkMonero demo_rng demo_rng_lawful nat unit
    ForkClient fork_typed_crates InMemory _ _ _ _ _ InMemory_wf InMemory_view _ bool DemoServerCrates
    demo_descriptions DemoBase64 demo_base64_lawful _ fork_web true 0 0 fork_gateway _
    (CallbackQueue_init true 10) fork_store s1 fork_watching Hrun eq_refl Hs1 eq_refl)
    as (us & _ & Hw & Hrounds).
  destruct Hrounds as (g' & q' & _ & Hrounds & Hq & _); [rewrite <-(length_fmap inv_amount_paid us), (sent_amounts _ _ _ _ Ha Hw); simpl; lia|].
  exists us, g', q'. exact (conj (sent_amounts _ _ _ _ Ha Hw) (conj Hrounds Hq)).
Defined.
