(* ===== verification/Delivery.v ===== *)
(** From a scan to the clients of websockets: the scanning task of the gateway,
    the publisher, and the task of [handle_websocket] in
    [server/src/server/api/external.rs]. *)
From S2P Require Import Prelude.
From S2P Require Import Sustains.
From S2P Require Import Invoice.
From S2P Require Import Storage.
From S2P Require Import InMemory.
From S2P Require Import Monerod.
From S2P Require Import Demo.
From S2P Require Import SubaddressCache.
From S2P Require Import Pubsub.
From S2P Require Import Scanner.
From S2P Require Import ScannerInvariant.
From S2P Require Import ScannerDelivers.
From S2P Require Import PaymentGateway.
From S2P Require Import GatewayInvariant.
From S2P Require Import ScannerChainDemo.
From S2P Require Import Text.
From S2P Require Import InvoiceText.
From S2P Require Import InvoiceIdApi.
From S2P Require Import Callbacks.
From S2P Require Import Server.
From S2P Require Import ServerDemo.
From S2P Require Import Websocket.
From S2P Require Import Monitor.
From S2P Require Import MonitorDemo.

(** The last update of an invoice is what is stored of it. *)
Lemma replay_lookup us (m : gmap InvoiceId Invoice) id :
  replay us m !! id =
    match last (filter (wanted (Some id)) us) with Some i => Some i | None => m !! id end.
Proof.
  induction us as [|i us IH] using rev_ind; [done|]. rewrite replay_snoc, filter_app, filter_cons, filter_nil.
  rewrite lookup_insert. unfold wanted at 2. case_decide as Hid.
  - rewrite decide_True by done. by rewrite last_snoc.
  - rewrite decide_False by done. by rewrite app_nil_r.
Qed.

(** Who listens has a sender. *)
Lemma listens_has_sender p key rx : listens p key rx → has_sender rx p = true.
Proof.
  intros Hl%live_prefix_elem. apply list_elem_of_fmap in Hl as (s & -> & [i Hi]%list_elem_of_lookup_1).
  apply has_sender_spec. by exists key, i, s.
Qed.

Section delivery.
Context `{Build} `{HashOrder} `{Monero} `{RngCore} `{!LawfulRng}.
Context {W RpcError : Type} `{!MonerodClient W RpcError} `{!TypedCrates W RpcError}.
Context {St EI EK EH EF : Type} `{!Storage St EI EK EH EF}.
Context (wf : St → Prop) (view : St → StoreView) `{HL : !LawfulStorage St EI EK EH EF wf view}.
Context {CW : Type} `{!ServerCrates CW} `{Base64Crate} `{NumberText}.
Context {Sock : Type} `{!WebSocketCrate Sock} (sent : Sock → list WsMessage) (is_open : Sock → bool)
  `{!LawfulWebSocket sent is_open}.
Notation gateway := (Gateway W RpcError St EI EK EH EF).

(** The client of a websocket: it follows an invoice, and has received all there
    was. *)
Definition follows (id : InvoiceId) (rx : nat) (p : Publisher) : Prop :=
  pub_wf p ∧ listens p (Some id) rx ∧ waiting p rx [].

(** C30: every change of an invoice reaches the clients that follow it.  After
    an iteration of the scanning task, however the scan ended unless it is
    blocked, what is stored of the invoice is the last of the updates that
    wait for the client, or has not changed; and the task of the websocket
    sends these updates in their order, up to the one that completes or
    expires the invoice and the closing frame behind it, and waits for more.
    A connection that is open and does not fail receives all of this. *)
Theorem updates_reach_clients t id rx k fuel (g g1 : gateway) s s1 :
  gateway_ok wf view g → follows id rx (g_publisher g) →
  scanner_iteration t g = (g1, true) → g_store g = Running s → g_store g1 = Running s1 →
  ∃ updates, waiting (g_publisher g1) rx updates ∧ Forall (λ i, Invoice_id i = id ∧ Invoice_wf i) updates ∧
    v_invoices (view s1) !! id =
      match last updates with Some i => Some i | None => v_invoices (view s) !! id end ∧
    ((length updates < fuel)%nat →
     ∃ p' k', websocket_loop fuel rx (mk_Session (g_publisher g1) k) = (mk_Session p' k', Hang) ∧
       waiting p' rx [] ∧ sends sent is_open k k' (session updates)).
Proof using All.
  intros Hg (Hp & Hl & ch & Hch & Hq) E Est Est1.
  destruct (iteration_told wf view t g g1 s Hg Hp E Est) as (us & Hv & Hh & _ & Hus).
  destruct (Hh (Some id) rx Hl) as (Hl1 & ch0 & ch1 & Hch0 & Hch1 & Hr1 & Hq1).
  rewrite Hch in Hch0. injection Hch0 as <-. rewrite Hq in Hq1. simpl in Hq1.
  exists (filter (wanted (Some id)) us). split_and!.
  - by exists ch1.
  - apply Forall_forall. intros i [Hi Hin]%list_elem_of_filter. split; [done|].
    by apply (proj1 (Forall_forall _ _) Hus).
  - rewrite (Hv s1 Est1). apply replay_lookup.
  - intros Hfuel. destruct ch1 as [q1 r1]. simpl in Hq1, Hr1. subst q1 r1.
    destruct (websocket_session sent is_open rx (g_publisher g1) k (filter (wanted (Some id)) us) true fuel)
      as (k' & Hloop & Hsends); [done|done|].
    rewrite (listens_has_sender _ _ _ Hl1) in Hloop. eexists _, k'. split; [exact Hloop|]. split; [|done].
    exists (mk_Channel [] true). split; [|done]. simpl. apply list_lookup_insert_eq. by eapply lookup_lt_Some.
Qed.
End delivery.

(** ** The property applied *)

(** The gateway of [MonitorDemo]; its second channel is that of a subscriber to
    the invoice that the scan finds paid. *)
Notation fork_subscriber := 1%nat.
Lemma fork_subscriber_follows : follows (Invoice_id fork_bill) fork_subscriber (g_publisher fork_gateway).
Proof.
  split; [apply fork_publisher_wf|]. split; [|by exists (mk_Channel [] true)].
  unfold listens. apply (bool_decide_unpack _). by vm_compute.
Qed.
Notation fork_amounts r := (amounts_sent (g_publisher r.1) fork_subscriber).
Lemma fork_iteration_amounts : fork_amounts fork_iteration = Some [7].
Proof. by vm_compute. Qed.

Lemma updates_reach_clients_witness :
  fork_iteration_ok fork_iteration = true ∧
  ∃ updates k', inv_amount_paid <$> updates = [7] ∧
    sends (fst : DemoSocket → _) snd ([], true) k' (session updates).
Proof.
  assert (Hok : fork_iteration_ok fork_iteration = true) by by vm_compute. split; [done|].
  destruct (fork_iteration_run _ Hok) as (Hrun & (s1 & Hs1) & _).
  destruct (@updates_reach_clients demo_build demo_order ForkMonero demo_rng demo_rng_lawful nat unit
    ForkClient fork_typed_crates InMemory _ _ _ _ _ InMemory_wf InMemory_view _ bool DemoServerCrates
    DemoBase64 _ DemoSocket _ fst snd demo_websocket_lawful 0%nat (Invoice_id fork_bill) fork_subscriber ([], true) 5%nat
    fork_gateway _ fork_store s1 fork_gateway_ok fork_subscriber_follows Hrun eq_refl Hs1)
    as (updates & Hw & _ & _ & Hsent).
  pose proof (sent_amounts _ _ _ _ fork_iteration_amounts Hw) as Ha.
  destruct Hsent as (_ & k' & _ & _ & Hsends);
    [rewrite <-(length_fmap inv_amount_paid updates), Ha; simpl; lia|].
  exists updates, k'. exact (conj Ha Hsends).
Defined.
