(* ===== verification/ServerConfig.v ===== *)
(** The configuration of the server ([server/src/config/]), and the gateway
    that it builds from it ([server/src/lib.rs]). *)
From S2P Require Import Prelude.
From S2P Require Import Invoice.
From S2P Require Import Storage.
From S2P Require Import Text.
From S2P Require Import Bincode.
From S2P Require Import Sqlite.
From S2P Require Import Monerod.
From S2P Require Import SubaddressCache.
From S2P Require Import PaymentGateway.

(** ** The parts of a configuration *)

Record TlsConfig := mk_TlsConfig { tls_cert : string; tls_key : string }.
#[export] Instance TlsConfig_eq_dec : EqDecision TlsConfig.
Proof. solve_decision. Defined.

(** Addresses are the integers of their bits. *)
Record ServerConfig := mk_ServerConfig {
  sv_port : Z;
  sv_ipv4 : Z;
  sv_ipv6 : option Z;
  sv_token : option string;
  sv_tls : option TlsConfig;
  sv_static_dir : string;
}.
Record CallbackConfig := mk_CallbackConfig { cb_queue_size : Z; cb_max_retries : option Z }.
Record DatabaseConfig := mk_DatabaseConfig { db_path : string; db_delete_expired : bool }.
Inductive LevelFilter := Off | Error | Warn | Info | Debug | Trace.
Record LoggingConfig := mk_LoggingConfig { verbosity : LevelFilter }.
Record DaemonLoginConfig := mk_DaemonLoginConfig { username : string; password : option string }.
Record DaemonConfig := mk_DaemonConfig {
  dm_url : string;
  dm_login : option DaemonLoginConfig;
  dm_rpc_timeout : Z;            (* seconds *)
  dm_connection_timeout : Z;
}.
Record WalletConfig := mk_WalletConfig {
  primary_address : option string;  (* the text of the address *)
  private_viewkey : option string;
  account_index : Z;
  restore_height : option Z;
}.
Record Config := mk_Config {
  external_api : ServerConfig;
  internal_api : ServerConfig;
  callback : CallbackConfig;
  wallet : WalletConfig;
  daemon : DaemonConfig;
  database : DatabaseConfig;
  logging : LoggingConfig;
}.

(** *** Defaults *)

Definition IPV4_LOCALHOST : Z := 127 * 2 ^ 24 + 1.
Definition IPV6_LOCALHOST : Z := 1.
Definition ServerConfig_default : ServerConfig :=
  mk_ServerConfig 8080 IPV4_LOCALHOST (Some IPV6_LOCALHOST) None None "./server/static/".
Definition CallbackConfig_default : CallbackConfig := mk_CallbackConfig 1000 (Some 50).
Definition DEFAULT_DB_DIR : string := "AcceptXMR_DB/".
Definition DatabaseConfig_default : DatabaseConfig := mk_DatabaseConfig DEFAULT_DB_DIR true.
Definition LoggingConfig_default : LoggingConfig := mk_LoggingConfig Info.
Definition DaemonConfig_default : DaemonConfig :=
  mk_DaemonConfig "https://xmr-node.cakewallet.com:18081" None 30 20.
Definition WalletConfig_default : WalletConfig := mk_WalletConfig None None 0 None.
Definition Config_default : Config :=
  mk_Config ServerConfig_default
    (mk_ServerConfig 8081 IPV4_LOCALHOST (Some IPV6_LOCALHOST) None
       (Some (mk_TlsConfig "./cert/certificate.pem" "./cert/privatekey.pem")) "./server/static/")
    CallbackConfig_default WalletConfig_default DaemonConfig_default DatabaseConfig_default
    LoggingConfig_default.

(** *** Comparison; [static_dir] is not compared. *)

Definition ServerConfig_eq (self other : ServerConfig) : bool :=
  bool_decide (sv_port self = sv_port other) && bool_decide (sv_ipv4 self = sv_ipv4 other) &&
  bool_decide (sv_ipv6 self = sv_ipv6 other) && bool_decide (sv_token self = sv_token other) &&
  bool_decide (sv_tls self = sv_tls other).
Definition DaemonLoginConfig_eq (self other : DaemonLoginConfig) : bool :=
  let passwords_match := match password self, password other with
                         | Some p, Some q => bool_decide (p = q)
                         | None, None => true
                         | _, _ => false
                         end in
  bool_decide (username self = username other) && passwords_match.
Definition WalletConfig_eq (self other : WalletConfig) : bool :=
  let viewkeys_match := match private_viewkey self, private_viewkey other with
                        | Some p, Some q => bool_decide (p = q)
                        | None, None => true
                        | _, _ => false
                        end in
  bool_decide (primary_address self = primary_address other) && viewkeys_match &&
  bool_decide (account_index self = account_index other) &&
  bool_decide (restore_height self = restore_height other).

(** ** Reading *)

(** [env::var]; [EnvError] is a value that is not Unicode. *)
Inductive EnvVar := Present (value : string) | NotPresent | EnvError.
Notation Env := (string → EnvVar).

Class ConfigCrates := {
  YamlError : Type;
  FileError : Type;
  config_to_yaml : Config → string + YamlError;
  config_from_yaml : string → Config + YamlError;
}.
(** The file at the path of the configuration.  One that is missing may not
    be possible to create. *)
Inductive FileState `{ConfigCrates} :=
  | NotFound (create_error : option FileError)
  | FileText (contents : string)
  | Unreadable (e : FileError).

Section config.
Context `{ConfigCrates}.

Inductive ConfigError :=
  | EnvNotUnicode
  | Io (e : FileError)
  | Yaml (e : YamlError).

Definition Config_from_file : M FileState ConfigError Config :=
  λ f, match f with
       | FileText contents =>
           match config_from_yaml contents with inl c => (f, Ok c) | inr e => (f, Err (Yaml e)) end
       | NotFound (Some e) => (f, Err (Io e))
       | NotFound None =>
           (* the file has been created when the text is made *)
           match config_to_yaml Config_default with
           | inl contents => (FileText contents, Ok Config_default)
           | inr e => (FileText "", Err (Yaml e))
           end
       | Unreadable e => (f, Err (Io e))
       end.

(** An override by an environment variable. *)
Definition env_override {A} (env : Env) (name : string) (set : string → A → A) (a : A) :
    outcome ConfigError A :=
  match env name with
  | Present value => Ok (set value a)
  | NotPresent => Ok a
  | EnvError => Err EnvNotUnicode
  end.

Definition set_viewkey (key : string) (w : WalletConfig) : WalletConfig :=
  mk_WalletConfig (primary_address w) (Some key) (account_index w) (restore_height w).
Definition WalletConfig_apply_env_overrides (env : Env) : WalletConfig → outcome ConfigError WalletConfig :=
  env_override env "PRIVATE_VIEWKEY" set_viewkey.
Definition set_password (p : string) (d : DaemonConfig) : DaemonConfig :=
  match dm_login d with
  | Some login => mk_DaemonConfig (dm_url d) (Some (mk_DaemonLoginConfig (username login) (Some p)))
                    (dm_rpc_timeout d) (dm_connection_timeout d)
  | None => d
  end.
Definition DaemonConfig_apply_env_overrides (env : Env) : DaemonConfig → outcome ConfigError DaemonConfig :=
  env_override env "DAEMON_PASSWORD" set_password.
Definition set_token (t : string) (s : ServerConfig) : ServerConfig :=
  mk_ServerConfig (sv_port s) (sv_ipv4 s) (sv_ipv6 s) (Some t) (sv_tls s) (sv_static_dir s).

(** [dotenv] reads variables that are not set from a file. *)
Definition Config_apply_env_overrides (dotenv : Env → Env) (env : Env) (c : Config) :
    outcome ConfigError Config :=
  let env := dotenv env in
  match WalletConfig_apply_env_overrides env (wallet c) with
  | Ok w =>
      match DaemonConfig_apply_env_overrides env (daemon c) with
      | Ok d =>
          match env_override env "INTERNAL_API_TOKEN" set_token (internal_api c) with
          | Ok i =>
              match env_override env "EXTERNAL_API_TOKEN" set_token (external_api c) with
              | Ok x => Ok (mk_Config x i (callback c) w d (database c) (logging c))
              | Err e => Err e | Panic => Panic | Hang => Hang
              end
          | Err e => Err e | Panic => Panic | Hang => Hang
          end
      | Err e => Err e | Panic => Panic | Hang => Hang
      end
  | Err e => Err e | Panic => Panic | Hang => Hang
  end.

Definition Config_read (dotenv : Env → Env) (env : Env) : M FileState ConfigError Config :=
  let! c := Config_from_file in
  lift (Config_apply_env_overrides dotenv env c).

(** ** Validation: a failed assertion panics. *)

Definition assert (b : bool) : outcome Empty_set unit := if b then Ok tt else Panic.
Definition seq_outcome {E} (a b : outcome E unit) : outcome E unit :=
  match a with Ok _ => b | _ => a end.

Definition ServerConfig_validate (s : ServerConfig) : outcome Empty_set unit :=
  assert (bool_decide (sv_token s = None) || bool_decide (is_Some (sv_tls s))).
Definition DaemonConfig_validate (d : DaemonConfig) : outcome Empty_set unit :=
  match dm_login d with
  | Some login => assert (bool_decide (is_Some (password login)))
  | None => Ok tt
  end.

Section gateway.
Context `{Build} `{HashOrder} `{Monero} `{RngCore}.
Context {W RpcError : Type} `{!MonerodClient W RpcError} `{!GatewayCrates W}.
Context `{SqliteCrate} `{BincodeCrate} `{!Bincode Invoice} `{!Bincode OutputId} `{!Bincode Z}.

Definition WalletConfig_validate (w : WalletConfig) : outcome Empty_set unit :=
  seq_outcome (assert (bool_decide (is_Some (primary_address w))))
    (seq_outcome (assert (bool_decide (is_Some (private_viewkey w))))
       match private_viewkey w with
       | Some key => match PrivateKey_from_str key with inl _ => Ok tt | inr _ => Panic end
       | None => Ok tt
       end).

Definition Config_validate (c : Config) : outcome Empty_set unit :=
  seq_outcome (WalletConfig_validate (wallet c))
    (seq_outcome (DaemonConfig_validate (daemon c))
       (seq_outcome (ServerConfig_validate (internal_api c)) (ServerConfig_validate (external_api c)))).

Definition load_config (dotenv : Env → Env) (env : Env) : M FileState Empty_set Config :=
  λ f, match Config_read dotenv env f with
       | (f, Ok c) => (f, match Config_validate c with Ok _ => Ok c | _ => Panic end)
       | (f, _) => (f, Panic)
       end.

(** ** The gateway *)

Notation SqliteGateway := (Gateway W RpcError (@Sqlite _) SqliteStorageError SqliteStorageError
  SqliteStorageError SqliteStorageError).

(** [expect]: an error is a panic. *)
Definition expect {E A} (r : outcome E A) : outcome Empty_set A :=
  match r with Ok a => Ok a | Err _ | Panic => Panic | Hang => Hang end.

(** The builder as [build_gateway] sets it up. *)
Definition gateway_builder (c : Config) (view_key address : string) (store : Sqlite) :
    PaymentGatewayBuilder (St:=Sqlite) :=
  let b := PaymentGatewayBuilder_new view_key address store in
  let b := Builder_account_index (account_index (wallet c)) b in
  let b := Builder_daemon_url (dm_url (daemon c)) b in
  let b := match dm_login (daemon c) with
           | Some login => Builder_daemon_login (username login) (default "" (password login)) b
           | None => b
           end in
  match restore_height (wallet c) with
  | Some restore_height => Builder_initial_height restore_height b
  | None => b
  end.

(** [database_path]: the directory of the database, created, and the text of
    its absolute path; [None] if that fails. *)
Definition build_gateway (database_path : string → option text) (c : Config) :
    outcome Empty_set SqliteGateway :=
  match database_path (db_path (database c)) with
  | None => Panic
  | Some path =>
      match private_viewkey (wallet c), primary_address (wallet c) with
      | Some view_key, Some address =>
          match expect (Sqlite_new path (txt "invoices") (txt "output keys") (txt "height")) with
          | Ok store => expect (build (gateway_builder c view_key address store))
          | Err e => Err e
          | Panic => Panic
          | Hang => Hang
          end
      | _, _ => Panic
      end
  end.

End gateway.
End config.
