(* ===== verification/ConfigTests.v ===== *)
(** The unit tests of the configuration of the server
    ([server/src/config/]): defaults, comparison, overrides by the
    environment and validation.  Which texts are addresses and keys is up to
    the [monero] crate, and what a file says up to [serde_yaml]. *)
From S2P Require Import Prelude.
From S2P Require Import TestKit.
From S2P Require Import Text.
From S2P Require Import Monerod.
From S2P Require Import Demo.
From S2P Require Import PaymentGateway.
From S2P Require Import ServerConfig.

(** ** Derived comparisons *)

Definition CallbackConfig_eq (x y : CallbackConfig) : bool :=
  bool_decide (cb_queue_size x = cb_queue_size y) && bool_decide (cb_max_retries x = cb_max_retries y).
Definition DatabaseConfig_eq (x y : DatabaseConfig) : bool :=
  bool_decide (db_path x = db_path y) && bool_decide (db_delete_expired x = db_delete_expired y).
#[export] Instance LevelFilter_eq_dec : EqDecision LevelFilter.
Proof. solve_decision. Defined.
Definition DaemonConfig_eq (x y : DaemonConfig) : bool :=
  bool_decide (dm_url x = dm_url y) && option_eqb DaemonLoginConfig_eq (dm_login x) (dm_login y) &&
  bool_decide (dm_rpc_timeout x = dm_rpc_timeout y) &&
  bool_decide (dm_connection_timeout x = dm_connection_timeout y).
Definition Config_eq (x y : Config) : bool :=
  ServerConfig_eq (external_api x) (external_api y) && ServerConfig_eq (internal_api x) (internal_api y) &&
  CallbackConfig_eq (callback x) (callback y) && WalletConfig_eq (wallet x) (wallet y) &&
  DaemonConfig_eq (daemon x) (daemon y) && DatabaseConfig_eq (database x) (database y) &&
  bool_decide (verbosity (logging x) = verbosity (logging y)).

(** [env::set_var]. *)
Definition set_var (name value : string) (env : Env) : Env :=
  λ n, if decide (n = name) then Present value else env n.

(** ** [config/daemon.rs] *)

Section daemon.
Context `{ConfigCrates}.

Definition daemon_with (url : string) (login : option DaemonLoginConfig) : DaemonConfig :=
  mk_DaemonConfig url login (dm_rpc_timeout DaemonConfig_default) (dm_connection_timeout DaemonConfig_default).

(** The password afterwards; [Panic] if an [unwrap] does. *)
Definition test_daemon_env_overrides (env : Env) (config_pass : option string) :
    outcome Empty_set (option string) :=
  let config := daemon_with (dm_url DaemonConfig_default) (Some (mk_DaemonLoginConfig "jsmith" config_pass)) in
  let env := set_var "DAEMON_PASSWORD" "supersecretpassword" env in
  match DaemonConfig_apply_env_overrides env config with
  | Ok config => match dm_login config with Some login => Ok (password login) | None => Panic end
  | _ => Panic
  end.
Definition daemon_env_cases : list (option string * outcome Empty_set (option string)) :=
  [(None, Ok (Some "supersecretpassword"%string)); (Some "configpass"%string, Ok (Some "supersecretpassword"%string))].

Definition test_daemon_validate (config : DaemonConfig) : bool := does_not_panic (DaemonConfig_validate config).
Definition daemon_validate_cases : list (DaemonConfig * bool) :=
  [(DaemonConfig_default, true);
   (daemon_with "http://example.com" (Some (mk_DaemonLoginConfig "jsmith" None)), false);
   (daemon_with "http://example.com" (Some (mk_DaemonLoginConfig "jsmith" (Some "p455w0rd"%string))), true)].

Definition test_daemon_eq (c : string * option string * string * option string) : bool :=
  let '(user1, pass1, user2, pass2) := c in
  let login1 := mk_DaemonLoginConfig user1 pass1 in
  let login2 := mk_DaemonLoginConfig user2 pass2 in
  DaemonLoginConfig_eq login1 login2.
Definition daemon_eq_cases : list (string * option string * string * option string * bool) :=
  let j := "jsmith"%string in let pass := Some "pass"%string in
  [((j, None, j, None), true); ((j, pass, j, pass), true); ((j, None, "jgalt"%string, None), false);
   ((j, pass, j, Some "pass2"%string), false); ((j, pass, j, None), false)].
End daemon.

(** ** [config/server.rs] *)

Definition test_server_validate (c : bool * bool) : bool :=
  let '(tls, token) := c in
  let config := mk_ServerConfig (sv_port ServerConfig_default) (sv_ipv4 ServerConfig_default)
    (sv_ipv6 ServerConfig_default)
    (if token then Some "supersecrettoken"%string else None)
    (if tls then Some (mk_TlsConfig "path/to/cert.pem" "path/to/key.pem") else None)
    (sv_static_dir ServerConfig_default) in
  does_not_panic (ServerConfig_validate config).
Definition server_validate_cases : list (bool * bool * bool) :=
  [((true, true), true); ((false, false), true); ((true, false), true); ((false, true), false)].

(** ** [config/wallet.rs] *)

Definition ADDRESS_1 : string :=
  "4613YiHLM6JMH4zejMB2zJY5TwQCxL8p65ufw8kBP5yxX9itmuGLqp1dS4tkVoTxjyH3aYhYNrtGHbQzJQP5bFus3KHVdmf".
Definition ADDRESS_2 : string :=
  "82assiV5dy7guoxxV7vSReZTyY5rGMrWg6BsfvFqiEKRcTiDs7LGMpg5dF5gXVGUWPEXQxyt8SNYx8L8HiGAzvtBK3eJ3EY".
Definition ADDRESS_INVALID : string :=
  "5613YiHLM6JMH4zejMB2zJY5TwQCxL8p65ufw8kBP5yxX9itmuGLqp1dS4tkVoTxjyH3aYhYNrtGHbQzJQP5bFus3KHVdmf".
Definition VIEWKEY_1 : string := "ad2093a5705b9f33e6f0f0c1bc1f5f639c756cdfc168c8f2ac6127ccbdab3a03".
Definition VIEWKEY_INVALID : string := "d2093a5705b9f33e6f0f0c1bc1f5f639c756cdfc168c8f2ac6127ccbdab3a03".

Section wallet.
Context `{ConfigCrates} `{Monero} {W : Type} `{!GatewayCrates W}.

Definition test_wallet_env_overrides (env : Env) (config_key : option string) :
    outcome Empty_set (option string) :=
  let config := mk_WalletConfig (primary_address WalletConfig_default) config_key
    (account_index WalletConfig_default) (restore_height WalletConfig_default) in
  let env := set_var "PRIVATE_VIEWKEY" VIEWKEY_1 env in
  match WalletConfig_apply_env_overrides env config with
  | Ok config => Ok (private_viewkey config)
  | _ => Panic
  end.
Definition wallet_env_cases : list (option string * outcome Empty_set (option string)) :=
  [(None, Ok (Some VIEWKEY_1)); (Some "configkey"%string, Ok (Some VIEWKEY_1))].

(** [Address::from_str(addr).unwrap()]. *)
Definition parse_address (address : option string) : outcome Empty_set (option string) :=
  match address with
  | Some addr => match Address_public_spend addr with inl _ => Ok (Some addr) | inr _ => Panic end
  | None => Ok None
  end.

Definition test_wallet_validate (c : option string * option string) : bool :=
  let '(address, viewkey) := c in
  does_not_panic
    (match parse_address address with
     | Ok address => WalletConfig_validate (mk_WalletConfig address viewkey 123 (Some 12345))
     | _ => Panic
     end).
Definition wallet_validate_cases : list (option string * option string * bool) :=
  [((None, None), false); ((None, Some VIEWKEY_1), false); ((Some ADDRESS_1, None), false);
   ((Some ADDRESS_1, Some VIEWKEY_1), true); ((Some ADDRESS_INVALID, Some VIEWKEY_1), false);
   ((Some ADDRESS_1, Some VIEWKEY_INVALID), false)].

Notation wallet_args := (option string * option string * Z * option Z)%type.
Definition test_wallet_eq (c : wallet_args * wallet_args) : outcome Empty_set bool :=
  let '((address1, viewkey1, account_index1, restore_height1),
        (address2, viewkey2, account_index2, restore_height2)) := c in
  match parse_address address1, parse_address address2 with
  | Ok address1, Ok address2 =>
      let wallet1 := mk_WalletConfig address1 viewkey1 account_index1 restore_height1 in
      let wallet2 := mk_WalletConfig address2 viewkey2 account_index2 restore_height2 in
      Ok (WalletConfig_eq wallet1 wallet2)
  | _, _ => Panic
  end.
Definition wallet_eq_cases : list (wallet_args * wallet_args * outcome Empty_set bool) :=
  let a := Some ADDRESS_1 in let k := Some VIEWKEY_1 in
  [((a, None, 0, None), (a, None, 0, None), Ok true);
   ((a, k, 0, None), (a, k, 0, None), Ok true);
   ((a, None, 0, None), (Some ADDRESS_2, None, 0, None), Ok false);
   ((a, k, 0, None), (a, Some VIEWKEY_INVALID, 0, None), Ok false);
   ((a, k, 0, None), (a, None, 0, None), Ok false);
   ((None, k, 0, None), (None, k, 0, None), Ok true);
   ((a, k, 0, None), (a, k, 123, None), Ok false);
   ((a, k, 0, Some 123), (a, k, 0, Some 124), Ok false)].
End wallet.

(** ** [config/mod.rs] *)

Definition expected_default : Config :=
  mk_Config
    (mk_ServerConfig 8080 IPV4_LOCALHOST (Some IPV6_LOCALHOST) None None "./server/static/")
    (mk_ServerConfig 8081 IPV4_LOCALHOST (Some IPV6_LOCALHOST) None
       (Some (mk_TlsConfig "./cert/certificate.pem" "./cert/privatekey.pem")) "./server/static/")
    (mk_CallbackConfig 1000 (Some 50))
    (mk_WalletConfig None None 0 None)
    (mk_DaemonConfig "https://xmr-node.cakewallet.com:18081" None 30 20)
    (mk_DatabaseConfig "AcceptXMR_DB/" true)
    (mk_LoggingConfig Info).
Definition test_config_default : Test unit := assert_eq Config_eq Config_default expected_default.

Definition expected_config : Config :=
  mk_Config ServerConfig_default
    (mk_ServerConfig 8081 IPV4_LOCALHOST None (Some "supersecrettoken"%string)
       (Some (mk_TlsConfig "/path/to/cert.pem" "/path/to/key.pem")) "./server/static/")
    (mk_CallbackConfig 500 (Some 25))
    (mk_WalletConfig (Some ADDRESS_1) (Some VIEWKEY_1) 0 (Some 2947000))
    (mk_DaemonConfig "https://node.example.com:18081"
       (Some (mk_DaemonLoginConfig "pinkpanther" (Some "supersecretpassword"%string))) 20 10)
    (mk_DatabaseConfig "server/tests/AcceptXMR_DB/" true)
    (mk_LoggingConfig Debug).

Section config.
Context `{ConfigCrates} `{Monero} {W : Type} `{!GatewayCrates W}.

Definition validates (c : Config) : Test FileState := lift (Config_validate c).

Definition test_from_yaml (yaml : string) : Test FileState :=
  match config_from_yaml yaml with
  | inl config => assert_eq Config_eq config expected_config ;;; validates config
  | inr _ => panic
  end.

(** On the file at the path that [CONFIG_FILE] names. *)
Definition test_from_yaml_and_env (dotenv : Env → Env) (env : Env) : Test FileState :=
  let! config_without_secrets := unwrap Config_from_file in
  assert_ne Config_eq config_without_secrets expected_config ;;;
  assert_that (negb (does_not_panic (Config_validate config_without_secrets))) ;;;
  let env := set_var "DAEMON_PASSWORD" "supersecretpassword" env in
  let env := set_var "PRIVATE_VIEWKEY" VIEWKEY_1 env in
  let env := set_var "INTERNAL_API_TOKEN" "supersecrettoken" env in
  let! config := unwrap (Config_read dotenv env) in
  assert_eq Config_eq config expected_config ;;;
  validates config.

(** ** The tests pass *)

(** What the files of the tests say: [config_full.yaml] and
    [config_no_secrets.yaml], which leaves out the token, the key and the
    password. *)
Definition file_with (token key pass : option string) : Config :=
  mk_Config
    (mk_ServerConfig 8080 IPV4_LOCALHOST (Some IPV6_LOCALHOST) None None "server/static/")
    (mk_ServerConfig 8081 IPV4_LOCALHOST None token
       (Some (mk_TlsConfig "/path/to/cert.pem" "/path/to/key.pem")) "server/static/")
    (mk_CallbackConfig 500 (Some 25)) (mk_WalletConfig (Some ADDRESS_1) key 0 (Some 2947000))
    (mk_DaemonConfig "https://node.example.com:18081" (Some (mk_DaemonLoginConfig "pinkpanther" pass)) 20 10)
    (mk_DatabaseConfig "server/tests/AcceptXMR_DB/" true) (mk_LoggingConfig Debug).

(** The texts of the tests, to the [monero] crate. *)
Record TestTexts : Prop := {
  address_1_ok : ∃ k, Address_public_spend ADDRESS_1 = inl k;
  address_2_ok : ∃ k, Address_public_spend ADDRESS_2 = inl k;
  address_invalid : ∃ e, Address_public_spend ADDRESS_INVALID = inr e;
  viewkey_1_ok : ∃ k, PrivateKey_from_str VIEWKEY_1 = inl k;
  viewkey_invalid : ∃ e, PrivateKey_from_str VIEWKEY_INVALID = inr e;
}.

Lemma Config_from_file_reads (t : string) (c : Config) :
  config_from_yaml t = inl c → Config_from_file (FileText t) = (FileText t, Ok c).
Proof. intros Hc. unfold Config_from_file. by rewrite Hc. Qed.

(** What the last test reads. *)
Lemma tests_read (env : Env) (t : string) :
  env "EXTERNAL_API_TOKEN"%string = NotPresent →
  config_from_yaml t = inl (file_with None None None) →
  Config_read id (set_var "INTERNAL_API_TOKEN" "supersecrettoken"
    (set_var "PRIVATE_VIEWKEY" VIEWKEY_1 (set_var "DAEMON_PASSWORD" "supersecretpassword" env))) (FileText t)
  = (FileText t, Ok (file_with (Some "supersecrettoken") (Some VIEWKEY_1) (Some "supersecretpassword")))%string.
Proof.
  intros Henv Hno. unfold Config_read, bind. rewrite (Config_from_file_reads _ _ Hno).
  unfold lift, Config_apply_env_overrides, WalletConfig_apply_env_overrides,
    DaemonConfig_apply_env_overrides, env_override, id.
  unfold set_var. repeat (rewrite decide_False by done || rewrite decide_True by done).
  by rewrite Henv.
Qed.

(** The tests of the configuration pass, whatever the environment holds
    besides what they set; the last one if no variable is set that is not
    Unicode or that would give the external API a token, and the file of
    environment variables adds none. *)
Theorem config_tests_pass (env : Env) (full no_secrets : string) :
  TestTexts →
  config_from_yaml full =
    inl (file_with (Some "supersecrettoken") (Some VIEWKEY_1) (Some "supersecretpassword"))%string →
  config_from_yaml no_secrets = inl (file_with None None None) →
  forallb (case (test_daemon_env_overrides env)) daemon_env_cases = true ∧
  forallb (case test_daemon_validate) daemon_validate_cases = true ∧
  forallb (case test_daemon_eq) daemon_eq_cases = true ∧
  forallb (case test_server_validate) server_validate_cases = true ∧
  forallb (case (test_wallet_env_overrides env)) wallet_env_cases = true ∧
  forallb (case test_wallet_validate) wallet_validate_cases = true ∧
  forallb (case test_wallet_eq) wallet_eq_cases = true ∧
  passes test_config_default tt = true ∧
  passes (test_from_yaml full) (FileText full) = true ∧
  (env "EXTERNAL_API_TOKEN" = NotPresent →
   passes (test_from_yaml_and_env id env) (FileText no_secrets) = true).
Proof.
  intros [[a1 Ha1] [a2 Ha2] [e Hei] [k1 Hk1] [e' Hki]] Hfull Hno. split_and!.
  - by vm_compute.
  - by vm_compute.
  - by vm_compute.
  - by vm_compute.
  - by vm_compute.
  - cbn [forallb wallet_validate_cases]. unfold case, test_wallet_validate, parse_address. cbn [fst snd].
    rewrite Ha1, Hei. unfold WalletConfig_validate. cbn [primary_address private_viewkey]. by rewrite Hk1, Hki.
  - cbn [forallb wallet_eq_cases]. unfold case, test_wallet_eq, parse_address. cbn [fst snd].
    rewrite Ha1, Ha2. by vm_compute.
  - by vm_compute.
  - unfold passes, test_from_yaml. rewrite Hfull. unfold assert_eq.
    replace (Config_eq _ expected_config) with true by (by vm_compute).
    unfold validates, Config_validate, WalletConfig_validate. cbn -[PrivateKey_from_str]. by rewrite Hk1.
  - intros Henv.
    pose proof (Config_from_file_reads no_secrets (file_with None None None) Hno) as Hread.
    apply passes_wp. unfold test_from_yaml_and_env.
    apply wp_bind, wp_unwrap. unfold wp at 1. rewrite Hread. cbn [fst snd].
    apply wp_bind, wp_assert; [by vm_compute|].
    apply wp_bind, wp_assert; [by vm_compute|].
    apply wp_bind, wp_unwrap. unfold wp at 1. rewrite (tests_read _ _ Henv Hno). cbn [fst snd].
    apply wp_bind, wp_assert; [by vm_compute|].
    unfold validates, Config_validate, WalletConfig_validate. cbn -[PrivateKey_from_str]. by rewrite Hk1.
Qed.
End config.

(** ** Crates that read the texts of the tests *)

(** An address starts with the digit 4 (52) or 8 (56), a key has 64 digits. *)
#[local] Instance TestGatewayCrates : GatewayCrates (H:=DemoMonero) nat := {|
  PrivateKey := string;
  PublicKey := string;
  PrivateKey_from_str := λ s, if decide (String.length s = 64%nat) then inl s else inr "length"%string;
  Address_public_spend := λ s,
    match s with
    | String c _ => if decide (Ascii.nat_of_ascii c = 52%nat ∨ Ascii.nat_of_ascii c = 56%nat) then inl s else inr "network"%string
    | EmptyString => inr "empty"%string
    end;
  ViewPair_new := λ _ _, tt;
  Uri := string;
  Uri_from_str := λ s, inl s;
  RpcClient_new := λ _ total _ _ _ _, Z.to_nat (total / 1000);
  MockClient_new := 0%nat;
|}.
#[local] Instance TestConfigCrates : ConfigCrates := {|
  YamlError := unit;
  FileError := unit;
  config_to_yaml := λ _, inl ""%string;
  config_from_yaml := λ s,
    if decide (s = "full")
    then inl (file_with (Some "supersecrettoken") (Some VIEWKEY_1) (Some "supersecretpassword"))%string
    else inl (file_with None None None);
|}.

Lemma test_texts : @TestTexts DemoMonero nat TestGatewayCrates.
Proof. split; eexists; vm_compute; reflexivity. Qed.

Lemma config_tests_pass_witness :
  passes (test_from_yaml_and_env id (λ _, NotPresent)) (FileText "no_secrets") = true ∧
  passes (test_from_yaml "full") (FileText "full") = true.
Proof.
  destruct (config_tests_pass (λ _, NotPresent) "full" "no_secrets" test_texts)
    as (_ & _ & _ & _ & _ & _ & _ & _ & Hfull & Henv); [by vm_compute..|].
  split; [by apply Henv|exact Hfull].
Defined.
