(* ===== verification/ServerConfigSpec.v ===== *)
(** What a loaded configuration guarantees, and which of it the gateway that
    the server builds has. *)
From S2P Require Import Prelude.
From S2P Require Import Invoice.
From S2P Require Import Storage.
From S2P Require Import Text.
From S2P Require Import Bincode.
From S2P Require Import Sqlite.
From S2P Require Import Monerod.
From S2P Require Import SubaddressCache.
From S2P Require Import PaymentGateway.
From S2P Require Import ServerConfig.

Section spec.
Context `{ConfigCrates}.
Context `{Build} `{HashOrder} `{Monero} `{RngCore}.
Context {W RpcError : Type} `{!MonerodClient W RpcError} `{!GatewayCrates W}.
Context `{SqliteCrate} `{BincodeCrate} `{!Bincode Invoice} `{!Bincode OutputId} `{!Bincode Z}.

Notation SqliteGateway := (Gateway W RpcError Sqlite SqliteStorageError SqliteStorageError
  SqliteStorageError SqliteStorageError).

(** ** Validation *)

Definition token_protected (s : ServerConfig) : Prop := is_Some (sv_token s) → is_Some (sv_tls s).
(** What [validate] asserts. *)
Definition config_ok (c : Config) : Prop :=
  is_Some (primary_address (wallet c)) ∧
  (∃ key k, private_viewkey (wallet c) = Some key ∧ PrivateKey_from_str key = inl k) ∧
  (∀ login, dm_login (daemon c) = Some login → is_Some (password login)) ∧
  token_protected (internal_api c) ∧ token_protected (external_api c).

Lemma assert_cases b (rest : outcome Empty_set unit) :
  seq_outcome (assert b) rest = if b then rest else Panic.
Proof using Type. by destruct b. Qed.
Lemma server_validate_cases s :
  (ServerConfig_validate s = Ok tt ∧ token_protected s) ∨
  (ServerConfig_validate s = Panic ∧ ¬ token_protected s).
Proof using Type.
  unfold ServerConfig_validate, token_protected. destruct s as [? ? ? [t|] [tls|] ?]; simpl.
  - left. eauto.
  - right. split; [done|]. intros Hp. by destruct (Hp (mk_is_Some _ _ eq_refl)).
  - left. split; [done|]. by intros [? ?].
  - left. split; [done|]. by intros [? ?].
Qed.

(** Validation passes or panics. *)
Lemma Config_validate_cases c :
  (Config_validate c = Ok tt ∧ config_ok c) ∨ (Config_validate c = Panic ∧ ¬ config_ok c).
Proof using Type.
  unfold Config_validate, WalletConfig_validate, config_ok. rewrite !assert_cases.
  destruct (primary_address (wallet c)) as [a|]; simpl.
  2:{ right. split; [done|]. by intros [[? ?] _]. }
  destruct (private_viewkey (wallet c)) as [key|]; simpl.
  2:{ right. split; [done|]. by intros (_ & (? & ? & ? & _) & _). }
  destruct (PrivateKey_from_str key) as [k|e] eqn:Ek; simpl.
  2:{ right. split; [done|]. intros (_ & (? & ? & [= <-] & ?) & _). congruence. }
  unfold DaemonConfig_validate. destruct (dm_login (daemon c)) as [[u [p|]]|] eqn:El; simpl.
  2:{ right. split; [done|]. intros (_ & _ & Hl & _). by destruct (Hl _ eq_refl). }
  all: destruct (server_validate_cases (internal_api c)) as [[-> Hi]|[-> Hi]]; simpl;
    [|by right; split; [done|]; intros (_ & _ & _ & ? & _)].
  all: destruct (server_validate_cases (external_api c)) as [[-> Hx]|[-> Hx]];
    [|by right; split; [done|]; intros (_ & _ & _ & _ & ?)].
  all: left; split; [done|]; split; [by eexists|]; split; [by exists key, k|].
  all: split; [|done]; intros ? [= <-] || done; by eexists.
Qed.

(** ** Loading *)

(** A secret after its override. *)
Definition overridden (env : Env) (name : string) (old : option string) : option string :=
  match env name with Present v => Some v | _ => old end.

Lemma env_override_Ok {A} env name (set : string → A → A) a b :
  env_override env name set a = Ok b →
  (env name = NotPresent ∧ b = a) ∨ ∃ v, env name = Present v ∧ b = set v a.
Proof using Type. unfold env_override. destruct (env name); naive_solver. Qed.

(** A configuration that the server starts with.  It is the one of the
    file (or the default one, which is then written), with the secrets that
    the environment sets in place of those of the file; the wallet is
    configured with a valid view key; and an API token, wherever it came
    from, is never used without TLS. *)
Theorem load_config_spec dotenv env f f' c :
  load_config dotenv env f = (f', Ok c) →
  ∃ c0, Config_from_file f = (f', Ok c0) ∧ config_ok c ∧
    private_viewkey (wallet c) = overridden (dotenv env) "PRIVATE_VIEWKEY" (private_viewkey (wallet c0)) ∧
    sv_token (internal_api c) = overridden (dotenv env) "INTERNAL_API_TOKEN" (sv_token (internal_api c0)) ∧
    sv_token (external_api c) = overridden (dotenv env) "EXTERNAL_API_TOKEN" (sv_token (external_api c0)) ∧
    (∀ login, dm_login (daemon c) = Some login → ∃ login0, dm_login (daemon c0) = Some login0 ∧
       username login = username login0 ∧
       password login = overridden (dotenv env) "DAEMON_PASSWORD" (password login0)) ∧
    callback c = callback c0 ∧ database c = database c0.
Proof using Type.
  unfold load_config, Config_read, bind, lift.
  destruct (Config_from_file f) as [f1 [c0|e| |]]; [|done..].
  destruct (Config_apply_env_overrides dotenv env c0) as [c1|e| |] eqn:E; [|done..].
  destruct (Config_validate_cases c1) as [[-> Hok]|[-> _]]; [|done]. intros [= -> ->].
  exists c0. split; [done|]. split; [done|]. clear Hok.
  unfold Config_apply_env_overrides in E.
  destruct (WalletConfig_apply_env_overrides (dotenv env) (wallet c0)) as [w| | |] eqn:Ew; try done.
  destruct (DaemonConfig_apply_env_overrides (dotenv env) (daemon c0)) as [d| | |] eqn:Ed; try done.
  destruct (env_override (dotenv env) "INTERNAL_API_TOKEN" set_token (internal_api c0))
    as [i| | |] eqn:Ei; try done.
  destruct (env_override (dotenv env) "EXTERNAL_API_TOKEN" set_token (external_api c0))
    as [x| | |] eqn:Ex; try done.
  injection E as <-. cbn [wallet internal_api external_api daemon callback database]. unfold overridden.
  apply env_override_Ok in Ew, Ed, Ei, Ex.
  destruct Ew as [[-> ->]|(v1 & -> & ->)], Ei as [[-> ->]|(v2 & -> & ->)],
    Ex as [[-> ->]|(v3 & -> & ->)]; do 3 (split; [done|]); split; try done;
    intros login Hl; destruct Ed as [[-> ->]|(v & -> & ->)]; eauto;
    unfold set_password in Hl; destruct (dm_login (daemon c0)) eqn:El; simpl in Hl; simplify_eq; eauto.
Qed.

(** ** Building *)

Lemma build_fields (b : PaymentGatewayBuilder (St:=Sqlite)) g :
  build (EI:=SqliteStorageError) (EK:=SqliteStorageError) (EH:=SqliteStorageError)
    (EF:=SqliteStorageError) (RpcError:=RpcError) b = Ok g →
  ∃ url, Uri_from_str (b_daemon_url b) = inl url ∧
    g_client g = RpcClient_new url (b_rpc_timeout b) (b_rpc_connection_timeout b)
      (b_daemon_username b) (b_daemon_password b) (b_seed b) ∧
    g_major_index g = b_major_index b ∧ g_initial_height g = b_initial_height b ∧ g_handle g = None.
Proof using Type.
  unfold build, build_inner. destruct (Uri_from_str (b_daemon_url b)) as [url|]; [|done].
  destruct (PrivateKey_from_str _); [|done]. destruct (Address_public_spend _); [|done].
  destruct (SubaddressCache_init _ _ _ _) as [? [| | |]]; [|done..]. intros [= <-]. by exists url.
Qed.

(** A client with the configured login and the timeouts of the library. *)
Definition client_with_defaults (d : DaemonConfig) (url : Uri) : W :=
  RpcClient_new url DEFAULT_RPC_TOTAL_TIMEOUT DEFAULT_RPC_CONNECTION_TIMEOUT
    (username <$> dm_login d) ((λ l, default "" (password l)) <$> dm_login d) None.

(** C37: the gateway that the server builds.  It talks to the configured
    daemon with the configured login, uses the configured account and restore
    height, and is not started; but its timeouts are the defaults of the
    library, whatever the configuration says. *)
Theorem build_gateway_spec database_path c (g : SqliteGateway) :
  build_gateway database_path c = Ok g →
  ∃ url, Uri_from_str (dm_url (daemon c)) = inl url ∧
    g_client g = client_with_defaults (daemon c) url ∧
    g_major_index g = account_index (wallet c) ∧ g_initial_height g = restore_height (wallet c) ∧
    g_handle g = None.
Proof using Type.
  unfold build_gateway. destruct (database_path _) as [path|]; [|done].
  destruct (private_viewkey (wallet c)) as [key|]; [|done].
  destruct (primary_address (wallet c)) as [address|]; [|done].
  destruct (expect (Sqlite_new path _ _ _)) as [store|e| |]; [|by destruct e|done..].
  destruct (build (gateway_builder c key address store)) as [g'|e| |] eqn:E; [|done..].
  intros [= <-]. apply build_fields in E as (url & Eu & Ec & Em & Eh & Ehd).
  exists url. unfold gateway_builder in *. rewrite Ec, Em, Eh, Ehd. unfold client_with_defaults.
  by destruct (dm_login (daemon c)), (restore_height (wallet c)).
Qed.

End spec.
