(* ===== verification/ServerConfigDemo.v ===== *)
(** A configuration file, an environment and a database, to which the
    properties of the configuration are applied. *)
From S2P Require Import Prelude.
From S2P Require Import Invoice.
From S2P Require Import Storage.
From S2P Require Import Text.
From S2P Require Import Bincode.
From S2P Require Import SledDemo.
From S2P Require Import Sqlite.
From S2P Require Import SqliteDemo.
From S2P Require Import Monerod.
From S2P Require Import Demo.
From S2P Require Import SubaddressCache.
From S2P Require Import PaymentGateway.
From S2P Require Import ServerConfig.
From S2P Require Import ServerConfigSpec.

(** The client is the number of seconds of its total timeout. *)
#[export] Instance DemoGatewayCrates : GatewayCrates (H:=DemoMonero) nat := {|
  PrivateKey := string;
  PublicKey := string;
  PrivateKey_from_str := λ s, if decide (s = "") then inr "empty"%string else inl s;
  Address_public_spend := λ s, inl s;
  ViewPair_new := λ _ _, tt;
  Uri := string;
  Uri_from_str := λ s, inl s;
  RpcClient_new := λ _ total _ _ _ _, Z.to_nat (total / 1000);
  MockClient_new := 0%nat;
|}.

(** The file has a wallet without its key, a login without its password, and
    half a minute of patience. *)
Definition file_config : Config :=
  mk_Config (external_api Config_default) (internal_api Config_default) CallbackConfig_default
    (mk_WalletConfig (Some "4A") None 1 (Some 500))
    (mk_DaemonConfig "http://node:18081" (Some (mk_DaemonLoginConfig "jsmith" None)) 30 20)
    DatabaseConfig_default LoggingConfig_default.
#[export] Instance DemoConfigCrates : ConfigCrates := {|
  YamlError := unit;
  FileError := unit;
  config_to_yaml := λ _, inl "default"%string;
  config_from_yaml := λ s, if decide (s = "file") then inl file_config else inr tt;
|}.
Definition demo_env : Env := λ name,
  if decide (name = "PRIVATE_VIEWKEY") then Present "ad20"
  else if decide (name = "DAEMON_PASSWORD") then Present "p455w0rd"
  else if decide (name = "INTERNAL_API_TOKEN") then Present "supersecret"
  else NotPresent.

Definition demo_loaded : Config :=
  match (load_config id demo_env (FileText "file")).2 with Ok c => c | _ => Config_default end.

Lemma load_config_spec_witness :
  config_ok demo_loaded ∧ sv_token (internal_api demo_loaded) = Some "supersecret"%string ∧
  private_viewkey (wallet demo_loaded) = Some "ad20"%string.
Proof.
  destruct (load_config_spec id demo_env (FileText "file") (FileText "file") demo_loaded)
    as (c0 & H0 & Hok & Hkey & Htoken & _); [by vm_compute|].
  split; [exact Hok|]. rewrite Htoken, Hkey. by split.
Defined.

#[local] Instance demo_config_client : MonerodClient (H:=DemoMonero) nat unit :=
  DemoClient (mk_DemoWorld 0 (λ _, []) [] 12 None).
Notation DemoSqliteGateway := (Gateway nat unit Sqlite SqliteStorageError SqliteStorageError
  SqliteStorageError SqliteStorageError).
Definition demo_path (dir : string) : option text := Some (txt ("/var/" +:+ dir)).
Notation demo_built := (build_gateway (W:=nat) (RpcError:=unit) demo_path demo_loaded).

Definition is_ok {E A} (r : outcome E A) : bool := match r with Ok _ => true | _ => false end.
Lemma is_ok_spec {E A} (r : outcome E A) : is_ok r = true → ∃ a, r = Ok a.
Proof. destruct r; naive_solver. Qed.
Lemma demo_built_ok : is_ok demo_built = true.
Proof. by vm_compute. Qed.

(** Thirty seconds were configured; ten are used. *)
Lemma build_gateway_spec_witness :
  dm_rpc_timeout (daemon demo_loaded) = 30 ∧
  ∃ g : DemoSqliteGateway, demo_built = Ok g ∧ g_client g = 10%nat ∧ g_major_index g = 1.
Proof.
  split; [by vm_compute|].
  destruct (is_ok_spec demo_built demo_built_ok) as [g E]. exists g. split; [exact E|].
  destruct (build_gateway_spec demo_path demo_loaded g E) as (url & _ & Hc & Hm & _).
  rewrite Hc, Hm. split; [by vm_compute|by vm_compute].
Defined.
