(* ===== verification/Startup.v ===== *)
(** Starting the server: certificates ([server/src/server/tls.rs]), sockets and
    connections ([server/src/server/mod.rs]), and what is started in which
    order ([server/src/lib.rs]). *)
From S2P Require Import Prelude.
From S2P Require Import Sustains.
From S2P Require Import Invoice.
From S2P Require Import Storage.
From S2P Require Import Text.
From S2P Require Import Bincode.
From S2P Require Import Sqlite.
From S2P Require Import Monerod.
From S2P Require Import SubaddressCache.
From S2P Require Import Pubsub.
From S2P Require Import PaymentGateway.
From S2P Require Import InvoiceText.
From S2P Require Import InvoiceIdApi.
From S2P Require Import Callbacks.
From S2P Require Import Server.
From S2P Require Import ServerConfig.

(** * Files *)

(** The operations of [std::fs] that the source uses, with what may go wrong
    in the outside world. *)
Class FileSystem (F FsError : Type) := {
  fs_try_exists : string → M F FsError bool;
  fs_open : string → M F FsError string;            (* and read to the end *)
  fs_create_dir_all : string → M F FsError unit;
  fs_create : string → M F FsError unit;            (* truncates *)
  fs_write : string → string → M F FsError unit;    (* to a file just created *)
  fs_parent : string → option string;
}.

(** What they do: a failed operation leaves other files alone. *)
Class LawfulFileSystem `{FileSystem F FsError} (files : F → gmap string string) : Prop := {
  law_try_exists p f :
    wp (fs_try_exists p) (λ f' r, files f' = files f ∧ match r with
      | Ok b => b = bool_decide (is_Some (files f !! p)) | Err _ => True | _ => False end) f;
  law_open p f :
    wp (fs_open p) (λ f' r, files f' = files f ∧ match r with
      | Ok s => files f !! p = Some s | Err _ => True | _ => False end) f;
  law_create_dir p f :
    wp (fs_create_dir_all p) (λ f' r, files f' = files f ∧ match r with
      | Ok _ | Err _ => True | _ => False end) f;
  law_create p f :
    wp (fs_create p) (λ f' r, match r with
      | Ok _ => files f' = <[p := ""%string]> (files f)
      | Err _ => files f' = files f
      | _ => False end) f;
  law_write p s f :
    wp (fs_write p s) (λ f' r, match r with
      | Ok _ => files f' = <[p := s]> (files f)
      | Err _ => delete p (files f') = delete p (files f)
      | _ => False end) f;
}.

(** [rcgen], [rustls_pemfile] and [rustls]. *)
Class TlsCrates := {
  SelfSigned : Type;
  serialize_pem : SelfSigned → option string;
  serialize_private_key_pem : SelfSigned → string;
  CertificateDer : Type;
  PrivateKeyDer : Type;
  certs : string → list (option CertificateDer);
  pkcs8_private_keys : string → list (option PrivateKeyDer);
  RustlsConfig : Type;
  with_single_cert : list CertificateDer → PrivateKeyDer → option RustlsConfig;
}.

Section tls.
Context {F FsError : Type} `{!FileSystem F FsError} `{!TlsCrates}.

(** [std::process::exit]. *)
Inductive Exit := exit_process (code : Z).

(** [expect]: an error is a panic. *)
Definition expect_fs {A} (m : M F FsError A) : M F Exit A :=
  λ f, match m f with
       | (f', Ok a) => (f', Ok a)
       | (f', Err _) | (f', Panic) => (f', Panic)
       | (f', Hang) => (f', Hang)
       end.
Definition unwrap {S E A} (o : option A) : M S E A :=
  match o with Some a => ret a | None => panic end.

(** [.map(Result::unwrap).collect()]. *)
Definition unwrap_all {A} (l : list (option A)) : M F Exit (list A) := unwrap (mapM id l).

Definition load_tls (config : TlsConfig) : M F Exit (list CertificateDer * list PrivateKeyDer) :=
  let! cert_file := expect_fs (fs_open (tls_cert config)) in
  let! key_file := expect_fs (fs_open (tls_key config)) in
  let! cert_chain := unwrap_all (certs cert_file) in
  let! keys := unwrap_all (pkcs8_private_keys key_file) in
  ret (cert_chain, keys).

(** [generated]: what [generate_simple_self_signed] returns this time. *)
Definition generate_tls (generated : option SelfSigned) (config : TlsConfig) : M F Exit unit :=
  let! cert := unwrap generated in
  (match fs_parent (tls_cert config) with
   | Some path => expect_fs (fs_create_dir_all path)
   | None => ret tt
   end) ;;;
  (match fs_parent (tls_key config) with
   | Some path => expect_fs (fs_create_dir_all path)
   | None => ret tt
   end) ;;;
  expect_fs (fs_create (tls_cert config)) ;;;
  expect_fs (fs_create (tls_key config)) ;;;
  let! pem := unwrap (serialize_pem cert) in
  expect_fs (fs_write (tls_cert config) pem) ;;;
  expect_fs (fs_write (tls_key config) (serialize_private_key_pem cert)).

Definition prepare_tls (generated : option SelfSigned) (config : TlsConfig) : M F Exit RustlsConfig :=
  let! cert_exists := try_ (fs_try_exists (tls_cert config)) in
  let! key_exists := try_ (fs_try_exists (tls_key config)) in
  let! (cert_chain, keys) :=
    match cert_exists, key_exists with
    | inl true, inl true => load_tls config
    | inl false, inl false => generate_tls generated config ;;; load_tls config
    | _, _ => panic
    end in
  match keys with
  | [] => throw (exit_process 1)
  | key :: _ => unwrap (with_single_cert cert_chain key)
  end.
End tls.

(** * Certificates survive restarts *)

Section tls_spec.
Context {F FsError : Type} `{!FileSystem F FsError} `{!TlsCrates}.
Context (files : F → gmap string string) `{!LawfulFileSystem files}.

(** The configuration that a certificate file and a key file make. *)
Definition loaded (cert_file key_file : string) : option RustlsConfig :=
  cert_chain ← mapM id (certs cert_file);
  keys ← mapM id (pkcs8_private_keys key_file);
  key ← head keys;
  with_single_cert cert_chain key.

(** Every step keeps [I], whatever it returns; [P] holds if it succeeds. *)
Lemma wp_expect_fs {A} (m : M F FsError A) (Q : F → outcome FsError A → Prop)
    (I : gmap string string → Prop) (P : A → gmap string string → Prop) f :
  wp m Q f →
  (∀ f' r, Q f' r → I (files f') ∧ ∀ a, r = Ok a → P a (files f')) →
  wp (expect_fs m) (λ f' r, I (files f') ∧ ∀ a, r = Ok a → P a (files f')) f.
Proof using Type.
  unfold wp, expect_fs. intros Hm HQ. destruct (HQ _ _ Hm) as [HI HP].
  destruct (m f) as [f' [a|e| |]]; simpl in *; (split; [done|]); try done.
  intros ? [= <-]. auto.
Qed.

Lemma wp_load config f :
  wp (load_tls config) (λ f' r, files f' = files f ∧ ∀ chain keys, r = Ok (chain, keys) →
    ∃ cs ks, files f !! tls_cert config = Some cs ∧ files f !! tls_key config = Some ks ∧
      mapM id (certs cs) = Some chain ∧ mapM id (pkcs8_private_keys ks) = Some keys) f.
Proof using All.
  unfold load_tls. apply wp_bind. eapply wp_mono.
  { apply (wp_expect_fs _ _ (λ m, m = files f) (λ s m, files f !! tls_cert config = Some s) _ (law_open _ _)).
    intros f' r [Hf Hr]. split; [done|]. by intros a ->. }
  intros f1 [cs|e| |] [Hf1 Hcs]; try done. apply wp_bind. eapply wp_mono.
  { apply (wp_expect_fs _ _ (λ m, m = files f) (λ s m, files f !! tls_key config = Some s) _ (law_open _ _)).
    intros f' r [Hf Hr]. rewrite Hf1 in *. split; [done|]. by intros a ->. }
  intros f2 [ks|e| |] [Hf2 Hks]; try done. unfold unwrap_all, unwrap.
  apply wp_bind. destruct (mapM id (certs cs)) as [chain|] eqn:Ec; [|by split].
  apply wp_ret, wp_bind. destruct (mapM id (pkcs8_private_keys ks)) as [keys|] eqn:Ek; [|by split].
  apply wp_ret, wp_ret. split; [done|]. intros ? ? [= <- <-]. exists cs, ks. auto.
Qed.

(** The part after the files have been read. *)
Lemma prepared {S} (s : S) chain keys cs ks :
  mapM id (certs cs) = Some chain → mapM id (pkcs8_private_keys ks) = Some keys →
  wp (match keys with
      | [] => throw (exit_process 1)
      | key :: _ => unwrap (with_single_cert chain key)
      end) (λ s' r, s' = s ∧ ∀ c, r = Ok c → loaded cs ks = Some c) s.
Proof using Type.
  intros Hc Hk. unfold loaded. rewrite Hc, Hk. simpl. destruct keys as [|key keys]; [by split|].
  simpl. unfold unwrap. by destruct (with_single_cert chain key) as [c|]; split; [|intros ? [= <-]| |].
Qed.

(** The files are there: they are loaded, and stay as they are. *)
Lemma wp_prepare_existing generated config f cs ks :
  files f !! tls_cert config = Some cs → files f !! tls_key config = Some ks →
  wp (prepare_tls generated config) (λ f' r,
    files f' = files f ∧ ∀ c, r = Ok c → loaded cs ks = Some c) f.
Proof using All.
  intros Hc Hk. unfold prepare_tls. apply wp_bind, wp_try.
  eapply wp_mono; [apply law_try_exists|]. intros f1 [b|e| |] [Hf1 Hb]; try done.
  - apply wp_bind, wp_try. eapply wp_mono; [apply law_try_exists|].
    rewrite Hf1, Hk. rewrite Hc in Hb. rewrite bool_decide_true in Hb by eauto. subst b.
    intros f2 [b'|e| |] [Hf2 Hb']; try done. rewrite bool_decide_true in Hb' by eauto. subst b'.
    apply wp_bind. eapply wp_mono; [apply wp_load|].
    intros f3 [[chain keys]|e| |] [Hf3 Hl]; try (by rewrite Hf3, Hf2).
    destruct (Hl chain keys eq_refl) as (cs' & ks' & Hcs & Hks & Hmc & Hmk).
    rewrite Hf2, Hc in Hcs. rewrite Hf2, Hk in Hks. injection Hcs as <-. injection Hks as <-.
    eapply wp_mono; [by apply (prepared f3 chain keys cs ks)|]. intros f4 r [-> Hr]. by rewrite Hf3, Hf2.
  - apply wp_bind, wp_try. eapply wp_mono; [apply law_try_exists|]. rewrite Hf1.
    by intros f2 [b'|e'| |] [Hf2 _].
Qed.

(** New files: only these two change. *)
Lemma wp_generate generated config f :
  let same m := ∀ p, p ≠ tls_cert config → p ≠ tls_key config → m !! p = files f !! p in
  wp (generate_tls generated config) (λ f' _, same (files f')) f.
Proof using All.
  intros same.
  assert (Hstep : ∀ A (m : M F FsError A) (Q : F → outcome FsError A → Prop) f1, wp m Q f1 →
    (∀ f' r, Q f' r → same (files f')) → wp (expect_fs m) (λ f' r, same (files f')) f1).
  { intros A m Q f1 Hm HQ. eapply wp_mono.
    - eapply (wp_expect_fs m Q same (λ _ _, True)); [done|]. intros f' r Hr. split; [by eapply HQ|done].
    - by intros f' r [? _]. }
  (* The rest of the computation after a step. *)
  assert (Hseq : ∀ A B (m : M F Exit A) (k : A → M F Exit B) f1,
    wp m (λ f' _, same (files f')) f1 → (∀ a f', same (files f') → wp (k a) (λ f' _, same (files f')) f') →
    wp (bind m k) (λ f' _, same (files f')) f1).
  { intros A B m k f1 Hm Hk. apply wp_bind. eapply wp_mono; [exact Hm|].
    intros f' [a|e| |] Hf'; auto. }
  assert (Hdir : ∀ o f1, same (files f1) → wp (match o with
    | Some path => expect_fs (fs_create_dir_all path) | None => ret tt end) (λ f' _, same (files f')) f1).
  { intros [path|] f1 Hf1; [|done]. eapply Hstep; [apply law_create_dir|]. intros f' r [Hf' _]. by rewrite Hf'. }
  assert (Hcreate : ∀ p f1, (p = tls_cert config ∨ p = tls_key config) → same (files f1) →
    wp (expect_fs (fs_create p)) (λ f' _, same (files f')) f1).
  { intros p f1 Hp Hf1. eapply Hstep; [apply law_create|]. intros f' [a|e| |] Hf'; try done; rewrite Hf'; [|done].
    intros q Hq1 Hq2. rewrite lookup_insert_ne by naive_solver. by apply Hf1. }
  assert (Hwrite : ∀ p s f1, (p = tls_cert config ∨ p = tls_key config) → same (files f1) →
    wp (expect_fs (fs_write p s)) (λ f' _, same (files f')) f1).
  { intros p s f1 Hp Hf1. eapply Hstep; [apply law_write|]. intros f' [a|e| |] Hf'; try done; intros q Hq1 Hq2.
    - rewrite Hf', lookup_insert_ne by naive_solver. by apply Hf1.
    - apply (f_equal (lookup q)) in Hf'. rewrite !lookup_delete_ne in Hf' by naive_solver.
      rewrite Hf'. by apply Hf1. }
  assert (Hun : ∀ A (o : option A) f1, same (files f1) → wp (unwrap (E:=Exit) o) (λ f' _, same (files f')) f1)
    by by intros A [a|].
  unfold generate_tls. apply Hseq; [by apply Hun|]. intros cert f1 Hf1.
  repeat (apply Hseq; [solve [auto]|intros ? ? ?]). auto.
Qed.

(** One of the files is there and the other is not. *)
Lemma wp_prepare_one generated config f (b : bool) :
  bool_decide (is_Some (files f !! tls_cert config)) = b →
  bool_decide (is_Some (files f !! tls_key config)) = negb b →
  wp (prepare_tls generated config) (λ f' r, files f' = files f ∧ r = Panic) f.
Proof using All.
  intros Hc Hk. unfold prepare_tls. apply wp_bind, wp_try.
  eapply wp_mono; [apply law_try_exists|]. rewrite Hc.
  destruct b; intros f1 [b1|e| |] [Hf1 Hb1]; try done;
    apply wp_bind, wp_try; (eapply wp_mono; [apply law_try_exists|]); rewrite Hf1, Hk;
    by intros f2 [b2|e2| |] [Hf2 Hb2]; subst.
Qed.

(** None is there. *)
Lemma wp_prepare_new generated config f :
  files f !! tls_cert config = None → files f !! tls_key config = None →
  wp (prepare_tls generated config) (λ f' r,
    (∀ p s, files f !! p = Some s → files f' !! p = Some s) ∧
    ∀ c, r = Ok c → ∃ cs ks, files f' !! tls_cert config = Some cs ∧
      files f' !! tls_key config = Some ks ∧ loaded cs ks = Some c) f.
Proof using All.
  intros Hc Hk. unfold prepare_tls. apply wp_bind, wp_try.
  eapply wp_mono; [apply law_try_exists|]. rewrite Hc. intros f1 [b1|e| |] [Hf1 Hb1]; try done;
    apply wp_bind, wp_try; (eapply wp_mono; [apply law_try_exists|]); rewrite Hf1, Hk;
    intros f2 [b2|e2| |] [Hf2 Hb2]; subst; try done;
    try (split; simpl; [by rewrite Hf2|done]).
  simpl. apply wp_bind, wp_bind. eapply wp_mono; [apply wp_generate|].
  rewrite Hf2. intros f3 r3 Hsame.
  assert (Hkeep : ∀ p s, files f !! p = Some s → files f3 !! p = Some s).
  { intros p s Hp. rewrite Hsame; [done|congruence..]. }
  destruct r3 as [[]|e| |]; try done. eapply wp_mono; [apply wp_load|].
  intros f4 [[chain keys]|e| |] [Hf4 Hl]; rewrite ?Hf4; try done.
  destruct (Hl chain keys eq_refl) as (cs & ks & Hcs & Hks & Hmc & Hmk).
  eapply wp_mono; [by apply (prepared f4 chain keys cs ks)|]. intros f5 r [-> Hr]. rewrite Hf4.
  split; [done|]. intros c Hcr. exists cs, ks. auto.
Qed.

(** C36: certificates are made at most once.  Preparing TLS never changes or
    removes a file that exists, and touches nothing at all if one of the two
    files exists; if exactly one does, it panics.  If it succeeds (with the
    files of the operator, or with a self-signed certificate it has just
    written), every later start that succeeds uses the same certificate and
    key, and changes no file. *)
Theorem prepare_tls_spec generated config f :
  let has p := is_Some (files f !! p) in
  wp (prepare_tls generated config) (λ f' r,
    (∀ p s, files f !! p = Some s → files f' !! p = Some s) ∧
    (has (tls_cert config) ∨ has (tls_key config) → files f' = files f) ∧
    (has (tls_cert config) ∧ ¬ has (tls_key config) ∨
     ¬ has (tls_cert config) ∧ has (tls_key config) → r = Panic) ∧
    ∀ c, r = Ok c → ∀ generated', wp (prepare_tls generated' config) (λ f'' r',
      files f'' = files f' ∧ ∀ c', r' = Ok c' → c' = c) f') f.
Proof using All.
  intros has.
  (* The clause about later starts. *)
  assert (Hagain : ∀ f' cs ks c, files f' !! tls_cert config = Some cs →
    files f' !! tls_key config = Some ks → loaded cs ks = Some c →
    ∀ generated', wp (prepare_tls generated' config) (λ f'' r',
      files f'' = files f' ∧ ∀ c', r' = Ok c' → c' = c) f').
  { intros f' cs ks c Hc Hk Hl generated'. eapply wp_mono; [by apply wp_prepare_existing|].
    intros f'' r' [Hf Hr]. split; [done|]. intros c' Hc'. specialize (Hr c' Hc'). congruence. }
  destruct (files f !! tls_cert config) as [cs|] eqn:Ec, (files f !! tls_key config) as [ks|] eqn:Ek.
  - eapply wp_mono; [by apply wp_prepare_existing|]. intros f' r [Hf Hr].
    split_and!; [by rewrite Hf|done| |].
    + unfold has. rewrite Ec, Ek. intros [[_ Hn]|[Hn _]]; destruct Hn; eauto.
    + intros c Hcr. apply (Hagain f' cs ks c); rewrite ?Hf; auto.
  - eapply wp_mono; [apply (wp_prepare_one generated config f true)|].
    { by rewrite Ec. }
    { by rewrite Ek. }
    intros f' r [Hf ->]. split_and!; [by rewrite Hf|done..].
  - eapply wp_mono; [apply (wp_prepare_one generated config f false)|].
    { by rewrite Ec. }
    { by rewrite Ek. }
    intros f' r [Hf ->]. split_and!; [by rewrite Hf|done..].
  - eapply wp_mono; [by apply wp_prepare_new|]. intros f' r [Hkeep Hr]. split_and!; [done| | |].
    + unfold has. rewrite Ec, Ek. by intros [[??]|[??]].
    + unfold has. rewrite Ec, Ek. by intros [[[??] _]|[_ [??]]].
    + intros c Hcr. destruct (Hr c Hcr) as (cs & ks & Hc & Hk & Hl). by apply (Hagain f' cs ks c).
Qed.
End tls_spec.

(** * Servers *)

(** The sockets of the operating system, and the TLS handshakes on them. *)
Class Sockets `{TlsCrates} (N NetError : Type) := {
  TcpListener : Type;
  TcpStream : Type;
  TlsStream : Type;
  bind_v4 : Z → Z → M N NetError TcpListener;       (* address and port *)
  bind_v6 : Z → Z → M N NetError TcpListener;
  tls_accept : RustlsConfig → TcpStream → option TlsStream;
}.

Section servers.
Context {F FsError : Type} `{!FileSystem F FsError} `{!TlsCrates}.
Context {N NetError : Type} `{!Sockets N NetError}.

(** The outside world: files and sockets. *)
Record World := mk_World { w_files : F; w_net : N }.
Definition set_w_files (f : F) (w : World) : World := mk_World f (w_net w).
Definition set_w_net (n : N) (w : World) : World := mk_World (w_files w) n.

Inductive StartError :=
  | StartIo (e : NetError)
  | StartExit (e : Exit).

(** The router of [new_server]: the API, the token that is required and the
    directory of the static files. *)
Record Server := mk_Server {
  srv_ipv4 : TcpListener;
  srv_ipv6 : option TcpListener;
  srv_tls : option RustlsConfig;
  srv_api : Api;
  srv_token : option string;
  srv_static_dir : string;
}.

Definition net {A} (m : M N NetError A) : M World StartError A :=
  zoom w_net set_w_net (map_err StartIo m).

Definition new_server (generated : option SelfSigned) (server_config : ServerConfig) (api : Api) :
    M World StartError Server :=
  let! tcp_v4_listener := net (bind_v4 (sv_ipv4 server_config) (sv_port server_config)) in
  let! tcp_v6_listener :=
    match sv_ipv6 server_config with
    | Some ipv6 =>
        let! listener := net (bind_v6 ipv6 (sv_port server_config)) in
        ret (Some listener)
    | None => ret None
    end in
  let! tls_acceptor :=
    match sv_tls server_config with
    | Some tls =>
        let! rustls_config :=
          zoom w_files set_w_files (map_err StartExit (prepare_tls generated tls)) in
        ret (Some rustls_config)
    | None => ret None
    end in
  ret (mk_Server tcp_v4_listener tcp_v6_listener tls_acceptor api
         (sv_token server_config) (sv_static_dir server_config)).

Record AcceptXmrServer := mk_AcceptXmrServer { external : Server; internal : Server }.

(** [expect] of an I/O error. *)
Definition expect_io {A} (m : M World StartError A) : M World Exit A :=
  λ w, match m w with
       | (w', Ok a) => (w', Ok a)
       | (w', Err (StartExit e)) => (w', Err e)
       | (w', Err (StartIo _)) | (w', Panic) => (w', Panic)
       | (w', Hang) => (w', Hang)
       end.

(** The futures of [try_join!] run one after the other: neither waits. *)
Definition build_server (generated generated' : option SelfSigned) (config : Config) :
    M World Exit AcceptXmrServer :=
  expect_io (
    let! external_server := new_server generated (external_api config) ExternalApi in
    let! internal_server := new_server generated' (internal_api config) InternalApi in
    ret (mk_AcceptXmrServer external_server internal_server)).

(** A connection, as far as [serve_inner] decides about it: the stream that the
    requests are read from, or [None] if it is dropped. *)
Inductive Stream :=
  | Encrypted (config : RustlsConfig) (stream : TlsStream)
  | Plain (stream : TcpStream).
Definition accept_stream (self : Server) (cnx : TcpStream) : option Stream :=
  match srv_tls self with
  | Some tls =>
      match tls_accept tls cnx with
      | Some s => Some (Encrypted tls s)
      | None => None
      end
  | None => Some (Plain cnx)
  end.

(** The listeners that [serve] accepts connections from. *)
Definition listeners (self : Server) : list TcpListener :=
  srv_ipv4 self :: match srv_ipv6 self with Some ipv6 => [ipv6] | None => [] end.
End servers.

(** * The whole program *)

Section entrypoint.
Context `{ConfigCrates}.
Context `{Build} `{HashOrder} `{Monero} `{RngCore}.
Context {W RpcError : Type} `{!MonerodClient W RpcError} `{!GatewayCrates W}.
Context `{SqliteCrate} `{BincodeCrate} `{!Bincode Invoice} `{!Bincode OutputId} `{!Bincode Z}.
Context {F FsError : Type} `{!FileSystem F FsError} `{!TlsCrates}.
Context {N NetError : Type} `{!Sockets N NetError}.
Notation SqliteGateway := (Gateway W RpcError (@Sqlite _) SqliteStorageError SqliteStorageError
  SqliteStorageError SqliteStorageError).
Notation World := (World (F:=F) (N:=N)).

(** The part of [spawn_gateway] before the task is spawned. *)
Definition spawn_gateway (payment_gateway : SqliteGateway) : outcome Exit SqliteGateway :=
  match PaymentGateway_run payment_gateway with
  | (g, Ok _) => Ok g
  | (_, Err _) | (_, Panic) => Panic
  | (_, Hang) => Hang
  end.

(** A [Result] without errors. *)
Definition no_error {A} (r : outcome Empty_set A) : outcome Exit A :=
  match r with Ok a => Ok a | Err e => match e with end | Panic => Panic | Hang => Hang end.

(** What [entrypoint] leaves running: the gateway, and the servers that [run_server]
    serves.  [generated] are the certificates that would be generated. *)
Definition entrypoint (dotenv : Env → Env) (env : Env) (database_path : string → option text)
    (generated : option SelfSigned * option SelfSigned) :
    M (FileState * World) Exit (Config * SqliteGateway * AcceptXmrServer) :=
  let! config := zoom fst (λ f s, (f, s.2))
    (λ f, ((load_config dotenv env f).1, no_error (load_config dotenv env f).2)) in
  let! payment_gateway := lift (no_error (build_gateway database_path config)) in
  let! gateway_clone := lift (spawn_gateway payment_gateway) in
  let! server := zoom snd (λ w s, (s.1, w)) (build_server generated.1 generated.2 config) in
  ret (config, gateway_clone, server).

(** ** What is served *)

Lemma new_server_runs generated c api (w w' : World) srv :
  new_server generated c api w = (w', Ok srv) →
  srv_api srv = api ∧ srv_token srv = sv_token c ∧ srv_static_dir srv = sv_static_dir c ∧
  (is_Some (srv_ipv6 srv) ↔ is_Some (sv_ipv6 c)) ∧ (is_Some (srv_tls srv) ↔ is_Some (sv_tls c)).
Proof using Type.
  intros E. enough (Hs : succeeds (new_server generated c api) (λ _ srv, srv_api srv = api ∧
    srv_token srv = sv_token c ∧ srv_static_dir srv = sv_static_dir c ∧
    (is_Some (srv_ipv6 srv) ↔ is_Some (sv_ipv6 c)) ∧ (is_Some (srv_tls srv) ↔ is_Some (sv_tls c))) w).
  { unfold succeeds, wp in Hs. rewrite E in Hs. by apply Hs. }
  unfold new_server. apply succeeds_bind, succeeds_any. intros w1 v4. apply succeeds_bind.
  destruct (sv_ipv6 c) as [ip|]; [apply succeeds_bind, succeeds_any; intros w2 l|];
    apply succeeds_ret, succeeds_bind;
    (destruct (sv_tls c) as [tls|]; [apply succeeds_bind, succeeds_any; intros w3 cfg|]);
    apply succeeds_ret, succeeds_ret; simpl; split_and!; try done; by split.
Qed.

Lemma build_server_runs generated generated' c (w w' : World) servers :
  build_server generated generated' c w = (w', Ok servers) →
  ∃ w1, new_server generated (external_api c) ExternalApi w = (w1, Ok (external servers)) ∧
        new_server generated' (internal_api c) InternalApi w1 = (w', Ok (internal servers)).
Proof using Type.
  unfold build_server, expect_io, bind. intros E.
  destruct (new_server generated _ _ w) as [w1 [se|[e|e]| |]]; try done.
  destruct (new_server generated' _ _ w1) as [w2 [si|[e|e]| |]] eqn:Ei; try done.
  injection E as <- <-. by exists w1.
Qed.

Lemma load_config_valid dotenv env f f' c :
  load_config dotenv env f = (f', Ok c) → Config_validate c = Ok tt.
Proof using Type.
  unfold load_config. intros E. destruct (Config_read dotenv env f) as [f1 [c1|e| |]]; try done.
  destruct (Config_validate c1) as [[]|e| |] eqn:Ev; try done. by injection E as <- <-.
Qed.

(** Validation of the two servers: a token needs TLS. *)
Lemma validated_servers c :
  Config_validate c = Ok tt →
  ServerConfig_validate (internal_api c) = Ok tt ∧ ServerConfig_validate (external_api c) = Ok tt.
Proof using Type.
  unfold Config_validate, seq_outcome. intros E.
  destruct (WalletConfig_validate (wallet c)) as [[]|e| |]; try done.
  destruct (DaemonConfig_validate (daemon c)) as [[]|e| |]; try done.
  destruct (ServerConfig_validate (internal_api c)) as [[]|e| |]; try done.
Qed.

Lemma served generated cfg api (w w' : World) srv :
  new_server generated cfg api w = (w', Ok srv) → ServerConfig_validate cfg = Ok tt →
  srv_api srv = api ∧ srv_token srv = sv_token cfg ∧
  (length (listeners srv) = 2%nat ↔ is_Some (sv_ipv6 cfg)) ∧
  ∀ cnx stream, is_Some (srv_token srv) → accept_stream srv cnx = Some stream →
    ∃ tls tls_stream, stream = Encrypted tls tls_stream ∧ tls_accept tls cnx = Some tls_stream.
Proof using Type.
  intros E Hv. destruct (new_server_runs _ _ _ _ _ _ E) as (Hapi & Htok & _ & Hv6 & Htls).
  split; [done|]. split; [done|]. split.
  - rewrite <-Hv6. unfold listeners. destruct (srv_ipv6 srv); simpl; split; try done; eauto.
  - intros cnx stream Hs. rewrite Htok in Hs. unfold accept_stream.
    assert (Hcfg : is_Some (sv_tls cfg)).
    { unfold ServerConfig_validate, assert in Hv. destruct (sv_token cfg); [|by destruct Hs].
      rewrite bool_decide_false in Hv by done. simpl in Hv.
      by destruct (bool_decide_reflect (is_Some (sv_tls cfg))). }
    apply Htls in Hcfg as [tls ->]. destruct (tls_accept tls cnx) as [st|] eqn:Ea; [|done].
    intros [= <-]. by exists tls, st.
Qed.

Lemma entrypoint_runs dotenv env database_path generated s s' c (g : SqliteGateway) servers :
  entrypoint dotenv env database_path generated s = (s', Ok (c, g, servers)) →
  Config_validate c = Ok tt ∧ ∃ w1 w',
    new_server generated.1 (external_api c) ExternalApi s.2 = (w1, Ok (external servers)) ∧
    new_server generated.2 (internal_api c) InternalApi w1 = (w', Ok (internal servers)).
Proof using Type.
  intros E. unfold entrypoint, bind at 1, zoom at 1 in E.
  destruct (load_config dotenv env s.1) as [f [c0|[]| |]] eqn:El; simpl in E; try done.
  unfold bind at 1, lift at 1 in E.
  destruct (build_gateway database_path c0) as [g0|[]| |]; simpl in E; try done.
  unfold bind at 1, lift at 1 in E. destruct (spawn_gateway g0) as [g1|e| |]; try done.
  unfold bind, zoom in E. simpl in E.
  destruct (build_server generated.1 generated.2 c0 s.2) as [w' [srvs|e| |]] eqn:Eb; try done.
  injection E as <- <- <- <-. split; [by apply (load_config_valid _ _ _ _ _ El)|].
  destruct (build_server_runs _ _ _ _ _ _ Eb) as (w1 & He & Hi). by exists w1, w'.
Qed.

(** What is running once the program has started.  The configuration
    has been validated; the two servers serve their APIs with the configured
    tokens, and on a second socket exactly if an IPv6 address is configured;
    and a bearer token is never read in the clear: every connection to a
    server that asks for one is either encrypted or dropped. *)
Theorem entrypoint_spec dotenv env database_path generated s s' c (g : SqliteGateway) servers :
  entrypoint dotenv env database_path generated s = (s', Ok (c, g, servers)) →
  Config_validate c = Ok tt ∧
  ∀ srv cfg api, In (srv, cfg, api)
      [(external servers, external_api c, ExternalApi); (internal servers, internal_api c, InternalApi)] →
    srv_api srv = api ∧ srv_token srv = sv_token cfg ∧
    (length (listeners srv) = 2%nat ↔ is_Some (sv_ipv6 cfg)) ∧
    ∀ cnx stream, is_Some (srv_token srv) → accept_stream srv cnx = Some stream →
      ∃ tls tls_stream, stream = Encrypted tls tls_stream ∧ tls_accept tls cnx = Some tls_stream.
Proof using Type.
  intros (Hvalid & w1 & w' & He & Hi)%entrypoint_runs. split; [done|].
  destruct (validated_servers c Hvalid) as [Hvi Hve].
  intros srv cfg api [[= <- <- <-]|[[= <- <- <-]|[]]]; by eapply served.
Qed.
End entrypoint.
