(* ===== verification/StartupDemo.v ===== *)
(** A machine with files and sockets on which the server is started. *)
From S2P Require Import Prelude.
From S2P Require Import Invoice.
From S2P Require Import Storage.
From S2P Require Import Text.
From S2P Require Import Bincode.
From S2P Require Import SledDemo.
From S2P Require Import Sqlite.
From S2P Require Import SqliteDemo.
From S2P Require Import Monerod.
From S2P Require Import Demo.
From S2P Require Import SubaddressCache.
From S2P Require Import PaymentGateway.
From S2P Require Import Server.
From S2P Require Import ServerConfig.
From S2P Require Import ServerConfigDemo.
From S2P Require Import Startup.

(** ** Files: a map from paths to contents *)

Definition DemoFiles : Type := gmap string string.
#[export] Instance DemoFileSystem : FileSystem DemoFiles unit := {|
  fs_try_exists := λ p, gets (λ f, bool_decide (is_Some (f !! p)));
  fs_open := λ p f, (f, match f !! p with Some s => Ok s | None => Err tt end);
  fs_create_dir_all := λ _, ret tt;
  fs_create := λ p, modify <[p := ""%string]>;
  fs_write := λ p s, modify <[p := s]>;
  fs_parent := λ _, Some "cert"%string;
|}.
#[export] Instance demo_files_lawful : LawfulFileSystem (F:=DemoFiles) (FsError:=unit) id.
Proof.
  split; try done. intros p f. unfold wp, id. simpl. split; [done|]. destruct (f !! p) eqn:E; [exact E|done].
Qed.

(** ** Certificates: their text is themselves *)

#[export] Instance DemoTlsCrates : TlsCrates := {|
  SelfSigned := string;
  serialize_pem := λ s, Some ("cert " +:+ s);
  serialize_private_key_pem := λ s, "key " +:+ s;
  CertificateDer := string;
  PrivateKeyDer := string;
  certs := λ s, if decide (s = "") then [] else [Some s];
  pkcs8_private_keys := λ s, if decide (s = "") then [] else [Some s];
  RustlsConfig := list string * string;
  with_single_cert := λ l k, Some (l, k);
|}.

Definition demo_tls : TlsConfig := mk_TlsConfig "cert.pem" "key.pem".

(** The first start makes a certificate; the second one, with another one at
    hand, uses the first. *)
Notation demo_start_tls a := (prepare_tls (F:=DemoFiles) (FsError:=unit) (Some a) demo_tls).
Notation demo_made := (["cert a"%string], "key a"%string).

Lemma prepare_tls_spec_witness :
  (demo_start_tls "a"%string ∅).2 = Ok demo_made ∧
  ∀ c, (demo_start_tls "b"%string (demo_start_tls "a"%string ∅).1).2 = Ok c → c = demo_made.
Proof.
  assert (H1 : (demo_start_tls "a"%string ∅).2 = Ok demo_made) by by vm_compute.
  split; [done|].
  pose proof (prepare_tls_spec (F:=DemoFiles) (FsError:=unit) id (Some ("a"%string : @SelfSigned DemoTlsCrates))
    demo_tls ∅) as Hspec.
  exact (proj2 (proj2 (proj2 (proj2 Hspec)) demo_made H1 (Some ("b"%string : @SelfSigned DemoTlsCrates)))).
Defined.

(** ** Sockets: the ports in use *)

#[export] Instance DemoSockets : Sockets (list (Z * Z)) unit := {|
  TcpListener := Z * Z;
  TcpStream := bool;       (* whether the peer speaks TLS *)
  TlsStream := bool;
  bind_v4 := λ a p used, if decide ((a, p) ∈ used) then (used, Err tt) else ((a, p) :: used, Ok (a, p));
  bind_v6 := λ a p used, if decide ((a, p) ∈ used) then (used, Err tt) else ((a, p) :: used, Ok (a, p));
  tls_accept := λ _ cnx, if cnx then Some cnx else None;
|}.

#[local] Instance demo_startup_client : MonerodClient (H:=DemoMonero) nat unit :=
  DemoClient (mk_DemoWorld 0 (λ _, []) [] 12 None).

Definition demo_generated : option (@SelfSigned DemoTlsCrates) * option (@SelfSigned DemoTlsCrates) :=
  (Some "a"%string, Some "b"%string).
Notation demo_start_all :=
  (entrypoint (F:=DemoFiles) (FsError:=unit) (N:=list (Z * Z)) (NetError:=unit) id demo_env demo_path
    demo_generated (FileText "file", mk_World ∅ [])).

Lemma demo_started_ok : is_ok demo_start_all.2 = true.
Proof. by vm_compute. Qed.

Lemma is_ok_run {S E A} (p : S * outcome E A) : is_ok p.2 = true → ∃ s a, p = (s, Ok a).
Proof. destruct p as [s [a|e| |]]; naive_solver. Qed.

(** Peers that do not speak TLS are dropped by the internal API, which has a
    token; the others are served. *)
Lemma entrypoint_spec_witness :
  ∃ s' c (g : DemoSqliteGateway) servers, demo_start_all = (s', Ok (c, g, servers)) ∧
    Config_validate c = Ok tt ∧ srv_token (internal servers) = sv_token (internal_api c) ∧
    ∀ cnx stream, is_Some (srv_token (internal servers)) →
      accept_stream (internal servers) cnx = Some stream →
      ∃ tls tls_stream, stream = Encrypted tls tls_stream ∧ tls_accept tls cnx = Some tls_stream.
Proof.
  destruct (is_ok_run _ demo_started_ok) as (s' & [[c g] servers] & E).
  exists s', c, g, servers. split; [exact E|].
  destruct (entrypoint_spec _ _ _ _ _ _ _ _ _ E) as [Hc Hs]. split; [exact Hc|].
  destruct (Hs (internal servers) (internal_api c) InternalApi) as (_ & Ht & _ & Htls).
  { right. left. done. }
  exact (conj Ht Htls).
Defined.
