(* ===== verification/Serving.v ===== *)
(** The servers at work ([server/src/server/mod.rs], [run_server] and
    [spawn_gateway] in [server/src/lib.rs]): the loops that accept
    connections, the tasks of the connections, and everything else that
    happens to the gateway they share, in any order.  HTTP on a stream is the
    [hyper] crate's: a step takes one request from a stream and answers it. *)
From S2P Require Import Prelude.
From S2P Require Import Sustains.
From S2P Require Import Invoice.
From S2P Require Import Storage.
From S2P Require Import Text.
From S2P Require Import Bincode.
From S2P Require Import Sqlite.
From S2P Require Import Monerod.
From S2P Require Import SubaddressCache.
From S2P Require Import Pubsub.
From S2P Require Import PaymentGateway.
From S2P Require Import InvoiceText.
From S2P Require Import InvoiceIdApi.
From S2P Require Import Callbacks.
From S2P Require Import Server.
From S2P Require Import ServerAccess.
From S2P Require Import ServerConfig.
From S2P Require Import Startup.

#[export] Instance Api_eq_dec : EqDecision Api.
Proof. solve_decision. Defined.

Section serving.
Context `{ConfigCrates}.
Context `{Build} `{HashOrder} `{Monero} `{RngCore}.
Context {W RpcError : Type} `{!MonerodClient W RpcError} `{!GatewayCrates W}.
Context `{SqliteCrate} `{BincodeCrate} `{!Bincode Invoice} `{!Bincode OutputId} `{!Bincode Z}.
Context {F FsError : Type} `{!FileSystem F FsError} `{!TlsCrates}.
Context {N NetError : Type} `{!Sockets N NetError}.
Context {CW : Type} `{!ServerCrates CW} `{Base64Crate} `{NumberText}.
Notation gateway := (Gateway W RpcError (@Sqlite _) SqliteStorageError SqliteStorageError
  SqliteStorageError SqliteStorageError).
Notation XmrError := (AcceptXmrError RpcError SqliteStorageError SqliteStorageError
  SqliteStorageError SqliteStorageError).
Context `{!WebCrates XmrError}.

(** ** One server *)

(** The task of [Server::serve], and the tasks of its open connections.  Both
    listeners of a server are polled by the one task: a panic of either loop
    ends both. *)
Record Serving := mk_Serving {
  sv_server : Startup.Server;
  sv_accepting : bool;
  sv_streams : list Stream;
}.
Definition serve_start (srv : Startup.Server) : Serving := mk_Serving srv true [].

(** A round of the loop of [serve_inner], whichever listener it is on: what
    [accept] returns is unwrapped, and a failed handshake drops the
    connection. *)
Definition serve_inner (accepted : option TcpStream) (s : Serving) : Serving :=
  match accepted with
  | None => mk_Serving (sv_server s) false (sv_streams s)
  | Some cnx =>
      match accept_stream (sv_server s) cnx with
      | Some stream => mk_Serving (sv_server s) (sv_accepting s) (sv_streams s ++ [stream])
      | None => s
      end
  end.
Definition close_stream (i : nat) (s : Serving) : Serving :=
  mk_Serving (sv_server s) (sv_accepting s) (delete i (sv_streams s)).

(** A request to a server. *)
Definition hyper_service (srv : Startup.Server) (authorization : option text) (r : Route) :
    gateway → gateway * outcome Empty_set HttpResponse :=
  serve (srv_api srv) (txt <$> srv_token srv) authorization r.

(** ** The program *)

Record Program := mk_Program {
  pg_gateway : gateway;
  pg_external : Serving;
  pg_internal : Serving;
}.
Definition run_server (g : gateway) (server : AcceptXmrServer) : Program :=
  mk_Program g (serve_start (external server)) (serve_start (internal server)).

Definition serving (a : Api) (p : Program) : Serving :=
  match a with ExternalApi => pg_external p | InternalApi => pg_internal p end.
Definition set_serving (a : Api) (s : Serving) (p : Program) : Program :=
  match a with
  | ExternalApi => mk_Program (pg_gateway p) s (pg_internal p)
  | InternalApi => mk_Program (pg_gateway p) (pg_external p) s
  end.
Definition set_gateway (g : gateway) (p : Program) : Program :=
  mk_Program g (pg_external p) (pg_internal p).

(** What happens.  [Requested] says what the request did to the gateway and
    how it was answered; a handler that panics ends its connection, and one
    that hangs never answers. *)
Inductive Event :=
  | Accepted (a : Api) (cnx : TcpStream)
  | AcceptFailed (a : Api)
  | Requested (a : Api) (stream : Stream) (authorization : option text) (r : Route)
      (g g' : gateway) (answer : outcome Empty_set HttpResponse)
  | Closed (a : Api)
  | Other.   (* the scanning task, the monitor, the tasks of websockets *)

Inductive program_step (p : Program) : Event → Program → Prop :=
  | step_accepted a cnx :
      sv_accepting (serving a p) = true →
      program_step p (Accepted a cnx) (set_serving a (serve_inner (Some cnx) (serving a p)) p)
  | step_accept_failed a :
      sv_accepting (serving a p) = true →
      program_step p (AcceptFailed a) (set_serving a (serve_inner None (serving a p)) p)
  | step_requested a i stream authorization r g' answer :
      sv_streams (serving a p) !! i = Some stream →
      hyper_service (sv_server (serving a p)) authorization r (pg_gateway p) = (g', answer) →
      program_step p (Requested a stream authorization r (pg_gateway p) g' answer)
        (match answer with
         | Ok _ | Err _ | Hang => set_gateway g' p
         | Panic => set_serving a (close_stream i (serving a p)) (set_gateway g' p)
         end)
  | step_closed a i :
      program_step p (Closed a) (set_serving a (close_stream i (serving a p)) p)
  | step_other g' :
      program_step p Other (set_gateway g' p).
Inductive program_run (p : Program) : list Event → Program → Prop :=
  | run_nothing : program_run p [] p
  | run_step e p1 es p2 : program_step p e p1 → program_run p1 es p2 → program_run p (e :: es) p2.

(** ** What may come through *)

Lemma serving_set a b s p : serving b (set_serving a s p) = if decide (b = a) then s else serving b p.
Proof using Type. by destruct a, b. Qed.
Lemma serving_set_gateway b g p : serving b (set_gateway g p) = serving b p.
Proof using Type. by destruct b. Qed.

(** The servers stay what they are, and every open stream was accepted. *)
Definition from_server (srv : Startup.Server) (s : Serving) : Prop :=
  sv_server s = srv ∧ ∀ stream, stream ∈ sv_streams s → ∃ cnx, accept_stream srv cnx = Some stream.
Definition api_server (server : AcceptXmrServer) (a : Api) : Startup.Server :=
  match a with ExternalApi => external server | InternalApi => internal server end.
Definition all_accepted (server : AcceptXmrServer) (p : Program) : Prop :=
  ∀ a, from_server (api_server server a) (serving a p).

Lemma from_server_inner srv accepted s : from_server srv s → from_server srv (serve_inner accepted s).
Proof using Type.
  intros [E Hs]. destruct accepted as [cnx|]; [|done]. simpl. rewrite E.
  destruct (accept_stream srv cnx) as [st|] eqn:Est; [|done]. split; [done|].
  intros stream [Hin| ->%list_elem_of_singleton]%elem_of_app; [by apply Hs|by exists cnx].
Qed.
Lemma from_server_close srv i s : from_server srv s → from_server srv (close_stream i s).
Proof using Type.
  intros [E Hs]. split; [done|]. intros stream Hin. apply Hs. simpl in Hin.
  apply (elem_of_submseteq _ (sv_streams s)) in Hin; [done|apply submseteq_delete].
Qed.
Lemma all_accepted_set server a s p :
  all_accepted server p → from_server (api_server server a) s → all_accepted server (set_serving a s p).
Proof using Type. intros Hp Hs b. rewrite serving_set. by case_decide as E; [subst b|apply Hp]. Qed.
Lemma all_accepted_gateway server g p : all_accepted server p → all_accepted server (set_gateway g p).
Proof using Type. intros Hp a. rewrite serving_set_gateway. apply Hp. Qed.

Lemma step_accepts server p e p' : program_step p e p' → all_accepted server p → all_accepted server p'.
Proof using Type.
  intros Hstep Hp. destruct Hstep.
  - by apply all_accepted_set, from_server_inner.
  - by apply all_accepted_set, from_server_inner.
  - destruct answer; try by apply all_accepted_gateway.
    by apply all_accepted_set, from_server_close; [apply all_accepted_gateway|].
  - by apply all_accepted_set, from_server_close.
  - by apply all_accepted_gateway.
Qed.

(** A request without the token. *)
Lemma refused srv authorization r g :
  ¬ authorized (txt <$> srv_token srv) authorization → r ≠ GetSwagger →
  hyper_service srv authorization r g = (g, Ok (mk_HttpResponse UNAUTHORIZED false BodyEmpty)).
Proof using Type.
  intros Ha Hr. unfold hyper_service, serve.
  destruct (validate_authorized (txt <$> srv_token srv) authorization) as [[_ ?]|[-> _]]; [done|].
  by destruct r.
Qed.

Definition api_config (c : Config) (a : Api) : ServerConfig.ServerConfig :=
  match a with ExternalApi => external_api c | InternalApi => internal_api c end.

(** C35: whatever happens to the running program, in whatever order (peers
    connect, requests come, connections close, the gateway scans), a request
    to an API for which a token is configured only ever comes through an
    encrypted connection, and without the token it does nothing and is
    answered with 401, the API documentation excepted. *)
Theorem program_access dotenv env database_path generated s s' c (g : gateway) servers es p :
  entrypoint dotenv env database_path generated s = (s', Ok (c, g, servers)) →
  program_run (run_server g servers) es p →
  ∀ a stream authorization r g1 g2 answer, Requested a stream authorization r g1 g2 answer ∈ es →
  let token := sv_token (api_config c a) in
  (is_Some token → ∃ cnx tls tls_stream, stream = Encrypted tls tls_stream ∧ tls_accept tls cnx = Some tls_stream) ∧
  (r ≠ GetSwagger → ¬ authorized (txt <$> token) authorization →
     g2 = g1 ∧ answer = Ok (mk_HttpResponse UNAUTHORIZED false BodyEmpty)).
Proof using Type.
  intros (Hvalid & w1 & w' & He & Hint)%entrypoint_runs.
  destruct (validated_servers c Hvalid) as [Hvi Hve].
  assert (Hsrv : ∀ a, srv_token (api_server servers a) = sv_token (api_config c a) ∧
    ∀ cnx stream, is_Some (srv_token (api_server servers a)) →
      accept_stream (api_server servers a) cnx = Some stream →
      ∃ tls st, stream = Encrypted tls st ∧ tls_accept tls cnx = Some st).
  { intros [].
    - by destruct (served _ _ _ _ _ _ He Hve) as (_ & ? & _ & ?).
    - by destruct (served _ _ _ _ _ _ Hint Hvi) as (_ & ? & _ & ?). }
  assert (Hq1 : all_accepted servers (run_server g servers)).
  { intros []; (split; [done|]); by intros ? ?%elem_of_nil. }
  revert Hq1. generalize (run_server g servers). clear -Hsrv. intros p0 Hp0 Hrun.
  induction Hrun as [p0|p0 e p1 es p2 Hstep Hrun IH]; intros a stream auth r g1 g2 answer.
  { by intros ?%elem_of_nil. }
  intros [E|Hin]%elem_of_cons; [|apply IH; [by eapply step_accepts|done]].
  subst e. inversion Hstep as [| |a' i st' auth' r' g' ans' Hi Hreq| |]; subst.
  destruct (Hp0 a) as [Es Hst]. destruct (Hsrv a) as [Htok Htls]. rewrite Es in Hreq. split.
  - intros Hsome. destruct (Hst stream) as [cnx Hcnx]; [by eapply list_elem_of_lookup_2|].
    rewrite <-Htok in Hsome. destruct (Htls cnx stream Hsome Hcnx) as (tls & st & Hs). by exists cnx, tls, st.
  - intros Hr Ha. rewrite <-Htok in Ha. rewrite refused in Hreq by done. by injection Hreq as <- <-.
Qed.

(** An error of [accept] is final.  From then on the API that it happened
    to opens no connection on either of its sockets, while the program runs
    on. *)
Theorem accept_failure_is_final a p es p' :
  sv_accepting (serving a p) = false → program_run p es p' →
  sv_accepting (serving a p') = false ∧ sv_streams (serving a p') ⊆+ sv_streams (serving a p).
Proof using Type.
  intros Ha Hrun. revert Ha. induction Hrun as [p|p e p1 es p2 Hstep Hrun IH]; intros Ha; [done|].
  enough (sv_accepting (serving a p1) = false ∧ sv_streams (serving a p1) ⊆+ sv_streams (serving a p)) as [Ha1 Hq1].
  { destruct (IH Ha1) as [? Hq2]. split; [done|]. by etrans. }
  assert (Hclose : ∀ b i q, sv_accepting (serving a q) = false →
    sv_accepting (serving a (set_serving b (close_stream i (serving b q)) q)) = false ∧
    sv_streams (serving a (set_serving b (close_stream i (serving b q)) q)) ⊆+ sv_streams (serving a q)).
  { intros b i q Hq. rewrite serving_set. case_decide as E; [subst b|done]. simpl.
    split; [done|apply submseteq_delete]. }
  destruct Hstep as [b cnx Hb|b Hb|b i st auth r g' answer Hi Hreq|b i|g'].
  - rewrite serving_set. case_decide as E; [subst b; congruence|done].
  - rewrite serving_set. case_decide as E; [by subst b|done].
  - destruct answer; try by rewrite serving_set_gateway.
    destruct (Hclose b i (set_gateway g' p)) as [Hq1 Hq2]; [by rewrite serving_set_gateway|].
    rewrite !serving_set_gateway in *. done.
  - by apply Hclose.
  - by rewrite serving_set_gateway.
Qed.
End serving.
