(* ===== verification/ServingDemo.v ===== *)
(** The program of [StartupDemo] at work: a peer connects to the internal API
    and asks for the invoices without the token. *)
From S2P Require Import Prelude.
From S2P Require Import Invoice.
From S2P Require Import Storage.
From S2P Require Import Text.
From S2P Require Import Bincode.
From S2P Require Import SledDemo.
From S2P Require Import Sqlite.
From S2P Require Import SqliteDemo.
From S2P Require Import Monerod.
From S2P Require Import Demo.
From S2P Require Import SubaddressCache.
From S2P Require Import PaymentGateway.
From S2P Require Import InvoiceText.
From S2P Require Import InvoiceIdApi.
From S2P Require Import Callbacks.
From S2P Require Import Server.
From S2P Require Import ServerAccess.
From S2P Require Import ServerDemo.
From S2P Require Import ServerConfig.
From S2P Require Import ServerConfigDemo.
From S2P Require Import Startup.
From S2P Require Import StartupDemo.
From S2P Require Import Serving.

#[local] Instance serving_client : MonerodClient (H:=DemoMonero) nat unit :=
  DemoClient (mk_DemoWorld 0 (λ _, []) [] 12 None).
Notation DemoSqliteError := (AcceptXmrError unit SqliteStorageError SqliteStorageError
  SqliteStorageError SqliteStorageError).
#[local] Instance serving_web : WebCrates DemoSqliteError := demo_web DemoSqliteError.

Notation demo_start_all :=
  (entrypoint (F:=DemoFiles) (FsError:=unit) (N:=list (Z * Z)) (NetError:=unit) id demo_env demo_path
    demo_generated (FileText "file", mk_World ∅ [])).
Notation DemoStarted := (outcome Exit (Config * DemoSqliteGateway * AcceptXmrServer (N:=list (Z * Z)))).

(** The internal API has a token and TLS. *)
Definition internal_secured (r : DemoStarted) : bool :=
  match r with
  | Ok (c, _, servers) =>
      bool_decide (is_Some (sv_token (internal_api c))) && bool_decide (is_Some (srv_tls (internal servers)))
  | _ => false
  end.
Lemma demo_secured : internal_secured demo_start_all.2 = true.
Proof. by vm_compute. Qed.
Lemma internal_secured_spec r :
  internal_secured r = true → ∃ c g servers token tls, r = Ok (c, g, servers) ∧
    sv_token (internal_api c) = Some token ∧ srv_tls (internal servers) = Some tls.
Proof.
  unfold internal_secured. destruct r as [[[c g] servers]|e| |]; try done.
  intros [[token Ht]%bool_decide_eq_true [tls Htls]%bool_decide_eq_true]%andb_prop.
  by exists c, g, servers, token, tls.
Qed.

Notation no_token := (mk_HttpResponse 401 false BodyEmpty).

(** The peer that speaks TLS (the connection [true]) is answered with 401, and
    the gateway is as it was. *)
Lemma program_access_witness :
  ∃ s' c (g : DemoSqliteGateway) servers stream g' answer p,
    demo_start_all = (s', Ok (c, g, servers)) ∧
    program_run (CW:=bool) (run_server g servers)
      [Accepted InternalApi true; Requested InternalApi stream None GetInvoiceIds g g' answer] p ∧
    g' = g ∧ answer = Ok no_token.
Proof.
  destruct (internal_secured_spec _ demo_secured) as (c & g & servers & token & tls & E & Htok & Htls).
  set (srv := internal servers) in *.
  destruct (hyper_service (CW:=bool) srv None GetInvoiceIds g) as [g' answer] eqn:Ereq.
  set (stream := Encrypted tls (true : @TlsStream DemoTlsCrates _ _ DemoSockets) : Stream (N:=list (Z * Z))).
  assert (Hrun : ∃ p, program_run (CW:=bool) (run_server g servers)
    [Accepted InternalApi true; Requested InternalApi stream None GetInvoiceIds g g' answer] p).
  { set (p0 := run_server g servers).
    set (p1 := set_serving InternalApi (serve_inner (Some (true : @TcpStream DemoTlsCrates _ _ DemoSockets)) (serving InternalApi p0)) p0).
    assert (Hp1 : serving InternalApi p1 = mk_Serving srv true [stream]).
    { cbn. fold srv. unfold accept_stream. by rewrite Htls. }
    eexists. apply (run_step _ _ p1); [by apply step_accepted|]. eapply run_step; [|apply run_nothing].
    refine (step_requested p1 InternalApi 0 stream None GetInvoiceIds g' answer _ _); by rewrite Hp1. }
  destruct Hrun as [p Hrun].
  assert (Estart : demo_start_all = (demo_start_all.1, Ok (c, g, servers))).
  { rewrite <-E. by destruct demo_start_all. }
  exists demo_start_all.1, c, g, servers, stream, g', answer, p. split; [exact Estart|]. split; [exact Hrun|].
  destruct (program_access (CW:=bool) _ _ _ _ _ _ _ _ _ _ _ Estart Hrun InternalApi stream None GetInvoiceIds g g' answer)
    as [_ Hrefused]; [right; left|].
  apply Hrefused; [done|]. intros Ha. cbn in Ha. rewrite Htok in Ha. by specialize (Ha _ eq_refl).
Defined.

(** After an error of [accept] the external API serves nobody new. *)
Lemma accept_failure_is_final_witness :
  ∃ s' c (g : DemoSqliteGateway) servers es p, demo_start_all = (s', Ok (c, g, servers)) ∧
    program_run (CW:=bool) (run_server g servers) (AcceptFailed ExternalApi :: es) p ∧
    sv_accepting (serving ExternalApi p) = false ∧ sv_streams (serving ExternalApi p) = [].
Proof.
  destruct (internal_secured_spec _ demo_secured) as (c & g & servers & _ & _ & E & _).
  exists demo_start_all.1, c, g, servers, [Other].
  set (p0 := run_server g servers).
  set (p1 := set_serving ExternalApi (serve_inner None (serving ExternalApi p0)) p0).
  assert (Hrun : program_run (CW:=bool) p1 [Other] (set_gateway g p1)).
  { eapply run_step; [by apply step_other|apply run_nothing]. }
  exists (set_gateway g p1). split_and!.
  - rewrite <-E. by destruct demo_start_all.
  - eapply run_step; [by apply step_accept_failed|exact Hrun].
  - exact (proj1 (accept_failure_is_final ExternalApi p1 [Other] _ eq_refl Hrun)).
  - pose proof (proj2 (accept_failure_is_final ExternalApi p1 [Other] _ eq_refl Hrun)) as Hs.
    by apply submseteq_nil_r in Hs.
Defined.
